(* ===== verification/_CoqProject ===== *)
-Q . S2P
Prelude.v
Text.v
Common.v
Metrics.v
Payout.v
Calibrate.v
MintCeiling.v
Twap.v
Anomaly.v
Validator.v
Redis.v
RateLimiter.v
SessionStore.v
RandomX.v
NodeServer.v
NodeCoordinator.v
NodeMain.v
Oracle.v
Postgres.v
Onchain.v
Service.v
Total.v
Journey.v
Wallet.v
Admin.v
SignIn.v
AdminCli.v
Startup.v
Router.v
Interleave.v
Concurrent.v
Main.v
Testing.v
UnitTests.v
ServiceTests.v
StoreTests.v
PostgresTests.v
NodeTests.v
IntegrationTests.v
