(* ===== verification/Prelude.v ===== *)
(** * Primora backend: a verification development

    Primora is a mining backend. A client opens a session with a commitment, submits
    proofs of work, and ends the session by revealing its nonce; the service prices
    the work by the mean of the oracle prices sampled with its proofs, has a quorum of
    nodes attest it, checks the daily mint ceiling and queues a signed mint proposal; an
    operator takes the proposal through the chain's MiningContract. This library
    models the Rust crates under src/crates and proves what they promise.

    ** The files and the code they model

    Layered from the values up; a file requires the ones it calls.

    - Prelude: outcomes, the state and error monad [M] and its inversion tactic
      [minv], [leaves] (what a call leaves alone), [stable] (what it preserves),
      [raises] and [yields] (what it can answer), machine integers in both build
      modes ([arith_u] wraps in [Release] and panics in [Debug], [sat_u] saturates,
      [try_from], [as_u]), decimal text and its round trips, and the classes of the
      error traits ([Display], [StdError], [From], and [Telling]: an error that wraps
      another says so).
    - Text: the [str] methods the parsers use, and text put together with separators.
    - Common: common/src/lib.rs, the shared types.
    - Metrics: metrics/src/lib.rs, the collectors and their registration.
    - Payout: payout-calculator/src/lib.rs, 128-bit scaled arithmetic.
    - Calibrate: payout-calculator/examples/calibrate.rs.
    - MintCeiling: mint-ceiling/src/lib.rs.
    - Twap: twap-calculator/src/lib.rs.
    - Anomaly: anomaly-engine/src/lib.rs.
    - Validator: proof-validator/src/lib.rs, the trait as a class of validators.
    - Redis: the interface of the server (class [RedisServer]) with the documented
      laws of the commands the stores send, and an in-memory server that has them.
    - RateLimiter: rate-limiter/src/lib.rs over that interface.
    - SessionStore: session-manager/src/lib.rs over that interface; JSON, hashing and
      identifiers are the class [SessionCodec].
    - RandomX: randomx-verifier/src/lib.rs and examples/gen_proof.rs.
    - NodeServer: node-server/src/lib.rs, a node's gRPC service.
    - NodeCoordinator: node-coordinator/src/lib.rs and grpc.rs, the quorum.
    - NodeMain: node-server/src/main.rs, a node's process.
    - Oracle: oracle-reader/src/lib.rs.
    - Postgres: postgres-store/src/lib.rs and its migrations, tables as lists of rows.
    - Onchain: onchain-client/src/lib.rs over the class [Rpc].
    - Service: verification-service/src/lib.rs, the session lifecycle.
    - Wallet: the same file's read endpoints.
    - Admin: verification-service/src/admin.rs.
    - SignIn: the message a wallet signs for a nonce response, read back by admin.rs.
    - AdminCli: admin-cli/src/main.rs.
    - Startup: verification-service/src/main.rs, the environment.
    - Router: the router of verification-service/src/lib.rs, and the system as a step
      relation: a request, a command of the operator, or a change outside the program.
    - Interleave: tasks as threads and schedules; sign-ins with one nonce and proofs of
      one session at the same time.
    - Concurrent: the handlers that settle or change a session as threads, and any
      requests served at the same time.
    - Main: [main] of verification-service/src/main.rs and [serve], from the
      environment to the requests.
    - Total: what it takes for a call to return (total correctness of the monad [M],
      and the store and limiter calls with a server that is up).
    - Journey: the handlers of a session one after another, as its client sees them.
    - Testing: the harness of Rust's test modules, a test as a program that asserts.
    - UnitTests (the pure crates, RandomX, the oracle reader and the metrics),
      StoreTests (session-manager, rate-limiter), PostgresTests, ServiceTests
      (verification-service, admin-cli, onchain-client), NodeTests (node-server with
      tests/randomx_attestation.rs, node-coordinator) and IntegrationTests
      (integration-tests/tests): the tests of the crates, by their names.

    ** State, errors and time

    A component's stateful code is a function in [M W E A]: from a world [W] to an
    outcome ([Ok], [Err] with the component's error type, or [Panic]) and the world
    reached; an error keeps the changes made before it, as in the code. The handlers
    run over [Service.App], whose fields are the stores, the network, the TWAP map,
    the caches, the anomaly queue, the metrics and the admin nonces; a call on a part
    is [zoom]. The part of the Rust [AppState] that never changes is
    [Service.AppState]. The handlers are sequential functions. Concurrent gives the
    ones that share state across a call as threads of atomic accesses, equal to those
    functions when run alone (Concurrent.served_alone), and interleaves them in any
    order; Router composes the functions into the system's steps.

    Code outside src/ is a class: its operations are fields and its documented
    behaviour the laws (or separate law classes, as [Admin.AdminLaws]). Each has an
    instance at the end of the file that declares or uses it, with which the witnesses
    run by computation. Wall-clock time is a function of the number of readings
    taken; [Instant::now] is a function of the network's world. A server command may
    fail before or after its effect.

    ** What the theorems show

    - Money: the settlement pipeline is the specification's formula, exact in both
      build modes for realistic inputs (Payout); a session is minted at most once, to
      its own wallet, within the daily ceiling, for the payout of its own calculator and
      with the attestation of exactly the proofs that Redis returned for it
      (Service.mint_safety, where [Service.revealed] and [Service.attested] spell out the
      calls of the end of a session and the worlds between them); the ceiling's
      arithmetic (MintCeiling); what happens to a session whose end fails, or whose
      proposal cannot be stored (Service); the estimate is the settlement formula at what
      it read of the contracts and oracles (Wallet); the session price is the plain mean
      of the samples (Twap); an operator's proposal is the queue's row, unchanged
      (AdminCli).
    - Attestation: a quorum is distinct registered signers over the very proofs, and a
      node signs only work it has verified; enough honest nodes suffice; the nodes
      are chosen deterministically and without repetition (NodeCoordinator,
      NodeServer, RandomX).
    - Sessions: lifetime, commit and reveal, the order of proofs, the derived hashrate
      and its bounds, listing, pausing, deletion (SessionStore); every handler's
      answers branch by branch (Service).
    - The system: what holds in every state that requests, operator commands and
      outside changes reach, that every row of a run was minted by an end of its own
      session in it, and which requests each route answers with which status (Router); that a
      session settles at most once and no unbacked row appears however the accesses of
      concurrent requests are interleaved (Concurrent); and that a process serves only
      when it was configured and prepared completely, serves exactly the requests that
      arrive, and then keeps both (Main).
    - Protection: the rate limiter is an abstract fixed-window counter, what it lets
      through over any time, and what a lost expiry does (RateLimiter); the levels of the anomaly engine (Anomaly); the validators'
      verdicts (Validator); owner checks (Service); alerts that do not depend on the
      anti-cheat findings, and reads that change no money (Wallet).
    - The admin console: single-use nonces over any sequence of operations, sign-in,
      tokens and the guard, which fails closed (Admin); at most one of concurrent
      sign-ins with a nonce succeeds (Interleave); the message of a nonce response is
      read back, so that an administrator can sign in (SignIn).
    - Liveness: a client that keeps the rules (a commitment first, proofs in the window,
      its nonce at the end) is paid what the specification says, with the boost of its
      wallet's stake, where the servers are up, a quorum is to be had and the ceiling has
      room (Journey.honest_session_paid; its conditions are [Journey.payable]).
    - The crates' own tests: every one passes of the model, in both builds, so that the
      definitions agree with the program on every input its authors wrote down
      (UnitTests, StoreTests, PostgresTests, ServiceTests, NodeTests,
      IntegrationTests); those of the RandomX verifier, of the node's attestation, of the
      live oracle feeds and of the HTTP endpoints for whatever hashes, prices and states,
      from the documented behaviour of the libraries alone, and those of the coordinator for
      any keys of different addresses.
    - Data: the life of a proposal's row and the reports (Postgres), prices and their
      conversion (Oracle, Twap), nonces and retries of a submission, caches
      (Onchain), the configuration and its lists, printed and read back (Startup), a
      node's process (NodeMain), the calibration (Calibrate), and that what the proof
      generator prints is accepted (RandomX).

    ** Fuel and bounds

    Recursion is structural except for the loops over a SCAN cursor (session count
    and listing), which take fuel: a run that exhausts it gives [None], which the
    handlers turn into a panic; SessionStore.listing_sound proves that where the
    server's cursors have a decreasing rank, any fuel above the first rank suffices.
    Retries are bounded by the source's own constants. Integers are [Z] with the
    type's range explicit in each operation.

    ** Not modelled

    The drivers behind the connections, the text of the migrations beyond the columns
    they define, the codecs and the path matching of axum, tracing and the log level,
    the task that logs anomaly events, panics of other tasks (a poisoned lock), and the
    contracts (another language). The read endpoints are one step of a schedule. The
    test of the serde names of a chain (common) is not modelled: serde writes them.
    Dates are unbounded integers of nanoseconds, so the panics of [chrono] beyond its
    range are not modelled. Where the source iterates over a HashMap the order is the
    model map's. *)
From Stdlib Require Export Ascii.
From stdpp Require Export base tactics numbers pretty strings gmap.
From stdpp Require Export list.
#[global] Open Scope string_scope.
#[global] Open Scope list_scope.
#[global] Open Scope Z_scope.

(** ** Fixed-width integers

    A Rust integer is a [Z]; the type's range is explicit in the operations. *)
Abbreviation U8_MAX := 255%Z (only parsing).
Abbreviation U32_MAX := 4294967295%Z (only parsing).
Abbreviation U64_MAX := 18446744073709551615%Z (only parsing).
Abbreviation I64_MAX := 9223372036854775807%Z (only parsing).
Abbreviation I64_MIN := (-9223372036854775808)%Z (only parsing).
Abbreviation U128_MAX := 340282366920938463463374607431768211455%Z (only parsing).
Abbreviation U256_MAX := 115792089237316195423570985008687907853269984665640564039457584007913129639935%Z (only parsing).

(** Cargo builds with overflow checks ([Debug], an overflow panics) or without
    them ([Release], the default of the release profile: an overflow wraps). *)
Inductive build := Debug | Release.

(** [z] fits the closed range [lo .. hi]. *)
Definition fits (lo hi z : Z) : bool := (lo <=? z) && (z <=? hi).

(** The Rust operators [+], [-] and [*] on an unsigned type of maximum [hi],
    given the exact result [z]: [None] is a panic. *)
Definition arith_u (b : build) (hi z : Z) : option Z :=
  if fits 0 hi z then Some z
  else match b with Debug => None | Release => Some (z mod (hi + 1)) end.

(** The same operators on a signed type of range [lo .. hi] (two's complement). *)
Definition arith_i (b : build) (lo hi z : Z) : option Z :=
  if fits lo hi z then Some z
  else match b with
       | Debug => None
       | Release => Some ((z - lo) mod (hi - lo + 1) + lo)
       end.

(** [checked_*]: [None] is the value [None], not a panic. *)
Definition checked_u (hi z : Z) : option Z := if fits 0 hi z then Some z else None.

(** [saturating_*] on an unsigned type. *)
Definition sat_u (hi z : Z) : Z := Z.min hi (Z.max 0 z).

(** [as u32], [as u64], ...: truncation to the unsigned type of maximum [hi]. *)
Definition as_u (hi z : Z) : Z := z mod (hi + 1).

(** [TryFrom]: the value when it fits. *)
Definition try_from (lo hi z : Z) : option Z := if fits lo hi z then Some z else None.

(** ** Outcomes and the state monad of the handlers *)

(** What a call yields: a value, an error value of its [Result], or a panic. *)
Inductive outcome (E A : Type) := Ok (a : A) | Err (e : E) | Panic.
Arguments Ok {E A} a.
Arguments Err {E A} e.
Arguments Panic {E A}.

(** Stateful code over a world [W] whose [Result] has error type [E]. The state
    reached is kept on every outcome: an early return does not roll back. *)
Definition M (W E A : Type) : Type := W → outcome E A * W.

#[export] Instance M_ret W E : MRet (M W E) := λ A a w, (Ok a, w).
#[export] Instance M_bind W E : MBind (M W E) := λ A B f m w,
  match m w with
  | (Ok a, w') => f a w'
  | (Err e, w') => (Err e, w')
  | (Panic, w') => (Panic, w')
  end.

Definition fail {W E A} (e : E) : M W E A := λ w, (Err e, w).
Definition panic {W E A} : M W E A := λ w, (Panic, w).
Definition gets {W E A} (f : W → A) : M W E A := λ w, (Ok (f w), w).
Definition modify {W E} (f : W → W) : M W E unit := λ w, (Ok tt, f w).

(** [match e { Ok(_) => .., Err(_) => .. }] on a call's [Result]. *)
Definition attempt {W E E' A} (m : M W E A) : M W E' (E + A) := λ w,
  match m w with
  | (Ok a, w') => (Ok (inr a), w')
  | (Err e, w') => (Ok (inl e), w')
  | (Panic, w') => (Panic, w')
  end.

(** [map_err] (and the [From] conversion of the [?] operator). *)
Definition map_err {W E E' A} (f : E → E') (m : M W E A) : M W E' A := λ w,
  match m w with
  | (Ok a, w') => (Ok a, w')
  | (Err e, w') => (Err (f e), w')
  | (Panic, w') => (Panic, w')
  end.

(** A call on a part [V] of the world. *)
Definition zoom {V W E A} (get : W → V) (set : V → W → W) (m : M V E A) : M W E A :=
  λ w, let r := m (get w) in (r.1, set r.2 w).

(** Arithmetic that may panic. *)
Definition lift_arith {W E A} (o : option A) : M W E A :=
  match o with Some a => mret a | None => panic end.

(** [ok_or(e)?]. *)
Definition ok_or {W E A} (o : option A) (e : E) : M W E A :=
  match o with Some a => mret a | None => fail e end.

(** ** Decimal text of unsigned integers: [to_string] and [parse] *)
Definition digit_value (c : Ascii.ascii) : option Z :=
  let n := Z.of_nat (Ascii.nat_of_ascii c) in
  if (48 <=? n) && (n <=? 57) then Some (n - 48) else None.

Fixpoint parse_digits (acc : Z) (s : string) : option Z :=
  match s with
  | EmptyString => Some acc
  | String c s' =>
      match digit_value c with
      | Some d => parse_digits (10 * acc + d) s'
      | None => None
      end
  end.

(** [str::parse] for an unsigned type of maximum [hi]: an optional [+], at least
    one digit, and a value that fits. *)
Definition parse_u (hi : Z) (s : string) : option Z :=
  let body := match s with String "+"%char s' => s' | _ => s end in
  match body with
  | EmptyString => None
  | _ => z ← parse_digits 0 body; if fits 0 hi z then Some z else None
  end.

(** [str::parse] for a signed type of range [lo .. hi]. *)
Definition parse_i (lo hi : Z) (s : string) : option Z :=
  match s with
  | String "-"%char EmptyString => None
  | String "-"%char s' => z ← parse_digits 0 s'; if fits lo hi (- z) then Some (- z) else None
  | _ => parse_u hi s
  end.

(** [to_string] of an integer. *)
Definition show (z : Z) : string := pretty z.

(** ** Errors as text: [Display], [Error::source] and [From] *)
Class Display (A : Type) := display : A → string.
#[export] Instance string_display : Display string := λ s, s.
(** The text of the error behind an error, where there is one. *)
Class StdError (E : Type) := source : E → option string.
Class From (A B : Type) := from : A → B.
(** An error that wraps another ends with what that one says. *)
Class Telling (E : Type) `{!Display E, !StdError E} :=
  telling (e : E) (c : string) : source e = Some c → ∃ p, display e = p +:+ c.
Ltac telling_tac := intros e c; destruct e; cbn; intros [= <-]; eexists; reflexivity.

(** A result that needs no world, and a call of a dependency, as steps. *)
Definition of_sum {W E A} (r : E + A) : M W E A := match r with inl e => fail e | inr a => mret a end.
Definition of_call {W E A} (c : W → (E + A) * W) : M W E A := λ w,
  let '(r, w') := c w in (match r with inl e => Err e | inr a => Ok a end, w').

(** ** Lemmas *)

Create HintDb prm discriminated.
Create Rewrite HintDb prm_rw.

Lemma fits_spec lo hi z : fits lo hi z = true ↔ lo ≤ z ≤ hi.
Proof. unfold fits. rewrite andb_true_iff, !Z.leb_le. lia. Qed.

Lemma fits_false lo hi z : fits lo hi z = false ↔ ¬ (lo ≤ z ≤ hi).
Proof. rewrite <-fits_spec. by destruct (fits lo hi z). Qed.

Lemma arith_u_fits b hi z : 0 ≤ z ≤ hi → arith_u b hi z = Some z.
Proof. intros H. unfold arith_u. by rewrite (proj2 (fits_spec 0 hi z) H). Qed.

Lemma arith_u_range b hi z r : 0 ≤ hi → arith_u b hi z = Some r → 0 ≤ r ≤ hi.
Proof.
  unfold arith_u. intros Hhi. destruct (fits 0 hi z) eqn:E.
  - intros [= <-]. by apply fits_spec.
  - destruct b; [done|]. intros [= <-].
    pose proof (Z.mod_pos_bound z (hi + 1)). lia.
Qed.

Lemma arith_u_debug hi z r : arith_u Debug hi z = Some r → r = z ∧ 0 ≤ z ≤ hi.
Proof.
  unfold arith_u. destruct (fits 0 hi z) eqn:E; [|done].
  intros [= <-]. split; [done|]. by apply fits_spec.
Qed.

Lemma arith_u_release hi z : arith_u Release hi z ≠ None.
Proof. unfold arith_u. by destruct (fits 0 hi z). Qed.

Lemma sat_u_id hi z : 0 ≤ z ≤ hi → sat_u hi z = z.
Proof. unfold sat_u. lia. Qed.

Lemma sat_u_range hi z : 0 ≤ hi → 0 ≤ sat_u hi z ≤ hi.
Proof. unfold sat_u. lia. Qed.

Lemma sat_u_le hi z : 0 ≤ z → sat_u hi z ≤ z.
Proof. unfold sat_u. lia. Qed.

Lemma sat_u_mono hi x y : x ≤ y → sat_u hi x ≤ sat_u hi y.
Proof. unfold sat_u. lia. Qed.

Lemma try_from_Some lo hi z r : try_from lo hi z = Some r ↔ r = z ∧ lo ≤ z ≤ hi.
Proof.
  unfold try_from. destruct (fits lo hi z) eqn:E.
  - apply fits_spec in E. naive_solver.
  - apply fits_false in E. naive_solver.
Qed.

#[export] Hint Resolve arith_u_fits sat_u_id sat_u_range : prm.

(** Division lemmas. *)
Lemma div_le_mono_r x y k : 0 ≤ x ≤ y → 0 < k → 0 ≤ x / k ≤ y / k.
Proof. intros. split; [apply Z.div_pos; lia | apply Z.div_le_mono; lia]. Qed.

Lemma div_le_self x k : 0 ≤ x → 0 < k → 0 ≤ x / k ≤ x.
Proof. intros. split; [apply Z.div_pos; lia | apply Z.div_le_upper_bound; nia]. Qed.

(** *** Inversion of the monad *)
Section monad.
  Context {W E : Type}.

Lemma bind_ok {A B} (m : M W E A) (f : A → M W E B) w b w' :
    (m ≫= f) w = (Ok b, w') ↔ ∃ a w1, m w = (Ok a, w1) ∧ f a w1 = (Ok b, w').
Proof.
    unfold mbind, M_bind. destruct (m w) as [[a|e|] w1]; split; intros H; try done.
    - eauto.
    - destruct H as (a' & w2 & [= <- <-] & H). done.
    - by destruct H as (? & ? & ? & ?).
    - by destruct H as (? & ? & ? & ?).
Qed.

Lemma bind_ok_l {A B} (m : M W E A) (f : A → M W E B) w a w1 :
    m w = (Ok a, w1) → (m ≫= f) w = f a w1.
Proof. unfold mbind, M_bind. by intros ->. Qed.

Lemma bind_err_l {A B} (m : M W E A) (f : A → M W E B) w e w1 :
    m w = (Err e, w1) → (m ≫= f) w = (Err e, w1).
Proof. unfold mbind, M_bind. by intros ->. Qed.

Lemma bind_panic_l {A B} (m : M W E A) (f : A → M W E B) w w1 :
    m w = (Panic, w1) → (m ≫= f) w = (Panic, w1).
Proof. unfold mbind, M_bind. by intros ->. Qed.

Lemma ret_ok {A} (a b : A) (w w' : W) :
    (mret a : M W E A) w = (Ok b, w') ↔ a = b ∧ w = w'.
Proof. unfold mret, M_ret. naive_solver. Qed.

Lemma fail_ok {A} (e : E) (b : A) (w w' : W) : (fail e : M W E A) w = (Ok b, w') ↔ False.
Proof. unfold fail. naive_solver. Qed.

Lemma panic_ok {A} (b : A) (w w' : W) : (panic : M W E A) w = (Ok b, w') ↔ False.
Proof. unfold panic. naive_solver. Qed.

Lemma gets_ok {A} (f : W → A) b (w w' : W) :
    (gets f : M W E A) w = (Ok b, w') ↔ f w = b ∧ w = w'.
Proof. unfold gets. naive_solver. Qed.

Lemma modify_ok (f : W → W) (u : unit) (w w' : W) :
    (modify f : M W E unit) w = (Ok u, w') ↔ f w = w'.
Proof. unfold modify. destruct u. naive_solver. Qed.

Lemma ok_or_ok {A} (o : option A) (e : E) b (w w' : W) :
    (ok_or o e : M W E A) w = (Ok b, w') ↔ o = Some b ∧ w = w'.
Proof. destruct o; cbn; [rewrite ret_ok | rewrite fail_ok]; naive_solver. Qed.

Lemma lift_arith_ok {A} (o : option A) b (w w' : W) :
    (lift_arith o : M W E A) w = (Ok b, w') ↔ o = Some b ∧ w = w'.
Proof. destruct o; cbn; [rewrite ret_ok | rewrite panic_ok]; naive_solver. Qed.
End monad.

Lemma map_err_ok {W E E' A} (f : E → E') (m : M W E A) b w w' :
  map_err f m w = (Ok b, w') ↔ m w = (Ok b, w').
Proof. unfold map_err. destruct (m w) as [[a|e|] w1]; naive_solver. Qed.

Lemma attempt_ok {W E E' A} (m : M W E A) r w w' :
  (attempt m : M W E' (E + A)) w = (Ok r, w') ↔
    (∃ a, r = inr a ∧ m w = (Ok a, w')) ∨ (∃ e, r = inl e ∧ m w = (Err e, w')).
Proof. unfold attempt. destruct (m w) as [[a|e|] w1]; naive_solver. Qed.

Lemma zoom_ok {V W E A} (get : W → V) (set : V → W → W) (m : M V E A) b w w' :
  zoom get set m w = (Ok b, w') ↔ ∃ v, m (get w) = (Ok b, v) ∧ w' = set v w.
Proof. unfold zoom. destruct (m (get w)) as [[a|e|] v1]; naive_solver. Qed.

Lemma of_sum_ok {W E A} (r : E + A) a (w w' : W) : of_sum r w = (Ok a, w') ↔ r = inr a ∧ w = w'.
Proof. destruct r as [e|a']; cbn; (split; [by intros [= <- <-]|by intros [[= <-] <-]]). Qed.

(** *** What a call leaves alone *)
Definition leaves {W V E A} (get : W → V) (m : M W E A) : Prop := ∀ w, get (m w).2 = get w.

Section leaves.
Context {W V : Type} (get : W → V).

Lemma leaves_ret {E A} (a : A) : leaves get (mret a : M W E A).
Proof. done. Qed.
Lemma leaves_fail {E A} (e : E) : leaves get (fail e : M W E A).
Proof. done. Qed.
Lemma leaves_gets {E A} (f : W → A) : leaves get (gets f : M W E A).
Proof. done. Qed.
Lemma leaves_ok_or {E A} (o : option A) (e : E) : leaves get (ok_or o e : M W E A).
Proof. by destruct o. Qed.
Lemma leaves_lift {E A} (o : option A) : leaves get (lift_arith o : M W E A).
Proof. by destruct o. Qed.
Lemma leaves_bind {E A B} (m : M W E A) (f : A → M W E B) :
  leaves get m → (∀ a, leaves get (f a)) → leaves get (m ≫= f).
Proof.
  intros Hm Hf w. specialize (Hm w). unfold mbind, M_bind.
  destruct (m w) as [[a|e|] w1]; cbn in *; [|done|done]. by rewrite Hf.
Qed.
Lemma leaves_map_err {E E' A} (f : E → E') (m : M W E A) : leaves get m → leaves get (map_err f m).
Proof. intros Hm w. specialize (Hm w). unfold map_err. by destruct (m w) as [[a|e|] w1]. Qed.
Lemma leaves_attempt {E E' A} (m : M W E A) :
  leaves get m → leaves get (attempt m : M W E' (E + A)).
Proof. intros Hm w. specialize (Hm w). unfold attempt. by destruct (m w) as [[a|e|] w1]. Qed.
Lemma leaves_zoom {U E A} (g : W → U) (set : U → W → W) (m : M U E A) :
  (∀ v w, get (set v w) = get w) → leaves get (zoom g set m).
Proof. intros Hs w. apply Hs. Qed.
Lemma leaves_modify {E} (f : W → W) :
  (∀ w, get (f w) = get w) → leaves get (modify f : M W E unit).
Proof. intros Hf w. apply Hf. Qed.

(** A first part that leaves [get] alone either ends the run or hands it over; a
    last part that does adds nothing. *)
Lemma leaves_prefix {E A B} (m : M W E A) (f : A → M W E B) w :
  leaves get m →
  (get ((m ≫= f) w).2 = get w ∧ ∀ r, ((m ≫= f) w).1 ≠ Ok r) ∨
  ∃ a w1, m w = (Ok a, w1) ∧ get w1 = get w ∧ (m ≫= f) w = f a w1.
Proof.
  intros Hm. specialize (Hm w). unfold mbind, M_bind.
  destruct (m w) as [[a|e|] w1]; cbn in *; [right; by exists a, w1|left; by split..].
Qed.
Lemma leaves_suffix {E A B} (m : M W E A) (f : A → M W E B) w :
  (∀ a, leaves get (f a)) → get ((m ≫= f) w).2 = get (m w).2.
Proof. intros Hf. unfold mbind, M_bind. destruct (m w) as [[a|e|] w1]; cbn; [apply Hf|done..]. Qed.
End leaves.

(** *** What a call preserves *)
Definition stable {W E A} (P : W → Prop) (m : M W E A) : Prop := ∀ w, P w → P (m w).2.

Section stable.
Context {W : Type} (P : W → Prop).

Lemma stable_leaves {V E A} (get : W → V) (Q : V → Prop) (m : M W E A) :
  (∀ w, P w ↔ Q (get w)) → leaves get m → stable P m.
Proof. intros HP Hm w Hw. apply HP. rewrite (Hm w). by apply HP. Qed.
Lemma stable_ret {E A} (a : A) : stable P (mret a : M W E A).
Proof. by intros w. Qed.
Lemma stable_fail {E A} (e : E) : stable P (fail e : M W E A).
Proof. by intros w. Qed.
Lemma stable_gets {E A} (f : W → A) : stable P (gets f : M W E A).
Proof. by intros w. Qed.
Lemma stable_ok_or {E A} (o : option A) (e : E) : stable P (ok_or o e : M W E A).
Proof. destruct o; by intros w. Qed.
Lemma stable_lift {E A} (o : option A) : stable P (lift_arith o : M W E A).
Proof. destruct o; by intros w. Qed.
Lemma stable_modify {E} (f : W → W) : (∀ w, P w → P (f w)) → stable P (modify f : M W E unit).
Proof. intros Hf w. apply Hf. Qed.
Lemma stable_bind {E A B} (m : M W E A) (f : A → M W E B) :
  stable P m → (∀ a, stable P (f a)) → stable P (m ≫= f).
Proof.
  intros Hm Hf w Hw. specialize (Hm w Hw). unfold mbind, M_bind.
  destruct (m w) as [[a|e|] w1]; cbn in *; [by apply Hf|done|done].
Qed.
Lemma stable_map_err {E E' A} (f : E → E') (m : M W E A) : stable P m → stable P (map_err f m).
Proof. intros Hm w Hw. specialize (Hm w Hw). unfold map_err. by destruct (m w) as [[a|e|] w1]. Qed.
Lemma stable_attempt {E E' A} (m : M W E A) : stable P m → stable P (attempt m : M W E' (E + A)).
Proof. intros Hm w Hw. specialize (Hm w Hw). unfold attempt. by destruct (m w) as [[a|e|] w1]. Qed.
Lemma stable_zoom {V E A} (Q : V → Prop) (g : W → V) (set : V → W → W) (m : M V E A) :
  (∀ w, P w → Q (g w)) → (∀ v w, P w → Q v → P (set v w)) → stable Q m → stable P (zoom g set m).
Proof. intros Hg Hs Hm w Hw. apply Hs; [done|]. by apply Hm, Hg. Qed.
End stable.

(** *** What a call can answer: its errors and its values *)
Definition raises {W E A} (P : E → Prop) (m : M W E A) : Prop := ∀ w e, (m w).1 = Err e → P e.
Definition yields {W E A} (P : A → Prop) (m : M W E A) : Prop := ∀ w a, (m w).1 = Ok a → P a.

Section answers.
Context {W E : Type} (P : E → Prop).

Lemma raises_ret {A} (a : A) : raises P (mret a : M W E A).
Proof. by intros w e. Qed.
Lemma raises_fail {A} (e : E) : P e → raises P (fail e : M W E A).
Proof. by intros He w e' [= <-]. Qed.
Lemma raises_gets {A} (f : W → A) : raises P (gets f : M W E A).
Proof. by intros w e. Qed.
Lemma raises_modify (f : W → W) : raises P (modify f : M W E unit).
Proof. by intros w e. Qed.
Lemma raises_ok_or {A} (o : option A) (e : E) : P e → raises P (ok_or o e : M W E A).
Proof. intros He. destruct o; [by intros w e'|by apply raises_fail]. Qed.
Lemma raises_lift {A} (o : option A) : raises P (lift_arith o : M W E A).
Proof. destruct o; by intros w e. Qed.
Lemma raises_bind {A B} (m : M W E A) (f : A → M W E B) :
  raises P m → (∀ a, raises P (f a)) → raises P (m ≫= f).
Proof.
  intros Hm Hf w e. specialize (Hm w e). unfold mbind, M_bind.
  destruct (m w) as [[a|e'|] w1]; [apply Hf|naive_solver..].
Qed.
Lemma raises_map_err {E' A} (f : E' → E) (m : M W E' A) : (∀ e, P (f e)) → raises P (map_err f m).
Proof. intros Hf w e. unfold map_err. destruct (m w) as [[a|e'|] w1]; cbn; [done|by intros [= <-]|done]. Qed.
Lemma raises_attempt {E' A} (m : M W E' A) : raises P (attempt m : M W E (E' + A)).
Proof. intros w e. unfold attempt. by destruct (m w) as [[a|e'|] w1]. Qed.
Lemma raises_none {A} (m : M W E A) : (∀ w e, (m w).1 ≠ Err e) → raises P m.
Proof. intros Hm w e He. by destruct (Hm w e). Qed.

Lemma yields_ret {A} (Q : A → Prop) a : Q a → yields Q (mret a : M W E A).
Proof. by intros Ha w a' [= <-]. Qed.
Lemma yields_fail {A} (Q : A → Prop) e : yields Q (fail e : M W E A).
Proof. by intros w a. Qed.
Lemma yields_bind {A B} (Q : B → Prop) (m : M W E A) (f : A → M W E B) :
  (∀ a, yields Q (f a)) → yields Q (m ≫= f).
Proof. intros Hf w b. unfold mbind, M_bind. destruct (m w) as [[a|e'|] w1]; [apply Hf|done..]. Qed.
End answers.

Ltac raises_tac :=
  repeat match goal with
  | |- raises _ (mbind _ _) => apply raises_bind; [|intros ?]
  | |- raises _ (mret _) => apply raises_ret
  | |- raises _ (fail _) => apply raises_fail; solve [auto]
  | |- raises _ (gets _) => apply raises_gets
  | |- raises _ (modify _) => apply raises_modify
  | |- raises _ (ok_or _ _) => apply raises_ok_or; solve [auto]
  | |- raises _ (lift_arith _) => apply raises_lift
  | |- raises _ (map_err _ _) => apply raises_map_err; intros ?; solve [auto]
  | |- raises _ (attempt _) => apply raises_attempt
  | |- raises _ (match ?x with _ => _ end) => destruct x
  | |- raises _ _ => solve [auto]
  end.

(** Inverts a run that ended in [Ok], step by step; [minv_hook] is extended by
    the files that define further primitives. *)
Ltac minv_hook H := fail.
Ltac minv_step H :=
  first
    [ minv_hook H
    | rewrite bind_ok in H; let a := fresh "a" in let w := fresh "w" in
      let H1 := fresh "Hm" in destruct H as (a & w & H1 & H); minv_step H1
    | rewrite ret_ok in H; let H1 := fresh "Hr" in destruct H as [H1 <-]
    | apply fail_ok in H; destruct H
    | apply panic_ok in H; destruct H
    | rewrite gets_ok in H; let H1 := fresh "Hg" in destruct H as [H1 <-]
    | rewrite modify_ok in H
    | rewrite ok_or_ok in H; let H1 := fresh "Ho" in destruct H as [H1 <-]
    | rewrite lift_arith_ok in H; let H1 := fresh "Ha" in destruct H as [H1 <-]
    | rewrite map_err_ok in H; minv_step H
    | idtac ].
Ltac minv H := repeat progress (minv_step H).

(** *** Decimal round trip *)
Lemma digit_value_pretty x :
  0 ≤ x < 10 → digit_value (pretty_N_char (Z.to_N x)) = Some x.
Proof.
  intros Hx.
  assert (x = 0 ∨ x = 1 ∨ x = 2 ∨ x = 3 ∨ x = 4 ∨ x = 5 ∨ x = 6 ∨ x = 7 ∨ x = 8 ∨ x = 9)
    as Hc by lia.
  by repeat destruct Hc as [->|Hc]; [..|subst x].
Qed.

Lemma parse_digits_pretty_go (n : N) : ∀ s,
  parse_digits 0 (pretty_N_go n s) = parse_digits (Z.of_N n) s.
Proof.
  induction (N.lt_wf_0 n) as [n _ IH]; intros s.
  destruct (decide (0 < n)%N) as [Hn|Hn].
  - rewrite pretty_N_go_step by done. rewrite IH by (apply N.div_lt; lia).
    cbn [parse_digits].
    rewrite <-(N2Z.id (n `mod` 10)), N2Z.inj_mod.
    rewrite digit_value_pretty by (apply Z.mod_pos_bound; lia).
    f_equal. rewrite N2Z.inj_div. pose proof (Z.div_mod (Z.of_N n) 10). lia.
  - assert (n = 0%N) as -> by lia. by rewrite pretty_N_go_0.
Qed.

Lemma parse_digits_pretty_N (n : N) : parse_digits 0 (pretty n) = Some (Z.of_N n).
Proof.
  unfold pretty, pretty_N. case_decide as Hn; [by subst|]. apply parse_digits_pretty_go.
Qed.

Lemma pretty_N_nonempty (n : N) : (pretty n : string) ≠ "".
Proof.
  intros H. destruct (decide (n = 0%N)) as [->|Hn]; [done|].
  apply Hn. apply (inj (pretty (A:=N))). pose proof (parse_digits_pretty_N n) as Hp.
  rewrite H in Hp. cbn in Hp. injection Hp as Hp. by destruct n.
Qed.

Lemma show_nonneg z : 0 ≤ z → show z = pretty (Z.to_N z).
Proof. intros Hz. unfold show. by destruct z. Qed.

Lemma parse_u_digits hi s z :
  s ≠ "" → parse_digits 0 s = Some z → 0 ≤ z ≤ hi → parse_u hi s = Some z.
Proof.
  intros Hne Hp Hz. assert (fits 0 hi z = true) as Hf by by apply fits_spec.
  destruct s as [|c s']; [done|]. unfold parse_u.
  destruct c as [[] [] [] [] [] [] [] []];
    try (rewrite Hp; cbn; by rewrite Hf); discriminate Hp.
Qed.

(** Printing an unsigned integer and parsing it back. *)
Lemma parse_u_show hi z : 0 ≤ z ≤ hi → parse_u hi (show z) = Some z.
Proof.
  intros Hz. rewrite show_nonneg by lia.
  apply parse_u_digits; [apply pretty_N_nonempty | | done].
  rewrite parse_digits_pretty_N. f_equal. lia.
Qed.

Lemma parse_u_range hi s z : parse_u hi s = Some z → 0 ≤ z ≤ hi.
Proof.
  unfold parse_u. intros H.
  assert (∀ s' : string, (z0 ← parse_digits 0 s'; if fits 0 hi z0 then Some z0 else None) = Some z
                 → 0 ≤ z ≤ hi) as Haux.
  { intros s'. destruct (parse_digits 0 s') as [z0|]; cbn; [|done].
    destruct (fits 0 hi z0) eqn:Hf; [|done]. intros [= <-]. by apply fits_spec. }
  destruct s as [|c s']; [done|].
  destruct c as [[] [] [] [] [] [] [] []]; first [by apply (Haux _ H) |
    destruct s'; [done | by apply (Haux _ H)]].
Qed.

(** What parses as a printed integer is that integer. *)
Lemma parse_u_mono hi hi' s z : hi ≤ hi' → parse_u hi s = Some z → parse_u hi' s = Some z.
Proof.
  intros Hle. unfold parse_u.
  assert (∀ s' : string, (z0 ← parse_digits 0 s'; if fits 0 hi z0 then Some z0 else None) = Some z →
    (z0 ← parse_digits 0 s'; if fits 0 hi' z0 then Some z0 else None) = Some z) as Haux.
  { intros s'. destruct (parse_digits 0 s') as [z0|]; cbn; [|done].
    destruct (fits 0 hi z0) eqn:Hf; [|done]. apply fits_spec in Hf.
    by rewrite (proj2 (fits_spec 0 hi' z0)) by lia. }
  destruct s as [|c s']; [done|].
  destruct c as [[] [] [] [] [] [] [] []]; intros H;
    first [exact (Haux _ H) | destruct s' as [|c s']; [done | exact (Haux _ H)]].
Qed.

Lemma parse_u_show_inv hi z m : parse_u hi (show z) = Some m → m = z ∧ 0 ≤ z ≤ hi.
Proof.
  intros H. pose proof (parse_u_range _ _ _ H) as Hm.
  destruct (decide (0 ≤ z)) as [Hz|Hz].
  2:{ destruct z as [|p|p]; [lia..|]. assert (parse_u hi (show (Z.neg p)) = None) by reflexivity. congruence. }
  pose proof (parse_u_mono hi (Z.max hi z) _ _ ltac:(lia) H) as H'.
  rewrite parse_u_show in H' by lia. injection H' as ->. done.
Qed.

(** Printing a signed integer and parsing it back. *)
Lemma parse_i_show lo hi z : lo ≤ 0 ≤ hi → lo ≤ z ≤ hi → parse_i lo hi (show z) = Some z.
Proof.
  intros H0 Hz. destruct (decide (0 ≤ z)) as [Hp|Hn].
  - assert (parse_digits 0 (show z) = Some z) as Hd.
    { rewrite show_nonneg, parse_digits_pretty_N by done. f_equal. lia. }
    pose proof (parse_u_show hi z ltac:(lia)) as Hu. unfold parse_i.
    destruct (show z) as [|c s']; [done|].
    destruct c as [[] [] [] [] [] [] [] []]; try done.
  - destruct z as [|p|p]; [lia|lia|]. unfold show, pretty, pretty_Z, parse_i.
    change ("-" +:+ pretty p) with (String "-" (pretty (N.pos p))).
    destruct (pretty (N.pos p) : string) as [|c s'] eqn:E;
      [by destruct (pretty_N_nonempty (N.pos p))|].
    rewrite <-E, parse_digits_pretty_N. cbn [mbind option_bind].
    rewrite (proj2 (fits_spec lo hi (- Z.of_N (N.pos p)))) by lia. done.
Qed.

#[export] Hint Resolve parse_u_show parse_i_show : prm.
