(* ===== verification/Text.v ===== *)
(** * The methods of [str] that the parsers use

    Text is a string of UTF-8 bytes. [split], [split_once], [strip_prefix],
    [strip_suffix], [lines] and [trim] of the Rust standard library, with the
    lemmas that invert text put together with separators. *)
From S2P Require Import Prelude.

(** [s] has no character [c]. *)
Fixpoint lacks (c : ascii) (s : string) : bool :=
  match s with "" => true | String x s => negb (Ascii.eqb x c) && lacks c s end.

(** [str::split] on a character. *)
Fixpoint split (sep : ascii) (s : string) : list string :=
  match s with
  | "" => [""]
  | String x s =>
      if Ascii.eqb x sep then "" :: split sep s
      else match split sep s with [] => [] | l :: ls => String x l :: ls end
  end.

(** [str::split_once] on a character. *)
Fixpoint split_once (sep : ascii) (s : string) : option (string * string) :=
  match s with
  | "" => None
  | String x s =>
      if Ascii.eqb x sep then Some ("", s)
      else '(l, r) ← split_once sep s; Some (String x l, r)
  end.

Fixpoint str_strip_prefix (prefix s : string) : option string :=
  match prefix, s with
  | "", _ => Some s
  | String x p, String y s => if Ascii.eqb x y then str_strip_prefix p s else None
  | _, _ => None
  end.

Fixpoint str_strip_suffix (suffix s : string) : option string :=
  if String.eqb s suffix then Some ""
  else match s with "" => None | String x s => String x <$> str_strip_suffix suffix s end.

Definition LF : ascii := "010"%char.
Definition CR : ascii := "013"%char.

(** [str::lines]: the text between line feeds, without the carriage return that
    precedes one; no empty line after the last feed. *)
Fixpoint lines (s : string) : list string :=
  match s with
  | "" => []
  | String x s' =>
      if Ascii.eqb x LF then "" :: lines s'
      else if Ascii.eqb x CR && (match s' with String y _ => Ascii.eqb y LF | "" => false end) then lines s'
      else match lines s' with [] => [String x ""] | l :: ls => String x l :: ls end
  end.

(** The characters of the [White_Space] property, in UTF-8. *)
Definition utf8 (l : list nat) : string := foldr (λ n s, String (ascii_of_nat n) s) "" l.
Definition WHITE_SPACE : list string :=
  utf8 <$> ([ [9]; [10]; [11]; [12]; [13]; [32]; [194; 133]; [194; 160]; [225; 154; 128] ] ++
    ((λ n, [226; 128; n]) <$> seq 128 11) ++
    [ [226; 128; 168]; [226; 128; 169]; [226; 128; 175]; [226; 129; 159]; [227; 128; 128] ])%nat.

(** Removes the leading occurrences of the patterns [ps], [n] at most. *)
Fixpoint strip_all (ps : list string) (n : nat) (s : string) : string :=
  match n with
  | O => s
  | S n => match head (omap (λ p, str_strip_prefix p s) ps) with Some s' => strip_all ps n s' | None => s end
  end.
Definition trim_start (s : string) : string := strip_all WHITE_SPACE (String.length s) s.
Definition trim_end (s : string) : string :=
  String.rev (strip_all (String.rev <$> WHITE_SPACE) (String.length s) (String.rev s)).
Definition trim (s : string) : string := trim_end (trim_start s).
(** [trim_start_matches]. *)
Definition trim_start_matches (p s : string) : string := strip_all [p] (String.length s) s.

(** [split(sep)], [map(str::trim)] and the filter of empty entries. *)
Definition entries (sep : ascii) (raw : string) : list string :=
  filter (λ e, e ≠ "") (trim <$> split sep raw).

Example lines_ex : lines (utf8 [97; 13; 10; 10; 98; 13; 10]%nat) = ["a"; ""; "b"].
Proof. reflexivity. Qed.
Example trim_ex : trim (utf8 [194; 160; 32; 97; 32; 98; 226; 128; 131; 9]%nat) = "a b".
Proof. reflexivity. Qed.
Example entries_ex : entries "," " a , ,b=c," = ["a"; "b=c"].
Proof. reflexivity. Qed.

(** ** Lemmas *)
#[local] Arguments Ascii.eqb : simpl never.
#[local] Arguments String.eqb : simpl never.
#[local] Arguments String.append : simpl nomatch.
Lemma string_app_cons x s t : String x s +:+ t = String x (s +:+ t).
Proof. done. Qed.
Lemma lacks_app c s t : lacks c (s +:+ t) = lacks c s && lacks c t.
Proof. induction s as [|x s IH]; [done|]. rewrite string_app_cons. cbn [lacks]. by rewrite IH, andb_assoc. Qed.

Lemma split_once_app sep l r : lacks sep l = true → split_once sep (l +:+ String sep r) = Some (l, r).
Proof.
  induction l as [|x l IH]; [cbn; by rewrite Ascii.eqb_refl|]. rewrite string_app_cons. cbn.
  destruct (Ascii.eqb x sep); [done|]. cbn. intros ->%IH. done.
Qed.
Lemma split_once_inv sep s l r : split_once sep s = Some (l, r) → s = l +:+ String sep r ∧ lacks sep l = true.
Proof.
  revert l. induction s as [|x s IH]; intros l; [done|]. cbn.
  destruct (Ascii.eqb_spec x sep) as [->|Hne]; [by intros [= <- <-]|].
  destruct (split_once sep s) as [[l' r']|]; [|done]. cbn. intros [= <- <-].
  destruct (IH _ eq_refl) as [-> Hl]. cbn. by rewrite (proj2 (Ascii.eqb_neq x sep) Hne), Hl.
Qed.

Lemma strip_suffix_inv suffix : ∀ s r, str_strip_suffix suffix s = Some r → s = r +:+ suffix.
Proof.
  induction s as [|x s IH]; intros r; cbn; [by destruct (String.eqb_spec "" suffix) as [<-|]; [intros [= <-]|]|].
  destruct (String.eqb_spec (String x s) suffix) as [<-|]; [by intros [= <-]|].
  destruct (str_strip_suffix suffix s) as [r'|]; [|done]. cbn. intros [= <-]. by rewrite (IH r' eq_refl).
Qed.
Lemma strip_prefix_app p s : str_strip_prefix p (p +:+ s) = Some s.
Proof. induction p as [|x p IH]; [done|]. cbn. by rewrite Ascii.eqb_refl. Qed.
Lemma strip_prefix_inv p s r : str_strip_prefix p s = Some r → s = p +:+ r.
Proof.
  revert s. induction p as [|x p IH]; intros s; cbn; [by intros [= ->]|].
  destruct s as [|y s]; [done|]. destruct (Ascii.eqb_spec x y) as [->|]; [|done]. intros H%IH. by subst s.
Qed.

Lemma string_length_app s t : String.length (s +:+ t) = (String.length s + String.length t)%nat.
Proof. induction s as [|x s IH]; [done|]. cbn. by rewrite IH. Qed.
Lemma strip_suffix_app s p : str_strip_suffix p (s +:+ p) = Some s.
Proof.
  induction s as [|x s IH]; cbn [String.append].
  - destruct p; cbn -[String.eqb]; [done|]. by rewrite String.eqb_refl.
  - cbn -[String.eqb]. destruct (String.eqb_spec (String x (s +:+ p)) p) as [He|]; [|by rewrite IH].
    apply (f_equal String.length) in He. cbn in He. rewrite string_length_app in He. lia.
Qed.

(** A line, its feed, and the rest. *)
Lemma lines_cons l s :
  lacks LF l = true → lacks CR l = true → lines (l +:+ String LF s) = l :: lines s.
Proof.
  induction l as [|x l IH]; [done|]. cbn -[LF CR]. intros [Hx Hl]%andb_true_iff [Hx' Hl']%andb_true_iff.
  apply negb_true_iff in Hx, Hx'. rewrite Hx, Hx'. cbn -[LF CR]. by rewrite IH.
Qed.
Lemma lines_last l : l ≠ "" → lacks LF l = true → lacks CR l = true → lines l = [l].
Proof.
  induction l as [|x l IH]; [done|]. cbn -[LF CR]. intros _ [Hx Hl]%andb_true_iff [Hx' Hl']%andb_true_iff.
  apply negb_true_iff in Hx, Hx'. rewrite Hx, Hx'. cbn -[LF CR].
  destruct l as [|y l]; [done|]. by rewrite IH.
Qed.

(** *** Text put together with separators *)
Fixpoint join (sep : ascii) (l : list string) : string :=
  match l with
  | [] => ""
  | x :: l => match l with [] => x | _ :: _ => x +:+ String sep (join sep l) end
  end.
(** One line of text. *)
Definition one_line (s : string) : bool := lacks LF s && lacks CR s.

Lemma one_line_app s t : one_line (s +:+ t) = one_line s && one_line t.
Proof. unfold one_line. rewrite !lacks_app. destruct (lacks LF s), (lacks CR s), (lacks LF t), (lacks CR t); done. Qed.

Lemma lines_join l :
  Forall (λ s, one_line s = true) l → last l ≠ Some "" → lines (join LF l) = l.
Proof.
  induction l as [|x l IH]; [done|]. intros [[Hf Hr]%andb_true_iff Hl]%Forall_cons Hlast. cbn [join].
  destruct l as [|y l]; [apply lines_last; [naive_solver|done..]|]. rewrite lines_cons by done. f_equal. by apply IH.
Qed.

Lemma split_last sep s : lacks sep s = true → split sep s = [s].
Proof.
  induction s as [|x s IH]; [done|]. cbn. intros [Hx Hs]%andb_true_iff. apply negb_true_iff in Hx. rewrite Hx.
  by rewrite IH.
Qed.
Lemma split_cons sep s t : lacks sep s = true → split sep (s +:+ String sep t) = s :: split sep t.
Proof.
  induction s as [|x s IH]; [intros _; cbn; by rewrite Ascii.eqb_refl|]. rewrite string_app_cons. cbn.
  intros [Hx Hs]%andb_true_iff. apply negb_true_iff in Hx. rewrite Hx. by rewrite IH.
Qed.
Lemma split_join sep l : l ≠ [] → Forall (λ s, lacks sep s = true) l → split sep (join sep l) = l.
Proof.
  induction l as [|x l IH]; [done|]. intros _ [Hx Hl]%Forall_cons. cbn [join].
  destruct l as [|y l]; [by apply split_last|]. rewrite split_cons by done. f_equal. by apply IH.
Qed.

Lemma trim_space s : trim (String " " s) = trim s.
Proof. reflexivity. Qed.

(** Entries that are trimmed and not empty are read back. *)
Lemma entries_join sep l :
  Forall (λ s, lacks sep s = true ∧ trim s = s ∧ s ≠ "") l → entries sep (join sep l) = l.
Proof.
  intros Hl. unfold entries. destruct (decide (l = [])) as [->|Hne]; [reflexivity|].
  rewrite split_join; [|done|by eapply Forall_impl; [exact Hl|naive_solver]].
  clear Hne. induction Hl as [|s l (Hs & Ht & Hn) Hl IH]; [done|]. rewrite fmap_cons, filter_cons, Ht, IH.
  by rewrite decide_True.
Qed.
(** *** Text of visible ASCII characters is trimmed *)
Definition ink (c : ascii) : bool := (33 <=? nat_of_ascii c)%nat && (nat_of_ascii c <=? 126)%nat.
Fixpoint inked (s : string) : bool := match s with "" => true | String c s => ink c && inked s end.

Lemma rev_app_inked s : ∀ t, inked (String.rev_app s t) = inked s && inked t.
Proof.
  induction s as [|c s IH]; intros t; [done|]. cbn. rewrite IH. cbn.
  destruct (ink c), (inked s), (inked t); done.
Qed.
Lemma rev_app_rev_app s : ∀ t u, String.rev_app (String.rev_app s t) u = String.rev_app t (s +:+ u).
Proof. induction s as [|c s IH]; intros t u; [done|]. cbn. by rewrite IH. Qed.
Lemma append_nil s : s +:+ "" = s.
Proof. induction s as [|c s IH]; [done|]. rewrite string_app_cons. by rewrite IH. Qed.
Lemma rev_rev s : String.rev (String.rev s) = s.
Proof. unfold String.rev. rewrite rev_app_rev_app. apply append_nil. Qed.

Definition blank_start (p : string) : bool := match p with "" => false | String c _ => negb (ink c) end.
Lemma strip_all_inked ps n s : forallb blank_start ps = true → inked s = true → strip_all ps n s = s.
Proof.
  intros Hps Hs. destruct n as [|n]; [done|]. cbn [strip_all].
  assert (omap (λ p, str_strip_prefix p s) ps = []) as ->; [|done].
  induction ps as [|p ps IH]; [done|]. cbn in Hps. apply andb_true_iff in Hps as [Hp Hps]. cbn.
  destruct p as [|x p]; [done|]. destruct s as [|c s]; [by apply IH|]. cbn in Hp, Hs |- *.
  destruct (Ascii.eqb_spec x c) as [->|_]; [by destruct (ink c)|by apply IH].
Qed.
Lemma trim_inked s : inked s = true → trim s = s.
Proof.
  intros Hs. unfold trim, trim_start, trim_end. rewrite (strip_all_inked WHITE_SPACE) by done.
  rewrite strip_all_inked; [apply rev_rev|done|]. unfold String.rev. by rewrite rev_app_inked, Hs.
Qed.
Lemma inked_lacks c s : ink c = false → inked s = true → lacks c s = true.
Proof.
  intros Hc. induction s as [|x s IH]; [done|]. cbn. intros [Hx Hs]%andb_true_iff. rewrite IH by done.
  destruct (Ascii.eqb_spec x c) as [->|]; [congruence|done].
Qed.
Lemma inked_one_line s : inked s = true → one_line s = true.
Proof. intros Hs. unfold one_line. by rewrite !inked_lacks. Qed.
Lemma digits_inked s : ∀ acc z, parse_digits acc s = Some z → inked s = true.
Proof.
  induction s as [|c s IH]; intros acc z; [done|]. cbn. destruct (digit_value c) eqn:Ed; [|done].
  intros ->%IH. rewrite andb_true_r. revert Ed. clear. destruct c as [[] [] [] [] [] [] [] []]; vm_compute; congruence.
Qed.
Lemma inked_app s t : inked (s +:+ t) = inked s && inked t.
Proof. induction s as [|c s IH]; [done|]. rewrite string_app_cons. cbn. by rewrite IH, andb_assoc. Qed.
Lemma show_inked z : 0 ≤ z → inked (show z) = true.
Proof. intros Hz. rewrite show_nonneg by done. eapply digits_inked, parse_digits_pretty_N. Qed.
