(* ===== verification/Common.v ===== *)
(** * crates/common/src/lib.rs: the types every crate shares

    One inductive type per enum and one record per struct, with the source's
    variants and fields, the [Chain] conversions, and the two predicates the
    crate defines on its types. *)
From S2P Require Import Prelude.

(** ** Types of the standard library and of the dependencies *)

(** Bytes ([u8], [\[u8; 32\]], [Vec<u8>]): values in 0 .. 255. *)
Abbreviation bytes := (list Z).
(** [alloy_primitives::Address]: 160 bits. *)
Abbreviation Address := Z.
(** [DateTime<Utc>]: nanoseconds since the Unix epoch. *)
Abbreviation DateTime := Z.
(** [IpAddr], as its text. *)
Abbreviation IpAddr := string.

Definition NANOS_PER_SEC : Z := 1000000000.

(** [Duration::num_seconds] of a difference of instants: whole seconds, rounded
    toward zero. *)
Definition num_seconds (d : Z) : Z := Z.quot d NANOS_PER_SEC.

(** [DateTime::timestamp]: whole seconds, rounded down. *)
Definition timestamp (t : DateTime) : Z := t / NANOS_PER_SEC.

(** [alloy_primitives::Signature]. *)
Record Signature := mkSignature { sig_r : Z; sig_s : Z; sig_y_parity : bool }.
#[export] Instance Signature_eq : EqDecision Signature.
Proof. solve_decision. Defined.

(** Providers of [alloy]: the URL, a connection to it, one that signs with a key, and
    the address of a key. A connection is lazy: it cannot fail. *)
Class Providers (Url P Key : Type) := {
  parse_url : string → option Url;
  connect_http : Url → P;
  connect_wallet : Url → Key → P;
  key_address : Key → Address
}.

(** ** The crate's types *)
Inductive ValidationMode := PreFilter | Full.
#[export] Instance ValidationMode_eq : EqDecision ValidationMode.
Proof. solve_decision. Defined.

Inductive InvalidReason :=
  | MalformedProof
  | HashMismatch
  | TimingAnomaly
  | HashrateImpossible
  | DuplicateSession
  | ProofDeficit
  | StaleProof
  | InvalidSignature
  | Other (msg : string).
#[export] Instance InvalidReason_eq : EqDecision InvalidReason.
Proof. solve_decision. Defined.

Inductive SuspicionLevel := Low | Medium | High.
#[export] Instance SuspicionLevel_eq : EqDecision SuspicionLevel.
Proof. solve_decision. Defined.

Inductive ValidationResult :=
  | Valid
  | Invalid (reason : InvalidReason)
  | Suspicious (level : SuspicionLevel).
#[export] Instance ValidationResult_eq : EqDecision ValidationResult.
Proof. solve_decision. Defined.

Inductive ClientType := Browser | Desktop | Cli.
#[export] Instance ClientType_eq : EqDecision ClientType.
Proof. solve_decision. Defined.

Inductive Commodity := Gold | Platinum | Silver | CrudeOil.
#[export] Instance Commodity_eq : EqDecision Commodity.
Proof. solve_decision. Defined.

Inductive Chain := Ethereum | Polygon.
#[export] Instance Chain_eq : EqDecision Chain.
Proof. solve_decision. Defined.

Definition chain_id (c : Chain) : Z :=
  match c with Ethereum => 1 | Polygon => 137 end.

Definition from_chain_id (id : Z) : option Chain :=
  if id =? 1 then Some Ethereum
  else if id =? 137 then Some Polygon
  else None.

Definition chain_as_str (c : Chain) : string :=
  match c with Ethereum => "ethereum" | Polygon => "polygon" end.

Definition from_str_id (s : string) : option Chain :=
  if String.eqb s "ethereum" then Some Ethereum
  else if String.eqb s "polygon" then Some Polygon
  else None.

Definition is_canonical (c : Chain) : bool :=
  match c with Ethereum => true | Polygon => false end.

Definition all_chains : list Chain := [Ethereum; Polygon].

Record NodeSite := mkNodeSite {
  site_code : string;
  site_city : string;
  site_country : string
}.
#[export] Instance NodeSite_eq : EqDecision NodeSite.
Proof. solve_decision. Defined.

(** The newtypes [SessionId(String)] and [NodeId(String)]. *)
Abbreviation SessionId := string.
Abbreviation NodeId := string.

Record SessionContext := mkSessionContext {
  ctx_wallet : Address;
  ctx_ip : option IpAddr;
  ctx_client_type : ClientType;
  ctx_active_sessions_count : Z;
  ctx_started_at : DateTime;
  ctx_last_submission_at : option DateTime;
  ctx_assigned_node_id : option NodeId;
  ctx_commodity : Commodity;
  ctx_target_chain : Chain;
  ctx_cpu_threads : Z;
  ctx_assigned_site : option NodeSite
}.
#[export] Instance SessionContext_eq : EqDecision SessionContext.
Proof. solve_decision. Defined.

Record PartialProof := mkPartialProof {
  pp_session_id : SessionId;
  pp_wallet : Address;
  pp_sequence : Z;
  pp_hashrate : Z;
  pp_proof_hash : bytes;
  pp_proof_input : bytes;
  pp_difficulty : Z;
  pp_submitted_at : DateTime;
  pp_signature : option Signature
}.
#[export] Instance PartialProof_eq : EqDecision PartialProof.
Proof. solve_decision. Defined.

Record NodeSignature := mkNodeSignature {
  ns_node_id : NodeId;
  ns_signature : Signature;
  ns_signed_at : DateTime
}.
#[export] Instance NodeSignature_eq : EqDecision NodeSignature.
Proof. solve_decision. Defined.

Record AnomalyEvent := mkAnomalyEvent {
  ae_session_id : SessionId;
  ae_wallet : Address;
  ae_score : Z;
  ae_triggers : list InvalidReason;
  ae_level : SuspicionLevel;
  ae_timestamp : DateTime
}.

Record AttestationResult := mkAttestationResult {
  ar_session_id : SessionId;
  ar_signatures : list NodeSignature;
  ar_node_ids : list NodeId;
  ar_signers : list Address;
  ar_proof_hash : bytes;
  ar_timestamp : DateTime
}.

Inductive ProposalStatus := Pending | ApprovedByMultiSig | Submitted | Confirmed | Rejected.
#[export] Instance ProposalStatus_eq : EqDecision ProposalStatus.
Proof. solve_decision. Defined.

Record MintProposal := mkMintProposal {
  mp_session_id : SessionId;
  mp_wallet : Address;
  mp_gross_prm : Z;
  mp_net_usd_cents : option Z;
  mp_commodity : Commodity;
  mp_chain : Chain;
  mp_attestation : AttestationResult;
  mp_backend_sig : Signature;
  mp_created_at : DateTime;
  mp_status : ProposalStatus
}.

Definition should_trigger_slash_vote (r : ValidationResult) : bool :=
  match r with Suspicious High => true | _ => false end.

Definition is_sufficient (a : AttestationResult) : bool :=
  (3 <=? length (ar_signatures a))%nat.

(** ** The texts of [format!("{:?}", _)] on the derived [Debug] instances *)
Definition commodity_debug (c : Commodity) : string :=
  match c with
  | Gold => "Gold" | Platinum => "Platinum" | Silver => "Silver" | CrudeOil => "CrudeOil"
  end.

Definition client_type_debug (c : ClientType) : string :=
  match c with Browser => "Browser" | Desktop => "Desktop" | Cli => "Cli" end.

Definition level_debug (l : SuspicionLevel) : string :=
  match l with Low => "Low" | Medium => "Medium" | High => "High" end.

Definition status_debug (s : ProposalStatus) : string :=
  match s with
  | Pending => "Pending"
  | ApprovedByMultiSig => "ApprovedByMultiSig"
  | Submitted => "Submitted"
  | Confirmed => "Confirmed"
  | Rejected => "Rejected"
  end.

(** [str::to_ascii_lowercase] (and [to_lowercase] on ASCII text). *)
Definition lower_char (c : ascii) : ascii :=
  let n := nat_of_ascii c in
  if ((65 <=? n) && (n <=? 90))%nat then ascii_of_nat (n + 32) else c.
Fixpoint to_ascii_lowercase (s : string) : string :=
  match s with
  | EmptyString => EmptyString
  | String c s' => String (lower_char c) (to_ascii_lowercase s')
  end.

(** ** Lemmas shared by the components *)
#[export] Instance commodity_debug_inj : Inj (=) (=) commodity_debug.
Proof. by intros [] []. Qed.
#[export] Instance status_debug_inj : Inj (=) (=) status_debug.
Proof. by intros [] []. Qed.
(** [Display] writes the name. *)
#[export] Instance Chain_display : Display Chain := chain_as_str.
#[export] Instance chain_as_str_inj : Inj (=) (=) chain_as_str.
Proof. by intros [] []. Qed.

Lemma from_str_id_as_str c : from_str_id (chain_as_str c) = Some c.
Proof. by destruct c. Qed.

Lemma from_chain_id_chain_id c : from_chain_id (chain_id c) = Some c.
Proof. by destruct c. Qed.

Lemma all_chains_complete c : c ∈ all_chains.
Proof. destruct c; unfold all_chains; set_solver. Qed.

Lemma num_seconds_nonneg d : 0 ≤ d → num_seconds d = d / NANOS_PER_SEC.
Proof. intros. unfold num_seconds. apply Z.quot_div_nonneg; [done | unfold NANOS_PER_SEC; lia]. Qed.

Lemma num_seconds_le d n : 0 < n → (n ≤ num_seconds d ↔ n * NANOS_PER_SEC ≤ d).
Proof.
  intros Hn. destruct (decide (0 ≤ d)) as [Hd|Hd].
  - rewrite num_seconds_nonneg by done. unfold NANOS_PER_SEC. split; intros H.
    + pose proof (Z.mul_div_le d 1000000000). lia.
    + apply Z.div_le_lower_bound; lia.
  - unfold num_seconds, NANOS_PER_SEC. split; intros H; [|lia].
    pose proof (Z.quot_opp_l d 1000000000 ltac:(lia)).
    pose proof (Z.quot_pos (- d) 1000000000). lia.
Qed.

#[export] Hint Rewrite from_str_id_as_str from_chain_id_chain_id : prm_rw.
