(* ===== verification/Metrics.v ===== *)
(** * crates/metrics/src/lib.rs: the collectors, their registration and exposition

    The [prometheus] crate is the class [Prometheus]: construction and registration
    of a collector, gathering, and the text encoder, with the documented rules on
    names and on double registration. The values the handlers change are [Metrics]. *)
From S2P Require Import Prelude Text.

(** What a handler of the service changes: a gauge, and the label values of each
    increment of a counter vector. *)
Record Metrics := mkMetrics {
  m_session_active : Z;
  m_proofs : list (string * string);
  m_anomalies : list (string * string);
  m_proposals : list string
}.

(** A collector as the statics build it. Buckets are in milliseconds. *)
Inductive CollectorKind :=
  | IntCounterVec (labels : list string)
  | HistogramVec (labels : list string) (buckets : list Z)
  | IntGauge.
Record Collector := mkCollector { co_name : string; co_help : string; co_kind : CollectorKind }.

Definition counter_vec (name help : string) (labels : list string) : Collector :=
  mkCollector name help (IntCounterVec labels).
Definition histogram_vec (name help : string) (labels : list string) (buckets : list Z) : Collector :=
  mkCollector name help (HistogramVec labels buckets).
Definition int_gauge (name help : string) : Collector := mkCollector name help IntGauge.

Definition PROOF_SUBMISSIONS_TOTAL : Collector :=
  counter_vec "proof_submissions_total" "Total partial proof submissions by client type and result"
    ["client_type"; "result"].
Definition ANOMALY_EVENTS_TOTAL : Collector :=
  counter_vec "anomaly_events_total" "Total anomaly events by suspicion level and trigger"
    ["suspicion_level"; "trigger"].
Definition ATTESTATION_DURATION_SECONDS : Collector :=
  histogram_vec "attestation_duration_seconds" "Attestation duration from session end to completion in seconds"
    ["status"] [100; 500; 1000; 2000; 5000; 10000; 15000; 30000].
Definition MINT_PROPOSALS_TOTAL : Collector :=
  counter_vec "mint_proposals_total" "Total mint proposals by status" ["status"].
Definition NODE_RESPONSE_TIME_SECONDS : Collector :=
  histogram_vec "node_response_time_seconds" "Node attestation response time in seconds" ["node_id"]
    [10; 50; 100; 500; 1000; 5000; 15000].
Definition SESSION_ACTIVE_COUNT : Collector :=
  int_gauge "session_active_count" "Current number of active mining sessions".
Definition RATE_LIMIT_HITS_TOTAL : Collector :=
  counter_vec "rate_limit_hits_total" "Total rate limit hits by type (wallet, ip, node)" ["limit_type"].
Definition MANUAL_REVIEW_QUEUE_DEPTH : Collector :=
  int_gauge "manual_review_queue_depth" "Current number of sessions in manual review queue".
Definition MINT_CEILING_CURRENT : Collector :=
  int_gauge "mint_ceiling_current" "Current per-block PRM mint ceiling value".

(** ** The documented rules for a collector

    A metric name is letters, digits, [_] and [:], and a label name the same without
    the colon, neither starting with a digit; a help text is not empty, labels do not
    repeat, [le] is a histogram's own, and buckets increase. *)
Definition is_letter (c : ascii) : bool :=
  let n := Z.of_nat (nat_of_ascii c) in fits 65 90 n || fits 97 122 n || (n =? 95).
Definition is_digit (c : ascii) : bool := fits 48 57 (Z.of_nat (nat_of_ascii c)).
Fixpoint all_chars (p : ascii → bool) (s : string) : bool :=
  match s with EmptyString => true | String c s => p c && all_chars p s end.
Definition label_name (s : string) : bool :=
  match s with EmptyString => false | String c s' => is_letter c && all_chars (λ c, is_letter c || is_digit c) s' end.
Definition metric_name (s : string) : bool :=
  match s with
  | EmptyString => false
  | String c s' =>
      (is_letter c || (c =? ":")%char) && all_chars (λ c, is_letter c || is_digit c || (c =? ":")%char) s'
  end.
Fixpoint increasing (l : list Z) : bool :=
  match l with x :: (y :: _) as l' => (x <? y) && increasing l' | _ => true end.
Definition labels_of (k : CollectorKind) : list string :=
  match k with IntCounterVec l | HistogramVec l _ => l | IntGauge => [] end.
Definition well_formed (c : Collector) : bool :=
  metric_name (co_name c) && negb (String.eqb (co_help c) "") &&
  forallb label_name (labels_of (co_kind c)) && bool_decide (NoDup (labels_of (co_kind c))) &&
  match co_kind c with
  | HistogramVec l buckets => bool_decide ("le" ∉ l) && increasing buckets
  | _ => true
  end.

(** ** The [prometheus] crate *)
Inductive PromError := AlreadyReg | PromOther (msg : string).
Class Prometheus (Reg Family : Type) := {
  (** [IntCounterVec::new] and its like: the error, if any *)
  collector_new : Collector → option string;
  collector_new_ok c : well_formed c = true → collector_new c = None;
  (** the names the default registry holds *)
  registered : Reg → list string;
  register : Collector → Reg → (PromError + unit) * Reg;
  register_new c r : co_name c ∉ registered r →
    ∃ r', register c r = (inr tt, r') ∧ registered r' = registered r ++ [co_name c];
  register_again c r : co_name c ∈ registered r → register c r = (inl AlreadyReg, r);
  (** the families of the registered collectors at the collectors' values *)
  gather : Reg → Metrics → list Family;
  encode_utf8 : list Family → string + string
}.

Section metrics.
Context {Reg Family : Type} `{!Prometheus Reg Family}.

(** [prometheus::register(Box::new(X.clone()))?]: the static is built on first use,
    and a failed construction panics. *)
Definition register_static (c : Collector) : M Reg PromError unit :=
  match collector_new c with
  | Some _ => panic
  | None => λ r, let '(o, r') := register c r in (match o with inl e => Err e | inr u => Ok u end, r')
  end.

Definition register_all : M Reg PromError unit :=
  register_static PROOF_SUBMISSIONS_TOTAL ;;
  register_static ANOMALY_EVENTS_TOTAL ;;
  register_static ATTESTATION_DURATION_SECONDS ;;
  register_static MINT_PROPOSALS_TOTAL ;;
  register_static NODE_RESPONSE_TIME_SECONDS ;;
  register_static SESSION_ACTIVE_COUNT ;;
  register_static RATE_LIMIT_HITS_TOTAL ;;
  register_static MANUAL_REVIEW_QUEUE_DEPTH ;;
  register_static MINT_CEILING_CURRENT ;;
  mret tt.

Definition gather_metrics (r : Reg) (values : Metrics) : list Family := gather r values.

(** A failed encoding is logged; the text is then empty. *)
Definition metrics_handler (r : Reg) (values : Metrics) : string :=
  match encode_utf8 (gather_metrics r values) with inr buffer => buffer | inl _ => "" end.

(** ** Registration *)
Definition statics : list Collector :=
  [ PROOF_SUBMISSIONS_TOTAL; ANOMALY_EVENTS_TOTAL; ATTESTATION_DURATION_SECONDS; MINT_PROPOSALS_TOTAL;
    NODE_RESPONSE_TIME_SECONDS; SESSION_ACTIVE_COUNT; RATE_LIMIT_HITS_TOTAL; MANUAL_REVIEW_QUEUE_DEPTH;
    MINT_CEILING_CURRENT ].
Fixpoint register_list (l : list Collector) : M Reg PromError unit :=
  match l with [] => mret tt | c :: l => register_static c ;; register_list l end.

Lemma register_all_list : register_all = register_list statics.
Proof. done. Qed.

Lemma register_static_new c r :
  well_formed c = true → co_name c ∉ registered r →
  ∃ r', register_static c r = (Ok tt, r') ∧ registered r' = registered r ++ [co_name c].
Proof.
  intros Hw Hn. unfold register_static. rewrite collector_new_ok by done.
  destruct (register_new c r Hn) as (r' & Hr & Hreg). rewrite Hr. by exists r'.
Qed.
Lemma register_static_again c r :
  well_formed c = true → co_name c ∈ registered r → register_static c r = (Err AlreadyReg, r).
Proof. intros Hw Hn. unfold register_static. rewrite collector_new_ok by done. by rewrite register_again. Qed.

Lemma register_list_new l : ∀ r,
  Forall (λ c, well_formed c = true ∧ co_name c ∉ registered r) l → NoDup (co_name <$> l) →
  ∃ r', register_list l r = (Ok tt, r') ∧ registered r' = registered r ++ (co_name <$> l).
Proof.
  induction l as [|c l IH]; intros r Hl Hnd; [exists r; by rewrite app_nil_r|].
  apply Forall_cons in Hl as [[Hw Hn] Hl]. apply NoDup_cons in Hnd as [Hc Hnd].
  destruct (register_static_new c r Hw Hn) as (r1 & Hr & Hreg). destruct (IH r1) as (r2 & Hr2 & Hreg2); [|done|].
  - rewrite Forall_forall in Hl. apply Forall_forall. intros c' Hc'. destruct (Hl c' Hc') as [Hw' Hn'].
    split; [done|]. rewrite Hreg. intros [?|Heq%list_elem_of_singleton]%elem_of_app; [done|].
    apply Hc. rewrite <-Heq. by apply list_elem_of_fmap_2.
  - exists r2. cbn [register_list fmap list_fmap]. rewrite (bind_ok_l _ _ _ _ _ Hr). split; [done|].
    by rewrite Hreg2, Hreg, <-app_assoc.
Qed.

(** Whatever the registry held, a registration that succeeds leaves every name in it. *)
Lemma register_list_ok l : ∀ r u r',
  register_list l r = (Ok u, r') → registered r ⊆ registered r' ∧ ∀ c, c ∈ l → co_name c ∈ registered r'.
Proof.
  induction l as [|c l IH]; intros r u r' Hr; cbn [register_list] in Hr.
  { injection Hr as _ <-. split; [done|]. by intros c ?%not_elem_of_nil. }
  minv Hr. apply IH in Hr as [Hsub Hin]. unfold register_static in Hm. destruct (collector_new c); [done|].
  destruct (decide (co_name c ∈ registered r)) as [Hc|Hc]; [by rewrite register_again in Hm|].
  destruct (register_new c r Hc) as (r1 & Hreg & Hnames). rewrite Hreg in Hm. injection Hm as _ <-.
  rewrite Hnames in Hsub. split; [set_solver|]. intros c' [->|Hc']%elem_of_cons; [set_solver|by apply Hin].
Qed.

Lemma statics_well_formed : Forall (λ c, well_formed c = true) statics ∧ NoDup (co_name <$> statics).
Proof. split; [repeat constructor|]. apply (bool_decide_unpack _). vm_compute. exact I. Qed.

(** Registration at startup. Each of the nine collectors has a legal name, help,
    labels and buckets, so building it never panics; in a registry with none of their
    names registration succeeds and registers each of them once; and a second
    registration is refused as a duplicate and changes nothing, so that it must be
    done once. *)
Theorem register_all_once (r : Reg) :
  (∀ c, c ∈ statics → co_name c ∉ registered r) →
  ∃ r', register_all r = (Ok tt, r') ∧ registered r' = registered r ++ (co_name <$> statics) ∧
    length (co_name <$> statics) = 9%nat ∧ register_all r' = (Err AlreadyReg, r').
Proof.
  intros Hn. rewrite register_all_list. destruct statics_well_formed as [Hw Hnd].
  destruct (register_list_new statics r) as (r' & Hr & Hreg); [|done|].
  { rewrite Forall_forall in Hw. apply Forall_forall. auto. }
  exists r'. split_and!; [done..|]. unfold statics at 1. cbn [register_list].
  apply bind_err_l, register_static_again; [done|]. rewrite Hreg. apply elem_of_app. right. apply list_elem_of_here.
Qed.
End metrics.

(** ** A registry and an encoder *)
#[export] Program Instance list_prometheus : Prometheus (list string) string := {|
  collector_new c := if well_formed c then None else Some "invalid descriptor";
  registered r := r;
  register c r := if decide (co_name c ∈ r) then (inl AlreadyReg, r) else (inr tt, r ++ [co_name c]);
  gather r values := (λ n, n +:+ (if String.eqb n "session_active_count" then " " +:+ show (m_session_active values) else "")) <$> r;
  encode_utf8 l := inr (String.concat ";" l)
|}.
Next Obligation. intros c Hc. cbn. by rewrite Hc. Qed.
Next Obligation. intros c r Hn. exists (r ++ [co_name c]). cbn. by rewrite decide_False. Qed.
Next Obligation. intros c r Hn. cbn. by rewrite decide_True. Qed.

Lemma register_all_once_witness :
  (register_all ["process_cpu_seconds_total"]).1 = Ok tt ∧
  (register_all (register_all ["process_cpu_seconds_total"]).2).1 = Err AlreadyReg.
Proof.
  destruct (register_all_once ["process_cpu_seconds_total"]) as (r' & Hr & _ & _ & Hd).
  - intros c Hc Hn. cbn in Hn. apply list_elem_of_singleton in Hn. revert Hn.
    repeat (apply elem_of_cons in Hc as [->|Hc]; [vm_compute; discriminate|]). by apply not_elem_of_nil in Hc.
  - rewrite Hr. split; [reflexivity|]. cbn [snd]. by rewrite Hd.
Defined.
