(* ===== verification/Payout.v ===== *)
(** * crates/payout-calculator/src/lib.rs: the payout formula

    Scaled [u128] arithmetic: gross PRM, USD redemption, house edge and staking
    boost. Every function that multiplies takes the build mode and yields [None]
    where the multiplication panics. *)
From S2P Require Import Prelude Common.

Definition MULTIPLIER_SCALE : Z := 10.
Definition PRICE_COEFFICIENT_SCALE : Z := 1000000000000000.
Definition TWAP_DECIMALS_SCALE : Z := 100000000.
Definition USDC_SCALE : Z := 1000000.
Definition BPS_DENOMINATOR : Z := 10000.
Definition GROSS_CALIB_TO_WEI : Z := 10000000000000.
Definition PRM_REFERENCE_PRICE_8DEC : Z := 10000000.
Definition USD_8DEC_TO_CENTS : Z := 1000000.
Definition PRM : Z := 1000000000000000000.
Definition MAX_BOOST_BPS : Z := 4000.
Definition LOCK_MULT_SCALE : Z := 100.

Definition gross_calib_to_wei (gross_calib : Z) : Z :=
  sat_u U128_MAX (gross_calib * GROSS_CALIB_TO_WEI).

Definition prm_to_usd_cents (b : build) (prm_amount : Z) : option Z :=
  p ← arith_u b U128_MAX (prm_amount * PRM_REFERENCE_PRICE_8DEC);
  Some (p / USD_8DEC_TO_CENTS).

Record PayoutConfig := mkPayoutConfig {
  base_coefficient_scaled : Z;
  price_coefficient_scaled : Z;
  house_edge_bps : Z
}.

Definition default_config : PayoutConfig :=
  {| base_coefficient_scaled := 1000;
     price_coefficient_scaled := 1000;
     house_edge_bps := 1700 |}.

Definition commodity_multiplier (c : Commodity) : Z :=
  match c with Gold => 32 | Platinum => 26 | Silver => 16 | CrudeOil => 10 end.

Definition commodity_difficulty (c : Commodity) : Z :=
  match c with Gold => 40 | Platinum => 32 | Silver => 20 | CrudeOil => 10 end.

Definition calculate_gross_prm (b : build) (hashrate duration_secs : Z)
    (config : PayoutConfig) (commodity : Commodity) : option Z :=
  t ← arith_u b U128_MAX (hashrate * duration_secs);
  numerator ← arith_u b U128_MAX (t * base_coefficient_scaled config);
  Some (numerator / commodity_difficulty commodity).

Definition calculate_redemption_usd (b : build) (gross_prm twap_price : Z)
    (commodity : Commodity) (config : PayoutConfig) : option Z :=
  let multiplier := commodity_multiplier commodity in
  t1 ← arith_u b U128_MAX (gross_prm * twap_price);
  t2 ← arith_u b U128_MAX (t1 * multiplier);
  t3 ← arith_u b U128_MAX (t2 * price_coefficient_scaled config);
  t4 ← arith_u b U128_MAX (t3 * USDC_SCALE);
  Some (t4 / MULTIPLIER_SCALE / PRICE_COEFFICIENT_SCALE / TWAP_DECIMALS_SCALE).

Definition apply_house_edge (b : build) (redemption_usd_scaled edge_bps : Z) : option Z :=
  t ← arith_u b U128_MAX
        (redemption_usd_scaled * sat_u U128_MAX (BPS_DENOMINATOR - edge_bps));
  Some (t / BPS_DENOMINATOR).

Definition apply_staking_boost (b : build) (gross_prm boost_bps : Z) : option Z :=
  f ← arith_u b U128_MAX (BPS_DENOMINATOR + boost_bps);
  t ← arith_u b U128_MAX (gross_prm * f);
  Some (t / BPS_DENOMINATOR).

Definition base_boost_bps (total_staked : Z) : Z :=
  if 500000 * PRM <=? total_staked then 2500
  else if 100000 * PRM <=? total_staked then 1800
  else if 50000 * PRM <=? total_staked then 1000
  else if 10000 * PRM <=? total_staked then 500
  else 0.

Definition lock_multiplier_scaled (lock_period : Z) : Z :=
  if lock_period =? 0 then 100
  else if lock_period =? 1 then 130
  else if lock_period =? 2 then 160
  else 100.

Definition combined_boost_bps (b : build) (ethereum_stake : option (Z * Z))
    (polygon_stake : option Z) : option Z :=
  let ethereum_amount := from_option fst 0 ethereum_stake in
  let polygon_amount := default 0 polygon_stake in
  let total := sat_u U128_MAX (ethereum_amount + polygon_amount) in
  let base := base_boost_bps total in
  let lock_mult := match ethereum_stake with
                   | Some (_, lock_period) => lock_multiplier_scaled lock_period
                   | None => LOCK_MULT_SCALE
                   end in
  t ← arith_u b U32_MAX (base * lock_mult);
  let effective := t / LOCK_MULT_SCALE in
  Some (Z.min effective MAX_BOOST_BPS).

Record PayoutResult := mkPayoutResult {
  pr_gross_prm : Z;
  pr_redemption_usd_scaled : Z;
  pr_net_usdc_scaled : Z;
  pr_house_edge_bps : Z
}.

Definition calculate_payout_from_gross (b : build) (gross_prm twap_price : Z)
    (commodity : Commodity) (config : PayoutConfig) : option PayoutResult :=
  redemption ← calculate_redemption_usd b gross_prm twap_price commodity config;
  net ← apply_house_edge b redemption (house_edge_bps config);
  Some {| pr_gross_prm := gross_prm;
          pr_redemption_usd_scaled := redemption;
          pr_net_usdc_scaled := net;
          pr_house_edge_bps := house_edge_bps config |}.

Definition calculate_payout (b : build) (hashrate duration_secs twap_price : Z)
    (commodity : Commodity) (config : PayoutConfig) : option PayoutResult :=
  gross_prm ← calculate_gross_prm b hashrate duration_secs config commodity;
  calculate_payout_from_gross b gross_prm twap_price commodity config.

(** ** Specification: the formula over unbounded rationals, rounded once

    Spec 4.6 as one quotient of integers. *)
Definition gross_spec (hashrate duration_secs base : Z) (c : Commodity) : Z :=
  hashrate * duration_secs * base / commodity_difficulty c.

Definition redemption_spec (gross twap coeff : Z) (c : Commodity) : Z :=
  gross * twap * commodity_multiplier c * coeff * USDC_SCALE
  / (MULTIPLIER_SCALE * PRICE_COEFFICIENT_SCALE * TWAP_DECIMALS_SCALE).

Definition net_spec (redemption edge : Z) : Z :=
  redemption * (BPS_DENOMINATOR - edge) / BPS_DENOMINATOR.

(** The staking tiers as a table of thresholds (in whole PRM), increasing. *)
Definition boost_tiers : list (Z * Z) :=
  [(10000, 500); (50000, 1000); (100000, 1800); (500000, 2500)].
Definition boost_spec (total : Z) : Z :=
  foldl (λ acc '(threshold, bps), if threshold * PRM <=? total then bps else acc) 0 boost_tiers.

(** ** Lemmas *)
Lemma commodity_difficulty_bounds c : 10 ≤ commodity_difficulty c ≤ 40.
Proof. destruct c; cbn; lia. Qed.

Lemma commodity_multiplier_bounds c : 10 ≤ commodity_multiplier c ≤ 32.
Proof. destruct c; cbn; lia. Qed.

Lemma calculate_gross_prm_exact b h d config c :
  0 ≤ h → 0 ≤ d → 0 ≤ base_coefficient_scaled config →
  h * d ≤ U128_MAX → h * d * base_coefficient_scaled config ≤ U128_MAX →
  calculate_gross_prm b h d config c =
    Some (gross_spec h d (base_coefficient_scaled config) c).
Proof.
  intros. unfold calculate_gross_prm.
  rewrite arith_u_fits by nia. cbn [mbind option_bind].
  rewrite arith_u_fits by nia. done.
Qed.

Lemma calculate_redemption_usd_exact b g t config c :
  0 ≤ g → 0 ≤ t → 0 ≤ price_coefficient_scaled config →
  g * t * commodity_multiplier c * Z.max 1 (price_coefficient_scaled config) * USDC_SCALE ≤ U128_MAX →
  calculate_redemption_usd b g t c config =
    Some (redemption_spec g t (price_coefficient_scaled config) c).
Proof.
  intros Hg Ht Hk Hb. unfold calculate_redemption_usd, redemption_spec.
  pose proof (commodity_multiplier_bounds c) as Hm.
  set (m := commodity_multiplier c) in *. set (k := price_coefficient_scaled config) in *.
  unfold USDC_SCALE in *.
  assert (0 ≤ g * t) by nia. assert (0 ≤ g * t * m) by nia.
  assert (g * t * m ≤ g * t * m * Z.max 1 k) by nia.
  assert (0 ≤ g * t * m * k ≤ g * t * m * Z.max 1 k) by nia.
  rewrite arith_u_fits by nia. cbn [mbind option_bind].
  rewrite arith_u_fits by nia. cbn [mbind option_bind].
  rewrite arith_u_fits by nia. cbn [mbind option_bind].
  rewrite arith_u_fits by nia. cbn [mbind option_bind].
  f_equal. unfold MULTIPLIER_SCALE, PRICE_COEFFICIENT_SCALE, TWAP_DECIMALS_SCALE.
  by rewrite !Z.div_div by lia.
Qed.

Lemma apply_house_edge_exact b r e :
  0 ≤ r → 0 ≤ e ≤ BPS_DENOMINATOR → r * BPS_DENOMINATOR ≤ U128_MAX →
  apply_house_edge b r e = Some (net_spec r e).
Proof.
  unfold apply_house_edge, net_spec, BPS_DENOMINATOR. intros Hr He Hb.
  rewrite (sat_u_id U128_MAX (10000 - e)) by lia.
  rewrite arith_u_fits by nia. done.
Qed.

Lemma net_spec_bounds r e :
  0 ≤ r → 0 ≤ e ≤ BPS_DENOMINATOR → 0 ≤ net_spec r e ≤ r.
Proof.
  unfold net_spec, BPS_DENOMINATOR. intros Hr He. split.
  - apply Z.div_pos; nia.
  - apply Z.div_le_upper_bound; nia.
Qed.

Lemma redemption_spec_nonneg g t k c : 0 ≤ g → 0 ≤ t → 0 ≤ k → 0 ≤ redemption_spec g t k c.
Proof.
  intros. unfold redemption_spec. pose proof (commodity_multiplier_bounds c).
  apply Z.div_pos; [|done]. unfold USDC_SCALE.
  repeat apply Z.mul_nonneg_nonneg; lia.
Qed.

Lemma redemption_spec_mono g g' t t' k c :
  0 ≤ g ≤ g' → 0 ≤ t ≤ t' → 0 ≤ k → redemption_spec g t k c ≤ redemption_spec g' t' k c.
Proof.
  intros. unfold redemption_spec. pose proof (commodity_multiplier_bounds c).
  apply Z.div_le_mono; [done|].
  apply Z.mul_le_mono_nonneg_r; [done|]. apply Z.mul_le_mono_nonneg_r; [done|].
  apply Z.mul_le_mono_nonneg_r; [lia|]. apply Z.mul_le_mono_nonneg; lia.
Qed.

Lemma base_boost_bps_table total : base_boost_bps total = boost_spec total.
Proof.
  unfold base_boost_bps, boost_spec, boost_tiers, PRM; cbn [foldl].
  repeat case_match; try done; lia.
Qed.

Lemma base_boost_bps_cases total :
  base_boost_bps total ∈ [0; 500; 1000; 1800; 2500].
Proof. unfold base_boost_bps. repeat case_match; set_solver. Qed.

Lemma base_boost_bps_range total : 0 ≤ base_boost_bps total ≤ 2500.
Proof. unfold base_boost_bps. repeat case_match; lia. Qed.

Lemma base_boost_bps_mono x y : x ≤ y → base_boost_bps x ≤ base_boost_bps y.
Proof. intros. unfold base_boost_bps, PRM. repeat case_match; lia. Qed.

Lemma lock_multiplier_scaled_range p : 100 ≤ lock_multiplier_scaled p ≤ 160.
Proof. unfold lock_multiplier_scaled. repeat case_match; lia. Qed.

(** The closed form of [combined_boost_bps]: it never panics or wraps. *)
Definition combined_boost_spec (eth : option (Z * Z)) (pol : option Z) : Z :=
  let total := sat_u U128_MAX (from_option fst 0 eth + default 0 pol) in
  let lock_mult := from_option (λ s, lock_multiplier_scaled s.2) LOCK_MULT_SCALE eth in
  Z.min (base_boost_bps total * lock_mult / LOCK_MULT_SCALE) MAX_BOOST_BPS.

Lemma combined_boost_bps_eq b eth pol :
  combined_boost_bps b eth pol = Some (combined_boost_spec eth pol).
Proof.
  unfold combined_boost_bps, combined_boost_spec.
  set (total := sat_u _ _).
  pose proof (base_boost_bps_range total).
  destruct eth as [[a p]|]; cbn [from_option fst snd] in *.
  - pose proof (lock_multiplier_scaled_range p). by rewrite arith_u_fits by nia.
  - by rewrite arith_u_fits by (unfold LOCK_MULT_SCALE; nia).
Qed.

Lemma combined_boost_spec_range eth pol : 0 ≤ combined_boost_spec eth pol ≤ MAX_BOOST_BPS.
Proof.
  unfold combined_boost_spec. set (total := sat_u _ _).
  pose proof (base_boost_bps_range total).
  assert (100 ≤ from_option (λ s : Z * Z, lock_multiplier_scaled s.2) LOCK_MULT_SCALE eth).
  { destruct eth as [[a p]|]; cbn; [apply lock_multiplier_scaled_range | unfold LOCK_MULT_SCALE; lia]. }
  unfold MAX_BOOST_BPS, LOCK_MULT_SCALE in *.
  split; [|lia]. apply Z.min_glb; [|lia]. apply Z.div_pos; nia.
Qed.

Lemma apply_staking_boost_exact b g boost :
  0 ≤ g → 0 ≤ boost ≤ MAX_BOOST_BPS → g * 14000 ≤ U128_MAX →
  apply_staking_boost b g boost = Some (g * (BPS_DENOMINATOR + boost) / BPS_DENOMINATOR).
Proof.
  unfold apply_staking_boost, BPS_DENOMINATOR, MAX_BOOST_BPS. intros.
  rewrite arith_u_fits by lia. cbn [mbind option_bind]. by rewrite arith_u_fits by nia.
Qed.

Lemma boosted_bounds g boost :
  0 ≤ g → 0 ≤ boost ≤ MAX_BOOST_BPS →
  g ≤ g * (BPS_DENOMINATOR + boost) / BPS_DENOMINATOR ≤ g * 14 / 10.
Proof.
  unfold BPS_DENOMINATOR, MAX_BOOST_BPS. intros. split.
  - apply Z.div_le_lower_bound; nia.
  - rewrite <-(Z.div_mul_cancel_r (g * 14) 10 1000) by lia.
    apply Z.div_le_mono; nia.
Qed.

(** The pipeline of a session: the configuration with a live edge, and the ranges of
    its figures for the rates, durations and prices the service meets. *)
Definition edge_config (edge : Z) : PayoutConfig :=
  {| base_coefficient_scaled := 1000; price_coefficient_scaled := 1000; house_edge_bps := edge |}.

Section pipeline.
Context (h d boost : Z) (c : Commodity).
Hypothesis (Hh : 0 ≤ h ≤ 5000) (Hd : 0 ≤ d ≤ 31536000) (Hb : 0 ≤ boost ≤ MAX_BOOST_BPS).
Let base := gross_spec h d 1000 c.
Let boosted := base * (BPS_DENOMINATOR + boost) / BPS_DENOMINATOR.

Lemma pipeline_gross_bounds : 0 ≤ base ≤ 15768000000000 ∧ base ≤ boosted ≤ base * 14 / 10 ∧ boosted ≤ 22075200000000.
Proof.
  pose proof (commodity_difficulty_bounds c) as Hc.
  assert (0 ≤ h * d * 1000 ≤ 157680000000000) as Hn by nia.
  assert (0 ≤ base ≤ 15768000000000) as Hbase.
  { unfold base, gross_spec. split; [apply Z.div_pos; lia|]. apply Z.div_le_upper_bound; nia. }
  pose proof (boosted_bounds base boost ltac:(lia) Hb) as Hbb. fold boosted in Hbb.
  assert (base * 14 / 10 ≤ 22075200000000) by (apply Z.div_le_upper_bound; lia). lia.
Qed.

Lemma pipeline_gross b edge :
  calculate_gross_prm b h d (edge_config edge) c = Some base ∧ apply_staking_boost b base boost = Some boosted.
Proof.
  pose proof pipeline_gross_bounds as (? & _ & _). split.
  - apply calculate_gross_prm_exact; cbn; nia.
  - apply apply_staking_boost_exact; nia.
Qed.

Lemma pipeline_wei : gross_calib_to_wei boosted = boosted * GROSS_CALIB_TO_WEI.
Proof. pose proof pipeline_gross_bounds. unfold gross_calib_to_wei, GROSS_CALIB_TO_WEI. apply sat_u_id. lia. Qed.

Context (t : Z) (Ht : 0 ≤ t ≤ 100000000000000).
Let redemption := redemption_spec boosted t 1000 c.

Lemma pipeline_redemption_bounds : 0 ≤ redemption ≤ 100000000000000000000.
Proof.
  pose proof pipeline_gross_bounds as (? & ? & ?). pose proof (commodity_multiplier_bounds c) as Hm.
  unfold redemption. split; [apply redemption_spec_nonneg; lia|].
  unfold redemption_spec, USDC_SCALE, MULTIPLIER_SCALE, PRICE_COEFFICIENT_SCALE, TWAP_DECIMALS_SCALE.
  assert (0 ≤ boosted * t ≤ 2207520000000000000000000000) by nia. apply Z.div_le_upper_bound; nia.
Qed.

Lemma pipeline_redemption b edge : calculate_redemption_usd b boosted t c (edge_config edge) = Some redemption.
Proof.
  pose proof pipeline_gross_bounds as (? & ? & ?). pose proof (commodity_multiplier_bounds c) as Hm.
  assert (0 ≤ boosted * t ≤ 2207520000000000000000000000) by nia.
  rewrite calculate_redemption_usd_exact; cbn; [done|lia..|].
  change (Z.max 1 1000) with 1000. unfold USDC_SCALE. nia.
Qed.

Lemma pipeline_net b edge :
  0 ≤ edge ≤ BPS_DENOMINATOR →
  calculate_payout_from_gross b boosted t c (edge_config edge) =
    Some {| pr_gross_prm := boosted; pr_redemption_usd_scaled := redemption;
            pr_net_usdc_scaled := net_spec redemption edge; pr_house_edge_bps := edge |}.
Proof.
  intros He. pose proof pipeline_redemption_bounds. unfold calculate_payout_from_gross.
  rewrite pipeline_redemption. cbn. rewrite apply_house_edge_exact; [done|lia|lia|]. unfold BPS_DENOMINATOR. lia.
Qed.
End pipeline.

(** ** Properties *)

(** C4. The settlement pipeline of a session (gross, staking boost, redemption,
    house edge) is exact: for a rate up to the largest client maximum, a session of
    up to a year, a price up to $1,000,000 and any edge up to 100%, no step panics,
    wraps or saturates in either build, each figure is the formula of Spec 4.6
    rounded down, the user never nets more than the redemption value, and the wei
    amount is exactly 10^13 times the boosted gross. *)
Theorem session_payout_exact b h d t c boost edge :
  0 ≤ h ≤ 5000 → 0 ≤ d ≤ 31536000 → 0 ≤ t ≤ 100000000000000 →
  0 ≤ boost ≤ MAX_BOOST_BPS → 0 ≤ edge ≤ BPS_DENOMINATOR →
  let config := {| base_coefficient_scaled := 1000; price_coefficient_scaled := 1000;
                   house_edge_bps := edge |} in
  let base := gross_spec h d 1000 c in
  let boosted := base * (BPS_DENOMINATOR + boost) / BPS_DENOMINATOR in
  let redemption := redemption_spec boosted t 1000 c in
  calculate_gross_prm b h d config c = Some base ∧
  apply_staking_boost b base boost = Some boosted ∧
  calculate_payout_from_gross b boosted t c config =
    Some {| pr_gross_prm := boosted; pr_redemption_usd_scaled := redemption;
            pr_net_usdc_scaled := net_spec redemption edge; pr_house_edge_bps := edge |} ∧
  base ≤ boosted ≤ base * 14 / 10 ∧
  0 ≤ net_spec redemption edge ≤ redemption ∧
  gross_calib_to_wei boosted = boosted * GROSS_CALIB_TO_WEI.
Proof.
  intros Hh Hd Ht Hb He config base boosted redemption.
  pose proof (pipeline_gross_bounds h d boost c Hh Hd Hb) as (Hbase & Hbb & _).
  pose proof (pipeline_gross h d boost c Hh Hd Hb b edge) as [Hg Hs].
  pose proof (pipeline_redemption_bounds h d boost c Hh Hd Hb t Ht) as Hr.
  pose proof (net_spec_bounds redemption edge ltac:(apply Hr) He).
  split; [exact Hg|]. split; [exact Hs|]. split; [by apply pipeline_net|].
  split; [exact Hbb|]. split; [done|]. by apply pipeline_wei.
Qed.

(** The combined staking boost never panics or wraps, equals the tier of the
    total stake times the Ethereum lock multiplier, capped at 40%, uses the
    StakingContract's tier table, and never decreases when either chain's stake
    grows. *)
Theorem combined_boost_correct b eth pol eth_more pol_more lock :
  eth ≤ eth_more → pol ≤ pol_more →
  combined_boost_bps b (Some (eth, lock)) (Some pol) =
    Some (Z.min (boost_spec (sat_u U128_MAX (eth + pol)) * lock_multiplier_scaled lock / 100) 4000) ∧
  ∃ r r', combined_boost_bps b (Some (eth, lock)) (Some pol) = Some r ∧
          combined_boost_bps b (Some (eth_more, lock)) (Some pol_more) = Some r' ∧
          0 ≤ r ≤ r' ∧ r' ≤ MAX_BOOST_BPS.
Proof.
  intros He Hp. rewrite !combined_boost_bps_eq. split.
  - unfold combined_boost_spec. cbn. by rewrite base_boost_bps_table.
  - do 2 eexists. split_and!; [done|done|apply combined_boost_spec_range| |apply combined_boost_spec_range].
    unfold combined_boost_spec. cbn. apply Z.min_le_compat_r.
    apply Z.div_le_mono; [done|]. apply Z.mul_le_mono_nonneg_r.
    + pose proof (lock_multiplier_scaled_range lock). lia.
    + apply base_boost_bps_mono, sat_u_mono. lia.
Qed.

(** The house edge takes its share rounded in the house's favour by less than
    one unit, takes everything at or above 100%, and never overflows on a
    redemption below 2^128 / 10^4. *)
Theorem apply_house_edge_correct b r e :
  0 ≤ r → r * BPS_DENOMINATOR ≤ U128_MAX → 0 ≤ e →
  ∃ net, apply_house_edge b r e = Some net ∧
    0 ≤ net ≤ r ∧
    net * BPS_DENOMINATOR ≤ r * Z.max 0 (BPS_DENOMINATOR - e) < (net + 1) * BPS_DENOMINATOR ∧
    (BPS_DENOMINATOR ≤ e → net = 0).
Proof.
  unfold BPS_DENOMINATOR. intros Hr Hb He. unfold apply_house_edge, BPS_DENOMINATOR.
  assert (sat_u U128_MAX (10000 - e) = Z.max 0 (10000 - e)) as -> by (unfold sat_u; lia).
  set (k := Z.max 0 (10000 - e)). assert (0 ≤ k ≤ 10000) as Hk by lia.
  rewrite arith_u_fits by nia. eexists. split; [done|].
  pose proof (Z.div_mod (r * k) 10000 ltac:(lia)) as Hd.
  pose proof (Z.mod_pos_bound (r * k) 10000 ltac:(lia)).
  split_and!; [apply Z.div_pos; nia | apply Z.div_le_upper_bound; nia | lia | lia |].
  intros. assert (k = 0) as -> by lia. by rewrite Z.mul_0_r.
Qed.

(** The settlement never overflows, whatever edge the chain reports. *)
Lemma pipeline_any_edge b h d boost c t edge :
  0 ≤ h ≤ 5000 → 0 ≤ d ≤ 31536000 → 0 ≤ boost ≤ MAX_BOOST_BPS → 0 ≤ t ≤ 100000000000000 → 0 ≤ edge →
  ∃ r, calculate_payout_from_gross b (gross_spec h d 1000 c * (BPS_DENOMINATOR + boost) / BPS_DENOMINATOR) t c
         (edge_config edge) = Some r.
Proof.
  intros Hh Hd Hb Ht He. unfold calculate_payout_from_gross. rewrite pipeline_redemption by done.
  pose proof (pipeline_redemption_bounds h d boost c Hh Hd Hb t Ht).
  destruct (apply_house_edge_correct b (redemption_spec (gross_spec h d 1000 c * (BPS_DENOMINATOR + boost) /
    BPS_DENOMINATOR) t 1000 c) edge) as (net & E & _); [lia|unfold BPS_DENOMINATOR in *; lia|done|].
  cbn. rewrite E. by eexists.
Qed.

(** ** Witnesses *)
Example default_gold_8h : calculate_payout Release 2500 28800 320400000000 Gold default_config =
  Some {| pr_gross_prm := 1800000000; pr_redemption_usd_scaled := 18455040;
          pr_net_usdc_scaled := 15317683; pr_house_edge_bps := 1700 |}.
Proof. vm_compute. reflexivity. Qed.

Lemma session_payout_exact_witness :
  calculate_gross_prm Debug 2500 28800
    {| base_coefficient_scaled := 1000; price_coefficient_scaled := 1000; house_edge_bps := 1700 |} Gold
  = Some 1800000000.
Proof.
  refine (proj1 (session_payout_exact Debug 2500 28800 320400000000 Gold 0 1700 _ _ _ _ _));
    unfold MAX_BOOST_BPS, BPS_DENOMINATOR; lia.
Defined.

Lemma combined_boost_correct_witness :
  combined_boost_bps Debug (Some (30000 * PRM, 1)) (Some (30000 * PRM)) = Some 1300.
Proof.
  refine (proj1 (combined_boost_correct Debug (30000 * PRM) (30000 * PRM) (30000 * PRM) (30000 * PRM) 1 _ _));
    lia.
Defined.

Lemma apply_house_edge_correct_witness :
  ∃ net, apply_house_edge Release 1000000 1700 = Some net ∧ 0 ≤ net ≤ 1000000.
Proof.
  destruct (apply_house_edge_correct Release 1000000 1700) as (net & H & Hb & _);
    [lia | unfold BPS_DENOMINATOR; lia | lia | exists net; split; [exact H | exact Hb]].
Defined.
