(* ===== verification/Calibrate.v ===== *)
(** * crates/payout-calculator/examples/calibrate.rs: the calibration sweep

    The Desktop, 8 hours, Gold example through the payout formula for five candidate
    price coefficients, and what the sweep prints. *)
From S2P Require Import Prelude Common Payout.

(** [{:>n}] and [{:0n}]: padded on the left. *)
Definition pad_left (c : ascii) (n : nat) (s : string) : string :=
  foldr String s (replicate (n - String.length s) c).

(** [fmt_usdc]: dollars from 6-decimal units. *)
Definition fmt_usdc (scaled : Z) : string :=
  "$" +:+ show (scaled / 1000000) +:+ "." +:+ pad_left "0" 6 (show (scaled mod 1000000)).

Definition HASHRATE : Z := 2500.
Definition DURATION_SECS : Z := 28800.
Definition TWAP_PRICE : Z := 320400000000.
Definition HOUSE_EDGE_BPS : Z := 1700.
Definition BAND_LOW : Z := 15000000.
Definition BAND_HIGH : Z := 22000000.
Definition candidates : list Z := [10; 100; 1000; 10000; 100000].

(** A row of the table. *)
Record SweepRow := mkSweepRow {
  sw_price_coeff : Z; sw_gross_prm : Z; sw_redemption_usd : Z; sw_net_usdc : Z; sw_in_band : bool
}.

(** The body of the loop; a panic of the arithmetic ends the sweep. *)
Definition sweep_row (b : build) (pc : Z) : option SweepRow :=
  let config := {| base_coefficient_scaled := 1000; price_coefficient_scaled := pc; house_edge_bps := HOUSE_EDGE_BPS |} in
  gross ← calculate_gross_prm b HASHRATE DURATION_SECS config Gold;
  redemption ← calculate_redemption_usd b gross TWAP_PRICE Gold config;
  net ← apply_house_edge b redemption HOUSE_EDGE_BPS;
  Some (mkSweepRow pc gross redemption net (fits BAND_LOW BAND_HIGH net)).
Fixpoint sweep (b : build) (pcs : list Z) : option (list SweepRow) :=
  match pcs with
  | [] => Some []
  | pc :: pcs => row ← sweep_row b pc; rows ← sweep b pcs; Some (row :: rows)
  end.

Definition columns (a b c d e : string) : string :=
  pad_left " " 14 a +:+ "  " +:+ pad_left " " 16 b +:+ "  " +:+ pad_left " " 16 c +:+ "  " +:+ pad_left " " 16 d +:+ "  " +:+ e.
Definition row_line (r : SweepRow) : string :=
  columns (show (sw_price_coeff r)) (show (sw_gross_prm r)) (fmt_usdc (sw_redemption_usd r)) (fmt_usdc (sw_net_usdc r))
    (if sw_in_band r then "<== TARGET" else "").
(** [main]: the lines printed. *)
Definition calibrate (b : build) : option (list string) :=
  rows ← sweep b candidates;
  Some ([ "Payout calibration sweep -- Desktop, 8h, Gold";
    "inputs: hashrate=" +:+ show HASHRATE +:+ " H/s, duration=" +:+ show DURATION_SECS +:+ "s, twap=" +:+ show TWAP_PRICE +:+
      " (8-dec), house_edge=" +:+ show HOUSE_EDGE_BPS +:+ " bps";
    "target net band: " +:+ fmt_usdc BAND_LOW +:+ " - " +:+ fmt_usdc BAND_HIGH; "";
    columns "price_coeff" "gross_prm" "redemption_usd" "net_usdc" "in_band" ] ++ (row_line <$> rows)).

Example target_line : last <$> (take 8 <$> calibrate Debug) =
  Some (Some "          1000        1800000000        $18.455040        $15.317683  <== TARGET").
Proof. vm_compute. reflexivity. Qed.

(** ** Lemmas *)

(** The redemption and the net amount at a coefficient. *)
Definition redemption_at (pc : Z) : Z := redemption_spec 1800000000 TWAP_PRICE pc Gold.
Definition net_at (pc : Z) : Z := net_spec (redemption_at pc) HOUSE_EDGE_BPS.

Lemma redemption_at_eq pc : redemption_at pc = 1845504 * pc / 100.
Proof.
  unfold redemption_at, redemption_spec. cbn [commodity_multiplier].
  unfold TWAP_PRICE, USDC_SCALE, MULTIPLIER_SCALE, PRICE_COEFFICIENT_SCALE, TWAP_DECIMALS_SCALE.
  rewrite <-(Z.div_mul_cancel_r (1845504 * pc) 100 10000000000000000000000) by lia. f_equal. lia.
Qed.
Lemma redemption_at_bounds pc : 0 ≤ pc ≤ 1000000000 → 0 ≤ redemption_at pc ≤ 18455040000000.
Proof. intros Hpc. rewrite redemption_at_eq. split; [apply Z.div_pos|apply Z.div_le_upper_bound]; lia. Qed.

(** The coefficients whose net amount is in the band. *)
Lemma net_at_band pc : 0 ≤ pc → BAND_LOW ≤ net_at pc ≤ BAND_HIGH ↔ 980 ≤ pc ≤ 1436.
Proof.
  intros Hpc. unfold net_at, net_spec, BAND_LOW, BAND_HIGH, HOUSE_EDGE_BPS, BPS_DENOMINATOR. rewrite redemption_at_eq.
  pose proof (Z.div_mod (1845504 * pc) 100 ltac:(lia)). pose proof (Z.mod_pos_bound (1845504 * pc) 100 ltac:(lia)).
  set (r := 1845504 * pc / 100) in *.
  pose proof (Z.div_mod (r * (10000 - 1700)) 10000 ltac:(lia)). pose proof (Z.mod_pos_bound (r * (10000 - 1700)) 10000 ltac:(lia)).
  set (n := r * (10000 - 1700) / 10000) in *. split; lia.
Qed.

Lemma sweep_row_exact b pc :
  0 ≤ pc ≤ 1000000000 →
  sweep_row b pc = Some (mkSweepRow pc 1800000000 (redemption_at pc) (net_at pc) (fits BAND_LOW BAND_HIGH (net_at pc))).
Proof.
  intros Hpc. unfold sweep_row. rewrite calculate_gross_prm_exact by (vm_compute; congruence).
  cbn [mbind option_bind]. change (gross_spec _ _ _ _) with 1800000000.
  rewrite calculate_redemption_usd_exact; [|unfold TWAP_PRICE, USDC_SCALE; cbn; lia..].
  cbn [mbind option_bind price_coefficient_scaled]. pose proof (redemption_at_bounds pc Hpc).
  fold (redemption_at pc). rewrite apply_house_edge_exact; [done|lia|unfold HOUSE_EDGE_BPS, BPS_DENOMINATOR; lia|].
  unfold BPS_DENOMINATOR. lia.
Qed.

(** What the calibration shows. In both builds the sweep prints every candidate
    without a panic; a coefficient puts the worked example's net amount in the target
    band of 15 to 22 dollars exactly from 980 to 1436; of the candidates only 1000
    does, and it is the coefficient of the default configuration. *)
Theorem calibration_target b :
  (∀ pc, 0 ≤ pc ≤ 1000000000 → ∃ row, sweep_row b pc = Some row ∧ (sw_in_band row = true ↔ 980 ≤ pc ≤ 1436)) ∧
  ∃ rows, sweep b candidates = Some rows ∧ sw_price_coeff <$> rows = candidates ∧
    sw_price_coeff <$> filter (λ r, sw_in_band r = true) rows = [price_coefficient_scaled default_config].
Proof.
  split.
  - intros pc Hpc. eexists. split; [by apply sweep_row_exact|]. cbn [sw_in_band].
    rewrite fits_spec. apply net_at_band. lia.
  - destruct b; (eexists; split; [vm_compute; reflexivity|]); split; vm_compute; reflexivity.
Qed.
