(* ===== verification/MintCeiling.v ===== *)
(** * crates/mint-ceiling/src/lib.rs: the mint ceiling calculator *)
From S2P Require Import Prelude Common.

Definition BLOCKS_PER_DAY : Z := 7200.
Definition SAFETY_MULTIPLIER : Z := 3.

Record CeilingProposal := mkCeilingProposal {
  cp_calculated_at : DateTime;
  cp_active_users : Z;
  cp_avg_daily_prm_per_user : Z;
  cp_daily_target_prm : Z;
  cp_block_ceiling : Z;
  cp_blocks_per_day : Z;
  cp_safety_multiplier : Z
}.

Record MintCeilingCalculator := mkMintCeilingCalculator {
  mcc_blocks_per_day : Z;
  mcc_safety_multiplier : Z
}.

Definition mint_ceiling_new : MintCeilingCalculator :=
  {| mcc_blocks_per_day := BLOCKS_PER_DAY; mcc_safety_multiplier := SAFETY_MULTIPLIER |}.

(** [calculate]: the multiplications are unchecked [u64] operators, and the
    division panics on a zero [blocks_per_day]. *)
Definition ceiling_calculate (b : build) (self : MintCeilingCalculator)
    (active_users avg_daily_prm_per_user : Z) : option Z :=
  daily_target ← arith_u b U64_MAX (active_users * avg_daily_prm_per_user);
  if mcc_blocks_per_day self =? 0 then None
  else arith_u b U64_MAX (daily_target / mcc_blocks_per_day self * mcc_safety_multiplier self).

Definition daily_ceiling (self : MintCeilingCalculator)
    (active_users avg_daily_prm_per_user : Z) : Z :=
  sat_u U64_MAX (sat_u U64_MAX (active_users * avg_daily_prm_per_user)
                 * mcc_safety_multiplier self).

Definition propose (b : build) (now : DateTime) (self : MintCeilingCalculator)
    (active_users avg_daily_prm_per_user : Z) : option CeilingProposal :=
  daily_target_prm ← arith_u b U64_MAX (active_users * avg_daily_prm_per_user);
  block_ceiling ← ceiling_calculate b self active_users avg_daily_prm_per_user;
  Some {| cp_calculated_at := now;
          cp_active_users := active_users;
          cp_avg_daily_prm_per_user := avg_daily_prm_per_user;
          cp_daily_target_prm := daily_target_prm;
          cp_block_ceiling := block_ceiling;
          cp_blocks_per_day := mcc_blocks_per_day self;
          cp_safety_multiplier := mcc_safety_multiplier self |}.

(** ** Lemmas *)
Lemma daily_ceiling_eq u a :
  0 ≤ u → 0 ≤ a →
  daily_ceiling mint_ceiling_new u a = Z.min U64_MAX (u * a * 3).
Proof. intros. unfold daily_ceiling, sat_u, mint_ceiling_new, SAFETY_MULTIPLIER; cbn. nia. Qed.

Lemma daily_ceiling_range u a : 0 ≤ daily_ceiling mint_ceiling_new u a ≤ U64_MAX.
Proof. unfold daily_ceiling. by apply sat_u_range. Qed.

(** ** Properties *)

(** C29. Where the daily mint fits [u64], the per-block ceiling spent on every block
    of a day stays within the daily ceiling and misses it by less than one unit per
    block and safety multiple; the daily ceiling itself saturates instead of
    wrapping, so it never decreases when an input grows. *)
Theorem block_and_daily_ceiling b now u a u' a' :
  0 ≤ u ≤ u' → 0 ≤ a ≤ a' → u * a * SAFETY_MULTIPLIER ≤ U64_MAX →
  ∃ p, propose b now mint_ceiling_new u a = Some p ∧
    ceiling_calculate b mint_ceiling_new u a = Some (cp_block_ceiling p) ∧
    cp_daily_target_prm p = u * a ∧
    cp_block_ceiling p * BLOCKS_PER_DAY ≤ daily_ceiling mint_ceiling_new u a
      < (cp_block_ceiling p + SAFETY_MULTIPLIER) * BLOCKS_PER_DAY ∧
    daily_ceiling mint_ceiling_new u a ≤ daily_ceiling mint_ceiling_new u' a' ≤ U64_MAX.
Proof.
  intros Hu Ha Hb. rewrite !daily_ceiling_eq by lia.
  unfold propose, ceiling_calculate, mint_ceiling_new, BLOCKS_PER_DAY, SAFETY_MULTIPLIER in *; cbn.
  assert (0 ≤ u * a) by nia. assert (u * a ≤ u' * a') by nia.
  pose proof (Z.div_mod (u * a) 7200 ltac:(lia)) as Hd.
  pose proof (Z.mod_pos_bound (u * a) 7200 ltac:(lia)) as Hm.
  pose proof (div_le_self (u * a) 7200 ltac:(lia) ltac:(lia)).
  rewrite arith_u_fits by lia. cbn. rewrite arith_u_fits by lia. cbn.
  eexists. split; [done|]. cbn. split_and!; try done; lia.
Qed.

Lemma block_and_daily_ceiling_witness :
  ∃ p, propose Debug 0 mint_ceiling_new 1000 500 = Some p.
Proof.
  destruct (block_and_daily_ceiling Debug 0 1000 500 1000 500) as (p & H & _);
    [lia | lia | unfold SAFETY_MULTIPLIER; lia | exists p; exact H].
Defined.
