(* ===== verification/Twap.v ===== *)
(** * crates/twap-calculator/src/lib.rs: session price sampling

    [TwapCalculator] keeps its samples in the order they were added. *)
From S2P Require Import Prelude Common.

Definition MIN_VALID_SESSION_SECS : Z := 600.

Inductive OracleSource := Chainlink | Pyth | Api3.

Record PriceSample := mkPriceSample {
  ps_price : Z;
  ps_sampled_at : DateTime;
  ps_oracle : OracleSource
}.

Record TwapResult := mkTwapResult {
  tr_twap : Z;
  tr_sample_count : nat;
  tr_session_start : DateTime;
  tr_session_end : DateTime;
  tr_is_valid : bool
}.

Record TwapCalculator := mkTwapCalculator {
  tc_samples : list PriceSample;
  tc_session_start : DateTime
}.

Definition twap_new (session_start : DateTime) : TwapCalculator :=
  {| tc_samples := []; tc_session_start := session_start |}.

Definition add_sample (self : TwapCalculator) (sample : PriceSample) : TwapCalculator :=
  if ps_sampled_at sample <? tc_session_start self then self
  else {| tc_samples := tc_samples self ++ [sample];
          tc_session_start := tc_session_start self |}.

(** [iter().map(|s| s.price).sum()]: [u128] additions from the left. *)
Definition sum_prices (b : build) (l : list PriceSample) : option Z :=
  foldl (λ acc s, z ← acc; arith_u b U128_MAX (z + ps_price s)) (Some 0) l.

(** [calculate]: the outer option is a panic of the sum. *)
Definition twap_calculate (b : build) (self : TwapCalculator) : option (option Z) :=
  match tc_samples self with
  | [] => Some None
  | _ =>
      let count := Z.of_nat (length (tc_samples self)) in
      sum ← sum_prices b (tc_samples self);
      Some (Some (sum / count))
  end.

Definition twap_is_valid (self : TwapCalculator) : bool :=
  match last (tc_samples self) with
  | Some latest =>
      MIN_VALID_SESSION_SECS <=? num_seconds (ps_sampled_at latest - tc_session_start self)
  | None => false
  end.

Definition sample_count (self : TwapCalculator) : nat := length (tc_samples self).

Definition finalize (b : build) (self : TwapCalculator) (session_end : DateTime)
    : option (option TwapResult) :=
  twap ← twap_calculate b self;
  match twap with
  | None => Some None
  | Some twap =>
      Some (Some {| tr_twap := twap;
                    tr_sample_count := length (tc_samples self);
                    tr_session_start := tc_session_start self;
                    tr_session_end := session_end;
                    tr_is_valid := twap_is_valid self |})
  end.

(** ** The calculator a session builds: samples offered one after another *)
Definition add_samples (start : DateTime) (l : list PriceSample) : TwapCalculator :=
  foldl add_sample (twap_new start) l.

Fixpoint price_sum (l : list PriceSample) : Z :=
  match l with [] => 0 | s :: l => ps_price s + price_sum l end.

(** ** Lemmas *)
Lemma add_samples_filter start l :
  add_samples start l =
    {| tc_samples := filter (λ s, start ≤ ps_sampled_at s) l; tc_session_start := start |}.
Proof.
  unfold add_samples.
  cut (∀ c, tc_session_start c = start → foldl add_sample c l =
    {| tc_samples := tc_samples c ++ filter (λ s, start ≤ ps_sampled_at s) l;
       tc_session_start := start |}); [intros H; by apply H|].
  induction l as [|s l IH]; intros [smp st] Hc; cbn [foldl tc_session_start tc_samples] in *; subst st.
  - by rewrite app_nil_r.
  - rewrite filter_cons. unfold add_sample at 2. cbn.
    destruct (Z.ltb_spec (ps_sampled_at s) start).
    + rewrite decide_False by lia. by rewrite IH.
    + rewrite decide_True by lia. rewrite IH by done. cbn. by rewrite <-app_assoc.
Qed.

Lemma price_sum_nonneg l : Forall (λ s, 0 ≤ ps_price s) l → 0 ≤ price_sum l.
Proof. induction 1; cbn; lia. Qed.

Lemma price_sum_bounds lo hi l :
  Forall (λ s, lo ≤ ps_price s ≤ hi) l →
  lo * Z.of_nat (length l) ≤ price_sum l ≤ hi * Z.of_nat (length l).
Proof. induction 1; cbn [price_sum length]; lia. Qed.

(** The sum looks at the prices only, and not at their order. *)
Lemma price_sum_prices l : price_sum l = foldr Z.add 0 (ps_price <$> l).
Proof. induction l as [|s l IH]; cbn; [done|]. by rewrite IH. Qed.
Lemma price_sum_perm l l' : ps_price <$> l ≡ₚ ps_price <$> l' → price_sum l = price_sum l'.
Proof. rewrite !price_sum_prices. induction 1; cbn; lia. Qed.

Lemma sum_prices_exact b l :
  Forall (λ s, 0 ≤ ps_price s) l → price_sum l ≤ U128_MAX →
  sum_prices b l = Some (price_sum l).
Proof.
  intros Hl Hs. unfold sum_prices.
  cut (∀ acc, 0 ≤ acc → acc + price_sum l ≤ U128_MAX →
    foldl (λ acc s, z ← acc; arith_u b U128_MAX (z + ps_price s)) (Some acc) l =
    Some (acc + price_sum l)); [intros H; by rewrite H by lia|].
  clear Hs. induction Hl as [|s l Hp Hl IH]; intros acc Ha Hb; cbn in *.
  - f_equal. lia.
  - pose proof (price_sum_nonneg l Hl).
    rewrite arith_u_fits by lia. rewrite IH by lia. f_equal. lia.
Qed.

(** ** Properties *)

(** C33. The session price is the plain, not the time-weighted, mean of the prices
    sampled at or after the session start, rounded down: any other samples with the
    same prices give the same figure, whatever their times and order, so that a price
    held for an hour weighs no more than one held for a second. It lies between the
    lowest and the highest of them, exists exactly when there is such a sample, and is
    marked valid exactly when the last one lies at least ten minutes after the start. *)
Theorem twap_correct b start fin l lo hi :
  let kept := filter (λ s, start ≤ ps_sampled_at s) l in
  Forall (λ s, 0 ≤ lo ≤ ps_price s ∧ ps_price s ≤ hi) kept →
  hi * Z.of_nat (length kept) ≤ U128_MAX →
  match finalize b (add_samples start l) fin with
  | Some None => kept = []
  | Some (Some r) =>
      kept ≠ [] ∧ tr_twap r = price_sum kept / Z.of_nat (length kept) ∧
      lo ≤ tr_twap r ≤ hi ∧ tr_sample_count r = length kept ∧
      tr_session_start r = start ∧ tr_session_end r = fin ∧
      (tr_is_valid r = true ↔
        ∃ s, last kept = Some s ∧ start + 600 * NANOS_PER_SEC ≤ ps_sampled_at s) ∧
      (∀ l', ps_price <$> filter (λ s, start ≤ ps_sampled_at s) l' ≡ₚ ps_price <$> kept →
         twap_calculate b (add_samples start l') = Some (Some (tr_twap r)))
  | None => False
  end.
Proof.
  intros kept Hk Hhi. rewrite add_samples_filter. fold kept.
  assert (Forall (λ s, lo ≤ ps_price s ≤ hi) kept) as Hkb
    by (eapply Forall_impl; [exact Hk|]; cbn; lia).
  assert (Hcalc : ∀ k', ps_price <$> k' ≡ₚ ps_price <$> kept → kept ≠ [] →
    twap_calculate b {| tc_samples := k'; tc_session_start := start |} =
      Some (Some (price_sum kept / Z.of_nat (length kept)))).
  { intros k' Hp Hne. unfold twap_calculate; cbn [tc_samples].
    assert (Forall (λ s, 0 ≤ ps_price s) k').
    { apply Forall_forall. intros s Hs. assert (ps_price s ∈ ps_price <$> kept) as (s' & -> & Hs')%list_elem_of_fmap
        by (rewrite <-Hp; by apply list_elem_of_fmap_2). eapply Forall_forall in Hk; [|exact Hs']. cbn in Hk. lia. }
    pose proof (price_sum_bounds lo hi kept Hkb).
    assert (length k' = length kept) as Hlen by (apply Permutation_length in Hp; by rewrite !length_fmap in Hp).
    rewrite sum_prices_exact, (price_sum_perm _ _ Hp), Hlen; [|done|rewrite (price_sum_perm _ _ Hp); lia].
    destruct k' as [|s k']; [|done]. by destruct kept. }
  unfold finalize. destruct (decide (kept = [])) as [->|Hne]; [done|].
  rewrite (Hcalc kept) by done. cbn. split_and!; try done.
  - pose proof (price_sum_bounds lo hi kept Hkb).
    assert (0 < Z.of_nat (length kept)) by (destruct kept; cbn; [done|lia]).
    apply Z.div_le_lower_bound; lia.
  - pose proof (price_sum_bounds lo hi kept Hkb).
    assert (0 < Z.of_nat (length kept)) by (destruct kept; cbn; [done|lia]).
    apply Z.div_le_upper_bound; lia.
  - unfold twap_is_valid; cbn. destruct (last kept) as [s|] eqn:Hl.
    + rewrite Z.leb_le. unfold MIN_VALID_SESSION_SECS. rewrite num_seconds_le by lia.
      split; [intros; exists s; split; [done|lia] | intros (s' & [= ->] & ?); lia].
    + split; [done|]. by intros (s' & ? & _).
  - intros l' Hl'. rewrite add_samples_filter. by apply Hcalc.
Qed.

Lemma twap_correct_witness :
  let l := [mkPriceSample 320400000000 0 Chainlink;
            mkPriceSample 320600000000 (700 * NANOS_PER_SEC) Chainlink] in
  ∃ r, finalize Debug (add_samples 0 l) (700 * NANOS_PER_SEC) = Some (Some r) ∧
       320400000000 ≤ tr_twap r ≤ 320600000000.
Proof.
  intros l.
  pose proof (twap_correct Debug 0 (700 * NANOS_PER_SEC) l 320400000000 320600000000) as H.
  cbv zeta in H.
  assert (E : ∃ r, finalize Debug (add_samples 0 l) (700 * NANOS_PER_SEC) = Some (Some r))
    by (eexists; vm_compute; reflexivity).
  destruct E as [r E]. rewrite E in H. exists r. split; [exact E|].
  apply H; [|vm_compute; discriminate].
  repeat (apply Forall_cons; split; [cbn; lia|]). apply Forall_nil; exact I.
Defined.
