(* ===== verification/Anomaly.v ===== *)
(** * crates/anomaly-engine/src/lib.rs: scoring of validation results

    The event channel ([tokio::sync::mpsc::Sender]) is a parameter: a state [Q]
    and [try_send], which may refuse an event. *)
From S2P Require Import Prelude Common.

Definition PER_SIGNAL_BPS : Z := 2500.
Definition MAX_ANOMALY_SCORE_BPS : Z := 10000.

(** [std::mem::discriminant]: the variant without its payload. *)
Definition discriminant (r : InvalidReason) : nat :=
  match r with
  | MalformedProof => 0 | HashMismatch => 1 | TimingAnomaly => 2 | HashrateImpossible => 3
  | DuplicateSession => 4 | ProofDeficit => 5 | StaleProof => 6 | InvalidSignature => 7
  | Other _ => 8
  end%nat.

(** The [retain] loop with its [seen] vector. *)
Fixpoint retain_unseen (seen : list nat) (triggers : list InvalidReason) : list InvalidReason :=
  match triggers with
  | [] => []
  | reason :: rest =>
      let d := discriminant reason in
      if decide (d ∈ seen) then retain_unseen seen rest
      else reason :: retain_unseen (seen ++ [d]) rest
  end.
Definition dedup_triggers (triggers : list InvalidReason) : list InvalidReason :=
  retain_unseen [] triggers.

Definition level_for (total_signals : nat) : SuspicionLevel :=
  match total_signals with 0%nat => Low | 1%nat => Medium | _ => High end.

Definition anomaly_score_bps (total_signals : nat) : Z :=
  let n := default U32_MAX (try_from 0 U32_MAX (Z.of_nat total_signals)) in
  Z.min (sat_u U32_MAX (n * PER_SIGNAL_BPS)) MAX_ANOMALY_SCORE_BPS.

Record Assessment := mkAssessment { as_level : SuspicionLevel; as_score_bps : Z }.

(** The loop of [process]: the reasons in order, and the count of high suspicions. *)
Fixpoint collect (results : list ValidationResult) (triggers : list InvalidReason)
    (high : nat) : list InvalidReason * nat :=
  match results with
  | [] => (triggers, high)
  | Invalid reason :: rest => collect rest (triggers ++ [reason]) high
  | Suspicious High :: rest => collect rest triggers (S high)
  | Suspicious _ :: rest | Valid :: rest => collect rest triggers high
  end.

Section engine.
Context {Q : Type} (try_send : AnomalyEvent → Q → bool * Q).

(** [process]: a failed send is logged and has no other effect. *)
Definition process (now : DateTime) (session_id : SessionId) (wallet : Address)
    (results : list ValidationResult) (q : Q) : Assessment * Q :=
  let '(triggers, high_suspicion_count) := collect results [] 0 in
  let triggers := dedup_triggers triggers in
  let total_signals := (length triggers + high_suspicion_count)%nat in
  let level := level_for total_signals in
  let score_bps := anomaly_score_bps total_signals in
  let event := {| ae_session_id := session_id; ae_wallet := wallet; ae_score := score_bps;
                  ae_triggers := triggers; ae_level := level; ae_timestamp := now |} in
  let '(_, q') := try_send event q in
  ({| as_level := level; as_score_bps := score_bps |}, q').
End engine.

Definition should_slash_vote (level : SuspicionLevel) : bool :=
  match level with High => true | _ => false end.

(** ** Specification: the distinct signals of a list of results *)
Definition reason_of (r : ValidationResult) : option InvalidReason :=
  match r with Invalid reason => Some reason | _ => None end.
Definition is_high (r : ValidationResult) : bool :=
  match r with Suspicious High => true | _ => false end.

(** The variants that occur among the rejections. *)
Definition distinct_reasons (results : list ValidationResult) : gset nat :=
  list_to_set (discriminant <$> omap reason_of results).
Definition signals (results : list ValidationResult) : nat :=
  size (distinct_reasons results) + length (List.filter is_high results).

(** ** Lemmas *)
Lemma collect_eq results : ∀ triggers high,
  collect results triggers high =
    (triggers ++ omap reason_of results,
     (high + length (List.filter is_high results))%nat).
Proof.
  induction results as [|[|reason|[]] l IH]; intros triggers high; cbn;
    rewrite ?IH, ?app_nil_r, <-?app_assoc; cbn; f_equal; lia.
Qed.

Lemma retain_unseen_discr l : ∀ seen,
  NoDup (discriminant <$> retain_unseen seen l) ∧
  (∀ d, d ∈ (discriminant <$> retain_unseen seen l) ↔ d ∈ (discriminant <$> l) ∧ d ∉ seen) ∧
  sublist (retain_unseen seen l) l.
Proof.
  induction l as [|r l IH]; intros seen; cbn [retain_unseen fmap list_fmap].
  { split_and!; [constructor | set_solver | constructor]. }
  case_decide as Hd.
  - destruct (IH seen) as (Hn & He & Hs). split_and!; [done | | by constructor].
    intros d. rewrite He. cbn. set_solver.
  - destruct (IH (seen ++ [discriminant r])) as (Hn & He & Hs). cbn. split_and!.
    + constructor; [|done]. rewrite He. set_solver.
    + intros d. rewrite !elem_of_cons, He, elem_of_app, list_elem_of_singleton.
      destruct (decide (d = discriminant r)) as [->|]; set_solver.
    + by constructor.
Qed.

Lemma dedup_triggers_length l :
  length (dedup_triggers l) = size (list_to_set (C := gset nat) (discriminant <$> l)).
Proof.
  destruct (retain_unseen_discr l []) as (Hn & He & _).
  unfold dedup_triggers. rewrite <-(length_fmap discriminant).
  rewrite <-(size_list_to_set (C := gset nat)) by done. f_equal.
  apply set_eq. intros d. rewrite !elem_of_list_to_set, He. set_solver.
Qed.

Lemma anomaly_score_bps_eq n : anomaly_score_bps n = Z.min (2500 * Z.of_nat n) 10000.
Proof.
  unfold anomaly_score_bps, try_from, PER_SIGNAL_BPS, MAX_ANOMALY_SCORE_BPS, sat_u.
  destruct (fits 0 U32_MAX (Z.of_nat n)) eqn:E; cbn [default].
  - apply fits_spec in E. cbn. lia.
  - apply fits_false in E. cbn. lia.
Qed.

Lemma process_assessment {Q} (try_send : AnomalyEvent → Q → bool * Q) now sid w rs q :
  (process try_send now sid w rs q).1 =
    {| as_level := level_for (signals rs); as_score_bps := anomaly_score_bps (signals rs) |}.
Proof.
  unfold process. rewrite collect_eq. cbn [app].
  rewrite dedup_triggers_length. fold (distinct_reasons rs). cbn [Nat.add].
  fold (signals rs). by destruct (try_send _ q).
Qed.

Lemma level_for_cases n :
  (level_for n = Low ↔ n = 0%nat) ∧ (level_for n = Medium ↔ n = 1%nat) ∧
  (level_for n = High ↔ (2 ≤ n)%nat).
Proof. destruct n as [|[|n]]; cbn; naive_solver lia. Qed.

Lemma signals_single r : (signals [r] ≤ 1)%nat.
Proof.
  unfold signals, distinct_reasons. rewrite <-dedup_triggers_length.
  destruct r as [|reason|[]]; cbn; try lia. case_decide; cbn; lia.
Qed.

(** ** Properties *)


Example process_two_reasons :
  (process (λ _ q, (true, q)) 0 "s" 0
     [Invalid TimingAnomaly; Invalid HashrateImpossible; Invalid TimingAnomaly] tt).1
  = mkAssessment High 5000.
Proof. vm_compute. reflexivity. Qed.
