(* ===== verification/Validator.v ===== *)
(** * crates/proof-validator/src/lib.rs: the pre-filter and full validators

    The trait [ProofValidator] is the class of validators; [validator] picks the
    implementation for a mode. *)
From S2P Require Import Prelude Common.

Definition MAX_HASHRATE_BROWSER : Z := 400.
Definition MAX_HASHRATE_DESKTOP : Z := 4000.
Definition MAX_HASHRATE_CLI : Z := 5000.
Definition TIMING_MIN_SECS : Z := 2.
Definition TIMING_MAX_SECS : Z := 300.

Definition max_hashrate (client : ClientType) : Z :=
  match client with
  | Browser => MAX_HASHRATE_BROWSER
  | Desktop => MAX_HASHRATE_DESKTOP
  | Cli => MAX_HASHRATE_CLI
  end.

(** The interval check of [prefilter_checks]; an absent last submission passes. *)
Definition timing_ok (proof : PartialProof) (ctx : SessionContext) : bool :=
  match ctx_last_submission_at ctx with
  | Some last =>
      let interval := num_seconds (pp_submitted_at proof - last) in
      fits TIMING_MIN_SECS TIMING_MAX_SECS interval
  | None => true
  end.

Definition prefilter_checks (proof : PartialProof) (ctx : SessionContext) : ValidationResult :=
  if negb (timing_ok proof ctx) then Invalid TimingAnomaly
  else if max_hashrate (ctx_client_type ctx) <? pp_hashrate proof then Invalid HashrateImpossible
  else if 1 <? ctx_active_sessions_count ctx then Suspicious High
  else Valid.

(** The trait. *)
Class ProofValidator (V : Type) :=
  validate : V → PartialProof → ValidationMode → SessionContext → ValidationResult.

Inductive PreFilterValidator := mkPreFilterValidator.
#[export] Instance prefilter_validate : ProofValidator PreFilterValidator :=
  λ _ proof _ ctx, prefilter_checks proof ctx.

Inductive FullValidator := mkFullValidator.
#[export] Instance full_validate : ProofValidator FullValidator :=
  λ _ proof _ ctx,
    let pre := prefilter_checks proof ctx in
    if decide (pre ≠ Valid) then pre
    else match pp_signature proof with
         | None => Invalid InvalidSignature
         | Some _ => Valid
         end.

(** [Box<dyn ProofValidator>]: the method of the chosen implementation. *)
Definition validator (mode : ValidationMode)
    : PartialProof → ValidationMode → SessionContext → ValidationResult :=
  match mode with
  | PreFilter => validate mkPreFilterValidator
  | Full => validate mkFullValidator
  end.

(** ** Lemmas *)
Lemma max_hashrate_range c : 400 ≤ max_hashrate c ≤ 5000.
Proof.
  destruct c; unfold max_hashrate, MAX_HASHRATE_BROWSER, MAX_HASHRATE_DESKTOP, MAX_HASHRATE_CLI; lia.
Qed.

Lemma timing_ok_spec proof ctx :
  timing_ok proof ctx = true ↔
    ∀ last, ctx_last_submission_at ctx = Some last →
      2 ≤ num_seconds (pp_submitted_at proof - last) ≤ 300.
Proof.
  unfold timing_ok, TIMING_MIN_SECS, TIMING_MAX_SECS.
  destruct (ctx_last_submission_at ctx) as [l|]; [rewrite fits_spec|]; naive_solver.
Qed.

Lemma prefilter_no_last proof ctx :
  ctx_last_submission_at ctx = None → prefilter_checks proof ctx ≠ Invalid TimingAnomaly.
Proof.
  intros H. unfold prefilter_checks, timing_ok. rewrite H. cbn. by repeat case_match.
Qed.

Lemma prefilter_valid_iff proof ctx :
  prefilter_checks proof ctx = Valid ↔
    timing_ok proof ctx = true ∧ pp_hashrate proof ≤ max_hashrate (ctx_client_type ctx) ∧
    ctx_active_sessions_count ctx ≤ 1.
Proof.
  unfold prefilter_checks. destruct (timing_ok proof ctx); cbn; [|naive_solver].
  destruct (Z.ltb_spec (max_hashrate (ctx_client_type ctx)) (pp_hashrate proof)); [naive_solver lia|].
  destruct (Z.ltb_spec 1 (ctx_active_sessions_count ctx)); naive_solver lia.
Qed.

(** ** Properties *)

(** The validators, on every branch: the pre-filter rejects exactly an interval
    outside 2 .. 300 whole seconds or, failing that, a rate above the client's
    physical maximum, flags exactly a proof that passes both while the wallet has
    more than one session, and accepts the rest; the full validator agrees with it
    except that an accepted proof must also carry a signature. *)
Theorem validators_correct proof ctx m m' :
  let in_window := ∀ last, ctx_last_submission_at ctx = Some last →
                     2 ≤ num_seconds (pp_submitted_at proof - last) ≤ 300 in
  let in_rate := pp_hashrate proof ≤ max_hashrate (ctx_client_type ctx) in
  let pre := validator PreFilter proof m ctx in
  let full := validator Full proof m' ctx in
  (pre = Invalid TimingAnomaly ↔ ¬ in_window) ∧
  (pre = Invalid HashrateImpossible ↔ in_window ∧ ¬ in_rate) ∧
  (pre = Suspicious High ↔ in_window ∧ in_rate ∧ 1 < ctx_active_sessions_count ctx) ∧
  (pre = Valid ↔ in_window ∧ in_rate ∧ ctx_active_sessions_count ctx ≤ 1) ∧
  (pre ≠ Valid → full = pre) ∧
  (full = Invalid InvalidSignature ↔ pre = Valid ∧ pp_signature proof = None) ∧
  (full = Valid ↔ pre = Valid ∧ is_Some (pp_signature proof)).
Proof.
  intros in_window in_rate pre full. unfold in_window, in_rate.
  rewrite <-timing_ok_spec.
  assert (full = if decide (pre ≠ Valid) then pre else
            match pp_signature proof with None => Invalid InvalidSignature | Some _ => Valid end)
    as Hfull by done.
  assert (pre = prefilter_checks proof ctx) as Hpre by done.
  clearbody pre full. unfold prefilter_checks in Hpre.
  destruct (timing_ok proof ctx); cbn in Hpre;
    [destruct (Z.ltb_spec (max_hashrate (ctx_client_type ctx)) (pp_hashrate proof));
      [|destruct (Z.ltb_spec 1 (ctx_active_sessions_count ctx))]|];
    subst pre full; repeat case_decide; destruct (pp_signature proof) as [sg|];
    split_and!; try naive_solver lia.
  split; [intros _; split; [done | by eexists] | done].
Qed.
