(* ===== verification/Redis.v ===== *)
(** * The Redis interface the stores are written against

    Redis and the [redis] crate are not part of the repository: the class
    [RedisServer] has the command execution and the reply conversions as fields,
    and states the documented behaviour of the commands the source sends. The
    stores' theorems are proved against the class. What a server state means is
    its [peek]: the value [GET] would see at an instant if no command came
    between. [MemRedis] is an in-memory server, which shows the class is
    inhabited and runs the witnesses. *)
From S2P Require Import Prelude Common.

(** ** Commands and replies *)
Inductive rcmd :=
  | SET (k v : string) (ex : Z)
  | SETNX (k v : string) (ex : Z)
  | GET (k : string)
  | INCRBY (k : string) (n : Z)
  | EXPIRE (k : string) (secs : Z)
  | DEL (ks : list string)
  | EXISTS (k : string)
  | SCAN (cursor : Z) (pattern : string) (count : Z).

Inductive reply :=
  | ROk
  | RNil
  | RBulk (s : string)
  | RInt (n : Z)
  | RScan (next : Z) (keys : list string).

(** [redis::RedisError]: its content is only logged. *)
Inductive RedisError := mkRedisError (detail : string).
#[export] Instance RedisError_display : Display RedisError := λ '(mkRedisError detail), detail.
(** [Client::open] of a URL, and [get_multiplexed_async_connection]. *)
Class RedisConnect (W Client : Type) := {
  client_open : string → RedisError + Client;
  get_multiplexed_async_connection : Client → W → (RedisError + unit) * W
}.

(** What [GET] sees at each instant. *)
Abbreviation view := (DateTime → string → option string).

Definition set_key (v : view) (k : string) (f : DateTime → option string) : view :=
  λ t' k', if decide (k' = k) then f t' else v t' k'.

(** A value that lives until [d]. *)
Definition until (d : DateTime) (x : string) : DateTime → option string :=
  λ t', if t' <? d then Some x else None.

Definition secs (n : Z) : Z := n * NANOS_PER_SEC.

Definition parse_i64 (s : string) : option Z := parse_i I64_MIN I64_MAX s.

(** The integer a counter key holds; an absent key counts as zero. *)
Definition counter (o : option string) : option Z :=
  match o with None => Some 0 | Some s => parse_i64 s end.

(** The documented effect of a command executed at [t]. *)
Definition effect (c : rcmd) (t : DateTime) (v : view) : view :=
  match c with
  | SET k x ex => set_key v k (until (t + secs ex) x)
  | SETNX k x ex =>
      match v t k with Some _ => v | None => set_key v k (until (t + secs ex) x) end
  | INCRBY k n =>
      match v t k with
      | None => set_key v k (λ _, Some (show n))
      | Some cur =>
          match parse_i64 cur with
          | Some z => set_key v k (λ t', match v t' k with Some _ => Some (show (z + n)) | None => None end)
          | None => v
          end
      end
  | EXPIRE k n => match v t k with Some x => set_key v k (until (t + secs n) x) | None => v end
  | DEL ks => λ t' k', if decide (k' ∈ ks) then None else v t' k'
  | GET _ | EXISTS _ | SCAN _ _ _ => v
  end.

(** The documented reply. *)
Definition answers (glob : string → string → bool) (c : rcmd) (t : DateTime) (v : view) (r : reply) : Prop :=
  match c with
  | SET _ _ _ => r = ROk
  | SETNX k _ _ => r = match v t k with Some _ => RNil | None => ROk end
  | GET k => r = match v t k with Some x => RBulk x | None => RNil end
  | INCRBY k n => ∃ z, counter (v t k) = Some z ∧ r = RInt (z + n) ∧
                    I64_MIN ≤ n ≤ I64_MAX ∧ I64_MIN ≤ z + n ≤ I64_MAX
  | EXPIRE k _ => r = RInt (match v t k with Some _ => 1 | None => 0 end)
  | DEL _ => ∃ n, r = RInt n
  | EXISTS k => r = RInt (match v t k with Some _ => 1 | None => 0 end)
  | SCAN _ pattern _ => ∃ next keys, r = RScan next keys ∧
                    Forall (λ k, glob pattern k = true ∧ is_Some (v t k)) keys
  end.

(** A command Redis does not refuse for its arguments. *)
Definition accepted_cmd (c : rcmd) (t : DateTime) (v : view) : Prop :=
  match c with
  | INCRBY k n => ∃ z, counter (v t k) = Some z ∧ I64_MIN ≤ n ≤ I64_MAX ∧ I64_MIN ≤ z + n ≤ I64_MAX
  | _ => True
  end.

(** The two views agree from [t] on. *)
Definition view_from (t : DateTime) : relation view := λ v v', ∀ t' k, t ≤ t' → v t' k = v' t' k.

(** Values change only by expiry when no command runs. *)
Definition timed (v : view) : Prop :=
  ∀ t t' k, t ≤ t' → v t' k = v t k ∨ v t' k = None.

(** Characters with a meaning in a [MATCH] pattern. *)
Definition plain_char (c : ascii) : bool :=
  negb (existsb (Ascii.eqb c) ["*"; "?"; "["; "]"; "\"]%char).
Fixpoint plain (s : string) : bool :=
  match s with EmptyString => true | String c s' => plain_char c && plain s' end.

(** ** The class *)
Class RedisServer (R : Type) := {
  exec : rcmd → DateTime → R → (RedisError + reply) * R;
  peek : R → view;
  (** the server is reachable and stays so *)
  healthy : R → Prop;
  glob : string → string → bool;
  (** conversions of the [redis] crate used by the source *)
  as_opt_string : reply → RedisError + option string;
  as_opt_i64 : reply → RedisError + option Z;
  as_i64 : reply → RedisError + Z;
  as_bool : reply → RedisError + bool;
  as_scan : reply → RedisError + Z * list string;

  exec_ok c t s r s' : exec c t s = (inr r, s') →
    answers glob c t (peek s) r ∧ view_from t (peek s') (effect c t (peek s));
  exec_err c t s e s' : exec c t s = (inl e, s') →
    view_from t (peek s') (peek s) ∨ view_from t (peek s') (effect c t (peek s));
  exec_healthy c t s : healthy s → accepted_cmd c t (peek s) →
    ∃ r s', exec c t s = (inr r, s') ∧ healthy s';
  peek_timed s : timed (peek s);
  glob_prefix p k : plain p = true → glob (p +:+ "*") k = String.prefix p k;

  as_opt_string_nil : as_opt_string RNil = inr None;
  as_opt_string_bulk x : as_opt_string (RBulk x) = inr (Some x);
  as_opt_string_ok : as_opt_string ROk = inr (Some "OK");
  as_opt_i64_nil : as_opt_i64 RNil = inr None;
  as_opt_i64_bulk x z : parse_i64 x = Some z → as_opt_i64 (RBulk x) = inr (Some z);
  as_i64_int n : I64_MIN ≤ n ≤ I64_MAX → as_i64 (RInt n) = inr n;
  as_bool_int n : as_bool (RInt n) = inr (negb (n =? 0));
  as_scan_scan n ks : as_scan (RScan n ks) = inr (n, ks)
}.

#[export] Hint Rewrite @as_opt_string_nil @as_opt_string_bulk @as_opt_string_ok
  @as_opt_i64_nil @as_bool_int @as_scan_scan : prm_rw.

(** ** Running commands

    [clk] is the clock: its [i]-th value is what the [i]-th reading of the time
    by this process yields, a command being executed at such an instant. *)
Record renv (R : Type) := mkRenv { re_state : R; re_tick : nat }.
Arguments mkRenv {R} _ _.
Arguments re_state {R} _.
Arguments re_tick {R} _.

Section run.
Context {R : Type} `{!RedisServer R} (clk : nat → DateTime).

Definition now_of (w : renv R) : DateTime := clk (re_tick w).

Definition redis (c : rcmd) : M (renv R) RedisError reply := λ w,
  let '(r, s') := exec c (now_of w) (re_state w) in
  (match r with inl e => Err e | inr r => Ok r end, mkRenv s' (S (re_tick w))).

(** [query_async::<T>] followed by [?]. *)
Definition decode {A} (f : reply → RedisError + A) (r : reply) : M (renv R) RedisError A :=
  match f r with inl e => fail e | inr a => mret a end.

(** [Utc::now()]. *)
Definition utc_now {E} : M (renv R) E DateTime := λ w,
  (Ok (now_of w), mkRenv (re_state w) (S (re_tick w))).

(** ** Lemmas *)
Definition sees (w : renv R) : view := peek (re_state w).
End run.

#[export] Instance view_from_equiv t : Equivalence (view_from t).
Proof.
  split; unfold view_from.
  - done.
  - intros v v' H t' k Ht. symmetry. by apply H.
  - intros v1 v2 v3 H1 H2 t' k Ht. rewrite H1 by done. by apply H2.
Qed.

Lemma view_from_later t t' v v' : t ≤ t' → view_from t v v' → view_from t' v v'.
Proof. intros Ht H u k Hu. apply H. lia. Qed.

(** A command's effect depends only on what is seen from its instant on. *)
#[export] Instance effect_proper c t : Proper (view_from t ==> view_from t) (effect c t).
Proof.
  intros v v' H u k Hu. pose proof (λ k', H t k' ltac:(lia)) as Ht.
  pose proof (H u k Hu) as Huk.
  destruct c; cbn; unfold set_key; rewrite <-?Ht; repeat case_match; try done.
  all: subst; congruence.
Qed.

Lemma set_key_eq v k f t' : set_key v k f t' k = f t'.
Proof. unfold set_key. by rewrite decide_True. Qed.

Lemma set_key_ne v k k' f t' : k' ≠ k → set_key v k f t' k' = v t' k'.
Proof. intros. unfold set_key. by rewrite decide_False. Qed.

Lemma until_before d x t : t < d → until d x t = Some x.
Proof. intros. unfold until. by rewrite (proj2 (Z.ltb_lt _ _)). Qed.

Lemma until_after d x t : d ≤ t → until d x t = None.
Proof. intros. unfold until. by rewrite (proj2 (Z.ltb_ge _ _)). Qed.

(** The keys a command can change. *)
Definition writes (c : rcmd) : list string :=
  match c with
  | SET k _ _ | SETNX k _ _ | INCRBY k _ | EXPIRE k _ => [k]
  | DEL ks => ks
  | GET _ | EXISTS _ | SCAN _ _ _ => []
  end.

Lemma effect_frame c t v t' k : k ∉ writes c → effect c t v t' k = v t' k.
Proof.
  intros Hk. destruct c; cbn in *; repeat case_match; try done;
    try (apply set_key_ne; set_solver).
Qed.

Section run_lemmas.
Context {R : Type} `{!RedisServer R} (clk : nat → DateTime).
Implicit Types w : renv R.

Lemma redis_ok c w r w' :
  redis clk c w = (Ok r, w') →
  answers glob c (now_of clk w) (sees w) r ∧
  view_from (now_of clk w) (sees w') (effect c (now_of clk w) (sees w)) ∧
  re_tick w' = S (re_tick w).
Proof.
  unfold redis. destruct (exec c (now_of clk w) (re_state w)) as [[e|r'] s'] eqn:E; [done|].
  intros [= -> <-]. destruct (exec_ok _ _ _ _ _ E) as [Ha Hv]. done.
Qed.

(** A command leaves a key it does not write as it was, whatever its outcome. *)
Lemma redis_frame c w o w' k :
  redis clk c w = (o, w') → k ∉ writes c →
  re_tick w' = S (re_tick w) ∧ ∀ t', now_of clk w ≤ t' → sees w' t' k = sees w t' k.
Proof.
  unfold redis. destruct (exec c (now_of clk w) (re_state w)) as [[e|r'] s'] eqn:E;
    intros [= _ <-] Hk; (split; [done|]); intros t' Ht'; unfold sees; cbn.
  - destruct (exec_err _ _ _ _ _ E) as [Hv|Hv]; rewrite Hv by done; [done|].
    by apply effect_frame.
  - destruct (exec_ok _ _ _ _ _ E) as [_ Hv]. rewrite Hv by done. by apply effect_frame.
Qed.

Lemma decode_ok {A} (f : reply → RedisError + A) r a w w' :
  decode f r w = (Ok a, w') ↔ f r = inr a ∧ w = w'.
Proof. unfold decode. destruct (f r); cbn; rewrite ?fail_ok, ?ret_ok; naive_solver. Qed.

Lemma utc_now_ok {E} t w w' :
  (utc_now clk : M (renv R) E DateTime) w = (Ok t, w') ↔
    t = now_of clk w ∧ w' = mkRenv (re_state w) (S (re_tick w)).
Proof. unfold utc_now. naive_solver. Qed.

Lemma redis_healthy c w :
  healthy (re_state w) → accepted_cmd c (now_of clk w) (sees w) →
  ∃ r w', redis clk c w = (Ok r, w') ∧ healthy (re_state w') ∧
    answers glob c (now_of clk w) (sees w) r ∧
    view_from (now_of clk w) (sees w') (effect c (now_of clk w) (sees w)) ∧
    re_tick w' = S (re_tick w).
Proof.
  intros Hh Ha. destruct (exec_healthy c (now_of clk w) (re_state w) Hh Ha) as (r & s' & E & Hh').
  destruct (exec_ok _ _ _ _ _ E) as [Hans Hv].
  exists r, (mkRenv s' (S (re_tick w))). unfold redis. by rewrite E.
Qed.

(** *** Programs that keep keys

    [keeps P m]: whatever [m] does and however it ends, the keys in [P] show
    what they would have shown without it. *)
Definition keeps {E A} (P : string → Prop) (m : M (renv R) E A) : Prop := ∀ w,
  (re_tick w ≤ re_tick (m w).2)%nat ∧
  ∀ t' k, P k → now_of clk (m w).2 ≤ t' → sees (m w).2 t' k = sees w t' k.

(** Any programs that keep [P], one after the other. *)
Inductive steps (P : string → Prop) : renv R → renv R → Prop :=
  | steps_refl w : steps P w w
  | steps_run {E A} (m : M (renv R) E A) w w2 :
      keeps P m → steps P (m w).2 w2 → steps P w w2.

Section keeps.
Hypothesis Hclk : ∀ n m, (n ≤ m)%nat → clk n ≤ clk m.
Context (P : string → Prop).

Lemma keeps_redis c : (∀ k, P k → k ∉ writes c) → keeps P (redis clk c).
Proof.
  intros HP w. destruct (redis clk c w) as [o w'] eqn:E. cbn.
  assert (re_tick w' = S (re_tick w)) as Ht.
  { unfold redis in E. destruct (exec _ _ _). by injection E as _ <-. }
  split; [lia|]. intros t' k Hk Ht'.
  apply (redis_frame _ _ _ _ k) in E as [_ H]; [|by apply HP]. apply H.
  unfold now_of in *. rewrite Ht in Ht'. pose proof (Hclk (re_tick w) (S (re_tick w)) ltac:(lia)). lia.
Qed.

Lemma keeps_ret {E A} (a : A) : keeps P (mret a : M (renv R) E A).
Proof. intros w. cbn. split; [lia|done]. Qed.
Lemma keeps_fail {E A} (e : E) : keeps P (fail e : M (renv R) E A).
Proof. intros w. cbn. split; [lia|done]. Qed.
Lemma keeps_panic {E A} : keeps P (panic : M (renv R) E A).
Proof. intros w. cbn. split; [lia|done]. Qed.
Lemma keeps_lift_arith {E A} (o : option A) : keeps P (lift_arith o : M (renv R) E A).
Proof. destruct o; [apply keeps_ret|apply keeps_panic]. Qed.
Lemma keeps_decode {A} (f : reply → RedisError + A) r : keeps P (decode f r : M (renv R) RedisError A).
Proof. unfold decode. destruct (f r); [apply keeps_fail|apply keeps_ret]. Qed.
Lemma keeps_utc_now {E} : keeps P (utc_now clk : M (renv R) E DateTime).
Proof. intros w. cbn. split; [lia|done]. Qed.

Lemma keeps_bind {E A B} (m : M (renv R) E A) (f : A → M (renv R) E B) :
  keeps P m → (∀ a, keeps P (f a)) → keeps P (m ≫= f).
Proof.
  intros Hm Hf w. specialize (Hm w). unfold mbind, M_bind.
  destruct (m w) as [[a|e|] w1]; cbn in *; [|done|done].
  destruct Hm as [Ht1 H1], (Hf a w1) as [Ht2 H2]. split; [lia|]. intros t' k Hk Ht'.
  rewrite H2, H1 by first [done | unfold now_of in *;
    pose proof (Hclk (re_tick w1) _ Ht2); lia]. done.
Qed.

Lemma keeps_map_err {E E' A} (f : E → E') (m : M (renv R) E A) : keeps P m → keeps P (map_err f m).
Proof. intros Hm w. specialize (Hm w). unfold map_err. by destruct (m w) as [[a|e|] w1]. Qed.
Lemma keeps_attempt {E E' A} (m : M (renv R) E A) :
  keeps P m → keeps P (attempt m : M (renv R) E' (E + A)).
Proof. intros Hm w. specialize (Hm w). unfold attempt. by destruct (m w) as [[a|e|] w1]. Qed.

Lemma keeps_run {E A} (m : M (renv R) E A) w o w' :
  keeps P m → m w = (o, w') →
  (re_tick w ≤ re_tick w')%nat ∧ ∀ t' k, P k → now_of clk w' ≤ t' → sees w' t' k = sees w t' k.
Proof. intros Hm E1. specialize (Hm w). by rewrite E1 in Hm. Qed.

Lemma steps_sees w w' :
  steps P w w' →
  (re_tick w ≤ re_tick w')%nat ∧ now_of clk w ≤ now_of clk w' ∧
  ∀ t' k, P k → now_of clk w' ≤ t' → sees w' t' k = sees w t' k.
Proof.
  induction 1 as [w|E A m w w2 Hm _ (Ht & Hn & IH)]; [by split_and!|].
  destruct (Hm w) as [Ht1 H1]. pose proof (Hclk _ _ Ht1). unfold now_of in *.
  split_and!; [lia|lia|]. intros t' k Hk Ht'. rewrite IH, H1 by first [done | lia]. done.
Qed.
End keeps.
End run_lemmas.

Create HintDb keeps discriminated.
#[export] Hint Resolve keeps_ret keeps_fail keeps_panic keeps_lift_arith keeps_decode keeps_utc_now
  keeps_map_err keeps_attempt : keeps.

(** Proves [keeps P m] by the shape of [m]; [side] proves that [P] excludes the
    keys of a command. *)
Ltac keeps_tac side :=
  repeat match goal with
  | |- keeps _ _ (mbind _ _) => apply keeps_bind; [assumption| |intros ?]
  | |- keeps _ _ (redis _ _) => apply keeps_redis; [assumption|side]
  | |- keeps _ _ (map_err _ _) => apply keeps_map_err
  | |- keeps _ _ (attempt _) => apply keeps_attempt
  | |- keeps _ _ (if ?b then _ else _) => destruct b
  | |- keeps _ _ (match ?x with _ => _ end) => destruct x
  | |- keeps _ _ _ => solve [auto with keeps]
  end.

Ltac minv_redis H :=
  first
    [ rewrite decode_ok in H; let H1 := fresh "Hdec" in destruct H as [H1 <-]
    | rewrite utc_now_ok in H; let H1 := fresh "Hnow" in destruct H as [H1 ->] ].
Ltac minv_hook H ::= minv_redis H.

(** ** An in-memory server

    Keys with an optional deadline, and a script of faults: while the script
    starts with [true], the next command fails without effect. *)
Record MemRedis := mkMemRedis {
  mem : gmap string (string * option DateTime);
  faults : list bool
}.

Definition mem_peek (s : MemRedis) : view := λ t k,
  match mem s !! k with
  | Some (x, None) => Some x
  | Some (x, Some d) => if t <? d then Some x else None
  | None => None
  end.

Definition mem_live (s : MemRedis) (t : DateTime) : list string :=
  filter (λ k, is_Some (mem_peek s t k)) (map_to_list (mem s)).*1.

Fixpoint mem_prefix_glob (pattern k : string) : bool :=
  match pattern, k with
  | String "*"%char EmptyString, _ => true
  | String c p, String d k' => Ascii.eqb c d && mem_prefix_glob p k'
  | EmptyString, EmptyString => true
  | _, _ => false
  end.

Definition mem_set (s : MemRedis) k x d : MemRedis := mkMemRedis (<[k := (x, d)]> (mem s)) (faults s).

Definition mem_run (c : rcmd) (t : DateTime) (s : MemRedis) : (RedisError + reply) * MemRedis :=
  match c with
  | SET k x ex => (inr ROk, mem_set s k x (Some (t + secs ex)))
  | SETNX k x ex =>
      match mem_peek s t k with
      | Some _ => (inr RNil, s)
      | None => (inr ROk, mem_set s k x (Some (t + secs ex)))
      end
  | GET k => (inr (match mem_peek s t k with Some x => RBulk x | None => RNil end), s)
  | INCRBY k n =>
      match counter (mem_peek s t k) with
      | Some z =>
          if fits I64_MIN I64_MAX n && fits I64_MIN I64_MAX (z + n) then
            (inr (RInt (z + n)),
             mem_set s k (show (z + n))
               (match mem_peek s t k with
                | Some _ => mem s !! k ≫= snd
                | None => None
                end))
          else (inl (mkRedisError "ERR increment or decrement would overflow"), s)
      | None => (inl (mkRedisError "ERR value is not an integer or out of range"), s)
      end
  | EXPIRE k n =>
      match mem_peek s t k with
      | Some x => (inr (RInt 1), mem_set s k x (Some (t + secs n)))
      | None => (inr (RInt 0), s)
      end
  | DEL ks =>
      (inr (RInt (Z.of_nat (length (filter (λ k, is_Some (mem_peek s t k)) ks)))),
       mkMemRedis (foldr delete (mem s) ks) (faults s))
  | EXISTS k => (inr (RInt (match mem_peek s t k with Some _ => 1 | None => 0 end)), s)
  | SCAN _ p _ => (inr (RScan 0 (filter (λ k, mem_prefix_glob p k = true) (mem_live s t))), s)
  end.

Definition mem_exec (c : rcmd) (t : DateTime) (s : MemRedis) : (RedisError + reply) * MemRedis :=
  match faults s with
  | true :: f => (inl (mkRedisError "connection lost"), mkMemRedis (mem s) f)
  | false :: f => mem_run c t (mkMemRedis (mem s) f)
  | [] => mem_run c t s
  end.

Lemma mem_peek_set s k x d t' k' :
  mem_peek (mem_set s k x d) t' k' =
    if decide (k' = k) then match d with None => Some x | Some d => until d x t' end
    else mem_peek s t' k'.
Proof.
  unfold mem_peek, mem_set; cbn. destruct (decide (k' = k)) as [->|Hne].
  - rewrite lookup_insert_eq. by destruct d.
  - by rewrite lookup_insert_ne.
Qed.

Lemma mem_peek_delete s ks f t' k' :
  mem_peek (mkMemRedis (foldr delete (mem s) ks) f) t' k' =
    if decide (k' ∈ ks) then None else mem_peek s t' k'.
Proof.
  unfold mem_peek; cbn. case_decide as Hk.
  - by rewrite lookup_foldr_delete.
  - by rewrite lookup_foldr_delete_not_elem_of.
Qed.

Lemma mem_peek_timed s : timed (mem_peek s).
Proof.
  intros t t' k Ht. unfold mem_peek. destruct (mem s !! k) as [[x [d|]]|]; auto.
  destruct (Z.ltb_spec t d), (Z.ltb_spec t' d); auto; lia.
Qed.

Lemma mem_prefix_glob_prefix p : ∀ k,
  plain p = true → mem_prefix_glob (p +:+ "*") k = String.prefix p k.
Proof.
  induction p as [|c p IH]; intros k Hp.
  - by destruct k.
  - cbn in Hp. apply andb_true_iff in Hp as [Hc Hp].
    change (String c p +:+ "*") with (String c (p +:+ "*")).
    destruct k as [|d k].
    { destruct c as [[] [] [] [] [] [] [] []]; try done; by destruct p. }
    transitivity (Ascii.eqb c d && mem_prefix_glob (p +:+ "*") k).
    { destruct c as [[] [] [] [] [] [] [] []]; try done. }
    rewrite IH by done. cbn. destruct (ascii_dec c d) as [->|Hne].
    + by rewrite Ascii.eqb_refl.
    + by rewrite (proj2 (Ascii.eqb_neq _ _)).
Qed.

Lemma mem_run_faults c t s r s' : mem_run c t s = (r, s') → faults s' = faults s.
Proof. destruct c; cbn; repeat case_match; intros [= _ <-]; done. Qed.

Lemma mem_run_ok c t s r s' :
  mem_run c t s = (inr r, s') →
  answers mem_prefix_glob c t (mem_peek s) r ∧
  view_from t (mem_peek s') (effect c t (mem_peek s)).
Proof.
  destruct c as [k x ex|k x ex|k|k n|k n|ks|k|cu p n]; cbn [mem_run answers effect].
  - intros [= <- <-]. split; [done|]. intros t' k' _. rewrite mem_peek_set. done.
  - destruct (mem_peek s t k) eqn:E; intros [= <- <-]; (split; [done|]); [done|].
    intros t' k' _. rewrite mem_peek_set. done.
  - intros [= <- <-]. done.
  - destruct (counter (mem_peek s t k)) as [z|] eqn:Ec; [|done].
    destruct (fits I64_MIN I64_MAX n && _) eqn:Ef; [|done].
    apply andb_true_iff in Ef as [Hn Hz]. apply fits_spec in Hn, Hz.
    intros [= <- <-]. split; [by exists z|]. intros t' k' Ht'. rewrite mem_peek_set.
    unfold set_key. destruct (mem_peek s t k) as [cur|] eqn:E; cbn in Ec.
    + rewrite Ec. case_decide; [|done]. subst k'. unfold mem_peek in E |- *.
      destruct (mem s !! k) as [[y [d|]]|]; cbn; try done. unfold until. by destruct (t' <? d).
    + injection Ec as <-. rewrite Z.add_0_l. by case_decide.
  - destruct (mem_peek s t k) as [x|] eqn:E; intros [= <- <-]; (split; [done|]); [|done].
    intros t' k' _. rewrite mem_peek_set. done.
  - intros [= <- <-]. split; [by eexists|]. intros t' k' _. apply mem_peek_delete.
  - intros [= <- <-]. done.
  - intros [= <- <-]. split; [|done]. do 2 eexists. split; [done|].
    apply Forall_forall. intros k. rewrite list_elem_of_filter. unfold mem_live.
    rewrite list_elem_of_filter. naive_solver.
Qed.

Definition mem_type_error : RedisError := mkRedisError "type".
Definition mem_opt_string (r : reply) : RedisError + option string :=
  match r with
  | RNil => inr None | RBulk x => inr (Some x) | ROk => inr (Some "OK")
  | _ => inl mem_type_error
  end.
Definition mem_opt_i64 (r : reply) : RedisError + option Z :=
  match r with
  | RNil => inr None
  | RBulk x => match parse_i64 x with Some z => inr (Some z) | None => inl mem_type_error end
  | _ => inl mem_type_error
  end.
Definition mem_i64 (r : reply) : RedisError + Z :=
  match r with RInt n => inr n | _ => inl mem_type_error end.
Definition mem_bool (r : reply) : RedisError + bool :=
  match r with RInt n => inr (negb (n =? 0)) | _ => inl mem_type_error end.
Definition mem_scan (r : reply) : RedisError + Z * list string :=
  match r with RScan n ks => inr (n, ks) | _ => inl mem_type_error end.

#[local] Obligation Tactic := idtac.
#[export] Program Instance MemRedis_server : RedisServer MemRedis := {|
  exec := mem_exec;
  peek := mem_peek;
  healthy s := faults s = [];
  glob := mem_prefix_glob;
  as_opt_string := mem_opt_string;
  as_opt_i64 := mem_opt_i64;
  as_i64 := mem_i64;
  as_bool := mem_bool;
  as_scan := mem_scan
|}.
Next Obligation.
  intros c t [m [|[] f]] r s' H; cbn in *; [|done|]; apply (mem_run_ok _ _ _ _ _ H).
Qed.
Next Obligation.
  intros c t [m [|[] f]] e s' H; cbn in *.
  - left. destruct c; cbn in H; repeat case_match; by simplify_eq.
  - by left; simplify_eq.
  - left. destruct c; cbn in H; repeat case_match; by simplify_eq.
Qed.
Next Obligation.
  intros c t [m f] Hf Ha; cbn in *; subst f.
  destruct (mem_run c t (mkMemRedis m [])) as [[e|r] s'] eqn:E.
  - exfalso. destruct c as [k x ex|k x ex|k|k n|k n|ks|k|cu p n]; cbn in *;
      try (repeat case_match; by simplify_eq).
    destruct Ha as (z & Hz & Hn & Hzn). rewrite Hz in E.
    by rewrite (proj2 (fits_spec _ _ n)), (proj2 (fits_spec _ _ (z + n))) in E.
  - exists r, s'. split; [done|]. by apply mem_run_faults in E.
Qed.
Next Obligation. apply mem_peek_timed. Qed.
Next Obligation. apply mem_prefix_glob_prefix. Qed.
Next Obligation. done. Qed.
Next Obligation. done. Qed.
Next Obligation. done. Qed.
Next Obligation. done. Qed.
Next Obligation. intros x z H. cbn. by rewrite H. Qed.
Next Obligation. done. Qed.
Next Obligation. done. Qed.
Next Obligation. done. Qed.
