(* ===== verification/RateLimiter.v ===== *)
(** * crates/rate-limiter/src/lib.rs: fixed-window rate limits over Redis *)
From S2P Require Import Prelude Common Redis.

Definition WALLET_LIMIT : Z := 100.
Definition WALLET_WINDOW_SECS : Z := 86400.
Definition IP_LIMIT : Z := 200.
Definition IP_WINDOW_SECS : Z := 3600.
Definition NODE_LIMIT : Z := 1000.
Definition NODE_WINDOW_SECS : Z := 60.

Inductive RateLimitResult :=
  | Allowed
  | Denied (limit window_secs : Z).
#[export] Instance RateLimitResult_eq_dec : EqDecision RateLimitResult .
Proof. solve_decision. Defined.

Inductive RateLimiterError := RateLimiter_Redis (e : RedisError).
#[export] Instance RateLimiterError_display : Display RateLimiterError := λ '(RateLimiter_Redis e),
  "redis error: " +:+ display e.
#[export] Instance RateLimiterError_error : StdError RateLimiterError := λ '(RateLimiter_Redis e), Some (display e).
#[export] Instance RateLimiterError_from_redis : From RedisError RateLimiterError := RateLimiter_Redis.
#[export] Instance RateLimiterError_telling : Telling RateLimiterError.
Proof. telling_tac. Qed.

(** [new]: the limiter is its connection. *)
Definition rate_limiter_new {W Client} `{!RedisConnect W Client} (url : string) : M W RateLimiterError unit :=
  client ← map_err from (of_sum (client_open url));
  map_err from (of_call (get_multiplexed_async_connection client)).

Section limiter.
Context {R : Type} `{!RedisServer R} (clk : nat → DateTime).
(** [Display] of an address (EIP-55 text), from [alloy_primitives]. *)
Context (address_display : Address → string).

Definition RL : Type → Type := M (renv R) RateLimiterError.

(** [check]: the expiry is set by a second command, only on the first count. *)
Definition check (key : string) (limit window_secs : Z)
    : M (renv R) RateLimiterError RateLimitResult :=
  map_err RateLimiter_Redis (
    r ← redis clk (INCRBY key 1);
    count ← decode as_i64 r;
    (if count =? 1 then _ ← redis clk (EXPIRE key window_secs); mret tt else mret tt) ;;
    mret (if limit <? count then Denied limit window_secs else Allowed)).

Definition wallet_key (wallet : Address) : string := "rate:wallet:" +:+ address_display wallet.
Definition ip_key (ip : string) : string := "rate:ip:" +:+ ip.
Definition node_key (node_id : NodeId) : string := "rate:node:" +:+ node_id.

Definition check_wallet (wallet : Address) : M (renv R) RateLimiterError RateLimitResult :=
  check (wallet_key wallet) WALLET_LIMIT WALLET_WINDOW_SECS.

Definition check_ip (ip : string) : M (renv R) RateLimiterError RateLimitResult :=
  check (ip_key ip) IP_LIMIT IP_WINDOW_SECS.

Definition check_node (node_id : NodeId) : M (renv R) RateLimiterError RateLimitResult :=
  check (node_key node_id) NODE_LIMIT NODE_WINDOW_SECS.

Definition reset (key : string) : M (renv R) RateLimiterError unit :=
  map_err RateLimiter_Redis (_ ← redis clk (DEL [key]); mret tt).

(** ** A run of the limiter on one key

    Checks that complete, interleaved with any commands (of this process or
    another) that do not write the key; [rs] collects the verdicts. *)
Inductive rl_trace (key : string) (limit window : Z)
    : renv R → list RateLimitResult → renv R → Prop :=
  | rl_done w : rl_trace key limit window w [] w
  | rl_check w w1 w2 r rs :
      check key limit window w = (Ok r, w1) →
      rl_trace key limit window w1 rs w2 →
      rl_trace key limit window w (r :: rs) w2
  | rl_other c o w w1 w2 rs :
      redis clk c w = (o, w1) → key ∉ writes c →
      rl_trace key limit window w1 rs w2 →
      rl_trace key limit window w rs w2.

(** The verdict on the [i]-th request counted in a window (from zero). *)
Definition verdict (limit window : Z) (i : nat) : RateLimitResult :=
  if Z.of_nat i <? limit then Allowed else Denied limit window.

(** ** Lemmas *)

(** From now on the key holds the count [i], until the deadline if there is one. *)
Definition lives (o : option DateTime) (x : string) : DateTime → option string :=
  match o with None => λ _, Some x | Some d => until d x end.
Definition counted (key : string) (i : nat) (o : option DateTime) (w : renv R) : Prop :=
  (i = 0%nat → o = None) ∧
  Z.of_nat i ≤ I64_MAX ∧
  ∀ t', now_of clk w ≤ t' →
    sees w t' key = if decide (i = 0%nat) then None else lives o (show (Z.of_nat i)) t'.

Definition not_past (w : renv R) (o : option DateTime) : Prop :=
  match o with None => True | Some d => now_of clk w < d end.

Lemma counted_absent key w : sees w (now_of clk w) key = None → counted key 0 None w.
Proof.
  intros H. split_and!; [done|lia|]. intros t' Ht. rewrite decide_True by done.
  unfold sees in *. destruct (peek_timed (re_state w) _ t' key Ht) as [Hp|Hp]; congruence.
Qed.

Lemma counted_other key i o c out w w' :
  (∀ n m, (n ≤ m)%nat → clk n ≤ clk m) →
  counted key i o w → redis clk c w = (out, w') → key ∉ writes c → counted key i o w'.
Proof.
  intros Hclk (H0 & Hi & Hc) Hr Hw. unfold redis in Hr.
  destruct (exec c (now_of clk w) (re_state w)) as [[e|r] s'] eqn:E; injection Hr as _ <-.
  all: split_and!; [done|done|].
  all: intros t' Ht'; unfold now_of in Ht'; cbn in Ht'.
  all: pose proof (Hclk (re_tick w) (S (re_tick w)) ltac:(lia)) as Hmono.
  all: rewrite <-Hc by (unfold now_of; lia); unfold sees; cbn [re_state].
  - destruct (exec_err _ _ _ _ _ E) as [Hv|Hv]; rewrite Hv by (unfold now_of; lia); [done|].
    by apply effect_frame.
  - destruct (exec_ok _ _ _ _ _ E) as [_ Hv]. rewrite Hv by (unfold now_of; lia).
    by apply effect_frame.
Qed.

Lemma show_counter i : (0 ≤ i ≤ I64_MAX) → parse_i64 (show i) = Some i.
Proof. intros. unfold parse_i64. apply parse_i_show; lia. Qed.

(** One completed check. *)
Lemma check_counted key limit window i o w r w' :
  (∀ n m, (n ≤ m)%nat → clk n ≤ clk m) →
  counted key i o w → not_past w o →
  check key limit window w = (Ok r, w') →
  r = verdict limit window i ∧
  (∃ o', counted key (S i) o' w' ∧
     o' = (if decide (i = 0%nat) then Some (clk (S (re_tick w)) + secs window) else o)) ∧
  (re_tick w < re_tick w')%nat.
Proof.
  intros Hclk (H0 & Hi & Hc) Hp Hck. unfold check in Hck. minv Hck.
  apply redis_ok in Hm as (Ha & Hv & Ht1).
  cbn [answers] in Ha. destruct Ha as (z & Hz & -> & _ & Hrange).
  rewrite as_i64_int in Hdec by lia. injection Hdec as <-. subst r.
  pose proof (Hclk (re_tick w) (S (re_tick w)) ltac:(lia)) as Hmono1.
  rewrite Hc in Hz by done.
  assert (z = Z.of_nat i) as ->.
  { case_decide as Hi0; [subst; by injection Hz as <-|].
    assert (lives o (show (Z.of_nat i)) (now_of clk w) = Some (show (Z.of_nat i))) as Hl.
    { destruct o as [d|]; cbn; [by apply until_before|done]. }
    rewrite Hl in Hz. cbn [counter] in Hz. rewrite show_counter in Hz by lia. congruence. }
  assert (Hv1 : ∀ t', now_of clk w0 ≤ t' → sees w0 t' key = lives o (show (Z.of_nat (S i))) t').
  { intros t' Ht'. unfold now_of in Ht'. rewrite Ht1 in Ht'.
    rewrite Hv by (unfold now_of; lia). cbn [effect].
    rewrite Hc by done. case_decide as Hi0.
    - rewrite set_key_eq. rewrite (H0 Hi0). subst i. done.
    - assert (lives o (show (Z.of_nat i)) (now_of clk w) = Some (show (Z.of_nat i))) as Hl.
      { destruct o as [d|]; cbn; [by apply until_before|done]. }
      rewrite Hl, show_counter by lia. rewrite set_key_eq.
      rewrite Hc by (unfold now_of; lia).
      replace (Z.of_nat i + 1) with (Z.of_nat (S i)) by lia.
      destruct o as [d|]; cbn; unfold until; [by destruct (t' <? d)|done]. }
  split; [unfold verdict; destruct (Z.ltb_spec limit (Z.of_nat i + 1)), (Z.ltb_spec (Z.of_nat i) limit);
          first [done | lia]|].
  destruct (Z.eqb_spec (Z.of_nat i + 1) 1) as [Hone|Hone].
  - assert (i = 0%nat) as -> by lia. minv Hm0. match goal with H : redis clk (EXPIRE _ _) _ = _ |- _ => apply redis_ok in H as (_ & Hv2 & Ht2) end.
    pose proof (Hclk (S (re_tick w)) (S (S (re_tick w))) ltac:(lia)) as Hmono2.
    split; [|lia]. eexists. split; [|done]. split_and!; [done|lia|].
    intros t' Ht'. unfold now_of in Ht'. rewrite Ht2, Ht1 in Ht'.
    rewrite Hv2 by (unfold now_of; rewrite Ht1; lia). cbn [effect].
    rewrite Hv1 by done. rewrite (H0 eq_refl). cbn [lives].
    rewrite set_key_eq. unfold now_of. by rewrite Ht1.
  - minv Hm0. split; [|lia]. exists o. rewrite decide_False by lia. split; [|done].
    split_and!; [lia|lia|]. intros t' Ht'. by rewrite Hv1.
Qed.

Lemma trace_tick key limit window w rs w' :
  rl_trace key limit window w rs w' → (re_tick w ≤ re_tick w')%nat.
Proof.
  induction 1 as [|w w1 w2 r rs Hck Htr IH|c out w w1 w2 rs Hr Hk Htr IH]; [done| |].
  - unfold check in Hck. minv Hck. apply redis_ok in Hm as (_ & _ & Ht1).
    destruct (_ =? 1); minv Hm0; [|lia]. match goal with H : redis clk (EXPIRE _ _) _ = _ |- _ => apply redis_ok in H as (_ & _ & Ht2) end. lia.
  - unfold redis in Hr. destruct (exec _ _ _). injection Hr as _ <-. cbn in IH. lia.
Qed.

(** A trace counts: from [i] requests on, and with a deadline beyond its end. *)
Lemma trace_counted key limit window w rs w' :
  (∀ n m, (n ≤ m)%nat → clk n ≤ clk m) →
  rl_trace key limit window w rs w' →
  ∀ i o, counted key i o w →
    (∀ d, o = Some d → now_of clk w' < d) →
    (i = 0%nat → now_of clk w' < now_of clk w + secs window) →
    ∀ n r, rs !! n = Some r → r = verdict limit window (i + n).
Proof.
  intros Hclk Htr. induction Htr as [|w w1 w2 r rs Hck Htr IH|c out w w1 w2 rs Hr Hk Htr IH];
    intros i o Hc Hd H0 n r' Hn; [done| |].
  - pose proof (trace_tick _ _ _ _ _ _ Htr) as Ht2.
    assert (not_past w o) as Hp.
    { destruct o as [d|]; cbn; [|done]. specialize (Hd d eq_refl).
      eapply Z.le_lt_trans; [|exact Hd]. apply Hclk.
      assert (re_tick w ≤ re_tick w1)%nat as Ht1
        by (eapply trace_tick, rl_check; [exact Hck|constructor]).
      lia. }
    destruct (check_counted _ _ _ _ _ _ _ _ Hclk Hc Hp Hck) as (-> & (o' & Hc' & ->) & Ht1).
    destruct n as [|n]; cbn in Hn; [injection Hn as <-; f_equal; lia|].
    replace (i + S n)%nat with (S i + n)%nat by lia. apply (IH _ _ Hc'); [|lia|done].
    intros d Hd'. case_decide as Hi0; [|by apply Hd]. injection Hd' as <-.
    specialize (H0 Hi0). unfold now_of in H0 at 2.
    pose proof (Hclk (re_tick w) (S (re_tick w)) ltac:(lia)). lia.
  - pose proof (counted_other _ _ _ _ _ _ _ Hclk Hc Hr Hk) as Hc'.
    apply (IH _ _ Hc'); try done. intros Hi0. specialize (H0 Hi0).
    assert (now_of clk w ≤ now_of clk w1); [|lia].
    unfold redis in Hr. destruct (exec _ _ _). injection Hr as _ <-. apply Hclk. cbn. lia.
Qed.

(** A check writes its own key only, whatever its outcome. *)
Lemma check_keeps key limit window :
  (∀ n m, (n ≤ m)%nat → clk n ≤ clk m) → keeps clk (λ k, k ≠ key) (check key limit window).
Proof. intros Hclk. unfold check. keeps_tac ltac:(cbn; set_solver). Qed.

Lemma wallet_ip_ne wallet ip : wallet_key wallet ≠ ip_key ip.
Proof. discriminate. Qed.
Lemma wallet_node_ne wallet n : wallet_key wallet ≠ node_key n.
Proof. discriminate. Qed.
Lemma ip_node_ne ip n : ip_key ip ≠ node_key n.
Proof. discriminate. Qed.

(** ** The limiter as an abstract fixed-window counter

    A window is a count and a deadline. A request at [t] is numbered in the live
    window, or opens one with its deadline [window] after the time [t'] of the
    second command. *)
Definition Window : Type := option (nat * DateTime).
Definition live_count (t : DateTime) (s : Window) : option (nat * DateTime) :=
  '(n, d) ← s; if t <? d then Some (n, d) else None.
Definition spec_check (limit window : Z) (at_ : DateTime * DateTime) (s : Window) : RateLimitResult * Window :=
  match live_count at_.1 s with
  | Some (n, d) => (verdict limit window n, Some (S n, d))
  | None => (verdict limit window 0, Some (1%nat, at_.2 + secs window))
  end.
Fixpoint spec_run (limit window : Z) (times : list (DateTime * DateTime)) (s : Window) : list RateLimitResult * Window :=
  match times with
  | [] => ([], s)
  | at_ :: times =>
      let '(r, s1) := spec_check limit window at_ s in
      let '(rs, s2) := spec_run limit window times s1 in (r :: rs, s2)
  end.
(** Requests one after another, between two instants. *)
Fixpoint in_order (t0 : DateTime) (times : list (DateTime * DateTime)) (t1 : DateTime) : Prop :=
  match times with
  | [] => t0 ≤ t1
  | (t, t') :: times => t0 ≤ t ∧ t ≤ t' ∧ in_order t' times t1
  end.

(** What the server holds of a window. *)
Definition represents (key : string) (s : Window) (w : renv R) : Prop :=
  match s with
  | None => counted key 0 None w
  | Some (n, d) => n ≠ 0%nat ∧ counted key n (Some d) w
  end.

Lemma represents_expired key n d w : counted key n (Some d) w → d ≤ now_of clk w → counted key 0 None w.
Proof.
  intros (Hn & _ & Hc) Hd. apply counted_absent. rewrite Hc by done. case_decide; [done|]. cbn. by apply until_after.
Qed.

(** One check is one step of the counter. *)
Lemma check_refines key limit window s w r w' :
  (∀ n m, (n ≤ m)%nat → clk n ≤ clk m) →
  represents key s w → check key limit window w = (Ok r, w') →
  ∃ s', spec_check limit window (now_of clk w, clk (S (re_tick w))) s = (r, s') ∧ represents key s' w' ∧
    (S (re_tick w) ≤ re_tick w')%nat.
Proof.
  intros Hclk Hs Hck. unfold spec_check. cbn [fst snd]. destruct (live_count (now_of clk w) s) as [[n d]|] eqn:El.
  - destruct s as [[n0 d0]|]; [|done]. cbn in El. destruct (Z.ltb_spec (now_of clk w) d0) as [Hlt|]; [|done]. injection El as -> ->.
    destruct Hs as [Hn Hc]. destruct (check_counted _ _ _ _ _ _ _ _ Hclk Hc Hlt Hck) as (-> & (o' & Hc' & ->) & Ht).
    destruct (decide (n = 0%nat)); [done|]. eexists. split; [done|]. split; [|lia]. by split.
  - assert (counted key 0 None w) as Hc.
    { destruct s as [[n0 d0]|]; [|done]. cbn in El. destruct (Z.ltb_spec (now_of clk w) d0); [done|].
      destruct Hs as [_ Hc]. by eapply represents_expired. }
    destruct (check_counted _ _ _ _ _ _ _ _ Hclk Hc I Hck) as (-> & (o' & Hc' & ->) & Ht).
    eexists. split; [done|]. split; [|lia]. by split.
Qed.

Lemma trace_refines key limit window w rs w' :
  (∀ n m, (n ≤ m)%nat → clk n ≤ clk m) →
  rl_trace key limit window w rs w' → ∀ s, represents key s w →
  ∃ times s', in_order (now_of clk w) times (now_of clk w') ∧ spec_run limit window times s = (rs, s') ∧
    represents key s' w'.
Proof.
  clear address_display.
  intros Hclk Htr. induction Htr as [w|w w1 w2 r rs Hck Htr IH|c out w w1 w2 rs Hr Hk Htr IH]; intros s Hs.
  - exists [], s. split_and!; [cbn; lia|done..].
  - destruct (check_refines _ _ _ _ _ _ _ Hclk Hs Hck) as (s1 & Hspec & Hs1 & Ht).
    destruct (IH s1 Hs1) as (times & s2 & Hord & Hrun & Hs2).
    exists ((now_of clk w, clk (S (re_tick w))) :: times), s2. cbn [in_order spec_run]. rewrite Hspec, Hrun.
    split_and!; [done|apply Hclk; lia| |done|done]. revert Hord. pose proof (Hclk _ _ Ht) as Hle. unfold now_of at 1.
    destruct times as [|[t t'] times]; cbn; [lia|]. naive_solver lia.
  - destruct (IH s) as (times & s2 & Hord & Hrun & Hs2).
    { destruct s as [[n d]|]; [destruct Hs as [? Hs]; split; [done|]|]; by eapply counted_other. }
    exists times, s2. split_and!; [|done..]. assert (now_of clk w ≤ now_of clk w1) as Hle.
    { unfold redis in Hr. destruct (exec _ _ _). injection Hr as _ <-. apply Hclk. cbn. lia. }
    destruct times as [|[t t'] times]; cbn in *; [lia|]. naive_solver lia.
Qed.

(** The requests a run of the counter allows. *)
Definition allowed (rs : list RateLimitResult) : nat :=
  length (filter (λ r, r = Allowed) rs).
Definition room (limit : Z) (s : Window) : Z := match s with Some (n, _) => Z.max 0 (limit - Z.of_nat n) | None => 0 end.
Definition opens_from (t0 : DateTime) (s : Window) : DateTime := match s with Some (_, d) => Z.max d t0 | None => t0 end.

Lemma in_order_le times : ∀ t0 t1, in_order t0 times t1 → t0 ≤ t1.
Proof.
  induction times as [|[a a'] l IH]; cbn; [done|]. intros t0 t1 (H0 & Ha & H1%IH). lia.
Qed.

Lemma allowed_cons limit window i rs :
  Z.of_nat (allowed (verdict limit window i :: rs)) = (if Z.of_nat i <? limit then 1 else 0) + Z.of_nat (allowed rs).
Proof.
  unfold allowed, verdict. rewrite filter_cons. destruct (Z.ltb_spec (Z.of_nat i) limit).
  - rewrite decide_True by done. cbn [length]. lia.
  - by rewrite decide_False by discriminate.
Qed.

Lemma spec_allowed limit window : 0 ≤ limit → 0 ≤ window → ∀ times s t0 t1,
  in_order t0 times t1 →
  ∃ k, 0 ≤ k ∧ Z.of_nat (allowed (spec_run limit window times s).1) ≤ room limit s + limit * k ∧
    (k = 0 ∨ (k - 1) * secs window ≤ t1 - opens_from t0 s).
Proof.
  intros Hl Hw. assert (0 ≤ secs window) as Hsw by (unfold secs, NANOS_PER_SEC; lia).
  induction times as [|[t t'] times IH]; intros s t0 t1 Hord; cbn [in_order spec_run] in *.
  { exists 0. split; [done|]. split; [destruct s as [[n d]|]; cbn; lia|by left]. }
  destruct Hord as (H0 & Ht & Hord). unfold spec_check. cbn [fst snd].
  destruct (live_count t s) as [[n d]|] eqn:El.
  - destruct s as [[n0 d0]|]; [|done]. cbn in El. destruct (Z.ltb_spec t d0); [|done]. injection El as -> ->.
    destruct (IH (Some (S n, d)) t' t1 Hord) as (k & Hk & Hle & Hopen). destruct (spec_run limit window times _) as [rs s2].
    exists k. cbn [fst] in *. rewrite allowed_cons. cbn [room opens_from] in *. split_and!; [done| |].
    + destruct (Z.ltb_spec (Z.of_nat n) limit); lia.
    + destruct Hopen as [->|Hopen]; [by left|right; lia].
  - destruct (IH (Some (1%nat, t' + secs window)) t' t1 Hord) as (k & Hk & Hle & Hopen).
    destruct (spec_run limit window times _) as [rs s2]. cbn [fst] in *. rewrite allowed_cons. cbn [room opens_from] in *.
    assert (opens_from t0 s ≤ t') as Hot.
    { destruct s as [[n0 d0]|]; cbn in *; [|lia]. destruct (Z.ltb_spec t d0); [done|lia]. }
    assert (t' ≤ t1) as Ht1 by by eapply in_order_le.
    exists (k + 1). split_and!; [lia| |right].
    + assert (0 ≤ room limit s) by (destruct s as [[? ?]|]; cbn; lia). destruct (Z.ltb_spec (Z.of_nat 0) limit); nia.
    + destruct Hopen as [->|Hopen]; lia.
Qed.

(** ** Properties *)

(** C11. The limiter is a fixed-window counter. Any run of completed checks of a key,
    over any number of windows and with any other commands in between that do not
    write the key, gives the verdicts of the abstract counter at the instants of the
    commands, and leaves the server holding the abstract window: its verdicts depend
    on the times and the number of the requests alone. *)
Theorem limiter_refines_counter key limit window w rs w' s :
  (∀ n m, (n ≤ m)%nat → clk n ≤ clk m) →
  rl_trace key limit window w rs w' → represents key s w →
  ∃ times s', in_order (now_of clk w) times (now_of clk w') ∧ length times = length rs ∧
    spec_run limit window times s = (rs, s') ∧ represents key s' w'.
Proof.
  intros Hclk Htr Hs. destruct (trace_refines _ _ _ _ _ _ Hclk Htr s Hs) as (times & s' & Hord & Hrun & Hs').
  exists times, s'. split_and!; try done. clear -Hrun. revert rs s s' Hrun.
  induction times as [|at_ times IH]; intros rs s s'; cbn; [by intros [= <- _]|].
  destruct (spec_check limit window at_ s) as [r s1]. destruct (spec_run limit window times s1) as [rs1 s2] eqn:E.
  intros [= <- _]. cbn. f_equal. by eapply IH.
Qed.

(** C12. What the limiter lets through in the long run. Over any run of a key, whose
    windows are not kept open by a lost expiry, at most [limit] requests are allowed
    for each whole window length that has passed, and twice [limit] besides: the
    window in progress at the start, and the one at the end. *)
Theorem limiter_rate key limit window w rs w' s :
  (∀ n m, (n ≤ m)%nat → clk n ≤ clk m) → 0 ≤ limit → 0 < window →
  rl_trace key limit window w rs w' → represents key s w →
  Z.of_nat (allowed rs) ≤ limit * ((now_of clk w' - now_of clk w) / secs window + 2).
Proof.
  intros Hclk Hl Hw Htr Hs. destruct (trace_refines _ _ _ _ _ _ Hclk Htr s Hs) as (times & s' & Hord & Hrun & _).
  destruct (spec_allowed limit window Hl ltac:(lia) times s _ _ Hord) as (k & Hk & Hle & Hopen). rewrite Hrun in Hle. cbn [fst] in Hle.
  assert (0 < secs window) as Hsw by (unfold secs, NANOS_PER_SEC; lia).
  assert (now_of clk w ≤ now_of clk w') as Hle'.
  { apply Hclk. by eapply trace_tick. }
  assert (room limit s ≤ limit) as Hr by (destruct s as [[n d]|]; cbn; lia).
  assert (k ≤ (now_of clk w' - now_of clk w) / secs window + 1) as Hkb; [|nia].
  destruct Hopen as [->|Hopen].
  - pose proof (Z.div_pos (now_of clk w' - now_of clk w) (secs window)). lia.
  - assert (k - 1 ≤ (now_of clk w' - now_of clk w) / secs window); [|lia]. apply Z.div_le_lower_bound; [done|].
    destruct s as [[n d]|]; cbn in Hopen; lia.
Qed.

(** Within one window the limiter admits exactly [limit] requests: when the
    key is absent at the start and every check completes before the window has
    passed, the [n]-th request (from zero) is allowed if and only if [n < limit],
    whatever other commands are interleaved that do not write the key. *)
Theorem fixed_window key limit window w rs w' :
  (∀ n m, (n ≤ m)%nat → clk n ≤ clk m) →
  sees w (now_of clk w) key = None →
  rl_trace key limit window w rs w' →
  now_of clk w' < now_of clk w + secs window →
  ∀ n r, rs !! n = Some r → r = verdict limit window n.
Proof.
  intros Hclk H0 Htr Hlt n r Hn.
  by apply (trace_counted _ _ _ _ _ _ Hclk Htr 0 None (counted_absent _ _ H0)).
Qed.

(** C28. The expiry is a second command: when the first request of a window
    counts but its [EXPIRE] is lost, the counter never expires; the requests of
    any later run, however much later, are numbered on from it, so that after
    [limit - 1] more the key is denied for good. *)
Theorem lost_expiry key limit window w r w1 e w2 rs w' :
  (∀ n m, (n ≤ m)%nat → clk n ≤ clk m) →
  sees w (now_of clk w) key = None →
  redis clk (INCRBY key 1) w = (Ok r, w1) →
  redis clk (EXPIRE key window) w1 = (Err e, w2) →
  view_from (now_of clk w1) (sees w2) (sees w1) →
  check key limit window w = (Err (RateLimiter_Redis e), w2) ∧
  (rl_trace key limit window w2 rs w' →
   ∀ n v, rs !! n = Some v → v = verdict limit window (S n)).
Proof.
  intros Hclk H0 Hi He Hv. pose proof (redis_ok _ _ _ _ _ Hi) as (Ha & Hv1 & Ht1).
  cbn [answers] in Ha. rewrite H0 in Ha. destruct Ha as (z & [= <-] & -> & _ & _).
  split.
  { unfold check, map_err, mbind, M_bind. rewrite Hi. unfold decode.
    rewrite as_i64_int by lia. change (0 + 1) with 1. cbn -[redis]. by rewrite He. }
  intros Htr. pose proof (Hclk (re_tick w) (S (re_tick w)) ltac:(lia)) as Hmono.
  assert (re_tick w2 = S (re_tick w1)) as Ht2.
  { unfold redis in He. destruct (exec _ _ _). by injection He as _ <-. }
  pose proof (Hclk (re_tick w1) (S (re_tick w1)) ltac:(lia)) as Hmono1.
  apply (trace_counted _ _ _ _ _ _ Hclk Htr 1 None); [|done|done].
  split_and!; [done|lia|]. intros t' Ht'. rewrite decide_False by done. cbn [lives].
  unfold now_of in *. rewrite Ht2 in Ht'. rewrite Hv by lia. rewrite Ht1 in *.
  rewrite Hv1 by (unfold now_of; lia). cbn [effect]. unfold now_of. rewrite H0. by rewrite set_key_eq.
Qed.

(** On a reachable server a check is total (it returns a verdict as long as
    the stored counter is a number below the [i64] maximum), and the limits are
    independent: checking a wallet changes no count of an IP address, of a node
    or of a wallet with another text. *)
Theorem check_wallet_total wallet w z :
  (∀ n m, (n ≤ m)%nat → clk n ≤ clk m) →
  healthy (re_state w) →
  counter (sees w (now_of clk w) (wallet_key wallet)) = Some z → I64_MIN ≤ z < I64_MAX →
  ∃ w', check_wallet wallet w =
          (Ok (if WALLET_LIMIT <? z + 1 then Denied WALLET_LIMIT WALLET_WINDOW_SECS else Allowed), w') ∧
    healthy (re_state w') ∧
    ∀ t', now_of clk w' ≤ t' →
      (∀ ip, sees w' t' (ip_key ip) = sees w t' (ip_key ip)) ∧
      (∀ n, sees w' t' (node_key n) = sees w t' (node_key n)) ∧
      (∀ wallet', address_display wallet' ≠ address_display wallet →
         sees w' t' (wallet_key wallet') = sees w t' (wallet_key wallet')).
Proof.
  intros Hclk Hh Hz Hr.
  destruct (redis_healthy clk (INCRBY (wallet_key wallet) 1) w Hh) as (r & w1 & E1 & Hh1 & Ha & _).
  { exists z. split; [done|lia]. }
  cbn [answers] in Ha. rewrite Hz in Ha. destruct Ha as (z' & [= <-] & -> & _ & _).
  assert (∃ w', check_wallet wallet w =
    (Ok (if WALLET_LIMIT <? z + 1 then Denied WALLET_LIMIT WALLET_WINDOW_SECS else Allowed), w') ∧
    healthy (re_state w')) as (w' & Hck & Hh').
  { unfold check_wallet, check, map_err, mbind, M_bind. rewrite E1. unfold decode.
    rewrite as_i64_int by lia. cbn -[redis]. destruct (z + 1 =? 1); [|by exists w1].
    destruct (redis_healthy clk (EXPIRE (wallet_key wallet) WALLET_WINDOW_SECS) w1 Hh1 I)
      as (r2 & w2 & E2 & Hh2 & _). exists w2. by rewrite E2. }
  exists w'. split_and!; [done|done|]. intros t' Ht'. unfold check_wallet in Hck.
  destruct (keeps_run clk _ _ _ _ _ (check_keeps _ _ _ Hclk) Hck) as [_ Hk].
  split_and!; intros; apply Hk; try exact Ht'; try discriminate.
  unfold wallet_key. intros Heq. by apply (inj (String.append "rate:wallet:")) in Heq.
Qed.
End limiter.

(** ** Witnesses *)
Definition rl_clk (n : nat) : DateTime := secs (Z.of_nat n).
Definition rl_empty : renv MemRedis := mkRenv (mkMemRedis ∅ []) 0.
(** The server answers the first command and loses the second. *)
Definition rl_faulty : renv MemRedis := mkRenv (mkMemRedis ∅ [false; true]) 0.

Lemma rl_clk_mono n m : (n ≤ m)%nat → rl_clk n ≤ rl_clk m.
Proof. unfold rl_clk, secs, NANOS_PER_SEC. lia. Qed.

(** Three requests in one window, and a fourth after it. *)
Definition rl_late (n : nat) : DateTime := if (n <? 4)%nat then rl_clk n else secs (60 + Z.of_nat n).
Definition rl_end : renv MemRedis := mkRenv (mkMemRedis {["k" := ("3", Some (secs 61))]} []) 4.
Definition rl_end_late : renv MemRedis := mkRenv (mkMemRedis {["k" := ("1", Some (secs 125))]} []) 6.

Lemma rl_late_mono n m : (n ≤ m)%nat → rl_late n ≤ rl_late m.
Proof. unfold rl_late, rl_clk, secs, NANOS_PER_SEC. intros. destruct (Nat.ltb_spec n 4), (Nat.ltb_spec m 4); lia. Qed.
Lemma rl_three : rl_trace rl_clk "k" 2 60 rl_empty [Allowed; Allowed; Denied 2 60] rl_end.
Proof. do 3 (eapply rl_check; [vm_compute; reflexivity|]). apply rl_done. Qed.
Lemma rl_four : rl_trace rl_late "k" 2 60 rl_empty [Allowed; Allowed; Denied 2 60; Allowed] rl_end_late.
Proof. do 4 (eapply rl_check; [vm_compute; reflexivity|]). apply rl_done. Qed.

Lemma limiter_refines_counter_witness :
  ∃ times s', in_order (rl_late 0) times (rl_late 6) ∧ length times = 4%nat ∧
    spec_run 2 60 times None = ([Allowed; Allowed; Denied 2 60; Allowed], s') ∧
    represents rl_late "k" s' rl_end_late.
Proof.
  exact (limiter_refines_counter rl_late "k" 2 60 rl_empty _ rl_end_late None rl_late_mono rl_four
           (counted_absent rl_late "k" rl_empty eq_refl)).
Defined.

Lemma limiter_rate_witness :
  Z.of_nat (allowed [Allowed; Allowed; Denied 2 60; Allowed]) ≤
    2 * ((rl_late 6 - rl_late 0) / secs 60 + 2).
Proof.
  refine (limiter_rate rl_late "k" 2 60 rl_empty _ rl_end_late None rl_late_mono _ _ rl_four
           (counted_absent rl_late "k" rl_empty eq_refl)); vm_compute; congruence.
Defined.

Lemma fixed_window_witness :
  rl_trace rl_clk "k" 2 60 rl_empty [Allowed; Allowed; Denied 2 60] rl_end ∧
  ∀ n r, [Allowed; Allowed; Denied 2 60] !! n = Some r → r = verdict 2 60 n.
Proof.
  split; [exact rl_three|].
  refine (fixed_window rl_clk "k" 2 60 rl_empty _ _ rl_clk_mono _ rl_three _); vm_compute; reflexivity.
Defined.

Lemma lost_expiry_witness :
  ∃ w2 w', check rl_clk "k" 2 60 rl_faulty =
             (Err (RateLimiter_Redis (mkRedisError "connection lost")), w2) ∧
    rl_trace rl_clk "k" 2 60 w2 [Allowed; Denied 2 60] w' ∧
    (∀ n v, [Allowed; Denied 2 60] !! n = Some v → v = verdict 2 60 (S n)).
Proof.
  set (w1 := mkRenv (mkMemRedis {["k" := ("1", None)]} [true]) 1).
  set (w2 := mkRenv (mkMemRedis {["k" := ("1", None)]} []) 2).
  assert (∃ w', rl_trace rl_clk "k" 2 60 w2 [Allowed; Denied 2 60] w') as [w' Htr].
  { eexists. eapply rl_check; [vm_compute; reflexivity|].
    eapply rl_check; [vm_compute; reflexivity|]. apply rl_done. }
  destruct (lost_expiry rl_clk "k" 2 60 rl_faulty (RInt 1) w1 (mkRedisError "connection lost") w2
              [Allowed; Denied 2 60] w' rl_clk_mono) as [Hck Hv];
    [reflexivity | vm_compute; reflexivity | vm_compute; reflexivity | by intros ? ? ? | ].
  exists w2, w'. split; [exact Hck|]. split; [exact Htr|]. exact (Hv Htr).
Defined.

Lemma check_wallet_total_witness :
  ∃ w', check_wallet rl_clk show 7 rl_empty = (Ok Allowed, w').
Proof.
  destruct (check_wallet_total rl_clk show 7 rl_empty 0 rl_clk_mono) as (w' & Hck & _);
    [reflexivity | reflexivity | lia | ].
  exists w'. exact Hck.
Defined.
