(* ===== verification/SessionStore.v ===== *)
(** * crates/session-manager/src/lib.rs: sessions, commits and proof counters in Redis

    The store's methods over the class [RedisServer]. JSON, hashing, hexadecimal
    text and identifiers come from dependencies: the class [SessionCodec] has
    them with the laws the store relies on. *)
From S2P Require Import Prelude Common Redis Validator.

Definition TTL_SECS : Z := 3600.
Definition COMMIT_PENDING : string := "pending".

(** [SessionSummary]; [status] and [est_net_usd_cents] as the store fills them. *)
Record SessionSummary := mkSessionSummary {
  ss_session_id : string;
  ss_commodity : string;
  ss_proof_count : Z;
  ss_avg_hashrate : Z;
  ss_client_type : string;
  ss_target_chain : Chain;
  ss_started_at : DateTime;
  ss_last_submission_at : option DateTime;
  ss_status : string;
  ss_cpu_threads : Z;
  ss_verified_proof_count : Z;
  ss_rejected_proof_count : Z;
  ss_est_net_usd_cents : Z;
  ss_site_code : option string;
  ss_site_city : option string;
  ss_paused : bool
}.

(** [serde_json::Error]. *)
Inductive JsonError := mkJsonError (detail : string).

Inductive SessionManagerError :=
  | Session_Redis (e : RedisError)
  | Session_Serialization (e : JsonError).
#[export] Instance JsonError_display : Display JsonError := λ '(mkJsonError detail), detail.
#[export] Instance SessionManagerError_display : Display SessionManagerError := λ e,
  match e with
  | Session_Redis e => "redis error: " +:+ display e
  | Session_Serialization e => "serialization error: " +:+ display e
  end.
#[export] Instance SessionManagerError_error : StdError SessionManagerError := λ e,
  match e with Session_Redis e => Some (display e) | Session_Serialization e => Some (display e) end.
#[export] Instance SessionManagerError_from_redis : From RedisError SessionManagerError := Session_Redis.
#[export] Instance SessionManagerError_from_json : From JsonError SessionManagerError := Session_Serialization.
#[export] Instance SessionManagerError_telling : Telling SessionManagerError.
Proof. telling_tac. Qed.

(** [new]: the store is its connection. *)
Definition session_store_new {W Client} `{!RedisConnect W Client} (url : string) : M W RedisError unit :=
  client ← of_sum (client_open url);
  of_call (get_multiplexed_async_connection client).

(** What the store uses of [serde_json], [sha2], [hex], [uuid], [chrono] and
    [alloy_primitives]. *)
Class SessionCodec := {
  ctx_to_json : SessionContext → JsonError + string;
  ctx_from_json : string → JsonError + SessionContext;
  proofs_to_json : list PartialProof → JsonError + string;
  proofs_from_json : string → JsonError + list PartialProof;
  (** [Display] of an address *)
  address_display : Address → string;
  sha256 : bytes → bytes;
  hex_encode : bytes → string;
  (** [Uuid::new_v4().to_string()] *)
  new_uuid : nat → string;
  (** [DateTime::from_timestamp(secs, 0)] *)
  from_timestamp : Z → option DateTime;

  ctx_json_roundtrip c s : ctx_to_json c = inr s → ctx_from_json s = inr c;
  proofs_json_roundtrip ps s : proofs_to_json ps = inr s → proofs_from_json s = inr ps;
  hex_encode_inj a b :
    Forall (λ x, 0 ≤ x ≤ 255) a → Forall (λ x, 0 ≤ x ≤ 255) b →
    hex_encode a = hex_encode b → a = b;
  hex_encode_length a : String.length (hex_encode a) = (2 * length a)%nat;
  sha256_bytes a : Forall (λ x, 0 ≤ x ≤ 255) (sha256 a) ∧ length (sha256 a) = 32%nat
}.

(** ** Keys *)
Section keys.
Context `{!SessionCodec}.
Definition session_key (wallet : string) (id : SessionId) : string :=
  "session:" +:+ wallet +:+ ":" +:+ id.
Definition lookup_key (id : SessionId) : string := "session_lookup:" +:+ id.
Definition commit_key (id : SessionId) : string := "commit:" +:+ id.
Definition proofs_key (id : SessionId) : string := "proofs:" +:+ id.
Definition first_key (id : SessionId) : string := "hashrate_first_at:" +:+ id.
Definition sum_key (id : SessionId) : string := "expected_hashes_sum:" +:+ id.
Definition activity_key (id : SessionId) : string := "last_activity:" +:+ id.
Definition proof_count_key (id : SessionId) : string := "proof_count:" +:+ id.
Definition verified_key (id : SessionId) : string := "verified_proof_count:" +:+ id.
Definition rejected_key (id : SessionId) : string := "rejected_proof_count:" +:+ id.
Definition paused_key (id : SessionId) : string := "paused:" +:+ id.
End keys.

(** ** The store *)
Section store.
Context {R : Type} `{!RedisServer R} `{!SessionCodec} (b : build) (clk : nat → DateTime).

(** A method of [SessionStore]: the [From] conversions of [?] are explicit. *)
Definition SM (A : Type) : Type := M (renv R) SessionManagerError A.

Definition cmd (c : rcmd) : SM reply := map_err Session_Redis (redis clk c).
(** [query_async::<T>]. *)
Definition query {A} (f : reply → RedisError + A) (c : rcmd) : SM A :=
  map_err Session_Redis (r ← redis clk c; decode f r).
(** [let _: () = ...]: the reply is ignored. *)
Definition exec_unit (c : rcmd) : SM unit := _ ← cmd c; mret tt.
Definition json {A} (r : JsonError + A) : SM A :=
  match r with inl e => fail (Session_Serialization e) | inr a => mret a end.

Definition create_session (ctx : SessionContext) : SM SessionId :=
  session_id ← gets (λ w, new_uuid (re_tick w));
  let wallet := address_display (ctx_wallet ctx) in
  payload ← json (ctx_to_json ctx);
  exec_unit (SET (session_key wallet session_id) payload TTL_SECS) ;;
  exec_unit (SET (lookup_key session_id) wallet TTL_SECS) ;;
  exec_unit (SET (commit_key session_id) COMMIT_PENDING TTL_SECS) ;;
  mret session_id.

Definition get_session (session_id : SessionId) : SM (option SessionContext) :=
  wallet ← query as_opt_string (GET (lookup_key session_id));
  match wallet with
  | None => mret None
  | Some wallet =>
      payload ← query as_opt_string (GET (session_key wallet session_id));
      match payload with
      | Some p => ctx ← json (ctx_from_json p); mret (Some ctx)
      | None => mret None
      end
  end.

Definition set_commit (session_id : SessionId) (commit_hash : bytes) : SM unit :=
  exec_unit (SET (commit_key session_id) (hex_encode commit_hash) TTL_SECS).

Definition verify_reveal (session_id : SessionId) (nonce : bytes) : SM bool :=
  stored ← query as_opt_string (GET (commit_key session_id));
  match stored with
  | Some s =>
      if String.eqb s COMMIT_PENDING then mret false
      else mret (String.eqb (hex_encode (sha256 nonce)) s)
  | None => mret false
  end.

Definition store_proof (session_id : SessionId) (proof : PartialProof) : SM unit :=
  let key := proofs_key session_id in
  existing ← query as_opt_string (GET key);
  proofs ← match existing with
           | Some payload => json (proofs_from_json payload)
           | None => mret []
           end;
  payload ← json (proofs_to_json (proofs ++ [proof]));
  exec_unit (SET key payload TTL_SECS).

Definition get_proofs (session_id : SessionId) : SM (list PartialProof) :=
  payload ← query as_opt_string (GET (proofs_key session_id));
  match payload with
  | Some p => json (proofs_from_json p)
  | None => mret []
  end.

Definition record_accepted_proof (session_id : SessionId) (difficulty now_unix_secs : Z) : SM unit :=
  anchored ← query as_opt_string (SETNX (first_key session_id) (show now_unix_secs) TTL_SECS);
  match anchored with
  | Some _ => mret tt
  | None =>
      _ ← query as_i64 (INCRBY (sum_key session_id) difficulty);
      exec_unit (EXPIRE (sum_key session_id) TTL_SECS)
  end.

Definition get_session_hashrate (session_id : SessionId) (client_type : ClientType) : SM Z :=
  first ← query as_opt_i64 (GET (first_key session_id));
  last ← query as_opt_i64 (GET (activity_key session_id));
  sum ← query as_opt_i64 (GET (sum_key session_id));
  match first, last, sum with
  | Some first, Some last, Some sum =>
      if (first <? last) && (0 <? sum) then
        d ← lift_arith (arith_i b I64_MIN I64_MAX (last - first));
        let elapsed := Z.max d 1 in
        let rate := Z.max sum 0 / elapsed in
        mret (Z.min rate (max_hashrate client_type))
      else mret 0
  | _, _, _ => mret 0
  end.

Definition touch_last_activity (session_id : SessionId) : SM unit :=
  now ← utc_now clk;
  exec_unit (SET (activity_key session_id) (show (timestamp now)) TTL_SECS).

Definition get_last_activity (session_id : SessionId) : SM (option DateTime) :=
  stored ← query as_opt_i64 (GET (activity_key session_id));
  match stored with
  | None => mret None
  | Some secs => mret (from_timestamp secs)
  end.

Definition increment_proof_count (session_id : SessionId) : SM Z :=
  count ← query as_i64 (INCRBY (proof_count_key session_id) 1);
  mret (as_u U32_MAX count).

Definition get_proof_count (session_id : SessionId) : SM Z :=
  count ← query as_opt_i64 (GET (proof_count_key session_id));
  mret (as_u U32_MAX (default 0 count)).

Definition incr_session_counter (key : string) : SM Z :=
  count ← query as_i64 (INCRBY key 1);
  exec_unit (EXPIRE key TTL_SECS) ;;
  mret (as_u U32_MAX (Z.max count 0)).

Definition get_session_counter (key : string) : SM Z :=
  count ← query as_opt_i64 (GET key);
  mret (as_u U32_MAX (Z.max (default 0 count) 0)).

Definition increment_verified_proof_count (session_id : SessionId) : SM Z :=
  incr_session_counter (verified_key session_id).
Definition get_verified_proof_count (session_id : SessionId) : SM Z :=
  get_session_counter (verified_key session_id).
Definition increment_rejected_proof_count (session_id : SessionId) : SM Z :=
  incr_session_counter (rejected_key session_id).
Definition get_rejected_proof_count (session_id : SessionId) : SM Z :=
  get_session_counter (rejected_key session_id).

Definition set_paused (session_id : SessionId) : SM unit :=
  exec_unit (SET (paused_key session_id) "1" TTL_SECS).
Definition clear_paused (session_id : SessionId) : SM unit :=
  exec_unit (DEL [paused_key session_id]).
Definition is_paused (session_id : SessionId) : SM bool :=
  query as_bool (EXISTS (paused_key session_id)).

(** The [SCAN] loops: [fuel] bounds the number of pages; [None] is an iteration
    that has not ended after that many. *)
Fixpoint count_loop (fuel : nat) (pattern : string) (cursor count : Z) : SM (option Z) :=
  match fuel with
  | O => mret None
  | S fuel =>
      '(next, keys) ← query as_scan (SCAN cursor pattern 100);
      count ← lift_arith (arith_u b U32_MAX (count + as_u U32_MAX (Z.of_nat (length keys))));
      if next =? 0 then mret (Some count) else count_loop fuel pattern next count
  end.

Definition get_active_session_count (fuel : nat) (wallet : Address) : SM (option Z) :=
  count_loop fuel (session_key (address_display wallet) "*") 0 0.

(** [key.strip_prefix(&prefix).unwrap_or(&key)]. *)
Definition strip_prefix (prefix key : string) : string :=
  if String.prefix prefix key
  then String.substring (String.length prefix) (String.length key - String.length prefix) key
  else key.

(** The body of the loop over the keys of one page. *)
Definition summarize (prefix key : string) : SM (option SessionSummary) :=
  payload ← query as_opt_string (GET key);
  match payload with
  | None => mret None
  | Some payload =>
      ctx ← json (ctx_from_json payload);
      let session_id := strip_prefix prefix key in
      count ← query as_opt_i64 (GET (proof_count_key session_id));
      last_submission_at ← get_last_activity session_id;
      avg_hashrate ← get_session_hashrate session_id (ctx_client_type ctx);
      verified ← get_verified_proof_count session_id;
      rejected ← get_rejected_proof_count session_id;
      paused ← is_paused session_id;
      mret (Some (mkSessionSummary session_id (commodity_debug (ctx_commodity ctx))
        (as_u U32_MAX (Z.max (default 0 count) 0)) avg_hashrate
        (to_ascii_lowercase (client_type_debug (ctx_client_type ctx)))
        (ctx_target_chain ctx) (ctx_started_at ctx) last_submission_at "active"
        (ctx_cpu_threads ctx) verified rejected 0
        (site_code <$> ctx_assigned_site ctx) (site_city <$> ctx_assigned_site ctx) paused))
  end.

Fixpoint summarize_keys (prefix : string) (keys : list string) (acc : list SessionSummary)
    : SM (list SessionSummary) :=
  match keys with
  | [] => mret acc
  | key :: keys =>
      s ← summarize prefix key;
      summarize_keys prefix keys (match s with Some s => acc ++ [s] | None => acc end)
  end.

Fixpoint list_loop (fuel : nat) (pattern prefix : string) (cursor : Z) (acc : list SessionSummary)
    : SM (option (list SessionSummary)) :=
  match fuel with
  | O => mret None
  | S fuel =>
      '(next, keys) ← query as_scan (SCAN cursor pattern 100);
      acc ← summarize_keys prefix keys acc;
      if next =? 0 then mret (Some acc) else list_loop fuel pattern prefix next acc
  end.

Definition list_sessions_for_wallet (fuel : nat) (wallet : string) : SM (option (list SessionSummary)) :=
  list_loop fuel (session_key wallet "*") (session_key wallet "") 0 [].

(** The eight keys [delete_session] removes. *)
Definition delete_session (wallet : Address) (session_id : SessionId) : SM unit :=
  exec_unit (DEL [session_key (address_display wallet) session_id; lookup_key session_id;
    commit_key session_id; proof_count_key session_id; proofs_key session_id;
    first_key session_id; sum_key session_id; activity_key session_id]).

(** ** Lemmas *)
Hypothesis Hclk : ∀ n m, (n ≤ m)%nat → clk n ≤ clk m.

Lemma query_ok {A} (f : reply → RedisError + A) c w a w' :
  query f c w = (Ok a, w') ↔ ∃ r, redis clk c w = (Ok r, w') ∧ f r = inr a.
Proof.
  unfold query. rewrite map_err_ok, bind_ok. setoid_rewrite decode_ok. naive_solver.
Qed.

Lemma exec_unit_ok c w u w' :
  exec_unit c w = (Ok u, w') ↔ ∃ r, redis clk c w = (Ok r, w').
Proof.
  unfold exec_unit, cmd. rewrite bind_ok. setoid_rewrite map_err_ok. setoid_rewrite ret_ok.
  destruct u. naive_solver.
Qed.

Lemma json_ok {A} (r : JsonError + A) a (w w' : renv R) :
  json r w = (Ok a, w') ↔ r = inr a ∧ w = w'.
Proof. unfold json. destruct r; rewrite ?fail_ok, ?ret_ok; naive_solver. Qed.

(** A command on a reachable server, as a query. *)
Lemma query_healthy {A} (f : reply → RedisError + A) c w :
  healthy (re_state w) → accepted_cmd c (now_of clk w) (sees w) →
  ∃ r w', query f c w =
      (match f r with inr a => Ok a | inl e => Err (Session_Redis e) end, w') ∧
    healthy (re_state w') ∧ answers glob c (now_of clk w) (sees w) r ∧
    view_from (now_of clk w) (sees w') (effect c (now_of clk w) (sees w)) ∧
    re_tick w' = S (re_tick w).
Proof.
  intros Hh Ha. destruct (redis_healthy clk c w Hh Ha) as (r & w' & E & Hrest).
  exists r, w'. split; [|done]. unfold query, map_err, mbind, M_bind. rewrite E.
  unfold decode. by destruct (f r).
Qed.

Lemma exec_unit_healthy c w :
  healthy (re_state w) → accepted_cmd c (now_of clk w) (sees w) →
  ∃ w', exec_unit c w = (Ok tt, w') ∧ healthy (re_state w') ∧
    view_from (now_of clk w) (sees w') (effect c (now_of clk w) (sees w)) ∧
    re_tick w' = S (re_tick w).
Proof.
  intros Hh Ha. destruct (redis_healthy clk c w Hh Ha) as (r & w' & E & H1 & _ & H2).
  exists w'. split; [|done]. unfold exec_unit, cmd, map_err, mbind, M_bind. by rewrite E.
Qed.

(** Reading a key. *)
Lemma get_string_healthy k w :
  healthy (re_state w) →
  ∃ w', query as_opt_string (GET k) w = (Ok (sees w (now_of clk w) k), w') ∧
    healthy (re_state w') ∧ view_from (now_of clk w) (sees w') (sees w) ∧
    re_tick w' = S (re_tick w).
Proof.
  intros Hh. destruct (query_healthy as_opt_string (GET k) w Hh I) as (r & w' & E & Hh' & Ha & Hv & Ht).
  exists w'. split; [|done]. rewrite E. cbn in Ha. subst r. f_equal.
  by destruct (sees w (now_of clk w) k); autorewrite with prm_rw.
Qed.

Lemma get_i64_healthy k w o :
  healthy (re_state w) → sees w (now_of clk w) k = show <$> o →
  (∀ z, o = Some z → I64_MIN ≤ z ≤ I64_MAX) →
  ∃ w', query as_opt_i64 (GET k) w = (Ok o, w') ∧
    healthy (re_state w') ∧ view_from (now_of clk w) (sees w') (sees w) ∧
    re_tick w' = S (re_tick w).
Proof.
  intros Hh Ho Hz. destruct (query_healthy as_opt_i64 (GET k) w Hh I) as (r & w' & E & Hh' & Ha & Hv & Ht).
  exists w'. split; [|done]. rewrite E. cbn in Ha. rewrite Ho in Ha. subst r. f_equal.
  destruct o as [z|]; cbn; [|by autorewrite with prm_rw].
  rewrite (as_opt_i64_bulk _ z); [done|]. apply parse_i_show; [lia|by apply Hz].
Qed.

Lemma later (w w' : renv R) : re_tick w' = S (re_tick w) → now_of clk w ≤ now_of clk w'.
Proof. intros E. unfold now_of. rewrite E. apply Hclk. lia. Qed.

(** What a completed [SET] leaves, as long as nothing writes the key. *)
Lemma set_sees k x ex w r w1 w2 t' :
  redis clk (SET k x ex) w = (Ok r, w1) →
  steps clk (λ k', k' = k) w1 w2 → now_of clk w2 ≤ t' →
  sees w2 t' k = until (now_of clk w + secs ex) x t'.
Proof.
  intros E Hs Ht'. apply redis_ok in E as (_ & Hv & Ht).
  apply (steps_sees clk Hclk) in Hs as (Hs1 & Hs2 & Hs3).
  pose proof (later _ _ Ht). rewrite Hs3 by done. rewrite Hv by lia. cbn. by rewrite set_key_eq.
Qed.

(** *** What the methods leave alone *)
Lemma query_keeps {A} P (f : reply → RedisError + A) c :
  (∀ k, P k → k ∉ writes c) → keeps clk P (query f c).
Proof. intros. unfold query. by keeps_tac idtac. Qed.
Lemma exec_unit_keeps P c : (∀ k, P k → k ∉ writes c) → keeps clk P (exec_unit c).
Proof. intros. unfold exec_unit, cmd. by keeps_tac idtac. Qed.
Lemma json_keeps {A} P (r : JsonError + A) : keeps clk P (json r).
Proof. unfold json. destruct r; auto with keeps. Qed.
End store.

#[export] Hint Resolve json_keeps : keeps.

Ltac minv_hook H ::=
  first
    [ minv_redis H
    | rewrite query_ok in H; let r := fresh "r" in let H1 := fresh "Hq" in let H2 := fresh "Hd" in
      destruct H as (r & H1 & H2)
    | rewrite exec_unit_ok in H; let r := fresh "r" in let H1 := fresh "Hx" in destruct H as (r & H1)
    | rewrite json_ok in H; let H1 := fresh "Hj" in destruct H as [H1 <-] ].

(** [keeps P m] for the store's methods: [side] excludes a command's keys. *)
Ltac store_keeps Hclk side :=
  repeat match goal with
  | |- keeps _ _ (let '(_, _) := ?x in _) => destruct x
  | |- keeps _ _ (query _ _ _) => apply query_keeps; [exact Hclk|side]
  | |- keeps _ _ (exec_unit _ _) => apply exec_unit_keeps; [exact Hclk|side]
  | |- keeps _ _ (gets _) => intros ?; cbn; split; [lia|done]
  | _ => progress keeps_tac ltac:(side)
  end.

Section lifetime.
Context {R : Type} `{!RedisServer R} `{Codec : !SessionCodec} (b : build) (clk : nat → DateTime).
Hypothesis Hclk : ∀ n m, (n ≤ m)%nat → clk n ≤ clk m.
Abbreviation SM := (SM (R:=R)).

(** The methods by which a session is used, for any session, and anything else
    that writes neither of the two keys of the session [id] of [wallet]. *)
Inductive activity (wallet : string) (id : SessionId) : ∀ {A : Type}, SM A → Prop :=
  | act_get i : activity wallet id (get_session clk i)
  | act_set_commit i h : activity wallet id (set_commit clk i h)
  | act_verify_reveal i n : activity wallet id (verify_reveal clk i n)
  | act_store_proof i p : activity wallet id (store_proof clk i p)
  | act_get_proofs i : activity wallet id (get_proofs clk i)
  | act_record i d t : activity wallet id (record_accepted_proof clk i d t)
  | act_hashrate i c : activity wallet id (get_session_hashrate b clk i c)
  | act_touch i : activity wallet id (touch_last_activity clk i)
  | act_last i : activity wallet id (get_last_activity clk i)
  | act_incr i : activity wallet id (increment_proof_count clk i)
  | act_count i : activity wallet id (get_proof_count clk i)
  | act_verified i : activity wallet id (increment_verified_proof_count clk i)
  | act_rejected i : activity wallet id (increment_rejected_proof_count clk i)
  | act_pause i : activity wallet id (set_paused clk i)
  | act_resume i : activity wallet id (clear_paused clk i)
  | act_paused i : activity wallet id (is_paused clk i)
  | act_active fuel a : activity wallet id (get_active_session_count b clk fuel a)
  | act_list fuel a : activity wallet id (list_sessions_for_wallet b clk fuel a)
  | act_other {A} (m : SM A) :
      keeps clk (λ k, k = session_key wallet id ∨ k = lookup_key id) m → activity wallet id m.

Inductive active_run (wallet : string) (id : SessionId) : renv R → renv R → Prop :=
  | run_done w : active_run wallet id w w
  | run_act {A} (m : SM A) w w2 :
      activity wallet id m → active_run wallet id (m w).2 w2 → active_run wallet id w w2.

Definition session_keys (wallet : string) (id : SessionId) (k : string) : Prop :=
  k = session_key wallet id ∨ k = lookup_key id.

Ltac reads := intros ? _; cbn [writes]; apply not_elem_of_nil.

Lemma count_loop_keeps P fuel pattern cursor count : keeps clk P (count_loop b clk fuel pattern cursor count).
Proof.
  revert cursor count. induction fuel as [|fuel IH]; intros; cbn [count_loop]; [auto with keeps|].
  store_keeps Hclk ltac:(reads).
Qed.

Lemma summarize_keys_keeps P prefix keys acc : keeps clk P (summarize_keys b clk prefix keys acc).
Proof.
  revert acc. induction keys as [|key keys IH]; intros; cbn [summarize_keys]; [auto with keeps|].
  apply keeps_bind; [done| |intros; apply IH].
  unfold summarize, get_last_activity, get_session_hashrate, get_verified_proof_count,
    get_rejected_proof_count, get_session_counter, is_paused.
  store_keeps Hclk ltac:(reads).
Qed.

Lemma list_loop_keeps P fuel pattern prefix cursor acc :
  keeps clk P (list_loop b clk fuel pattern prefix cursor acc).
Proof.
  revert cursor acc. induction fuel as [|fuel IH]; intros; cbn [list_loop]; [auto with keeps|].
  apply keeps_bind; [done|apply query_keeps; [done|reads]|]. intros [next keys].
  apply keeps_bind; [done|apply summarize_keys_keeps|]. intros acc'.
  destruct (next =? 0); [auto with keeps|apply IH].
Qed.

Lemma activity_keeps wallet id {A} (m : SM A) :
  activity wallet id m → keeps clk (session_keys wallet id) m.
Proof.
  unfold session_keys.
  destruct 1; try (apply count_loop_keeps || apply list_loop_keeps); try done;
    cbv [get_session set_commit verify_reveal store_proof get_proofs record_accepted_proof
      get_session_hashrate touch_last_activity get_last_activity increment_proof_count
      get_proof_count increment_verified_proof_count increment_rejected_proof_count
      incr_session_counter set_paused clear_paused is_paused];
    store_keeps Hclk ltac:(intros ? [-> | ->]; cbn [writes];
      first [apply not_elem_of_nil | rewrite list_elem_of_singleton; discriminate]).
Qed.

Lemma active_run_steps wallet id w w' :
  active_run wallet id w w' → steps clk (session_keys wallet id) w w'.
Proof.
  induction 1 as [|A m w w2 Ha _ IH]; [constructor|].
  by eapply steps_run; [apply activity_keeps|].
Qed.

(** The state in which a created session is left. *)
Lemma create_session_sees ctx w id w1 :
  create_session clk ctx w = (Ok id, w1) →
  let wallet := address_display (ctx_wallet ctx) in
  ∃ payload, ctx_to_json ctx = inr payload ∧ now_of clk w ≤ now_of clk w1 ∧
    (∃ d, now_of clk w ≤ d ≤ now_of clk w1 ∧
      ∀ t', now_of clk w1 ≤ t' → sees w1 t' (lookup_key id) = until (d + secs TTL_SECS) wallet t') ∧
    (∀ t', now_of clk w1 ≤ t' →
      sees w1 t' (session_key wallet id) = until (now_of clk w + secs TTL_SECS) payload t') ∧
    (∃ d, now_of clk w ≤ d ≤ now_of clk w1 ∧
      ∀ t', now_of clk w1 ≤ t' → sees w1 t' (commit_key id) = until (d + secs TTL_SECS) COMMIT_PENDING t').
Proof.
  intros Hc wallet. unfold create_session in Hc. minv Hc. rewrite Hr in *. clear Hr a.
  pose proof (redis_ok _ _ _ _ _ Hx) as (_ & Hv1 & Ht1).
  pose proof (redis_ok _ _ _ _ _ Hx0) as (_ & Hv2 & Ht2).
  pose proof (redis_ok _ _ _ _ _ Hx1) as (_ & Hv3 & Ht3).
  pose proof (later clk Hclk _ _ Ht1). pose proof (later clk Hclk _ _ Ht2).
  pose proof (later clk Hclk _ _ Ht3).
  exists a0. split; [done|]. split; [lia|]. split_and!.
  - exists (now_of clk w0). split; [lia|]. intros t' Ht'. rewrite Hv3 by lia. cbn [effect].
    rewrite set_key_ne by discriminate. rewrite Hv2 by lia. cbn [effect]. by rewrite set_key_eq.
  - intros t' Ht'. rewrite Hv3 by lia. cbn [effect]. rewrite set_key_ne by discriminate.
    rewrite Hv2 by lia. cbn [effect]. rewrite set_key_ne by discriminate. rewrite Hv1 by lia.
    cbn [effect]. by rewrite set_key_eq.
  - exists (now_of clk w2). split; [lia|]. intros t' Ht'. rewrite Hv3 by lia. cbn [effect].
    by rewrite set_key_eq.
Qed.

(** C24. A session is found under its id exactly until an hour after its creation,
    however it is used in between: no method of the store extends the record, so
    that a session that is submitting proofs is lost after one hour too. *)
Theorem session_lifetime ctx w id w1 w2 :
  create_session clk ctx w = (Ok id, w1) →
  active_run (address_display (ctx_wallet ctx)) id w1 w2 →
  healthy (re_state w2) →
  (clk (S (re_tick w2)) < now_of clk w + secs TTL_SECS →
     ∃ w3, get_session clk id w2 = (Ok (Some ctx), w3)) ∧
  (now_of clk w1 + secs TTL_SECS ≤ now_of clk w2 →
     ∃ w3, get_session clk id w2 = (Ok None, w3)).
Proof.
  intros Hc Hrun Hh. apply active_run_steps in Hrun.
  apply (steps_sees clk Hclk) in Hrun as (_ & Hn & Hs).
  apply create_session_sees in Hc as (p & Hp & Hn1 & (d & Hd & Hl) & Hsess & _).
  destruct (get_string_healthy clk (lookup_key id) w2 Hh) as (w3 & E & Hh3 & Hv3 & Ht3).
  rewrite Hs, Hl in E by (try lia; by right).
  split; intros Hlt; unfold get_session.
  - pose proof (Hclk (re_tick w2) (S (re_tick w2)) ltac:(lia)) as Hmono.
    rewrite until_before in E by (unfold now_of in *; lia).
    rewrite (bind_ok_l _ _ _ _ _ E). cbn -[query].
    set (k := session_key (address_display (ctx_wallet ctx)) id) in *.
    destruct (get_string_healthy clk k w3 Hh3) as (w4 & E4 & _).
    unfold now_of in E4. rewrite Ht3 in E4.
    rewrite Hv3 in E4 by (unfold now_of in *; lia).
    rewrite Hs, Hsess in E4 by first [by left | unfold now_of in *; lia].
    rewrite until_before in E4 by (unfold now_of in *; lia).
    rewrite (bind_ok_l _ _ _ _ _ E4). cbn. rewrite (ctx_json_roundtrip _ _ Hp). by exists w4.
  - rewrite until_after in E by lia. rewrite (bind_ok_l _ _ _ _ _ E). by exists w3.
Qed.

Lemma reveal_pending ctx w id w1 w2 nonce :
  create_session clk ctx w = (Ok id, w1) → steps clk (λ k, k = commit_key id) w1 w2 →
  healthy (re_state w2) → ∃ w3, verify_reveal clk id nonce w2 = (Ok false, w3).
Proof.
  intros Hc Hs Hh. apply create_session_sees in Hc as (p & _ & _ & _ & _ & d & _ & Hl).
  apply (steps_sees clk Hclk) in Hs as (_ & Hn & Hs).
  destruct (get_string_healthy clk (commit_key id) w2 Hh) as (w3 & E & _). exists w3.
  rewrite Hs, Hl in E by done. unfold verify_reveal. rewrite (bind_ok_l _ _ _ _ _ E).
  unfold until. by destruct (_ <? _).
Qed.

Lemma reveal_committed id h nonce w w1 w2 :
  set_commit clk id h w = (Ok tt, w1) →
  Forall (λ x, 0 ≤ x ≤ 255) h → length h = 32%nat →
  steps clk (λ k, k = commit_key id) w1 w2 →
  healthy (re_state w2) →
  ∃ w3, verify_reveal clk id nonce w2 =
    (Ok (bool_decide (sha256 nonce = h ∧ now_of clk w2 < now_of clk w + secs TTL_SECS)), w3).
Proof.
  intros Hset Hb Hlen Hs Hh. unfold set_commit in Hset. minv Hset.
  destruct (get_string_healthy clk (commit_key id) w2 Hh) as (w3 & E & _).
  rewrite (set_sees clk Hclk _ _ _ _ _ _ _ _ Hx Hs) in E by done. exists w3.
  unfold verify_reveal. rewrite (bind_ok_l _ _ _ _ _ E). unfold until.
  destruct (Z.ltb_spec (now_of clk w2) (now_of clk w + secs TTL_SECS)).
  2:{ by rewrite bool_decide_eq_false_2 by (intros [_ ?]; lia). }
  destruct (String.eqb_spec (hex_encode h) COMMIT_PENDING) as [Heq|_].
  { pose proof (hex_encode_length h) as Hl. rewrite Heq, Hlen in Hl. done. }
  cbn. f_equal. f_equal. destruct (String.eqb_spec (hex_encode (sha256 nonce)) (hex_encode h)) as [Heq|Hne].
  - apply hex_encode_inj in Heq; [|apply sha256_bytes|done]. by rewrite bool_decide_eq_true_2.
  - rewrite bool_decide_eq_false_2; [done|]. intros [Heq _]. congruence.
Qed.

(** C25. Commit and reveal: after a commit a reveal is accepted exactly for a
    nonce whose SHA-256 is the committed hash, within an hour; while the commit
    is still pending, and after the hour, no nonce is accepted. *)
Theorem commit_reveal ctx w id w1 w2 h w3 w4 nonce :
  create_session clk ctx w = (Ok id, w1) → steps clk (λ k, k = commit_key id) w1 w2 →
  healthy (re_state w2) →
  set_commit clk id h w2 = (Ok tt, w3) → Forall (λ x, 0 ≤ x ≤ 255) h → length h = 32%nat →
  steps clk (λ k, k = commit_key id) w3 w4 → healthy (re_state w4) →
  (∃ w2', verify_reveal clk id nonce w2 = (Ok false, w2')) ∧
  (∃ w5, verify_reveal clk id nonce w4 =
     (Ok (bool_decide (sha256 nonce = h ∧ now_of clk w4 < now_of clk w2 + secs TTL_SECS)), w5)).
Proof. intros. split; [by eapply reveal_pending | by eapply reveal_committed]. Qed.
End lifetime.

(** ** Proofs and the derived hashrate *)
Section proofs.
Context {R : Type} `{!RedisServer R} `{Codec : !SessionCodec} (b : build) (clk : nat → DateTime).
Hypothesis Hclk : ∀ n m, (n ≤ m)%nat → clk n ≤ clk m.

(** Proofs stored one after the other, with anything in between that does not
    write the list. *)
Inductive proofs_run (id : SessionId) : renv R → list PartialProof → renv R → Prop :=
  | proofs_start w : sees w (now_of clk w) (proofs_key id) = None → proofs_run id w [] w
  | proofs_store w w1 w2 ps p :
      proofs_run id w ps w1 → store_proof clk id p w1 = (Ok tt, w2) →
      proofs_run id w (ps ++ [p]) w2
  | proofs_other w w1 w2 ps :
      proofs_run id w ps w1 → steps clk (λ k, k = proofs_key id) w1 w2 → proofs_run id w ps w2.

(** The list is there at least until [d]. *)
Definition proofs_held (id : SessionId) (ps : list PartialProof) (d : DateTime) (w : renv R) : Prop :=
  ∀ t', now_of clk w ≤ t' < d →
    match sees w t' (proofs_key id) with
    | Some x => proofs_to_json ps = inr x
    | None => ps = []
    end.

Lemma absent_stays k (w : renv R) t' : sees w (now_of clk w) k = None → now_of clk w ≤ t' → sees w t' k = None.
Proof. intros H0 Ht. unfold sees in *. destruct (peek_timed (re_state w) _ t' k Ht); congruence. Qed.

Lemma runs_later {A} (m : SM A) (w : renv R) o w' :
  m w = (o, w') → keeps clk (λ _, False) m → now_of clk w ≤ now_of clk w'.
Proof. intros E Hk. apply (keeps_run clk _ _ _ _ _ Hk) in E as [Ht _]. by apply Hclk. Qed.

Lemma store_proof_held id ps p d w w1 :
  proofs_held id ps d w → now_of clk w < d → store_proof clk id p w = (Ok tt, w1) →
  proofs_held id (ps ++ [p]) (now_of clk w + secs TTL_SECS) w1 ∧ now_of clk w ≤ now_of clk w1.
Proof.
  intros Hheld Hd Hst. unfold store_proof in Hst. minv Hst.
  pose proof (redis_ok _ _ _ _ _ Hq) as (Ha & Hv & Ht). pose proof (later clk Hclk _ _ Ht).
  assert (a0 = ps ∧ w0 = w2) as [-> <-].
  { specialize (Hheld (now_of clk w) ltac:(lia)). cbn in Ha.
    destruct (sees w (now_of clk w) (proofs_key id)) as [x|]; subst r; autorewrite with prm_rw in Hd0;
      simplify_eq; minv Hm.
    - rewrite (proofs_json_roundtrip _ _ Hheld) in *. by simplify_eq.
    - done. }
  pose proof (redis_ok _ _ _ _ _ Hx) as (_ & Hv1 & Ht1). pose proof (later clk Hclk _ _ Ht1).
  split; [|lia]. intros t' Ht'. rewrite Hv1 by lia. cbn [effect]. rewrite set_key_eq.
  by rewrite until_before by lia.
Qed.

Lemma proofs_run_held id w ps w' :
  proofs_run id w ps w' → now_of clk w' < now_of clk w + secs TTL_SECS →
  proofs_held id ps (now_of clk w + secs TTL_SECS) w' ∧ now_of clk w ≤ now_of clk w'.
Proof.
  induction 1 as [w H0|w w1 w2 ps p _ IH Hst|w w1 w2 ps _ IH Hs]; intros Hlt.
  - split; [|lia]. intros t' Ht'. by rewrite absent_stays by (done || lia).
  - assert (now_of clk w1 ≤ now_of clk w2) as Hn.
    { apply (runs_later _ _ _ _ Hst). unfold store_proof. store_keeps Hclk ltac:(by intros ? []). }
    destruct (IH ltac:(lia)) as [Hh Hn1].
    destruct (store_proof_held _ _ _ _ _ _ Hh ltac:(lia) Hst) as [Hh2 _].
    split; [|lia]. intros t' Ht'. apply Hh2. lia.
  - apply (steps_sees clk Hclk) in Hs as (_ & Hn & Hs). destruct (IH ltac:(lia)) as [Hh Hn1].
    split; [|lia]. intros t' Ht'. rewrite Hs by (done || lia). apply Hh. lia.
Qed.

(** C26. Proofs are kept in the order in which they were accepted: within an hour
    of the first, reading the list yields every stored proof, none twice, in
    order, whatever other keys were written in between. *)
Theorem proofs_in_order id w ps w' :
  proofs_run id w ps w' → healthy (re_state w') →
  now_of clk w' < now_of clk w + secs TTL_SECS →
  ∃ w2, get_proofs clk id w' = (Ok ps, w2).
Proof.
  intros Hrun Hh Hlt. destruct (proofs_run_held _ _ _ _ Hrun Hlt) as [Hheld _].
  destruct (get_string_healthy clk (proofs_key id) w' Hh) as (w2 & E & _). exists w2.
  specialize (Hheld (now_of clk w') ltac:(lia)). unfold get_proofs.
  rewrite (bind_ok_l _ _ _ _ _ E). destruct (sees w' _ _) as [x|].
  - by rewrite (proofs_json_roundtrip _ _ Hheld).
  - by rewrite Hheld.
Qed.

(** A session's accepted proofs and activity since [w]: the anchor, the work
    counted and the last activity they should give. *)
Inductive hashrate_run (id : SessionId) (w : renv R)
    : option Z → option Z → option Z → renv R → Prop :=
  | hr_start :
      (∀ k, k ∈ [first_key id; sum_key id; activity_key id] → sees w (now_of clk w) k = None) →
      hashrate_run id w None None None w
  | hr_first sum last d t w1 w2 :
      hashrate_run id w None sum last w1 → 0 ≤ t ≤ I64_MAX →
      record_accepted_proof clk id d t w1 = (Ok tt, w2) →
      hashrate_run id w (Some t) sum last w2
  | hr_more first sum last d t w1 w2 :
      hashrate_run id w (Some first) sum last w1 →
      record_accepted_proof clk id d t w1 = (Ok tt, w2) →
      hashrate_run id w (Some first) (Some (default 0 sum + d)) last w2
  | hr_touch first sum last w1 w2 :
      hashrate_run id w first sum last w1 →
      touch_last_activity clk id w1 = (Ok tt, w2) →
      hashrate_run id w first sum (Some (timestamp (now_of clk w1))) w2
  | hr_other first sum last w1 w2 :
      hashrate_run id w first sum last w1 →
      steps clk (λ k, k ∈ [first_key id; sum_key id; activity_key id]) w1 w2 →
      hashrate_run id w first sum last w2.

(** The rate in hashes per second the three values stand for. *)
Definition hashrate_of (first sum last : option Z) (c : ClientType) : Z :=
  match first, last, sum with
  | Some f, Some l, Some s =>
      if (f <? l) && (0 <? s) then Z.min (s / (l - f)) (max_hashrate c) else 0
  | _, _, _ => 0
  end.

Definition hashrate_held (id : SessionId) (d : DateTime) (first sum last : option Z) (w : renv R) : Prop :=
  (∀ t', now_of clk w ≤ t' < d →
    sees w t' (first_key id) = show <$> first ∧
    sees w t' (sum_key id) = show <$> sum ∧
    sees w t' (activity_key id) = show <$> last) ∧
  (∀ z, first = Some z → 0 ≤ z ≤ I64_MAX) ∧
  (∀ z, sum = Some z → I64_MIN ≤ z ≤ I64_MAX) ∧
  (∀ z, last = Some z → 0 ≤ z ≤ I64_MAX).

Lemma record_held id d first sum last diff t w w' :
  hashrate_held id d first sum last w → now_of clk w' < d →
  d ≤ now_of clk w + secs TTL_SECS → 0 ≤ t ≤ I64_MAX ∨ first ≠ None →
  record_accepted_proof clk id diff t w = (Ok tt, w') →
  hashrate_held id d (match first with None => Some t | _ => first end)
    (match first with None => sum | Some _ => Some (default 0 sum + diff) end) last w'.
Proof.
  intros (Hs & Hf & Hsum & Hl) Hd HT Ht Hr.
  assert (now_of clk w ≤ now_of clk w') as Hn.
  { apply (runs_later _ _ _ _ Hr). unfold record_accepted_proof. store_keeps Hclk ltac:(by intros ? []). }
  unfold record_accepted_proof in Hr. minv Hr.
  pose proof (redis_ok _ _ _ _ _ Hq) as (Ha & Hv & Ht1). pose proof (later clk Hclk _ _ Ht1).
  destruct (Hs (now_of clk w) ltac:(lia)) as (Hs1 & Hs2 & Hs3). cbn [answers] in Ha.
  destruct first as [f|]; rewrite Hs1 in Ha; cbn in Ha; subst r; autorewrite with prm_rw in Hd0;
    injection Hd0 as <-; minv Hr; cbn [effect] in Hv.
  - pose proof (redis_ok _ _ _ _ _ Hq0) as (Ha2 & Hv2 & Ht2). pose proof (later clk Hclk _ _ Ht2).
    pose proof (redis_ok _ _ _ _ _ Hx) as (_ & Hv3 & Ht3). pose proof (later clk Hclk _ _ Ht3).
    assert (∀ t' k, now_of clk w0 ≤ t' → sees w0 t' k = sees w t' k) as Hw0.
    { intros t' k Ht'. rewrite Hv by lia. by rewrite Hs1. }
    destruct Ha2 as (z & Hz & _ & _ & Hzr). destruct (Hs (now_of clk w0) ltac:(lia)) as (_ & Hs2' & _).
    assert (z = default 0 sum) as ->.
    { rewrite Hw0, Hs2' in Hz by lia. destruct sum as [z0|]; cbn in Hz |- *; [|congruence].
      unfold parse_i64 in Hz. rewrite parse_i_show in Hz by (try lia; by apply Hsum). by simplify_eq. }
    assert (∀ t', now_of clk w1 ≤ t' < d →
      sees w1 t' (sum_key id) = Some (show (default 0 sum + diff))) as Hw1.
    { intros t' Ht'. rewrite Hv2 by lia. cbn [effect]. rewrite Hw0, Hs2' by lia.
      destruct sum as [z0|]; cbn; [|by rewrite set_key_eq].
      unfold parse_i64. rewrite parse_i_show by (try lia; by apply Hsum). rewrite set_key_eq.
      rewrite Hw0 by lia. by rewrite (proj1 (proj2 (Hs t' ltac:(lia)))). }
    split_and!; [|done|intros ? [= <-]; lia|done]. intros t' Ht'.
    destruct (Hs t' ltac:(lia)) as (Hf' & _ & Hl').
    rewrite !Hv3 by lia. cbn [effect]. rewrite Hw1 by lia. rewrite set_key_eq.
    rewrite !set_key_ne, !Hv2 by (discriminate || lia). rewrite until_before by lia.
    rewrite !(effect_frame (INCRBY _ _)) by (cbn; rewrite list_elem_of_singleton; discriminate).
    by rewrite !Hw0 by lia.
  - split_and!; [|intros ? [= <-]; naive_solver|done|done]. intros t' Ht'.
    destruct (Hs t' ltac:(lia)) as (_ & Hs' & Hl'). rewrite !Hv, Hs1 by lia. cbn.
    rewrite set_key_eq, !set_key_ne by discriminate. by rewrite until_before by lia.
Qed.

Lemma touch_held id d first sum last w w' :
  0 ≤ timestamp (now_of clk w) ≤ I64_MAX →
  hashrate_held id d first sum last w → now_of clk w' < d →
  d ≤ now_of clk w + secs TTL_SECS →
  touch_last_activity clk id w = (Ok tt, w') →
  hashrate_held id d first sum (Some (timestamp (now_of clk w))) w'.
Proof.
  intros Hts (Hs & Hf & Hsum & Hl) Hd HT Hr. unfold touch_last_activity in Hr. minv Hr. subst a.
  set (w0 := mkRenv (re_state w) (S (re_tick w))) in *.
  pose proof (redis_ok _ _ _ _ _ Hx) as (_ & Hv & Ht). pose proof (later clk Hclk _ _ Ht).
  assert (now_of clk w ≤ now_of clk w0) by (apply Hclk; cbn; lia).
  change (sees w0) with (sees w) in Hv.
  split_and!; [|done|done|intros ? [= <-]; done]. intros t' Ht'.
  destruct (Hs t' ltac:(lia)) as (Hf' & Hs' & Hl'). rewrite !Hv by lia. cbn [effect].
  rewrite set_key_eq, !set_key_ne by discriminate. by rewrite until_before by lia.
Qed.

Hypothesis Hrange : ∀ n, 0 ≤ timestamp (clk n) ≤ I64_MAX.

Lemma hashrate_run_held id w first sum last w' :
  hashrate_run id w first sum last w' → now_of clk w' < now_of clk w + secs TTL_SECS →
  hashrate_held id (now_of clk w + secs TTL_SECS) first sum last w' ∧ now_of clk w ≤ now_of clk w'.
Proof.
  induction 1 as [H0|sum last d t w1 w2 _ IH Ht Hr|first sum last d t w1 w2 _ IH Hr
    |first sum last w1 w2 _ IH Hr|first sum last w1 w2 _ IH Hs]; intros Hlt.
  - split; [|lia]. split_and!; [|done..]. intros t' Ht'.
    split_and!; apply absent_stays; try lia; apply H0; set_solver.
  - assert (now_of clk w1 ≤ now_of clk w2) as Hn.
    { apply (runs_later _ _ _ _ Hr). unfold record_accepted_proof. store_keeps Hclk ltac:(by intros ? []). }
    destruct (IH ltac:(lia)) as [Hh Hn1]. split; [|lia].
    apply (record_held _ _ _ _ _ _ _ _ _ Hh Hlt ltac:(lia) ltac:(by left) Hr).
  - assert (now_of clk w1 ≤ now_of clk w2) as Hn.
    { apply (runs_later _ _ _ _ Hr). unfold record_accepted_proof. store_keeps Hclk ltac:(by intros ? []). }
    destruct (IH ltac:(lia)) as [Hh Hn1]. split; [|lia].
    apply (record_held _ _ _ _ _ _ _ _ _ Hh Hlt ltac:(lia) ltac:(by right) Hr).
  - assert (now_of clk w1 ≤ now_of clk w2) as Hn.
    { apply (runs_later _ _ _ _ Hr). unfold touch_last_activity. store_keeps Hclk ltac:(by intros ? []). }
    destruct (IH ltac:(lia)) as [Hh Hn1]. split; [|lia].
    apply (touch_held _ _ _ _ _ _ _ (Hrange _) Hh Hlt ltac:(lia) Hr).
  - apply (steps_sees clk Hclk) in Hs as (_ & Hn & Hs). destruct (IH ltac:(lia)) as [(Hh & Hrest) Hn1].
    split; [|lia]. split; [|done]. intros t' Ht'. rewrite !Hs by (set_solver || lia). apply Hh. lia.
Qed.

(** C27. The hashrate of a session is derived from the proofs it had accepted
    and from server time alone: the difficulties of all accepted proofs but the
    first, summed, over the seconds from the first accepted proof to the last
    recorded activity, rounded down and capped at the client type's physical
    maximum; it is 0 until two proofs and an elapsed second are there. *)
Theorem hashrate_derived id w first sum last w' c :
  hashrate_run id w first sum last w' → healthy (re_state w') →
  clk (S (S (re_tick w'))) < now_of clk w + secs TTL_SECS →
  ∃ w2, get_session_hashrate b clk id c w' = (Ok (hashrate_of first sum last c), w2) ∧
    0 ≤ hashrate_of first sum last c ≤ max_hashrate c.
Proof.
  intros Hrun Hh Hlt.
  pose proof (Hclk (re_tick w') (S (re_tick w')) ltac:(lia)).
  pose proof (Hclk (S (re_tick w')) (S (S (re_tick w'))) ltac:(lia)).
  destruct (hashrate_run_held _ _ _ _ _ _ Hrun ltac:(unfold now_of in *; lia)) as [(Hs & Hf & Hsum & Hl) _].
  destruct (get_i64_healthy clk (first_key id) w' first Hh) as (w1 & E1 & Hh1 & Hv1 & Ht1).
  { apply Hs. unfold now_of in *. lia. }
  { intros z Hz. apply Hf in Hz. lia. }
  destruct (get_i64_healthy clk (activity_key id) w1 last Hh1) as (w2 & E2 & Hh2 & Hv2 & Ht2).
  { rewrite Hv1 by (unfold now_of in *; rewrite Ht1; lia). apply Hs. unfold now_of in *. rewrite Ht1. lia. }
  { intros z Hz. apply Hl in Hz. lia. }
  destruct (get_i64_healthy clk (sum_key id) w2 sum Hh2) as (w3 & E3 & _).
  { rewrite Hv2, Hv1 by (unfold now_of in *; rewrite ?Ht2, ?Ht1; lia).
    apply Hs. unfold now_of in *. rewrite Ht2, Ht1. lia. }
  { done. }
  assert (0 ≤ max_hashrate c) as Hm by (destruct c; done).
  exists w3. unfold get_session_hashrate.
  rewrite (bind_ok_l _ _ _ _ _ E1), (bind_ok_l _ _ _ _ _ E2), (bind_ok_l _ _ _ _ _ E3).
  unfold hashrate_of. destruct first as [f|], last as [l|], sum as [s|]; try done.
  specialize (Hf _ eq_refl). specialize (Hl _ eq_refl).
  destruct (Z.ltb_spec f l), (Z.ltb_spec 0 s); cbn [andb]; try done.
  unfold arith_i. rewrite (proj2 (fits_spec _ _ (l - f))) by lia.
  unfold lift_arith, mbind, M_bind, mret, M_ret.
  replace (Z.max (l - f) 1) with (l - f) by lia. replace (Z.max s 0) with s by lia.
  split; [done|]. pose proof (Z.div_pos s (l - f)). lia.
Qed.
End proofs.

(** ** Ending, pausing and listing sessions *)
Section ending.
Context {R : Type} `{!RedisServer R} `{Codec : !SessionCodec} (b : build) (clk : nat → DateTime).
Hypothesis Hclk : ∀ n m, (n ≤ m)%nat → clk n ≤ clk m.

Definition session_data (wallet : Address) (id : SessionId) : list string :=
  [session_key (address_display wallet) id; lookup_key id; commit_key id; proof_count_key id;
   proofs_key id; first_key id; sum_key id; activity_key id].

Lemma string_absent k (w : renv R) :
  healthy (re_state w) → (∀ t', now_of clk w ≤ t' → sees w t' k = None) →
  ∃ w', query clk as_opt_string (GET k) w = (Ok None, w').
Proof.
  intros Hh H0. destruct (get_string_healthy clk k w Hh) as (w' & E & _). exists w'.
  by rewrite H0 in E.
Qed.

Lemma i64_absent k (w : renv R) :
  healthy (re_state w) → sees w (now_of clk w) k = None →
  ∃ w', query clk as_opt_i64 (GET k) w = (Ok None, w') ∧ healthy (re_state w').
Proof.
  intros Hh H0. destruct (get_i64_healthy clk k w None Hh H0 ltac:(done)) as (w' & E & Hh' & _).
  by exists w'.
Qed.

(** Deleting a session removes its record, lookup, commit, proofs, proof
    count, hashrate and activity for good; the pause flag and the two counters
    of verified and rejected proofs stay until they expire. *)
Theorem delete_session_clears wallet id w w1 w2 :
  delete_session clk wallet id w = (Ok tt, w1) →
  steps clk (λ k, k ∈ session_data wallet id) w1 w2 → healthy (re_state w2) →
  (∃ w3, get_session clk id w2 = (Ok None, w3)) ∧
  (∃ w3, get_proofs clk id w2 = (Ok [], w3)) ∧
  (∃ w3, get_proof_count clk id w2 = (Ok 0, w3)) ∧
  (∃ w3, get_last_activity clk id w2 = (Ok None, w3)) ∧
  (∀ nonce, ∃ w3, verify_reveal clk id nonce w2 = (Ok false, w3)) ∧
  (∀ t' k, now_of clk w1 ≤ t' → k ∈ [paused_key id; verified_key id; rejected_key id] →
     sees w1 t' k = sees w t' k).
Proof.
  intros Hdel Hs Hh. unfold delete_session in Hdel. minv Hdel.
  apply redis_ok in Hx as (_ & Hv & Ht). pose proof (later clk Hclk _ _ Ht) as Hlater.
  apply (steps_sees clk Hclk) in Hs as (_ & Hn & Hs).
  assert (∀ t' k, k ∈ session_data wallet id → now_of clk w2 ≤ t' → sees w2 t' k = None) as Hnone.
  { intros t' k Hk Ht'. rewrite Hs, Hv by (done || lia). cbn [effect]. by rewrite decide_True. }
  split_and!.
  - destruct (string_absent (lookup_key id) w2 Hh) as [w3 E].
    { intros. apply Hnone; [|done]. unfold session_data. set_solver. }
    exists w3. unfold get_session. by rewrite (bind_ok_l _ _ _ _ _ E).
  - destruct (string_absent (proofs_key id) w2 Hh) as [w3 E].
    { intros. apply Hnone; [|done]. unfold session_data. set_solver. }
    exists w3. unfold get_proofs. by rewrite (bind_ok_l _ _ _ _ _ E).
  - destruct (i64_absent (proof_count_key id) w2 Hh) as [w3 [E _]].
    { apply Hnone; [|done]. unfold session_data. set_solver. }
    exists w3. unfold get_proof_count. by rewrite (bind_ok_l _ _ _ _ _ E).
  - destruct (i64_absent (activity_key id) w2 Hh) as [w3 [E _]].
    { apply Hnone; [|done]. unfold session_data. set_solver. }
    exists w3. unfold get_last_activity. by rewrite (bind_ok_l _ _ _ _ _ E).
  - intros nonce. destruct (string_absent (commit_key id) w2 Hh) as [w3 E].
    { intros. apply Hnone; [|done]. unfold session_data. set_solver. }
    exists w3. unfold verify_reveal. by rewrite (bind_ok_l _ _ _ _ _ E).
  - intros t' k Ht' Hk. rewrite Hv by lia. apply effect_frame. cbn [writes].
    rewrite !elem_of_cons, elem_of_nil in *. intros Hk'. repeat destruct Hk as [->|Hk]; try done.
    all: repeat destruct Hk' as [Hk'|Hk']; done.
Qed.

(** A session is paused exactly for the hour after [set_paused], unless it
    is resumed; [clear_paused] resumes it at once. *)
Theorem pause_and_resume id w w1 w2 :
  steps clk (λ k, k = paused_key id) w1 w2 → healthy (re_state w2) →
  (set_paused clk id w = (Ok tt, w1) →
     ∃ w3, is_paused clk id w2 = (Ok (bool_decide (now_of clk w2 < now_of clk w + secs TTL_SECS)), w3)) ∧
  (clear_paused clk id w = (Ok tt, w1) → ∃ w3, is_paused clk id w2 = (Ok false, w3)).
Proof.
  intros Hs Hh.
  destruct (query_healthy clk as_bool (EXISTS (paused_key id)) w2 Hh I) as (r & w3 & E & _ & Ha & _).
  cbn [answers] in Ha. unfold is_paused.
  split; intros Hset; exists w3; rewrite E; subst r; rewrite as_bool_int.
  - unfold set_paused in Hset. minv Hset. rewrite (set_sees clk Hclk _ _ _ _ _ _ _ _ Hx Hs) by done.
    unfold until. case_bool_decide as Hlt.
    + by rewrite (proj2 (Z.ltb_lt _ _)).
    + by rewrite (proj2 (Z.ltb_ge _ _)) by lia.
  - unfold clear_paused in Hset. minv Hset. apply redis_ok in Hx as (_ & Hv & Ht).
    pose proof (later clk Hclk _ _ Ht).
    apply (steps_sees clk Hclk) in Hs as (_ & Hn & Hs). rewrite Hs, Hv by (done || lia). cbn [effect].
    by rewrite decide_True by set_solver.
Qed.
End ending.

Section listing.
Context {R : Type} `{!RedisServer R} `{Codec : !SessionCodec} (b : build) (clk : nat → DateTime).
Hypothesis Hclk : ∀ n m, (n ≤ m)%nat → clk n ≤ clk m.

(** The summary is that of a session record under the prefix, readable between
    [lo] and [hi] in the view [v]. *)
Definition describes (prefix : string) (v : view) (lo hi : DateTime) (s : SessionSummary) : Prop :=
  ∃ key t payload ctx,
    String.prefix prefix key = true ∧ lo ≤ t ≤ hi ∧ v t key = Some payload ∧
    ctx_from_json payload = inr ctx ∧
    ss_session_id s = strip_prefix prefix key ∧
    ss_commodity s = commodity_debug (ctx_commodity ctx) ∧
    ss_client_type s = to_ascii_lowercase (client_type_debug (ctx_client_type ctx)) ∧
    ss_target_chain s = ctx_target_chain ctx ∧ ss_started_at s = ctx_started_at ctx ∧
    ss_cpu_threads s = ctx_cpu_threads ctx ∧ ss_status s = "active" ∧
    ss_est_net_usd_cents s = 0 ∧
    ss_site_code s = (site_code <$> ctx_assigned_site ctx) ∧
    ss_site_city s = (site_city <$> ctx_assigned_site ctx).

Lemma describes_mono prefix v v' lo hi lo' hi' s :
  (∀ t k, lo ≤ t → v t k = v' t k) → lo' ≤ lo → hi ≤ hi' →
  describes prefix v lo hi s → describes prefix v' lo' hi' s.
Proof.
  intros Hv Hlo Hhi (key & t & p & ctx & H1 & H2 & H3 & H4). exists key, t, p, ctx.
  destruct H4 as (H4 & H5). split_and!; try lia; try done; [by rewrite <-Hv by lia|apply H5..].
Qed.

Ltac reads := intros ? _; cbn [writes]; apply not_elem_of_nil.

(** Reads change nothing that is seen later. *)
Lemma keeps_all {A} (m : SM A) w o w' :
  keeps clk (λ _, True) m → m w = (o, w') →
  now_of clk w ≤ now_of clk w' ∧ ∀ t' k, now_of clk w' ≤ t' → sees w' t' k = sees w t' k.
Proof.
  intros Hk E. destruct (keeps_run clk _ _ _ _ _ Hk E) as [Ht Hs].
  split; [by apply Hclk|]. intros. by apply Hs.
Qed.

Lemma summarize_keeps prefix key : keeps clk (λ _, True) (summarize b clk prefix key).
Proof.
  unfold summarize, get_last_activity, get_session_hashrate, get_verified_proof_count,
    get_rejected_proof_count, get_session_counter, is_paused.
  store_keeps Hclk ltac:(reads).
Qed.

Lemma summarize_describes prefix key w s w' :
  String.prefix prefix key = true →
  summarize b clk prefix key w = (Ok (Some s), w') →
  describes prefix (sees w) (now_of clk w) (now_of clk w') s.
Proof.
  intros Hp Hs. destruct (keeps_all _ _ _ _ (summarize_keeps prefix key) Hs) as [Hn _].
  unfold summarize in Hs. minv Hs. apply redis_ok in Hq as (Ha & _). cbn in Ha.
  destruct (sees w (now_of clk w) key) as [p|] eqn:Ep; subst r; autorewrite with prm_rw in Hd;
    simplify_eq; minv Hs; simplify_eq.
  exists key, (now_of clk w), p, a. split_and!; done || lia.
Qed.

Lemma summarize_keys_describes prefix v lo keys : ∀ acc w l w',
  Forall (λ k, String.prefix prefix k = true) keys → lo ≤ now_of clk w →
  (∀ t k, now_of clk w ≤ t → sees w t k = v t k) →
  Forall (describes prefix v lo (now_of clk w)) acc →
  summarize_keys b clk prefix keys acc w = (Ok l, w') →
  now_of clk w ≤ now_of clk w' ∧ Forall (describes prefix v lo (now_of clk w')) l.
Proof.
  induction keys as [|key keys IH]; intros acc w l w' Hk Hlo Hv Hacc Hrun; cbn [summarize_keys] in Hrun.
  - minv Hrun. by subst.
  - apply Forall_cons in Hk as [Hp Hk]. minv Hrun. rename Hm into Es.
    destruct (keeps_all _ _ _ _ (summarize_keeps prefix key) Es) as [Hn Hs].
    eapply IH in Hrun; [destruct Hrun; split; [lia|done]|done|lia| |].
    + intros t k Ht. rewrite Hs by done. apply Hv. lia.
    + assert (Forall (describes prefix v lo (now_of clk w0)) acc) as Hacc'.
      { eapply Forall_impl; [exact Hacc|]. intros s. apply describes_mono; [done|lia..]. }
      destruct a as [s|]; [|done]. apply Forall_app; split; [done|].
      apply Forall_singleton. apply summarize_describes in Es; [|done].
      eapply describes_mono; [| |reflexivity|exact Es]; [|lia]. intros. by apply Hv.
Qed.

Lemma session_pattern wallet : session_key wallet "*" = session_key wallet "" +:+ "*".
Proof.
  assert (∀ a c d : string, (a +:+ c) +:+ d = a +:+ c +:+ d) as Hassoc.
  { intros a c d. induction a as [|x a IH]; [done|].
    change (String x ((a +:+ c) +:+ d) = String x (a +:+ c +:+ d)). by rewrite IH. }
  unfold session_key. by rewrite !Hassoc.
Qed.

Lemma plain_app a c : plain (a +:+ c) = plain a && plain c.
Proof.
  induction a as [|x a IH]; [done|].
  change (plain_char x && plain (a +:+ c) = plain_char x && plain a && plain c).
  by rewrite IH, andb_assoc.
Qed.

Lemma list_loop_describes wallet v lo fuel : ∀ cursor acc w l w',
  plain wallet = true → lo ≤ now_of clk w →
  (∀ t k, now_of clk w ≤ t → sees w t k = v t k) →
  Forall (describes (session_key wallet "") v lo (now_of clk w)) acc →
  list_loop b clk fuel (session_key wallet "*") (session_key wallet "") cursor acc w = (Ok (Some l), w') →
  Forall (describes (session_key wallet "") v lo (now_of clk w')) l.
Proof.
  induction fuel as [|fuel IH]; intros cursor acc w l w' Hp Hlo Hv Hacc Hrun; cbn [list_loop] in Hrun;
    minv Hrun; [done|]. destruct a as [next keys]. minv Hrun. rename Hm into Hkeys.
  destruct (keeps_run clk _ _ _ _ _ (keeps_redis clk Hclk (λ _, True) (SCAN cursor (session_key wallet "*") 100)
    ltac:(reads)) Hq) as [Ht0 Hs0]. apply Hclk in Ht0. fold (now_of clk w) (now_of clk w0) in Ht0.
  apply redis_ok in Hq as (Ha & _). destruct Ha as (n' & ks & -> & Hks).
  autorewrite with prm_rw in Hd. injection Hd as -> ->.
  destruct (keeps_run clk _ _ _ _ _ (summarize_keys_keeps b clk Hclk (λ _, True) (session_key wallet "") keys acc) Hkeys)
    as [_ Hs1].
  apply (summarize_keys_describes (session_key wallet "") v lo) in Hkeys as [Hn Hl].
  - destruct (next =? 0); minv Hrun; [by simplify_eq|].
    eapply IH in Hrun; [done|done|lia| |done].
    intros t k Ht. rewrite Hs1, Hs0 by (done || lia). apply Hv. lia.
  - eapply Forall_impl; [exact Hks|]. intros k [Hg _]. rewrite session_pattern in Hg.
    rewrite <-glob_prefix; [done|]. unfold session_key. rewrite !plain_app, Hp. done.
  - lia.
  - intros t k Ht. rewrite Hs0 by (done || lia). apply Hv. lia.
  - eapply Forall_impl; [exact Hacc|]. intros s. apply describes_mono; [done|lia..].
Qed.

(** The keys of a scan end. *)
Lemma list_loop_ends pattern prefix (rank : Z → nat) :
  (∀ cursor w next keys w', redis clk (SCAN cursor pattern 100) w = (Ok (RScan next keys), w') →
     next = 0 ∨ (rank next < rank cursor)%nat) →
  ∀ fuel cursor acc w, (rank cursor < fuel)%nat →
    (list_loop b clk fuel pattern prefix cursor acc w).1 ≠ Ok None.
Proof.
  intros Hrank fuel. induction fuel as [|fuel IH]; intros cursor acc w Hf; [lia|]. cbn [list_loop].
  unfold query, map_err, mbind, M_bind.
  destruct (redis clk (SCAN cursor pattern 100) w) as [[r|e|] w1] eqn:E; cbn; [|done|done].
  pose proof (redis_ok _ _ _ _ _ E) as (Ha & _). destruct Ha as (next & keys & -> & _).
  unfold decode. autorewrite with prm_rw. cbn.
  destruct (summarize_keys b clk prefix keys acc w1) as [[acc'|e|] w2]; cbn; [|done|done].
  destruct (Z.eqb_spec next 0) as [->|Hne]; [done|]. apply IH.
  destruct (Hrank _ _ _ _ _ E); [done|lia].
Qed.

Lemma count_loop_ends pattern (rank : Z → nat) :
  (∀ cursor w next keys w', redis clk (SCAN cursor pattern 100) w = (Ok (RScan next keys), w') →
     next = 0 ∨ (rank next < rank cursor)%nat) →
  ∀ fuel cursor count w, (rank cursor < fuel)%nat →
    (count_loop b clk fuel pattern cursor count w).1 ≠ Ok None.
Proof.
  intros Hrank fuel. induction fuel as [|fuel IH]; intros cursor count w Hf; [lia|]. cbn [count_loop].
  unfold query, map_err, mbind, M_bind.
  destruct (redis clk (SCAN cursor pattern 100) w) as [[r|e|] w1] eqn:E; cbn; [|done|done].
  pose proof (redis_ok _ _ _ _ _ E) as (Ha & _). destruct Ha as (next & keys & -> & _).
  unfold decode. autorewrite with prm_rw. cbn.
  destruct (arith_u _ _ _) as [c|]; cbn; [|done].
  destruct (Z.eqb_spec next 0) as [->|Hne]; [done|]. apply IH. destruct (Hrank _ _ _ _ _ E); [done|lia].
Qed.

(** Listing a wallet's sessions, and counting them, ends once the server's scan
    does, and the list shows only what is there: every summary is the projection of
    a session record of that wallet, under its own id, that was readable while the
    listing ran. *)
Theorem listing_sound wallet (rank : Z → nat) w fuel :
  plain wallet = true →
  (∀ cursor w next keys w',
     redis clk (SCAN cursor (session_key wallet "*") 100) w = (Ok (RScan next keys), w') →
     next = 0 ∨ (rank next < rank cursor)%nat) →
  (rank 0%Z < fuel)%nat →
  (∀ a, address_display a = wallet → (get_active_session_count b clk fuel a w).1 ≠ Ok None) ∧
  ∃ o w', list_sessions_for_wallet b clk fuel wallet w = (o, w') ∧ o ≠ Ok None ∧
    ∀ l, o = Ok (Some l) →
      Forall (describes (session_key wallet "") (sees w) (now_of clk w) (now_of clk w')) l.
Proof.
  intros Hp Hrank Hf. split.
  { intros a <-. by apply (count_loop_ends _ _ Hrank). }
  unfold list_sessions_for_wallet.
  destruct (list_loop b clk fuel (session_key wallet "*") (session_key wallet "") 0 [] w) as [o w'] eqn:E.
  exists o, w'. split_and!; [done| |].
  - change o with (o, w').1. rewrite <-E. by apply (list_loop_ends _ _ _ Hrank).
  - intros l ->. eapply (list_loop_describes wallet (sees w) (now_of clk w)); done || lia.
Qed.
End listing.

(** ** A codec and the witnesses

    JSON by index in a table of values, lower-case hexadecimal, and a digest of
    the right shape: the class is inhabited. *)
Definition table_encode {A} `{EqDecision A} (tbl : list A) (a : A) : JsonError + string :=
  match list_find (eq a) tbl with
  | Some (i, _) => inr (show (Z.of_nat i))
  | None => inl (mkJsonError "unknown")
  end.
Definition table_decode {A} (tbl : list A) (s : string) : JsonError + A :=
  match parse_u U64_MAX s with
  | Some i => match tbl !! Z.to_nat i with Some a => inr a | None => inl (mkJsonError "unknown") end
  | None => inl (mkJsonError "number")
  end.

Lemma table_roundtrip {A} `{EqDecision A} (tbl : list A) a s :
  Z.of_nat (length tbl) ≤ U64_MAX → table_encode tbl a = inr s → table_decode tbl s = inr a.
Proof.
  unfold table_encode, table_decode. intros Hlen.
  destruct (list_find (eq a) tbl) as [[i x]|] eqn:E; [|done]. intros [= <-].
  apply list_find_Some in E as (Hi & <- & _). pose proof (lookup_lt_Some _ _ _ Hi).
  rewrite parse_u_show by lia. by rewrite Nat2Z.id, Hi.
Qed.

Definition hex_digit (n : Z) : ascii :=
  ascii_of_nat (Z.to_nat (if n <? 10 then 48 + n else 87 + n)).
Fixpoint hex (l : bytes) : string :=
  match l with
  | [] => ""
  | x :: l => String (hex_digit (x / 16)) (String (hex_digit (x mod 16)) (hex l))
  end.

Lemma hex_digit_inj x y : 0 ≤ x < 16 → 0 ≤ y < 16 → hex_digit x = hex_digit y → x = y.
Proof.
  intros Hx Hy Heq.
  assert (nat_of_ascii (hex_digit x) = nat_of_ascii (hex_digit y)) as H by congruence.
  unfold hex_digit in H. rewrite !nat_ascii_embedding in H by (repeat case_match; lia).
  destruct (Z.ltb_spec x 10), (Z.ltb_spec y 10); lia.
Qed.

Lemma hex_inj a : ∀ b,
  Forall (λ x, 0 ≤ x ≤ 255) a → Forall (λ x, 0 ≤ x ≤ 255) b → hex a = hex b → a = b.
Proof.
  induction a as [|x a IH]; intros [|y b] Ha Hb Heq; try done.
  apply Forall_cons in Ha as [Hx Ha], Hb as [Hy Hb]. cbn in Heq. injection Heq as H1 H2 H3.
  f_equal; [|by apply IH].
  pose proof (Z.div_mod x 16). pose proof (Z.div_mod y 16).
  pose proof (Z.mod_pos_bound x 16). pose proof (Z.mod_pos_bound y 16).
  apply hex_digit_inj in H1; [|lia..]. apply hex_digit_inj in H2; [|lia..]. lia.
Qed.

Lemma hex_length a : String.length (hex a) = (2 * length a)%nat.
Proof. induction a as [|x a IH]; cbn; [done|]. rewrite IH. lia. Qed.

Definition toy_digest (a : bytes) : bytes := replicate 32 (foldr Z.add 0 a mod 256).

Definition sample_ctx : SessionContext :=
  mkSessionContext 7 None Desktop 0 0 None None Gold Polygon 8 (Some (mkNodeSite "JHB" "Johannesburg" "ZA")).
Definition sample_proof (n : Z) : PartialProof :=
  mkPartialProof "s0" 7 n 1000 [1] [2] 30000 0 None.

#[local] Obligation Tactic := idtac.
(** A codec that knows the values of two tables. *)
Program Definition table_codec (ctxs : list SessionContext) (pss : list (list PartialProof))
    (Hctxs : (length ctxs ≤ 100)%nat) (Hpss : (length pss ≤ 100)%nat) : SessionCodec := {|
  ctx_to_json := table_encode ctxs;
  ctx_from_json := table_decode ctxs;
  proofs_to_json := table_encode pss;
  proofs_from_json := table_decode pss;
  address_display := show;
  sha256 := toy_digest;
  hex_encode := hex;
  new_uuid n := "s" +:+ show (Z.of_nat n);
  from_timestamp t := Some (secs t)
|}.
Next Obligation. intros ctxs pss Hc Hp c s. apply table_roundtrip. lia. Qed.
Next Obligation. intros ctxs pss Hc Hp c s. apply table_roundtrip. lia. Qed.
Next Obligation. intros ctxs pss Hc Hp a b. apply hex_inj. Qed.
Next Obligation. intros ctxs pss Hc Hp a. apply hex_length. Qed.
Next Obligation.
  intros ctxs pss Hc Hp a. unfold toy_digest. split; [|by rewrite length_replicate].
  apply Forall_replicate. pose proof (Z.mod_pos_bound (foldr Z.add 0 a) 256). lia.
Qed.
Definition sample_codec : SessionCodec :=
  table_codec [sample_ctx] [[sample_proof 0]; [sample_proof 0; sample_proof 1]]
    ltac:(apply Nat.leb_le; reflexivity) ltac:(apply Nat.leb_le; reflexivity).

(** One second per tick; an empty server. *)
Definition sclk (n : nat) : DateTime := secs (Z.of_nat n).
Definition s_empty : renv MemRedis := mkRenv (mkMemRedis ∅ []) 0.

Lemma sclk_mono n m : (n ≤ m)%nat → sclk n ≤ sclk m.
Proof. unfold sclk, secs, NANOS_PER_SEC. lia. Qed.

(** The same, stopped after 1000 seconds: within the range of a timestamp. *)
Definition bclk (n : nat) : DateTime := sclk (min n 1000).

Lemma bclk_mono n m : (n ≤ m)%nat → bclk n ≤ bclk m.
Proof. intros. apply sclk_mono. lia. Qed.

Lemma bclk_range n : 0 ≤ timestamp (bclk n) ≤ I64_MAX.
Proof. unfold timestamp, bclk, sclk, secs. rewrite Z.div_mul by done. lia. Qed.

#[local] Existing Instance sample_codec.

Lemma session_lifetime_witness :
  ∃ w1 w3, create_session sclk sample_ctx s_empty = (Ok "s0", w1) ∧
    get_session sclk "s0" (set_paused sclk "s0" w1).2 = (Ok (Some sample_ctx), w3).
Proof.
  destruct (create_session sclk sample_ctx s_empty) as [o w1] eqn:E.
  assert (o = Ok "s0") as -> by (apply (f_equal fst) in E; vm_compute in E; congruence).
  pose proof (f_equal snd E) as Ew. cbn [snd] in Ew. exists w1.
  destruct (session_lifetime Debug sclk sclk_mono sample_ctx s_empty "s0" w1 (set_paused sclk "s0" w1).2 E)
    as [H _].
  - eapply run_act; [apply act_pause|apply run_done].
  - rewrite <-Ew. vm_compute. reflexivity.
  - destruct H as [w3 H]; [rewrite <-Ew; vm_compute; reflexivity|]. by exists w3.
Defined.

Lemma commit_reveal_witness :
  ∃ w2' w5,
    verify_reveal sclk "s0" [3; 4] (create_session sclk sample_ctx s_empty).2 = (Ok false, w2') ∧
    verify_reveal sclk "s0" [3; 4]
      (set_commit sclk "s0" (toy_digest [3; 4]) (create_session sclk sample_ctx s_empty).2).2 =
      (Ok true, w5).
Proof.
  set (w1 := (create_session sclk sample_ctx s_empty).2).
  set (h := toy_digest [3; 4]).
  set (w3 := (set_commit sclk "s0" h w1).2).
  assert (create_session sclk sample_ctx s_empty = (Ok "s0", w1)) as E1 by (vm_compute; reflexivity).
  assert (set_commit sclk "s0" h w1 = (Ok tt, w3)) as E3 by (vm_compute; reflexivity).
  destruct (commit_reveal sclk sclk_mono sample_ctx s_empty "s0" w1 w1 h w3 w3 [3; 4] E1
    (steps_refl _ _ _) ltac:(vm_compute; reflexivity) E3
    ltac:(apply Forall_replicate; vm_compute; done) ltac:(vm_compute; reflexivity)
    (steps_refl _ _ _) ltac:(vm_compute; reflexivity)) as [[w2' H1] [w5 H2]].
  exists w2', w5. split; [exact H1|]. rewrite H2. f_equal.
Defined.

Lemma proofs_in_order_witness :
  ∃ w' w2, proofs_run sclk "s0" s_empty [sample_proof 0; sample_proof 1] w' ∧
    get_proofs sclk "s0" w' = (Ok [sample_proof 0; sample_proof 1], w2).
Proof.
  set (w1 := (store_proof sclk "s0" (sample_proof 0) s_empty).2).
  set (w2 := (store_proof sclk "s0" (sample_proof 1) w1).2).
  assert (proofs_run sclk "s0" s_empty ([] ++ [sample_proof 0] ++ [sample_proof 1]) w2) as Hrun.
  { rewrite app_assoc. apply (proofs_store _ _ _ w1); [|vm_compute; reflexivity].
    apply (proofs_store _ _ _ s_empty); [|vm_compute; reflexivity].
    apply proofs_start. reflexivity. }
  destruct (proofs_in_order sclk sclk_mono "s0" s_empty _ w2 Hrun) as [w3 H];
    [vm_compute; reflexivity|vm_compute; reflexivity|].
  exists w2, w3. split; [exact Hrun|exact H].
Defined.

Lemma hashrate_derived_witness :
  ∃ w' w2, hashrate_run bclk "s0" s_empty (Some 1) (Some 30000) (Some 4) w' ∧
    get_session_hashrate Debug bclk "s0" Desktop w' = (Ok 4000, w2).
Proof.
  set (w1 := (record_accepted_proof bclk "s0" 50000 1 s_empty).2).
  set (w2 := (record_accepted_proof bclk "s0" 30000 3 w1).2).
  set (w3 := (touch_last_activity bclk "s0" w2).2).
  assert (hashrate_run bclk "s0" s_empty (Some 1) (Some 30000) (Some 4) w3) as Hrun.
  { replace (Some 4) with (Some (timestamp (now_of bclk w2))) by (vm_compute; reflexivity).
    apply (hr_touch _ _ _ _ _ None w2); [|vm_compute; reflexivity].
    apply (hr_more _ _ _ _ None None 30000 3 w1); [|vm_compute; reflexivity].
    apply (hr_first _ _ _ _ None 50000 1 s_empty); [|lia|vm_compute; reflexivity].
    apply hr_start. by intros k _. }
  destruct (hashrate_derived Debug bclk bclk_mono bclk_range "s0" s_empty _ _ _ w3 Desktop Hrun)
    as (w4 & H & _); [vm_compute; reflexivity|vm_compute; reflexivity|].
  exists w3, w4. split; [exact Hrun|]. rewrite H. reflexivity.
Defined.

Lemma delete_session_clears_witness :
  ∃ w3, get_session sclk "s0"
    (delete_session sclk 7 "s0" (create_session sclk sample_ctx s_empty).2).2 = (Ok None, w3).
Proof.
  set (w := (create_session sclk sample_ctx s_empty).2).
  set (w1 := (delete_session sclk 7 "s0" w).2).
  assert (delete_session sclk 7 "s0" w = (Ok tt, w1)) as E by (vm_compute; reflexivity).
  destruct (delete_session_clears sclk sclk_mono 7 "s0" w w1 w1 E (steps_refl _ _ _)
    ltac:(vm_compute; reflexivity)) as [H _]. exact H.
Defined.

Lemma pause_and_resume_witness :
  (∃ w3, is_paused sclk "s0" (set_paused sclk "s0" s_empty).2 = (Ok true, w3)) ∧
  (∃ w3, is_paused sclk "s0" (clear_paused sclk "s0" (set_paused sclk "s0" s_empty).2).2 = (Ok false, w3)).
Proof.
  set (w1 := (set_paused sclk "s0" s_empty).2). set (w2 := (clear_paused sclk "s0" w1).2).
  assert (set_paused sclk "s0" s_empty = (Ok tt, w1)) as E1 by (vm_compute; reflexivity).
  assert (clear_paused sclk "s0" w1 = (Ok tt, w2)) as E2 by (vm_compute; reflexivity).
  assert (steps sclk (λ k, k = paused_key "s0") w1 w1) as Hs1 by constructor.
  assert (steps sclk (λ k, k = paused_key "s0") w2 w2) as Hs2 by constructor.
  split.
  - destruct (pause_and_resume sclk sclk_mono "s0" s_empty w1 w1 Hs1
      ltac:(vm_compute; reflexivity)) as [H _]. destruct (H E1) as [w3 H3]. exists w3. rewrite H3.
    f_equal.
  - destruct (pause_and_resume sclk sclk_mono "s0" w1 w2 w2 Hs2
      ltac:(vm_compute; reflexivity)) as [_ H]. exact (H E2).
Defined.

Lemma listing_sound_witness :
  ∃ l w', list_sessions_for_wallet Debug sclk 1 "7" (create_session sclk sample_ctx s_empty).2 =
      (Ok (Some l), w') ∧ length l = 1%nat ∧
    Forall (describes (session_key "7" "") (sees (create_session sclk sample_ctx s_empty).2)
      (now_of sclk (create_session sclk sample_ctx s_empty).2) (now_of sclk w')) l.
Proof.
  set (w := (create_session sclk sample_ctx s_empty).2).
  assert (∀ cursor (w : renv MemRedis) next keys w',
     redis sclk (SCAN cursor (session_key "7" "*") 100) w = (Ok (RScan next keys), w') →
     next = 0 ∨ (0 < 0)%nat) as Hrank.
  { intros cursor [[m f] t] next keys w' H. unfold redis in H. cbn in H.
    destruct f as [|[] f]; cbn in H; simplify_eq; by left. }
  destruct (listing_sound Debug sclk sclk_mono "7" (λ _, 0%nat) w 1 eq_refl Hrank (le_n 1))
    as (_ & o & w' & E & _ & Hl).
  assert (∃ l, o = Ok (Some l) ∧ length l = 1%nat) as (l & -> & Hlen).
  { apply (f_equal fst) in E. vm_compute in E. rewrite <-E. eexists. split; reflexivity. }
  exists l, w'. split; [exact E|]. split; [exact Hlen|]. exact (Hl l eq_refl).
Defined.
