(* ===== verification/RandomX.v ===== *)
(** * crates/randomx-verifier/src/lib.rs: proof-of-work verification

    The RandomX library is a parameter: a type of virtual machines, their
    construction and their hash function. *)
From S2P Require Import Prelude Common.

(** [PHASE2_SEED]: the bytes of the text. *)
Fixpoint string_bytes (s : string) : bytes :=
  match s with
  | EmptyString => []
  | String c s' => Z.of_nat (nat_of_ascii c) :: string_bytes s'
  end.
Definition PHASE2_SEED : bytes := string_bytes "primora-phase2-randomx-seed".

Inductive RandomXError :=
  | CacheInit (msg : string)
  | VmInit (msg : string)
  | HashFailed (msg : string).
#[export] Instance RandomXError_display : Display RandomXError := λ e,
  match e with
  | CacheInit e => "randomx cache init failed: " +:+ e
  | VmInit e => "randomx vm init failed: " +:+ e
  | HashFailed e => "randomx hash failed: " +:+ e
  end.

(** [randomx_rs], with [e.to_string()] applied to its errors. *)
Class RandomXLib (Cache Vm : Type) := {
  cache_new : bytes → string + Cache;
  vm_new : Cache → string + Vm;
  calculate_hash : Vm → bytes → string + bytes
}.

Lemma string_bytes_range s : Forall (λ x, 0 ≤ x ≤ 255) (string_bytes s).
Proof. induction s as [|c s IH]; cbn; constructor; [|done]. pose proof (nat_ascii_bounded c). lia. Qed.

(** [U256::from_be_slice]. *)
Definition from_be_slice (l : bytes) : Z := foldl (λ acc x, acc * 256 + x) 0 l.

Section verifier.
Context {Cache Vm : Type} `{!RandomXLib Cache Vm}.

Record RandomXVerifier := mkRandomXVerifier { rx_vm : Vm }.

Definition verifier_new (key : bytes) : RandomXError + RandomXVerifier :=
  match cache_new key with
  | inl e => inl (CacheInit e)
  | inr cache =>
      match vm_new cache with
      | inl e => inl (VmInit e)
      | inr vm => inr {| rx_vm := vm |}
      end
  end.

Definition hash (self : RandomXVerifier) (input : bytes) : RandomXError + bytes :=
  match calculate_hash (rx_vm self) input with
  | inl e => inl (HashFailed e)
  | inr computed =>
      if decide (length computed ≠ 32%nat) then
        inl (HashFailed ("unexpected hash length " +:+ show (Z.of_nat (length computed))))
      else inr computed
  end.

Definition verify (self : RandomXVerifier) (input expected_hash : bytes) (difficulty : Z)
    : RandomXError + bool :=
  match hash self input with
  | inl e => inl e
  | inr computed =>
      if decide (computed ≠ expected_hash) then inr false
      else
        let divisor := Z.max difficulty 1 in
        let target := U256_MAX / divisor in
        let hash_value := from_be_slice computed in
        inr (hash_value <=? target)
  end.

(** *** examples/gen_proof.rs: the proof a client submits for an input

    The two lines printed, or what standard error shows at exit 1. *)
Definition gen_proof (hex_encode : bytes → string) (args : list string) : list string + list string :=
  match args with
  | [] =>
      inl [ "usage: gen_proof <input> [seed]";
            "  line 1 = hex(input) -> proof_input; line 2 = hex(randomx hash) -> proof_hash" ]
  | input :: rest =>
      let seed := match rest with seed :: _ => string_bytes seed | [] => PHASE2_SEED end in
      match verifier_new seed with
      | inl e => inl [ "error: failed to init RandomX verifier: " +:+ display e ]
      | inr verifier =>
          match hash verifier (string_bytes input) with
          | inl e => inl [ "error: failed to compute RandomX hash: " +:+ display e ]
          | inr hash => inr [ hex_encode (string_bytes input); hex_encode hash ]
          end
      end
  end.

(** ** Lemmas *)
Lemma from_be_slice_app l x : from_be_slice (l ++ [x]) = from_be_slice l * 256 + x.
Proof. unfold from_be_slice. by rewrite foldl_app. Qed.

Lemma from_be_slice_range l :
  Forall (λ x, 0 ≤ x ≤ 255) l → 0 ≤ from_be_slice l < 256 ^ Z.of_nat (length l).
Proof.
  induction l as [|x l IH] using rev_ind; intros Hl; [done|].
  apply Forall_app in Hl as [Hl Hx]. rewrite Forall_singleton in Hx. specialize (IH Hl).
  rewrite from_be_slice_app, length_app. cbn [length].
  rewrite Nat2Z.inj_add, Z.pow_add_r by lia. change (256 ^ Z.of_nat 1) with 256. lia.
Qed.

(** Meeting the target, without the division. *)
Lemma meets_target h d : 0 ≤ h → (h <=? U256_MAX / Z.max d 1) = (h * Z.max d 1 <=? U256_MAX).
Proof.
  intros Hh. apply eq_iff_eq_true. rewrite !Z.leb_le. split; intros H.
  - pose proof (Z.mul_div_le U256_MAX (Z.max d 1)). nia.
  - apply Z.div_le_lower_bound; lia.
Qed.

Lemma hash_ok self input h : hash self input = inr h → length h = 32%nat.
Proof.
  unfold hash. destruct (calculate_hash _ _) as [e|c]; [done|]. case_decide as Hl; [done|].
  intros [= <-]. destruct (decide (length c = 32%nat)); tauto.
Qed.

Lemma verify_true self input expected d :
  verify self input expected d = inr true ↔
    hash self input = inr expected ∧ from_be_slice expected <= U256_MAX / Z.max d 1.
Proof.
  unfold verify. destruct (hash self input) as [e|c] eqn:E.
  - split; [done|]. by intros [? _].
  - case_decide as Hc.
    + split; [done|]. intros [[= ->] _]. done.
    + assert (c = expected) as -> by (destruct (decide (c = expected)); tauto).
      rewrite <-Z.leb_le. split; [by intros [= ->]|by intros [_ ->]].
Qed.

Lemma hash_range self input h :
  (∀ i h, calculate_hash (rx_vm self) i = inr h → Forall (λ x, 0 ≤ x ≤ 255) h) →
  hash self input = inr h → 0 ≤ from_be_slice h ≤ U256_MAX.
Proof.
  intros Hb Hh. pose proof (hash_ok _ _ _ Hh) as Hlen. unfold hash in Hh.
  destruct (calculate_hash _ input) as [|c] eqn:E; [done|]. case_decide; [done|].
  injection Hh as ->. pose proof (from_be_slice_range _ (Hb _ _ E)) as Hr. rewrite Hlen in Hr.
  change (256 ^ Z.of_nat 32) with (U256_MAX + 1) in Hr. lia.
Qed.

(** ** Properties *)

(** C39. A proof verifies exactly when its input hashes under RandomX to the
    claimed 32-byte hash and that hash, as a big-endian number, times the
    difficulty (at least 1) stays below 2^256: difficulties 0 and 1 accept every
    hash, and what verifies at a difficulty verifies at every lower one. *)
Theorem verify_correct self input expected d d' :
  (∀ i h, calculate_hash (rx_vm self) i = inr h → Forall (λ x, 0 ≤ x ≤ 255) h) →
  (verify self input expected d = inr true ↔
     hash self input = inr expected ∧ from_be_slice expected * Z.max d 1 ≤ U256_MAX) ∧
  (hash self input = inr expected → d ≤ 1 → verify self input expected d = inr true) ∧
  (d' ≤ d → verify self input expected d = inr true → verify self input expected d' = inr true) ∧
  (∀ e, verify self input expected d = inl e ↔ hash self input = inl e).
Proof.
  intros Hb.
  pose proof (hash_range self input expected Hb) as Hr.
  assert (∀ d, verify self input expected d = inr true ↔
     hash self input = inr expected ∧ from_be_slice expected * Z.max d 1 ≤ U256_MAX) as Hiff.
  { intros d0. rewrite verify_true. split; intros [H1 H2]; (split; [done|]); specialize (Hr H1).
    - apply Z.leb_le. rewrite <-meets_target by lia. by apply Z.leb_le.
    - apply Z.leb_le. rewrite meets_target by lia. by apply Z.leb_le. }
  split_and!.
  - apply Hiff.
  - intros H Hd. apply Hiff. split; [done|]. specialize (Hr H).
    replace (Z.max d 1) with 1 by lia. lia.
  - intros Hle [H1 H2]%Hiff. apply Hiff. split; [done|]. specialize (Hr H1). nia.
  - intros e. unfold verify. destruct (hash self input); [naive_solver|]. by case_decide.
Qed.

(** What the proof generator prints is accepted. The two lines printed for an input
    with the default seed, decoded from hexadecimal, are an input and a 32-byte hash
    that a verifier of a node (which has the same seed) accepts at the lowest
    difficulty, and at any difficulty the hash meets. *)
Theorem gen_proof_accepted (hex_encode : bytes → string) (hex_decode : string → option bytes) input line1 line2 :
  (∀ l, Forall (λ x, 0 ≤ x ≤ 255) l → hex_decode (hex_encode l) = Some l) →
  (∀ vm i h, calculate_hash vm i = inr h → Forall (λ x, 0 ≤ x ≤ 255) h) →
  gen_proof hex_encode [input] = inr [line1; line2] →
  ∃ proof_input proof_hash verifier, hex_decode line1 = Some proof_input ∧ hex_decode line2 = Some proof_hash ∧
    length proof_hash = 32%nat ∧ verifier_new PHASE2_SEED = inr verifier ∧
    ∀ d, verify verifier proof_input proof_hash d =
      inr (bool_decide (d ≤ 1 ∨ from_be_slice proof_hash * d ≤ U256_MAX)).
Proof.
  intros Hhex Hb. unfold gen_proof. destruct (verifier_new PHASE2_SEED) as [e|v]; [done|].
  destruct (hash v (string_bytes input)) as [e|h] eqn:Eh; [done|]. intros [= <- <-].
  assert (Forall (λ x, 0 ≤ x ≤ 255) h) as Hh.
  { unfold hash in Eh. destruct (calculate_hash _ _) as [|c] eqn:E; [done|]. case_decide; [done|].
    injection Eh as <-. by eapply Hb. }
  exists (string_bytes input), h, v. rewrite !Hhex by (done || apply string_bytes_range).
  split_and!; [done..|by eapply hash_ok|done|]. intros d.
  pose proof (hash_range v _ h (Hb (rx_vm v)) Eh) as Hr. unfold verify. rewrite Eh, decide_False by tauto.
  rewrite meets_target by lia. f_equal. apply eq_iff_eq_true. rewrite Z.leb_le, bool_decide_eq_true.
  destruct (Z.le_gt_cases d 1); [rewrite Z.max_r by lia|rewrite Z.max_l by lia]; lia.
Qed.
End verifier.

(** ** A toy library and the witness *)
Definition toy_hash (input : bytes) : bytes := replicate 31 0 ++ [foldr Z.add 0 input mod 256].

#[export] Instance toy_lib : RandomXLib unit unit := {|
  cache_new _ := inr tt;
  vm_new _ := inr tt;
  calculate_hash _ input := inr (toy_hash input)
|}.
Definition toy_verifier : RandomXVerifier (Vm:=unit) := {| rx_vm := tt |}.

Lemma toy_hash_bytes i : Forall (λ x, 0 ≤ x ≤ 255) (toy_hash i).
Proof.
  unfold toy_hash. apply Forall_app. split; [apply Forall_replicate; lia|].
  apply Forall_singleton. pose proof (Z.mod_pos_bound (foldr Z.add 0 i) 256). lia.
Qed.

Lemma verify_correct_witness : verify toy_verifier [1; 2] (toy_hash [1; 2]) 1000 = inr true.
Proof.
  destruct (verify_correct toy_verifier [1; 2] (toy_hash [1; 2]) 1000 1000) as [H _].
  - intros i h [= <-]. apply toy_hash_bytes.
  - apply H. split; [reflexivity|]. vm_compute. discriminate.
Defined.

Definition toy_hex (l : bytes) : string := foldr (λ x s, String (ascii_of_nat (Z.to_nat x)) s) "" l.

Lemma toy_hex_bytes l : Forall (λ x, 0 ≤ x ≤ 255) l → string_bytes (toy_hex l) = l.
Proof.
  induction 1 as [|x l Hx Hl IH]; [done|]. cbn. rewrite nat_ascii_embedding by lia. fold (toy_hex l). rewrite IH. f_equal. lia.
Qed.
Lemma toy_calculated i h : calculate_hash tt i = inr h → Forall (λ x, 0 ≤ x ≤ 255) h.
Proof. intros [= <-]. apply toy_hash_bytes. Qed.

Lemma gen_proof_accepted_witness :
  ∃ line1 line2, gen_proof toy_hex ["ab"] = inr [line1; line2] ∧
  ∃ v, verify v (string_bytes line1) (string_bytes line2) 1 = inr true.
Proof.
  do 2 eexists. split; [reflexivity|].
  destruct (gen_proof_accepted toy_hex (λ s, Some (string_bytes s)) "ab" _ _ (λ l Hl, f_equal Some (toy_hex_bytes l Hl))
    (λ '(tt), toy_calculated) eq_refl) as (pi & ph & v & [= <-] & [= <-] & _ & _ & Hv).
  exists v. rewrite Hv. vm_compute. reflexivity.
Defined.
