(* ===== verification/NodeServer.v ===== *)
(** * crates/node-server/src/lib.rs: a node's gRPC service

    Authentication, proof metadata and session-end intake, and the signing of
    attestations after the pre-filter and the RandomX verification. The messages
    are those of proto/attestation.proto and proto/node_service.proto. *)
From S2P Require Import Prelude Common Validator RandomX.

(** ** Messages *)
Record ProofHash := mkProofHash { value : bytes }.
Record Timestamp := mkTimestamp { seconds : Z; nanos : Z }.
Record ProtoNodeSignature := mkProtoNodeSignature {
  pns_node_id : string;
  pns_signature : bytes;
  pns_signed_at : option Timestamp
}.
Record PartialProofMetadata := mkPartialProofMetadata {
  ppm_session_id : string;
  ppm_sequence : Z;
  ppm_hashrate : Z
}.
(** The reply to the two intake calls. *)
Record IntakeResponse := mkIntakeResponse { accepted : bool; reason : string }.
Record SessionEndedRequest := mkSessionEndedRequest { ser_session_id : string }.
Record AttestationRequest := mkAttestationRequest {
  arq_session_id : string;
  arq_wallet : string;
  arq_commodity : string;
  arq_proof_hash : option ProofHash;
  arq_requesting_node_id : string;
  arq_requested_at : option Timestamp;
  arq_proof_input : bytes;
  arq_difficulty : Z
}.
Record AttestationResponse := mkAttestationResponse {
  arp_session_id : string;
  arp_valid : bool;
  arp_signature : option ProtoNodeSignature
}.

(** [tonic::Status]. *)
Inductive Code := Unauthenticated | Internal.
Record Status := mkStatus { code : Code; message : string }.

(** [tonic::Request]: its metadata gives the text of a header, if it is there and
    is visible ASCII. *)
Record Request (T : Type) := mkRequest { metadata : string → option string; into_inner : T }.
Arguments mkRequest {T} _ _.
Arguments metadata {T} _ _.
Arguments into_inner {T} _.

Definition API_KEY_HEADER : string := "x-api-key".
Definition DEFAULT_NODE_ID : string := "node-unknown".
Definition RANDOMX_SEED : bytes := PHASE2_SEED.

(** The signing key of [alloy] ([sign_message_sync] with its error as text, and
    the 65 bytes of a signature), and the clock's sub-second part. *)
Class MessageSigner (Key : Type) := {
  sign_message_sync : Key → bytes → string + Signature;
  signature_bytes : Signature → bytes
}.

Section service.
Context {Cache Vm Key : Type} `{!RandomXLib Cache Vm} `{!MessageSigner Key}.

(** A RandomX verification request; the reply channel is the function's result. *)
Record VerifyJob := mkVerifyJob {
  vj_input : bytes;
  vj_expected : bytes;
  vj_difficulty : Z
}.

(** The dedicated verifier thread: serving with its verifier, ended before the
    job was sent, or ended while it held the job. *)
Inductive VerifierThread :=
  | Serving (v : RandomXVerifier (Vm:=Vm))
  | Ended
  | EndedInJob.

Inductive JobReply :=
  | SendFailed
  | ReplyDropped
  | Replied (r : RandomXError + bool).

Definition run_job (t : VerifierThread) (job : VerifyJob) : JobReply :=
  match t with
  | Serving v => Replied (verify v (vj_input job) (vj_expected job) (vj_difficulty job))
  | Ended => SendFailed
  | EndedInJob => ReplyDropped
  end.

Definition spawn_verifier (seed : bytes) : RandomXError + VerifierThread :=
  match verifier_new seed with
  | inr v => inr (Serving v)
  | inl e => inl e
  end.

Record NodeServiceImpl := mkNodeServiceImpl {
  api_key : string;
  signer : Key;
  verify_tx : VerifierThread
}.

Definition node_service_new (api_key : string) (signer : Key) : RandomXError + NodeServiceImpl :=
  match spawn_verifier RANDOMX_SEED with
  | inl e => inl e
  | inr verify_tx => inr {| api_key := api_key; signer := signer; verify_tx := verify_tx |}
  end.

(** [build_server]: the service, as Tonic registers it. *)
Definition build_server (api_key : string) (signer : Key) : RandomXError + NodeServiceImpl :=
  node_service_new api_key signer.

Definition authenticate {T} (self : NodeServiceImpl) (request : Request T) : option Status :=
  match metadata request API_KEY_HEADER with
  | Some key => if String.eqb key (api_key self) then None
                else Some (mkStatus Unauthenticated "invalid api key")
  | None => Some (mkStatus Unauthenticated "invalid api key")
  end.

Definition proof_hash_bytes (hash : ProofHash) : bytes :=
  let len := Nat.min (length (value hash)) 32 in
  take len (value hash) ++ replicate (32 - len) 0.

Definition submit_proof_metadata (self : NodeServiceImpl) (request : Request PartialProofMetadata)
    : Status + IntakeResponse :=
  match authenticate self request with
  | Some status => inl status
  | None => inr {| accepted := true; reason := "ok" |}
  end.

Definition session_ended (self : NodeServiceImpl) (request : Request SessionEndedRequest)
    : Status + IntakeResponse :=
  match authenticate self request with
  | Some status => inl status
  | None => inr {| accepted := true; reason := "ok" |}
  end.

Definition invalid (session_id : string) : Status + AttestationResponse :=
  inr {| arp_session_id := session_id; arp_valid := false; arp_signature := None |}.

(** The structural pre-filter on the proof and context made from the request. *)
Definition prefilter_ok (now : DateTime) (req : AttestationRequest) (proof_hash : bytes) : bool :=
  let proof := {| pp_session_id := arq_session_id req; pp_wallet := 0; pp_sequence := 0;
                  pp_hashrate := 0; pp_proof_hash := proof_hash;
                  pp_proof_input := arq_proof_input req; pp_difficulty := arq_difficulty req;
                  pp_submitted_at := now; pp_signature := None |} in
  let ctx := {| ctx_wallet := 0; ctx_ip := None; ctx_client_type := Desktop;
                ctx_active_sessions_count := 1; ctx_started_at := now;
                ctx_last_submission_at := None; ctx_assigned_node_id := None;
                ctx_commodity := Gold; ctx_target_chain := Ethereum; ctx_cpu_threads := 0;
                ctx_assigned_site := None |} in
  match validator PreFilter proof PreFilter ctx with
  | Invalid _ => false
  | Suspicious _ | Valid => true
  end.

(** [request_attestation]; [env_node_id] is the environment variable [NODE_ID],
    [now] the clock and [t] the verifier thread as the job finds it. *)
Definition request_attestation (self : NodeServiceImpl) (t : VerifierThread)
    (env_node_id : option string) (now : DateTime) (request : Request AttestationRequest)
    : Status + AttestationResponse :=
  match authenticate self request with
  | Some status => inl status
  | None =>
      let req := into_inner request in
      match arq_proof_hash req with
      | None => invalid (arq_session_id req)
      | Some h =>
          let proof_hash := proof_hash_bytes h in
          if negb (prefilter_ok now req proof_hash) then invalid (arq_session_id req)
          else
            match run_job t (mkVerifyJob (arq_proof_input req) proof_hash (arq_difficulty req)) with
            | SendFailed => inl (mkStatus Internal "randomx verifier unavailable")
            | Replied (inr true) =>
                match sign_message_sync (signer self) proof_hash with
                | inl _ => inl (mkStatus Internal "attestation signing failed")
                | inr signature =>
                    inr {| arp_session_id := arq_session_id req;
                           arp_valid := true;
                           arp_signature := Some
                             {| pns_node_id := default DEFAULT_NODE_ID env_node_id;
                                pns_signature := signature_bytes signature;
                                pns_signed_at := Some
                                  {| seconds := timestamp now;
                                     nanos := now mod NANOS_PER_SEC |} |} |}
                end
            | Replied (inr false) => invalid (arq_session_id req)
            | Replied (inl _) => invalid (arq_session_id req)
            | ReplyDropped => inl (mkStatus Internal "randomx verifier dropped reply")
            end
      end
  end.

(** ** Lemmas *)
Lemma proof_hash_bytes_length h : length (proof_hash_bytes h) = 32%nat.
Proof. unfold proof_hash_bytes. rewrite length_app, length_take, length_replicate. lia. Qed.

Lemma proof_hash_bytes_exact h : length (value h) = 32%nat → proof_hash_bytes h = value h.
Proof. unfold proof_hash_bytes. intros H. by rewrite H, app_nil_r, take_ge by (rewrite H; done). Qed.

(** With no reported hashrate, no last submission and one active session, the
    pre-filter lets every request through. *)
Lemma prefilter_always now req h : prefilter_ok now req h = true.
Proof. reflexivity. Qed.

Lemma signed_attestation self t env now request sid sig :
  request_attestation self t env now request =
    inr {| arp_session_id := sid; arp_valid := true; arp_signature := sig |} →
  ∃ h v s,
    metadata request API_KEY_HEADER = Some (api_key self) ∧
    arq_proof_hash (into_inner request) = Some h ∧
    t = Serving v ∧
    verify v (arq_proof_input (into_inner request)) (proof_hash_bytes h)
      (arq_difficulty (into_inner request)) = inr true ∧
    sign_message_sync (signer self) (proof_hash_bytes h) = inr s ∧
    sid = arq_session_id (into_inner request) ∧
    sig = Some {| pns_node_id := default DEFAULT_NODE_ID env; pns_signature := signature_bytes s;
                  pns_signed_at := Some {| seconds := timestamp now; nanos := now mod NANOS_PER_SEC |} |}.
Proof.
  unfold request_attestation, authenticate.
  destruct (metadata request API_KEY_HEADER) as [key|]; [|done].
  destruct (String.eqb_spec key (api_key self)) as [->|]; [|done].
  destruct (arq_proof_hash (into_inner request)) as [h|]; [|done]. rewrite prefilter_always. cbn [negb].
  destruct t as [v| |]; cbn [run_job vj_input vj_expected vj_difficulty]; try done.
  destruct (verify _ _ _ _) as [|[]] eqn:Ev; try done.
  destruct (sign_message_sync _ _) as [|s] eqn:Es; [done|]. intros [= <- <-].
  exists h, v, s. by split_and!.
Qed.

(** ** Properties *)

(** A node signs exactly what it has verified: a valid attestation is
    returned if and only if the request carries the API key and a proof hash, the
    verifier thread serves, the proof input hashes under RandomX to the (padded
    or truncated) 32 bytes and meets the difficulty, and signing succeeds; it then
    echoes the session and signs those 32 bytes under the configured node id. *)
Theorem attestation_signed_iff self t env now request sid sig :
  request_attestation self t env now request =
    inr {| arp_session_id := sid; arp_valid := true; arp_signature := sig |} ↔
  ∃ h v s,
    metadata request API_KEY_HEADER = Some (api_key self) ∧
    arq_proof_hash (into_inner request) = Some h ∧
    t = Serving v ∧
    verify v (arq_proof_input (into_inner request)) (proof_hash_bytes h)
      (arq_difficulty (into_inner request)) = inr true ∧
    sign_message_sync (signer self) (proof_hash_bytes h) = inr s ∧
    sid = arq_session_id (into_inner request) ∧
    sig = Some {| pns_node_id := default DEFAULT_NODE_ID env; pns_signature := signature_bytes s;
                  pns_signed_at := Some {| seconds := timestamp now; nanos := now mod NANOS_PER_SEC |} |}.
Proof.
  split; [apply signed_attestation|].
  unfold request_attestation, authenticate.
  intros (h & v & s & -> & -> & -> & Hv & Hs & -> & ->). rewrite String.eqb_refl, prefilter_always.
  cbn [negb run_job vj_input vj_expected vj_difficulty]. by rewrite Hv, Hs.
Qed.

(** Every call without the exact API key is refused as unauthenticated and
    has no other answer; with it, proof metadata and session ends are always
    accepted, and an attestation that is not signed is either reported invalid
    for the session without a signature, or an internal error of the verifier
    thread or of the signer. *)
Theorem node_service_answers self t env now (r1 : Request PartialProofMetadata)
    (r2 : Request SessionEndedRequest) (r3 : Request AttestationRequest) :
  let refused := mkStatus Unauthenticated "invalid api key" in
  let ok := {| accepted := true; reason := "ok" |} in
  let keyed T (r : Request T) := bool_decide (metadata r API_KEY_HEADER = Some (api_key self)) in
  submit_proof_metadata self r1 = (if keyed _ r1 then inr ok else inl refused) ∧
  session_ended self r2 = (if keyed _ r2 then inr ok else inl refused) ∧
  (keyed _ r3 = false → request_attestation self t env now r3 = inl refused) ∧
  (keyed _ r3 = true →
   match request_attestation self t env now r3 with
   | inl status => code status = Internal ∧
       ((∀ v, t ≠ Serving v) ∨
        ∃ h e, arq_proof_hash (into_inner r3) = Some h ∧
               sign_message_sync (signer self) (proof_hash_bytes h) = inl e)
   | inr resp => arp_session_id resp = arq_session_id (into_inner r3) ∧
       (arp_valid resp = false ↔ arp_signature resp = None)
   end).
Proof.
  intros refused ok keyed.
  assert (∀ T (r : Request T), authenticate self r = if keyed T r then None else Some refused) as Hauth.
  { intros T r. unfold authenticate, keyed. destruct (metadata r API_KEY_HEADER) as [k|].
    - destruct (String.eqb_spec k (api_key self)) as [->|Hne].
      + by rewrite bool_decide_eq_true_2.
      + rewrite bool_decide_eq_false_2; [done|]. congruence.
    - by rewrite bool_decide_eq_false_2. }
  split_and!.
  - unfold submit_proof_metadata. rewrite Hauth. by destruct (keyed _ r1).
  - unfold session_ended. rewrite Hauth. by destruct (keyed _ r2).
  - intros E. unfold request_attestation. by rewrite Hauth, E.
  - intros E. unfold request_attestation. rewrite Hauth, E.
    destruct (arq_proof_hash (into_inner r3)) as [h|]; [|done]. rewrite prefilter_always. cbn [negb].
    destruct t as [v| |]; cbn [run_job vj_input vj_expected vj_difficulty].
    + destruct (verify _ _ _ _) as [|[]]; try done.
      destruct (sign_message_sync _ _) as [e|s] eqn:Es; [|done]. split; [done|]. right. by exists h, e.
    + split; [done|]. left. done.
    + split; [done|]. left. done.
Qed.
End service.
