(* ===== verification/NodeCoordinator.v ===== *)
(** * crates/node-coordinator/src: attestation by a quorum of nodes

    Deterministic selection of the attesting nodes, collection and verification of
    their signatures (lib.rs), and the gRPC client (grpc.rs). The transport, the
    clock, the timeout, hashing and signature recovery are parameters. *)
From S2P Require Import Prelude Common RandomX NodeServer.

Definition REQUIRED_SIGNATURES : nat := 3.
Definition ATTESTATION_TIMEOUT_SECS : Z := 15.
Definition ATTESTATION_NODE_COUNT : nat := 4.

Inductive NodeCoordinatorError :=
  | InsufficientAttestations (got required : nat)
  | AttestationTimeout (node_id : NodeId)
  | OnchainError (msg : string)
  | NodeError (msg : string).
#[export] Instance NodeCoordinatorError_display : Display NodeCoordinatorError := λ e,
  match e with
  | InsufficientAttestations got required =>
      "insufficient attestations: got " +:+ show (Z.of_nat got) +:+ ", required " +:+ show (Z.of_nat required)
  | AttestationTimeout node_id => "attestation timeout from node " +:+ node_id
  | OnchainError msg => "onchain error: " +:+ msg
  | NodeError msg => "node error: " +:+ msg
  end.

(** A call that reads or changes the network [W]. *)
Definition Call (W A : Type) : Type := W → A * W.

(** The trait [NodeClient]. *)
Class NodeClient (W C : Type) :=
  client_request : C → NodeId → NodeId → list PartialProof →
    Call W (NodeCoordinatorError + NodeSignature).

(** [tokio::time::timeout]: a call that is dropped yields nothing. *)
Class Timer (W : Type) := {
  timeout {A} : Z → Call W A → Call W (option A);
  timeout_some {A} secs (c : Call W A) w a w' : timeout secs c w = (Some a, w') → c w = (a, w')
}.

(** SHA-256 and [recover_address_from_msg]. *)
Class AttestationCrypto := {
  sha256_digest : bytes → bytes;
  recover_address_from_msg : Signature → bytes → option Address
}.

(** ** Selection *)
Definition swap {A} (i j : nat) (l : list A) : list A :=
  match l !! i, l !! j with
  | Some x, Some y => <[j := x]> (<[i := y]> l)
  | _, _ => l
  end.

(** The loop [for i in (1..len).rev()], from [i] down to 1. *)
Fixpoint shuffle {A} (seed : bytes) (i : nat) (pool : list A) : list A :=
  match i with
  | O => pool
  | S i' =>
      let entropy := nth (i mod 32) seed 0 in
      let j := Z.to_nat (entropy mod (Z.of_nat i + 1)) in
      shuffle seed i' (swap i j pool)
  end.

Section coordinator.
Context {W C : Type} `{!NodeClient W C, !Timer W, !AttestationCrypto}.

(** [NodeCoordinator] with its two constants; [HashMap]s are finite maps. *)
Record NodeCoordinator := mkNodeCoordinator {
  nc_clients : gmap NodeId C;
  nc_eligible_nodes : list NodeId;
  nc_signers : gmap NodeId Address;
  nc_required_signatures : nat;
  nc_attestation_timeout_secs : Z
}.

Definition coordinator_new (clients : gmap NodeId C) (eligible_nodes : list NodeId)
    (signers : gmap NodeId Address) : NodeCoordinator :=
  {| nc_clients := clients; nc_eligible_nodes := eligible_nodes; nc_signers := signers;
     nc_required_signatures := REQUIRED_SIGNATURES;
     nc_attestation_timeout_secs := ATTESTATION_TIMEOUT_SECS |}.

Definition hash_proofs (proof_set : list PartialProof) : bytes :=
  sha256_digest (foldl (λ acc p, acc ++ pp_proof_hash p) [] proof_set).

Definition select_nodes (self : NodeCoordinator) (seed : bytes) (exclude : option NodeId) : list NodeId :=
  let pool := filter (λ node, exclude ≠ Some node) (nc_eligible_nodes self) in
  take (ATTESTATION_NODE_COUNT - 1) (shuffle seed (length pool - 1) pool).

Definition try_request (self : NodeCoordinator) (target assigned : NodeId)
    (proof_set : list PartialProof) (secs : Z) : Call W (option NodeSignature) := λ w,
  match nc_clients self !! target with
  | None => (None, w)
  | Some client =>
      let '(r, w') := timeout secs (client_request client target assigned proof_set) w in
      (match r with Some (inr signature) => Some signature | _ => None end, w')
  end.

(** The vectors and the [seen] set of the loop of [coordinate_attestation]. *)
Record Collected := mkCollected {
  co_signatures : list NodeSignature;
  co_node_ids : list NodeId;
  co_signers : list Address;
  co_seen : gset Address
}.
Definition collected_none : Collected := mkCollected [] [] [] ∅.

(** What the loop does with the answer of one target. *)
Definition count_signature (self : NodeCoordinator) (signed_message : option bytes)
    (target : NodeId) (answer : option NodeSignature) (acc : Collected) : Collected :=
  match answer with
  | None => acc
  | Some node_sig =>
      match signed_message with
      | None => acc
      | Some message =>
          match nc_signers self !! target with
          | None => acc
          | Some expected =>
              match recover_address_from_msg (ns_signature node_sig) message with
              | None => acc
              | Some recovered =>
                  if decide (recovered ≠ expected) then acc
                  else if decide (recovered ∈ co_seen acc) then acc
                  else {| co_signatures := co_signatures acc ++ [node_sig];
                          co_node_ids := co_node_ids acc ++ [target];
                          co_signers := co_signers acc ++ [recovered];
                          co_seen := {[recovered]} ∪ co_seen acc |}
              end
          end
      end
  end.

Fixpoint collect_signatures (self : NodeCoordinator) (assigned : NodeId)
    (proof_set : list PartialProof) (signed_message : option bytes) (secs : Z)
    (targets : list NodeId) (acc : Collected) : Call W Collected := λ w,
  match targets with
  | [] => (acc, w)
  | target :: targets =>
      let '(answer, w') := try_request self target assigned proof_set secs w in
      collect_signatures self assigned proof_set signed_message secs targets
        (count_signature self signed_message target answer acc) w'
  end.

Definition coordinate_attestation (self : NodeCoordinator) (now : W → DateTime)
    (session_id : SessionId) (proof_set : list PartialProof) (seed : bytes) (assigned : NodeId)
    : Call W (NodeCoordinatorError + AttestationResult) := λ w,
  let targets := assigned :: select_nodes self seed (Some assigned) in
  let signed_message := pp_proof_hash <$> head proof_set in
  let '(c, w') := collect_signatures self assigned proof_set signed_message
                    (nc_attestation_timeout_secs self) targets collected_none w in
  let result := {| ar_session_id := session_id; ar_signatures := co_signatures c;
                   ar_node_ids := co_node_ids c; ar_signers := co_signers c;
                   ar_proof_hash := hash_proofs proof_set; ar_timestamp := now w' |} in
  if is_sufficient result then (inr result, w')
  else (inl (InsufficientAttestations (length (ar_signatures result)) (nc_required_signatures self)), w').

(** ** Lemmas *)
Lemma insert_cons_permutation {A} (l : list A) : ∀ i x y,
  l !! i = Some x → x :: <[i := y]> l ≡ₚ y :: l.
Proof.
  induction l as [|a l IH]; intros [|i] x y Hi; cbn in *; try done.
  - injection Hi as ->. apply Permutation_swap.
  - rewrite (Permutation_swap a x), (IH _ _ _ Hi). apply Permutation_swap.
Qed.

Lemma swap_permutation {A} i j (l : list A) : swap i j l ≡ₚ l.
Proof.
  unfold swap. destruct (l !! i) as [x|] eqn:Ei; [|done].
  destruct (l !! j) as [y|] eqn:Ej; [|done].
  destruct (decide (i = j)) as [->|Hne].
  - assert (x = y) as -> by congruence. by rewrite !list_insert_id by (by rewrite ?list_lookup_insert_eq; eauto using lookup_lt_Some).
  - apply (Permutation_cons_inv (a:=y)). rewrite insert_cons_permutation.
    + by apply insert_cons_permutation.
    + by rewrite list_lookup_insert_ne.
Qed.

Lemma shuffle_permutation {A} seed i (l : list A) : shuffle seed i l ≡ₚ l.
Proof. revert l. induction i as [|i IH]; intros l; [done|]. cbn. by rewrite IH, swap_permutation. Qed.

Lemma select_nodes_subset self seed ex :
  ∃ rest, select_nodes self seed ex ++ rest ≡ₚ filter (λ node, ex ≠ Some node) (nc_eligible_nodes self).
Proof.
  unfold select_nodes. eexists. rewrite take_drop. apply shuffle_permutation.
Qed.

(** A signature counted for [target] with address [a]. *)
Definition genuine (self : NodeCoordinator) (assigned : NodeId) (proof_set : list PartialProof)
    (s : NodeSignature) (target : NodeId) (a : Address) : Prop :=
  ∃ p c w0 w1, head proof_set = Some p ∧ nc_clients self !! target = Some c ∧
    client_request c target assigned proof_set w0 = (inr s, w1) ∧
    nc_signers self !! target = Some a ∧
    recover_address_from_msg (ns_signature s) (pp_proof_hash p) = Some a.

Definition collected_ok (self : NodeCoordinator) assigned proof_set (seen : list NodeId) (c : Collected) : Prop :=
  Forall3 (genuine self assigned proof_set) (co_signatures c) (co_node_ids c) (co_signers c) ∧
  NoDup (co_signers c) ∧ co_seen c = list_to_set (co_signers c) ∧ co_node_ids c `sublist_of` seen.

Lemma try_request_some self target assigned ps secs w s w' :
  try_request self target assigned ps secs w = (Some s, w') →
  ∃ c w0 w1, nc_clients self !! target = Some c ∧
    client_request c target assigned ps w0 = (inr s, w1).
Proof.
  unfold try_request. destruct (nc_clients self !! target) as [c|]; [|done].
  destruct (timeout secs _ w) as [[[e|s']|] w2] eqn:E; intros [= -> ->].
  apply timeout_some in E. by exists c, w, w'.
Qed.

Lemma count_signature_ok self assigned ps seen target w answer w' acc secs :
  try_request self target assigned ps secs w = (answer, w') →
  collected_ok self assigned ps seen acc →
  collected_ok self assigned ps (seen ++ [target])
    (count_signature self (pp_proof_hash <$> head ps) target answer acc).
Proof.
  intros Ht (Hg & Hnd & Hseen & Hsub).
  assert (collected_ok self assigned ps (seen ++ [target]) acc) as Hsame.
  { split_and!; try done. by apply sublist_inserts_r. }
  unfold count_signature. destruct answer as [s|]; [|done].
  destruct (head ps) as [p|] eqn:Ep; [|done]. cbn [fmap option_fmap option_map].
  destruct (nc_signers self !! target) as [a|] eqn:Ea; [|done].
  destruct (recover_address_from_msg _ _) as [r|] eqn:Er; [|done].
  case_decide as Hra; [done|]. assert (r = a) as -> by (destruct (decide (r = a)); tauto).
  case_decide as Hin; [done|]. apply try_request_some in Ht as (c & w0 & w1 & Hc & Hreq).
  split_and!; cbn.
  - apply Forall3_app; [done|]. constructor; [|constructor]. by exists p, c, w0, w1.
  - apply NoDup_app. split_and!; [done| |apply NoDup_singleton].
    intros x Hx. rewrite list_elem_of_singleton. intros ->. apply Hin. rewrite Hseen. by apply elem_of_list_to_set.
  - rewrite Hseen, list_to_set_app_L. set_solver.
  - by apply sublist_app.
Qed.

Lemma collect_signatures_ok self assigned ps secs : ∀ targets seen acc w c w',
  collected_ok self assigned ps seen acc →
  collect_signatures self assigned ps (pp_proof_hash <$> head ps) secs targets acc w = (c, w') →
  collected_ok self assigned ps (seen ++ targets) c.
Proof.
  intros targets. induction targets as [|t targets IH]; intros seen acc w c w' Hacc; cbn.
  - intros [= <- _]. by rewrite app_nil_r.
  - destruct (try_request self t assigned ps secs w) as [ans w1] eqn:E. intros Hc.
    change (t :: targets) with ([t] ++ targets). rewrite app_assoc.
    eapply IH; [|exact Hc]. by eapply count_signature_ok.
Qed.

Lemma coordinate_collected self now sid ps seed assigned w :
  ∃ c w', collected_ok self assigned ps (assigned :: select_nodes self seed (Some assigned)) c ∧
    coordinate_attestation self now sid ps seed assigned w =
      (if (3 <=? length (co_signatures c))%nat
       then inr {| ar_session_id := sid; ar_signatures := co_signatures c; ar_node_ids := co_node_ids c;
                   ar_signers := co_signers c; ar_proof_hash := hash_proofs ps; ar_timestamp := now w' |}
       else inl (InsufficientAttestations (length (co_signatures c)) (nc_required_signatures self)), w').
Proof.
  unfold coordinate_attestation. cbv zeta.
  destruct (collect_signatures _ _ _ _ _ _ _ w) as [c w'] eqn:E. exists c, w'.
  split; [|unfold is_sufficient; cbn [ar_signatures]; by destruct (3 <=? _)%nat].
  apply collect_signatures_ok with (seen := []) in E; [done|].
  unfold collected_ok, collected_none. cbn. split_and!; [constructor|constructor|done|done].
Qed.

(** The target's answer [ans] is a signature of the first proof's hash by the
    target's registered key. *)
Definition verified (self : NodeCoordinator) (ps : list PartialProof) (ans : NodeId → option NodeSignature)
    (target : NodeId) : bool :=
  match ans target, head ps, nc_signers self !! target with
  | Some s, Some p, Some a =>
      bool_decide (recover_address_from_msg (ns_signature s) (pp_proof_hash p) = Some a)
  | _, _, _ => false
  end.

Lemma collect_signatures_complete self assigned ps secs ans : ∀ targets acc w c w',
  (∀ t w, t ∈ targets → (try_request self t assigned ps secs w).1 = ans t) →
  NoDup (omap (λ t, nc_signers self !! t) targets) →
  (∀ t a, t ∈ targets → nc_signers self !! t = Some a → a ∉ co_seen acc) →
  length (co_signatures acc) = length (co_node_ids acc) →
  collect_signatures self assigned ps (pp_proof_hash <$> head ps) secs targets acc w = (c, w') →
  co_node_ids c = co_node_ids acc ++ List.filter (verified self ps ans) targets ∧
  length (co_signatures c) = length (co_node_ids c).
Proof.
  intros targets. induction targets as [|t targets IH]; intros acc w c w' Hans Hnd Hseen Hlen; cbn.
  { intros [= <- _]. by rewrite app_nil_r. }
  destruct (try_request self t assigned ps secs w) as [a w1] eqn:E.
  pose proof (Hans t w ltac:(set_solver)) as Ha. rewrite E in Ha. cbn in Ha. subst a.
  assert (∀ t' a', t' ∈ targets → nc_signers self !! t' = Some a' →
    nc_signers self !! t ≠ Some a' ∧ a' ∉ co_seen acc) as Hother.
  { intros t' a' Ht' Ha'. split; [|by apply (Hseen t'); [set_solver|]]. intros Hsame. cbn in Hnd.
    rewrite Hsame in Hnd. apply NoDup_cons in Hnd as [Hni _]. apply Hni.
    apply list_elem_of_omap. by exists t'. }
  assert (NoDup (omap (λ t, nc_signers self !! t) targets)) as Hnd'.
  { cbn in Hnd. destruct (nc_signers self !! t); [by apply NoDup_cons in Hnd as [_ ?]|done]. }
  unfold verified at 1, count_signature.
  destruct (ans t) as [s|]; [|intros Hc; eapply IH in Hc; [exact Hc|set_solver|done|naive_solver|done]].
  destruct (head ps) as [p|] eqn:Ep; cbn [fmap option_fmap option_map];
    [|intros Hc; eapply IH in Hc; [exact Hc|set_solver|done|naive_solver|done]].
  destruct (nc_signers self !! t) as [a|] eqn:Et;
    [|intros Hc; eapply IH in Hc; [exact Hc|set_solver|done|naive_solver|done]].
  destruct (recover_address_from_msg _ _) as [r|] eqn:Er;
    [|intros Hc; eapply IH in Hc; [exact Hc|set_solver|done|naive_solver|done]].
  case_decide as Hra.
  - rewrite bool_decide_eq_false_2 by congruence. intros Hc.
    eapply IH in Hc; [exact Hc|set_solver|done|naive_solver|done].
  - assert (r = a) as -> by (destruct (decide (r = a)); tauto).
    rewrite decide_False by (apply (Hseen t); [set_solver|done]).
    rewrite bool_decide_eq_true_2 by done. intros Hc.
    eapply IH in Hc as [Hc1 Hc2]; cbn.
    + rewrite Hc2, Hc1. cbn. by rewrite <-app_assoc.
    + set_solver.
    + done.
    + cbn. intros t' a' Ht' Ha'. destruct (Hother _ _ Ht' Ha') as [Hne Hni]. set_solver.
    + cbn. rewrite !length_app. cbn. lia.
Qed.

(** ** Properties *)

(** The selection is a deterministic sample without replacement: of the
    eligible nodes other than the assigned one it takes three, or all when there
    are fewer; no node twice when the pool has none twice, never the assigned. *)
Theorem select_nodes_correct self seed assigned :
  let others := filter (λ node, Some assigned ≠ Some node) (nc_eligible_nodes self) in
  let selected := select_nodes self seed (Some assigned) in
  length selected = Nat.min 3 (length others) ∧
  (∃ rest, selected ++ rest ≡ₚ others) ∧
  ¬ (assigned ∈ selected) ∧
  (NoDup (nc_eligible_nodes self) → NoDup (assigned :: selected)).
Proof.
  intros others selected. destruct (select_nodes_subset self seed (Some assigned)) as [rest Hrest].
  assert (assigned ∉ selected) as Hni.
  { intros Hin. assert (assigned ∈ others) as Ho by (unfold others; rewrite <-Hrest; set_solver).
    unfold others in Ho. rewrite list_elem_of_filter in Ho. by destruct Ho. }
  split_and!; [|by exists rest|done|].
  - unfold selected, select_nodes. rewrite length_take, (Permutation_length (shuffle_permutation _ _ _)).
    done.
  - intros Hnd. apply NoDup_cons. split; [done|].
    assert (NoDup others) as Hndo by by apply NoDup_filter.
    unfold others in Hndo. rewrite <-Hrest in Hndo. by apply NoDup_app in Hndo as [? _].
Qed.

(** C5. A successful attestation is backed by a quorum of registered signers:
    three or four signatures, each the answer of the client of its node, each
    recovering over the first proof's hash to that node's registered address, the
    addresses distinct and parallel to signatures and nodes, the nodes among the
    assigned one and the selection; it carries the session's id and the digest of
    all proof hashes. A failure reports fewer than three signatures. *)
Theorem attestation_sound self now sid ps seed assigned w :
  match coordinate_attestation self now sid ps seed assigned w with
  | (inr r, w') =>
      (3 ≤ length (ar_signatures r) ≤ 4)%nat ∧
      Forall3 (genuine self assigned ps) (ar_signatures r) (ar_node_ids r) (ar_signers r) ∧
      NoDup (ar_signers r) ∧
      ar_node_ids r `sublist_of` (assigned :: select_nodes self seed (Some assigned)) ∧
      ar_session_id r = sid ∧ ar_proof_hash r = hash_proofs ps ∧ ar_timestamp r = now w'
  | (inl e, _) => ∃ got, e = InsufficientAttestations got (nc_required_signatures self) ∧ (got < 3)%nat
  end.
Proof.
  destruct (coordinate_collected self now sid ps seed assigned w) as (c & w' & (Hg & Hnd & _ & Hsub) & ->).
  destruct (Nat.leb_spec 3 (length (co_signatures c))) as [Hle|Hlt]; [|by eexists].
  split_and!; cbn; try done.
  apply sublist_length in Hsub. apply Forall3_length_lm in Hg. cbn in Hsub.
  unfold select_nodes in Hsub. rewrite length_take in Hsub. unfold ATTESTATION_NODE_COUNT in Hsub. lia.
Qed.

(** C23. The quorum is reached whenever three targets answer: when the answers of
    the targets do not depend on the moment and their registered addresses are
    distinct, exactly the targets whose signature verifies are counted, in target
    order, and the attestation succeeds if and only if they are at least three. *)
Theorem attestation_complete self now sid ps seed assigned w ans :
  let targets := assigned :: select_nodes self seed (Some assigned) in
  let counted := List.filter (verified self ps ans) targets in
  (∀ t w, t ∈ targets →
     (try_request self t assigned ps (nc_attestation_timeout_secs self) w).1 = ans t) →
  NoDup (omap (λ t, nc_signers self !! t) targets) →
  match (coordinate_attestation self now sid ps seed assigned w).1 with
  | inr r => ar_node_ids r = counted ∧ (3 ≤ length counted)%nat
  | inl e => e = InsufficientAttestations (length counted) (nc_required_signatures self) ∧
             (length counted < 3)%nat
  end.
Proof.
  intros targets counted Hans Hnd. unfold coordinate_attestation. cbv zeta.
  destruct (collect_signatures _ _ _ _ _ _ _ w) as [c w'] eqn:E.
  apply (collect_signatures_complete _ _ _ _ ans) in E as [Hids Hlen]; [|done|done|set_solver|done].
  change (co_node_ids c = counted) in Hids. clearbody counted.
  rewrite Hids in Hlen. unfold is_sufficient. cbn [ar_signatures fst].
  destruct (Nat.leb_spec 3 (length (co_signatures c))); cbn; (split; [congruence|lia]).
Qed.
End coordinator.

(** ** grpc.rs: the client of one node *)
Class GrpcCodec := {
  (** [str::parse::<MetadataValue<Ascii>>], as the text a server reads back *)
  metadata_value : string → option string;
  (** [Address::to_string] *)
  wallet_text : Address → string;
  (** [Signature::try_from(&\[u8\])], its error as text *)
  signature_of_bytes : bytes → string + Signature;
  (** [DateTime::from_timestamp] *)
  datetime_of : Z → Z → option DateTime
}.

Section grpc.
Context {W Channel : Type} `{!GrpcCodec}.
(** The channel: a call yields the response, or the message of the status. *)
Context (send : Channel → Request AttestationRequest → Call W (string + AttestationResponse)).
(** [Utc::now]. *)
Context (now : W → DateTime).

Record GrpcNodeClient := mkGrpcNodeClient {
  gc_endpoint : string;
  gc_api_key : string;
  gc_channel : Channel
}.

(** [new]: the channel is lazy; only a malformed endpoint is an error. *)
Definition grpc_client_new (from_shared : string → string + Channel) (endpoint api_key : string)
    : string + GrpcNodeClient :=
  match from_shared endpoint with
  | inl e => inl e
  | inr channel => inr {| gc_endpoint := endpoint; gc_api_key := api_key; gc_channel := channel |}
  end.
Definition endpoint (self : GrpcNodeClient) : string := gc_endpoint self.

Definition api_key_value (self : GrpcNodeClient) : NodeCoordinatorError + string :=
  match metadata_value (gc_api_key self) with
  | Some v => inr v
  | None => inl (NodeError "invalid api key metadata")
  end.

Definition request_body (assigned : NodeId) (proof_set : list PartialProof) : AttestationRequest :=
  let first := head proof_set in
  {| arq_session_id := from_option pp_session_id "" first;
     arq_wallet := from_option (wallet_text ∘ pp_wallet) "" first;
     arq_commodity := "";
     arq_proof_hash := mkProofHash ∘ pp_proof_hash <$> first;
     arq_requesting_node_id := assigned;
     arq_requested_at := None;
     arq_proof_input := from_option pp_proof_input [] first;
     arq_difficulty := from_option pp_difficulty 0 first |}.

(** What the client makes of a response. *)
Definition read_response (target : NodeId) (response : AttestationResponse) (now : DateTime)
    : NodeCoordinatorError + NodeSignature :=
  if negb (arp_valid response) then
    inl (NodeError ("node " +:+ target +:+ " reported an invalid attestation"))
  else
    match arp_signature response with
    | None => inl (NodeError "attestation response missing signature")
    | Some signature_proto =>
        match signature_of_bytes (pns_signature signature_proto) with
        | inl err => inl (NodeError ("invalid signature bytes: " +:+ err))
        | inr signature =>
            let signed_at :=
              default now
                (ts ← pns_signed_at signature_proto;
                 datetime_of (seconds ts) (default 0 (try_from 0 U32_MAX (nanos ts)))) in
            inr {| ns_node_id := pns_node_id signature_proto; ns_signature := signature;
                   ns_signed_at := signed_at |}
        end
    end.

Definition grpc_request_attestation (self : GrpcNodeClient) (target assigned : NodeId)
    (proof_set : list PartialProof) : Call W (NodeCoordinatorError + NodeSignature) := λ w,
  match api_key_value self with
  | inl e => (inl e, w)
  | inr v =>
      let request := mkRequest (λ h, if String.eqb h API_KEY_HEADER then Some v else None)
                       (request_body assigned proof_set) in
      let '(r, w') := send (gc_channel self) request w in
      (match r with
       | inl message => inl (NodeError message)
       | inr response => read_response target response (now w')
       end, w')
  end.

#[export] Instance grpc_client : NodeClient W GrpcNodeClient := grpc_request_attestation.
End grpc.

(** ** The coordinator over gRPC clients of real nodes *)
Section network.
Context {W Channel Cache Vm Key : Type}.
Context `{!RandomX.RandomXLib Cache Vm, !MessageSigner Key, !GrpcCodec, !Timer W, !AttestationCrypto}.
Context (send : Channel → Request AttestationRequest → Call W (string + AttestationResponse)).
Context (now : W → DateTime).
(** The node behind a channel, and its verifier thread at each moment. *)
Context (node : Channel → NodeServiceImpl (Vm:=Vm) (Key:=Key)) (thread : Channel → W → VerifierThread (Vm:=Vm)).
#[local] Existing Instance grpc_client.

(** C6. Real work end to end: when every client's channel leads to a node that
    runs the node service, each signature of a successful attestation comes from
    a node that re-hashed the first proof's input under RandomX to exactly the
    first proof's hash, found it to meet the first proof's difficulty, and signed
    that hash with its own key. *)
Theorem attested_work_is_real (self : NodeCoordinator (C:=GrpcNodeClient (Channel:=Channel)))
    sid ps seed assigned w r w' p :
  (∀ ch req w r w', send ch req w = (inr r, w') →
     ∃ env t, NodeServer.request_attestation (node ch) (thread ch w) env t req = inr r) →
  coordinate_attestation (NodeClient0 := grpc_client send now) self now sid ps seed assigned w = (inr r, w') →
  head ps = Some p → length (pp_proof_hash p) = 32%nat →
  (3 ≤ length (ar_signatures r))%nat ∧
  ∀ i s t, ar_signatures r !! i = Some s → ar_node_ids r !! i = Some t →
    ∃ c v sig, nc_clients self !! t = Some c ∧
      RandomX.verify v (pp_proof_input p) (pp_proof_hash p) (pp_difficulty p) = inr true ∧
      sign_message_sync (signer (node (gc_channel c))) (pp_proof_hash p) = inr sig ∧
      signature_of_bytes (signature_bytes sig) = inr (ns_signature s).
Proof.
  intros Hsend Hcoord Hp Hlen.
  destruct (coordinate_collected (NodeClient0 := grpc_client send now) self now sid ps seed assigned w)
    as (c & w2 & (Hg & _) & E).
  rewrite E in Hcoord. destruct (Nat.leb_spec 3 (length (co_signatures c))) as [Hle|]; [|done].
  injection Hcoord as <- _. cbn [ar_signatures ar_node_ids]. split; [done|]. intros i s t Hs Ht.
  destruct (Forall3_lookup_l _ _ _ _ _ _ Hg Hs) as (t' & a & Ht' & _ & p' & cl & w0 & w1 & Hp' & Hcl & Hreq & _).
  rewrite Ht in Ht'. injection Ht' as <-.
  rewrite Hp in Hp'. injection Hp' as <-.
  unfold client_request, grpc_client, grpc_request_attestation in Hreq.
  destruct (api_key_value cl) as [|v]; [done|].
  destruct (send _ _ w0) as [[m|resp] w3] eqn:Es; [done|].
  apply Hsend in Es as (env & tm & Hresp). injection Hreq as Hread _. unfold read_response in Hread.
  destruct resp as [rsid valid rsig]. cbn in Hread. destruct valid; [|done]. cbn in Hread.
  apply signed_attestation in Hresp as (h & vf & sg & _ & Hh & _ & Hv & Hsg & _ & ->).
  cbn [request_body into_inner arq_proof_hash arq_proof_input arq_difficulty] in *. rewrite Hp in *.
  cbn in Hh. injection Hh as <-. rewrite proof_hash_bytes_exact in Hv, Hsg by done. cbn in Hv, Hsg, Hread.
  destruct (signature_of_bytes (signature_bytes sg)) as [|s'] eqn:Eb; [done|]. injection Hread as <-.
  by exists cl, vf, sg.
Qed.
End network.

(** ** A network of four nodes, and the witnesses

    The world counts the calls; no timeout elapses and the clock stands still. *)
#[local] Program Instance toy_timer : Timer nat := {|
  timeout A secs c w := let '(a, w') := c w in (Some a, w')
|}.
Next Obligation. intros A secs c w a w' H. cbn in H. destruct (c w). congruence. Qed.

#[local] Instance toy_crypto : AttestationCrypto := {|
  sha256_digest m := [foldr Z.add 0 m];
  recover_address_from_msg s m := if decide (sig_s s = foldr Z.add 0 m) then Some (sig_r s) else None
|}.
#[local] Instance toy_message_signer : MessageSigner Z := {|
  sign_message_sync k m := inr (mkSignature k (foldr Z.add 0 m) false);
  signature_bytes s := [sig_r s; sig_s s]
|}.
#[local] Instance toy_codec : GrpcCodec := {|
  metadata_value s := Some s;
  wallet_text := show;
  signature_of_bytes l := match l with [r; s] => inr (mkSignature r s false) | _ => inl "length" end;
  datetime_of s n := Some (s * NANOS_PER_SEC + n)
|}.

Definition toy_now (_ : nat) : DateTime := 0.
(** The node whose key is [k]. *)
Definition toy_node (k : Z) : NodeServiceImpl (Vm:=unit) (Key:=Z) :=
  {| api_key := "secret"; signer := k; verify_tx := Serving RandomX.toy_verifier |}.
Definition toy_thread (_ : Z) (_ : nat) : VerifierThread (Vm:=unit) := Serving RandomX.toy_verifier.
Definition toy_send (k : Z) (req : Request AttestationRequest) : Call nat (string + AttestationResponse) := λ w,
  (match NodeServer.request_attestation (Cache:=unit) (toy_node k) (toy_thread k w) None (toy_now w) req with
   | inl st => inl (message st)
   | inr r => inr r
   end, S w).
Definition toy_client (k : Z) : GrpcNodeClient (Channel:=Z) := mkGrpcNodeClient "http://node" "secret" k.
#[local] Instance toy_grpc : NodeClient nat (GrpcNodeClient (Channel:=Z)) := grpc_client toy_send toy_now.

(** Four registered nodes; [n1] can be left without a client. *)
Definition toy_coordinator (first : bool) : NodeCoordinator (C:=GrpcNodeClient (Channel:=Z)) :=
  coordinator_new
    ((if first then <["n1" := toy_client 1]> else id)
       {["n2" := toy_client 2; "n3" := toy_client 3; "n4" := toy_client 4]})
    ["n1"; "n2"; "n3"; "n4"]
    {["n1" := 1; "n2" := 2; "n3" := 3; "n4" := 4]}.
Definition toy_proof : PartialProof :=
  mkPartialProof "s" 7 0 1000 (RandomX.toy_hash [1; 2; 3]) [1; 2; 3] 1000 0 None.
Definition toy_seed : bytes := replicate 32 5.
Definition toy_answer (first : bool) (t : NodeId) : option NodeSignature :=
  (try_request (toy_coordinator first) t "n1" [toy_proof] ATTESTATION_TIMEOUT_SECS 0%nat).1.

Lemma toy_answers_constant first t w : t ∈ ["n1"; "n2"; "n3"; "n4"] →
  (try_request (toy_coordinator first) t "n1" [toy_proof] ATTESTATION_TIMEOUT_SECS w).1 =
  toy_answer first t.
Proof.
  rewrite !elem_of_cons, elem_of_nil. intros [->|[->|[->|[->|[]]]]]; destruct first; vm_compute; reflexivity.
Qed.

Lemma toy_targets first :
  "n1" :: select_nodes (toy_coordinator first) toy_seed (Some "n1") = ["n1"; "n2"; "n3"; "n4"].
Proof. destruct first; vm_compute; reflexivity. Qed.

(** Without the assigned node's client the quorum is still reached, and the
    signature at index 0 is another node's. *)
Lemma attestation_complete_witness :
  match (coordinate_attestation (toy_coordinator false) toy_now "s" [toy_proof] toy_seed "n1" 0%nat).1 with
  | inr r => ar_node_ids r = ["n2"; "n3"; "n4"]
  | inl _ => False
  end.
Proof.
  pose proof (attestation_complete (toy_coordinator false) toy_now "s" [toy_proof] toy_seed "n1" 0%nat
    (toy_answer false)) as H. rewrite toy_targets in H.
  specialize (H (λ t w Ht, toy_answers_constant false t w Ht)).
  assert (NoDup (omap (λ t, nc_signers (toy_coordinator false) !! t) ["n1"; "n2"; "n3"; "n4"])) as Hnd
    by (apply (bool_decide_unpack _); vm_compute; exact I).
  specialize (H Hnd).
  destruct (coordinate_attestation _ _ _ _ _ _ _) as [[e|r] w'].
  - destruct H as [_ H]. vm_compute in H. lia.
  - cbn [fst] in *. destruct H as [Hn _]. rewrite Hn. vm_compute. reflexivity.
Defined.

Lemma attested_work_is_real_witness :
  ∃ r w', coordinate_attestation (toy_coordinator true) toy_now "s" [toy_proof] toy_seed "n1" 0%nat = (inr r, w') ∧
    (3 ≤ length (ar_signatures r))%nat.
Proof.
  destruct (coordinate_attestation (toy_coordinator true) toy_now "s" [toy_proof] toy_seed "n1" 0%nat)
    as [o w'] eqn:E.
  destruct o as [e|r]; [exfalso; vm_compute in E; discriminate|].
  exists r, w'. split; [reflexivity|].
  apply (attested_work_is_real (Cache:=unit) (Vm:=unit) toy_send toy_now toy_node toy_thread
    (toy_coordinator true) "s" [toy_proof] toy_seed "n1" 0%nat r w' toy_proof).
  - intros ch req w r' w2 H. unfold toy_send in H.
    destruct (NodeServer.request_attestation _ _ _ _ _) as [st|r0] eqn:Er; [discriminate|].
    injection H as <- _. exists None, (toy_now w). exact Er.
  - exact E.
  - reflexivity.
  - reflexivity.
Defined.
