(* ===== verification/NodeMain.v ===== *)
(** * crates/node-server/src/main.rs: the node's process

    The environment, the verifier and the server; the address and key parsers and the
    Tonic transport are parameters. *)
From S2P Require Import Prelude Common Validator RandomX NodeServer NodeCoordinator.

(** [SocketAddr] and [PrivateKeySigner] from text, with the errors' texts, and
    [Server::builder().add_service(server).serve(addr)]. *)
Class NodeEnv (Addr Key Svc W : Type) := {
  socket_addr : string → string + Addr;
  node_key : string → string + Key;
  tonic_serve : Svc → Addr → W → (string + unit) * W
}.

Section node.
Context {Cache Vm Key Addr W : Type} `{!RandomXLib Cache Vm, !MessageSigner Key}.
Abbreviation Svc := (NodeServiceImpl (Vm:=Vm) (Key:=Key)).
Context `{!NodeEnv Addr Key Svc W}.
(** [std::env::var]. *)
Context (env : string → option string).

(** The variables and the server; an error is the exit, by what is logged. *)
Definition node_server : string + (Svc * Addr * NodeId) :=
  match env "BIND_ADDR" with
  | None => inl "startup failed: missing required env var BIND_ADDR"
  | Some bind_addr =>
      match env "NODE_API_KEY" with
      | None => inl "startup failed: missing required env var NODE_API_KEY"
      | Some api_key =>
          match node_key <$> env "NODE_SIGNING_KEY_HEX" with
          | None => inl "startup failed: missing required env var NODE_SIGNING_KEY_HEX"
          | Some (inl e) => inl "startup failed: invalid NODE_SIGNING_KEY_HEX"
          | Some (inr signer) =>
              let node_id := default DEFAULT_NODE_ID (env "NODE_ID") in
              match socket_addr bind_addr with
              | inl e => inl "startup failed: invalid BIND_ADDR"
              | inr addr =>
                  match build_server api_key signer with
                  | inl e => inl "startup failed: randomx verifier init"
                  | inr server => inr (server, addr, node_id)
                  end
              end
          end
      end
  end.
Definition main : M W string unit :=
  '(server, addr, node_id) ← of_sum node_server;
  map_err (λ _, "startup failed: node server") (of_call (tonic_serve server addr)).

(** ** Lemmas *)
Lemma node_server_ok server addr node_id :
  node_server = inr (server, addr, node_id) →
  ∃ key text v, env "NODE_API_KEY" = Some key ∧ env "NODE_SIGNING_KEY_HEX" = Some text ∧
    node_key text = inr (signer server) ∧ node_id = default DEFAULT_NODE_ID (env "NODE_ID") ∧
    verifier_new RANDOMX_SEED = inr v ∧ verify_tx server = Serving v ∧ api_key server = key.
Proof.
  unfold node_server, build_server, node_service_new, spawn_verifier.
  destruct (env "BIND_ADDR") as [ba|]; [|done]. destruct (env "NODE_API_KEY") as [key|]; [|done].
  destruct (env "NODE_SIGNING_KEY_HEX") as [text|]; [|done]. cbn [fmap option_fmap option_map].
  destruct (node_key text) as [e|k] eqn:Ek; [done|]. destruct (socket_addr ba) as [e|a]; [done|].
  destruct (verifier_new RANDOMX_SEED) as [e|v]; [done|]. intros [= <- <- <-]. by exists key, text, v.
Qed.
Lemma authenticate_key T (self : Svc) (r : Request T) :
  authenticate self r = None ↔ metadata r API_KEY_HEADER = Some (api_key self).
Proof.
  unfold authenticate. destruct (metadata r API_KEY_HEADER) as [k|]; [|done].
  destruct (String.eqb_spec k (api_key self)); naive_solver.
Qed.

(** ** Properties *)

(** A node that serves is the node its environment describes. The process exits
    before it listens, or it serves on the address of [BIND_ADDR] a service that
    verifies under the network's RandomX seed, accepts exactly the requests whose
    [x-api-key] header is [NODE_API_KEY], and signs with [NODE_SIGNING_KEY_HEX]: a valid
    attestation holds that key's signature of the proof hash, which RandomX maps the
    proof's input to, at the claimed difficulty. *)
Theorem node_main_correct w :
  (∃ e, main w = (Err e, w) ∧ node_server = inl e) ∨
  ∃ server addr node_id key text v,
    node_server = inr (server, addr, node_id) ∧
    (main w).2 = (tonic_serve server addr w).2 ∧
    env "NODE_API_KEY" = Some key ∧ env "NODE_SIGNING_KEY_HEX" = Some text ∧ node_key text = inr (signer server) ∧
    verifier_new RANDOMX_SEED = inr v ∧ verify_tx server = Serving v ∧
    (∀ T (r : Request T), authenticate server r = None ↔ metadata r API_KEY_HEADER = Some key) ∧
    ∀ now r h resp, arq_proof_hash (into_inner r) = Some h →
      request_attestation server (verify_tx server) (env "NODE_ID") now r = inr resp → arp_valid resp = true →
      ∃ s, arp_signature resp = Some (mkProtoNodeSignature node_id (signature_bytes s)
                                        (Some (mkTimestamp (timestamp now) (now mod NANOS_PER_SEC)))) ∧
        sign_message_sync (signer server) (proof_hash_bytes h) = inr s ∧
        verify v (arq_proof_input (into_inner r)) (proof_hash_bytes h) (arq_difficulty (into_inner r)) = inr true.
Proof.
  unfold main. destruct node_server as [e|[[server addr] node_id]] eqn:En; [left; by exists e|]. right.
  destruct (node_server_ok _ _ _ En) as (key & text & v & Hkey & Htext & Hsigner & -> & Hv & Htx & Hak).
  exists server, addr, (default DEFAULT_NODE_ID (env "NODE_ID")), key, text, v. split_and!; try done.
  - unfold of_sum, mbind, M_bind, map_err, of_call. cbn. by destruct (tonic_serve server addr w) as [[]].
  - intros T r. by rewrite authenticate_key, Hak.
  - intros now r h [sid valid sig] Hh Hresp Hvalid. cbn in Hvalid. subst valid.
    apply signed_attestation in Hresp as (h' & v' & s & _ & Hh' & Hsv & Hver & Hs & _ & ->).
    rewrite Hh in Hh'. injection Hh' as <-. rewrite Htx in Hsv. injection Hsv as <-. by exists s.
Qed.
End node.

(** ** A node and the witness *)
#[local] Existing Instances toy_message_signer.
#[local] Instance toy_node_env : NodeEnv string Z (NodeServiceImpl (Vm:=unit) (Key:=Z)) (list string) := {|
  socket_addr s := if String.eqb s "" then inl "invalid socket address syntax" else inr s;
  node_key s := match parse_u U64_MAX s with Some k => inr k | None => inl "odd length" end;
  tonic_serve _ a w := (inr tt, w ++ [a])
|}.
Definition node_env (name : string) : option string :=
  snd <$> List.find (λ p, String.eqb p.1 name)
    [ ("BIND_ADDR", "0.0.0.0:50051"); ("NODE_API_KEY", "secret"); ("NODE_SIGNING_KEY_HEX", "1") ].

Example node_serves : main node_env [] = (Ok tt, ["0.0.0.0:50051"]).
Proof. vm_compute. reflexivity. Qed.
Example node_without_key : main (λ name, if String.eqb name "NODE_API_KEY" then None else node_env name) [] =
  (Err "startup failed: missing required env var NODE_API_KEY", []).
Proof. vm_compute. reflexivity. Qed.
