(* ===== verification/Oracle.v ===== *)
(** * crates/oracle-reader/src/lib.rs: commodity prices in eight decimals

    Chainlink's contract call and Pyth's HTTP service are parameters over a world
    [W]: each yields an answer or an error and may change the world. *)
From S2P Require Import Prelude Common Twap.

Definition TARGET_DECIMALS : Z := 8.
Abbreviation I32_MAX := 2147483647%Z (only parsing).
Abbreviation I32_MIN := (-2147483648)%Z (only parsing).
Definition PYTH_XPT_USD_FEED_ID : string :=
  "398e4bbc7cbf89d6648c21e08019d878967677753b3096799595c78f805a34e5".
Definition PYTH_WTI_USD_FEED_ID : string :=
  "05e7c9b556df67e455c52ea2d31658744e3f4ade60db7dab887008844f2ae472".
Definition PYTH_HERMES_URL : string := "https://hermes.pyth.network".

Record ChainlinkFeed := mkChainlinkFeed {
  cf_commodity : Commodity;
  cf_address : Address;
  cf_decimals : Z
}.

Record PythFeed := mkPythFeed {
  pf_commodity : Commodity;
  pf_feed_id : string
}.

Definition default_chainlink_feeds : list ChainlinkFeed :=
  [ {| cf_commodity := Gold;
       cf_address := 0x214ed9da11d2fbe465a6fc601a91e62ebec1a0d6; cf_decimals := 8 |};
    {| cf_commodity := Silver;
       cf_address := 0x379589227b15f1a12195d3f2d90bbc9f31f95235; cf_decimals := 8 |} ].

(** [feeds_from_env_or_default]: [env_var] reads the environment, [parse_address]
    is [Address::from_str]. *)
Definition feeds_from_env_or_default (env_var : string → option string)
    (parse_address : string → option Address) : list ChainlinkFeed :=
  (λ feed,
    let over var :=
      match env_var var with
      | Some raw =>
          match parse_address raw with
          | Some addr => {| cf_commodity := cf_commodity feed; cf_address := addr;
                            cf_decimals := cf_decimals feed |}
          | None => feed
          end
      | None => feed
      end in
    match cf_commodity feed with
    | Gold => over "CHAINLINK_XAU_ADDRESS"
    | Silver => over "CHAINLINK_XAG_ADDRESS"
    | _ => feed
    end) <$> default_chainlink_feeds.

Definition default_pyth_feeds : list PythFeed :=
  [ {| pf_commodity := Platinum; pf_feed_id := PYTH_XPT_USD_FEED_ID |};
    {| pf_commodity := CrudeOil; pf_feed_id := PYTH_WTI_USD_FEED_ID |} ].

(** [reqwest::Error] is only displayed. *)
Inductive HttpError := mkHttpError (detail : string).

Inductive OracleReaderError :=
  | Oracle_Provider (detail : string)
  | Oracle_Http (e : HttpError)
  | FeedNotFound (c : Commodity)
  | InvalidPrice
  | Oracle_Parse (msg : string).
#[export] Instance HttpError_display : Display HttpError := λ '(mkHttpError detail), detail.
#[export] Instance OracleReaderError_display : Display OracleReaderError := λ e,
  match e with
  | Oracle_Provider e => "provider error: " +:+ e
  | Oracle_Http e => "http error: " +:+ display e
  | FeedNotFound c => "no feed configured for " +:+ commodity_debug c
  | InvalidPrice => "feed returned an invalid price"
  | Oracle_Parse msg => "parse error: " +:+ msg
  end.
#[export] Instance OracleReaderError_error : StdError OracleReaderError := λ e,
  match e with
  | Oracle_Provider e => Some e
  | Oracle_Http e => Some (display e)
  | FeedNotFound _ | InvalidPrice | Oracle_Parse _ => None
  end.
#[export] Instance OracleReaderError_telling : Telling OracleReaderError.
Proof. telling_tac. Qed.

Record HermesPrice := mkHermesPrice { hp_price : string; hp_expo : Z }.
Record HermesResponse := mkHermesResponse { parsed : list HermesPrice }.

(** [10u128.checked_pow(n)]: the largest power of ten of a [u128] is 10^38. *)
Definition checked_pow10 (n : Z) : option Z := if 38 <? n then None else Some (10 ^ n).

(** [convert_pyth_price]; the outer option is a panic of the [i32] arithmetic. *)
Definition convert_pyth_price (b : build) (price expo : Z) : option (option Z) :=
  if price <=? 0 then Some None
  else
    let base := price in
    shift ← arith_i b I32_MIN I32_MAX (TARGET_DECIMALS + expo);
    if 0 <=? shift then
      Some (n ← try_from 0 U32_MAX shift; factor ← checked_pow10 n; checked_u U128_MAX (base * factor))
    else
      neg ← arith_i b I32_MIN I32_MAX (- shift);
      Some (n ← try_from 0 U32_MAX neg; factor ← checked_pow10 n; Some (base / factor)).

(** ** The reader *)
Class OracleNet (W : Type) := {
  (** [latestRoundData().call()]: the [answer] as an [int256] *)
  latest_answer : Address → W → (string + Z) * W;
  (** [client.get(&url).send()] and [response.json()] *)
  get_json : string → W → (HttpError + HermesResponse) * W;
  (** [Utc::now()] *)
  net_now : W → DateTime
}.

Section reader.
Context {W : Type} `{!OracleNet W} (b : build).
Definition OM (A : Type) : Type := M W OracleReaderError A.

(** A call of the network as a step of the monad. *)
Definition net {E A} (f : E → OracleReaderError) (c : W → (E + A) * W) : OM A := λ w,
  let '(r, w') := c w in (match r with inl e => Err (f e) | inr a => Ok a end, w').

Definition fetch_chainlink (feed : ChainlinkFeed) : OM Z :=
  answer ← net (λ e, Oracle_Parse ("chainlink call failed: " +:+ e)) (latest_answer (cf_address feed));
  if answer <=? 0 then fail InvalidPrice
  else ok_or (try_from 0 U128_MAX answer) InvalidPrice.

Definition fetch_pyth (base_url : string) (feed : PythFeed) : OM Z :=
  body ← net Oracle_Http
           (get_json (base_url +:+ "/v2/updates/price/latest?ids[]=" +:+ pf_feed_id feed));
  entry ← ok_or (head (parsed body)) (Oracle_Parse "empty pyth response");
  raw_price ← ok_or (parse_i I64_MIN I64_MAX (hp_price entry)) (Oracle_Parse "invalid pyth price value");
  converted ← lift_arith (convert_pyth_price b raw_price (hp_expo entry));
  ok_or converted InvalidPrice.

Record OracleReader := mkOracleReader {
  chainlink_feeds : list ChainlinkFeed;
  pyth_feeds : list PythFeed;
  pyth_hermes_url : string
}.

Definition oracle_new (chainlink_feeds : list ChainlinkFeed) (pyth_feeds : list PythFeed) : OracleReader :=
  mkOracleReader chainlink_feeds pyth_feeds PYTH_HERMES_URL.
(** [new]: the provider it connects to is the network. *)
Definition oracle_reader_new {Url P Key} `{!Providers Url P Key} (rpc_url : string)
    (chainlink_feeds : list ChainlinkFeed) (pyth_feeds : list PythFeed) : OracleReaderError + OracleReader :=
  match parse_url rpc_url with
  | None => inl (Oracle_Parse "invalid rpc url")
  | Some _ => inr (oracle_new chainlink_feeds pyth_feeds)
  end.

Definition read_chainlink_price (self : OracleReader) (feed : ChainlinkFeed) : OM Z :=
  fetch_chainlink feed.
Definition read_pyth_price (self : OracleReader) (feed : PythFeed) : OM Z :=
  fetch_pyth (pyth_hermes_url self) feed.

Definition read_price (self : OracleReader) (commodity : Commodity) : OM Z :=
  match List.find (λ feed, bool_decide (cf_commodity feed = commodity)) (chainlink_feeds self) with
  | Some feed => read_chainlink_price self feed
  | None =>
      match List.find (λ feed, bool_decide (pf_commodity feed = commodity)) (pyth_feeds self) with
      | Some feed => read_pyth_price self feed
      | None => fail (FeedNotFound commodity)
      end
  end.

(** [read_all_prices]: one task per feed; the task of a feed that panics is
    logged and left out. The tasks run here one after the other. *)
Fixpoint join_all (tasks : list (Commodity * OM Z)) : W → list (Commodity * (OracleReaderError + Z)) * W := λ w,
  match tasks with
  | [] => ([], w)
  | (c, task) :: tasks =>
      let '(r, w1) := task w in
      let '(rest, w2) := join_all tasks w1 in
      (match r with
       | Ok v => (c, inr v) :: rest
       | Err e => (c, inl e) :: rest
       | Panic => rest
       end, w2)
  end.
Definition read_all_prices (self : OracleReader) : W → list (Commodity * (OracleReaderError + Z)) * W :=
  join_all (((λ feed, (cf_commodity feed, fetch_chainlink feed)) <$> chainlink_feeds self) ++
            ((λ feed, (pf_commodity feed, fetch_pyth (pyth_hermes_url self) feed)) <$> pyth_feeds self)).

(** [sample_into_twap]: the calculator passed by reference is the result. *)
Definition sample_into_twap (self : OracleReader) (commodity : Commodity) (calculator : TwapCalculator)
    : OM TwapCalculator :=
  price ← read_price self commodity;
  let oracle :=
    if existsb (λ feed, bool_decide (cf_commodity feed = commodity)) (chainlink_feeds self)
    then Chainlink else Pyth in
  now ← gets net_now;
  mret (add_sample calculator {| ps_price := price; ps_sampled_at := now; ps_oracle := oracle |}).

(** ** Lemmas *)
Lemma checked_pow10_spec n : 0 ≤ n → checked_pow10 n = checked_u U128_MAX (10 ^ n).
Proof.
  intros Hn. unfold checked_pow10, checked_u. destruct (Z.ltb_spec 38 n) as [Hlt|Hle].
  - assert (10 ^ 39 ≤ 10 ^ n) by (apply Z.pow_le_mono_r; lia).
    by rewrite (proj2 (fits_false _ _ _)) by (change (10 ^ 39) with 1000000000000000000000000000000000000000 in *; lia).
  - assert (1 ≤ 10 ^ n ≤ 10 ^ 38) by (split; [change 1 with (10 ^ 0)|]; apply Z.pow_le_mono_r; lia).
    rewrite (proj2 (fits_spec _ _ _)); [done|].
    change (10 ^ 38) with 100000000000000000000000000000000000000 in *. lia.
Qed.

Lemma net_ok {E A} (f : E → OracleReaderError) (c : W → (E + A) * W) w a w' :
  net f c w = (Ok a, w') ↔ c w = (inr a, w').
Proof. unfold net. destruct (c w) as [[e|x] w1]; naive_solver. Qed.

Lemma fetch_chainlink_ok feed w v w' :
  fetch_chainlink feed w = (Ok v, w') ↔
    latest_answer (cf_address feed) w = (inr v, w') ∧ 0 < v ≤ U128_MAX.
Proof.
  unfold fetch_chainlink. rewrite bind_ok. setoid_rewrite net_ok. split.
  - intros (a & w1 & Ha & H). destruct (Z.leb_spec a 0); [by apply fail_ok in H|].
    apply ok_or_ok in H as [H <-]. apply try_from_Some in H as [-> ?]. split; [done|lia].
  - intros [Ha Hv]. exists v, w'. split; [done|]. destruct (Z.leb_spec v 0); [lia|].
    apply ok_or_ok. rewrite try_from_Some. naive_solver lia.
Qed.

Lemma arith_i_fits lo hi z : lo ≤ z ≤ hi → arith_i b lo hi z = Some z.
Proof. intros H. unfold arith_i. by rewrite (proj2 (fits_spec lo hi z) H). Qed.


Lemma convert_up price expo :
  0 < price → -8 ≤ expo ≤ I32_MAX - 8 →
  convert_pyth_price b price expo = Some (checked_u U128_MAX (price * 10 ^ (8 + expo))).
Proof.
  intros Hp He. unfold convert_pyth_price, TARGET_DECIMALS. destruct (Z.leb_spec price 0); [lia|].
  rewrite arith_i_fits by lia. cbn [mbind option_bind]. destruct (Z.leb_spec 0 (8 + expo)); [|lia].
  unfold try_from. rewrite (proj2 (fits_spec _ _ _)) by lia. cbn [mbind option_bind].
  rewrite checked_pow10_spec by lia. f_equal. unfold checked_u.
  pose proof (Z.pow_pos_nonneg 10 (8 + expo) ltac:(lia) ltac:(lia)).
  destruct (fits 0 U128_MAX (10 ^ (8 + expo))) eqn:E; cbn [mbind option_bind]; [done|].
  apply fits_false in E. unfold checked_u. rewrite (proj2 (fits_false _ _ _)); [done|nia].
Qed.

Lemma convert_down price expo :
  0 < price → I32_MIN ≤ expo < -8 →
  convert_pyth_price b price expo =
    Some (if expo <? -46 then None else Some (price / 10 ^ (- (8 + expo)))).
Proof.
  intros Hp He. unfold convert_pyth_price, TARGET_DECIMALS. destruct (Z.leb_spec price 0); [lia|].
  rewrite arith_i_fits by lia. cbn [mbind option_bind]. destruct (Z.leb_spec 0 (8 + expo)); [lia|].
  rewrite arith_i_fits by lia. cbn [mbind option_bind].
  unfold try_from. rewrite (proj2 (fits_spec _ _ _)) by lia. cbn [mbind option_bind].
  unfold checked_pow10. destruct (Z.ltb_spec 38 (- (8 + expo))), (Z.ltb_spec expo (-46)); cbn; (done || lia).
Qed.

Lemma convert_range price expo v :
  price ≤ I64_MAX → I32_MIN ≤ expo ≤ I32_MAX - 8 →
  convert_pyth_price b price expo = Some (Some v) → 0 < price ∧ 0 ≤ v ≤ U128_MAX.
Proof.
  intros Hp He H. destruct (Z.leb_spec price 0) as [Hle|Hlt].
  { unfold convert_pyth_price in H. by rewrite (proj2 (Z.leb_le _ _) Hle) in H. }
  split; [done|]. destruct (Z.leb_spec (-8) expo).
  - rewrite convert_up in H by lia. unfold checked_u in H. destruct (fits _ _ _) eqn:E; [|done].
    injection H as <-. by apply fits_spec.
  - rewrite convert_down in H by lia. destruct (expo <? -46); [done|]. injection H as <-.
    pose proof (Z.pow_pos_nonneg 10 (- (8 + expo)) ltac:(lia) ltac:(lia)).
    pose proof (div_le_self price (10 ^ (- (8 + expo)))). lia.
Qed.

Lemma parse_i_le lo hi s z : lo ≤ 0 ≤ hi → parse_i lo hi s = Some z → z ≤ hi.
Proof.
  intros Hlo Hz. unfold parse_i in Hz. repeat case_match; simplify_eq; try (apply parse_u_range in Hz; lia).
  all: destruct (parse_digits _ _) as [x|]; cbn in Hz; [|done].
  all: destruct (fits _ _ (- x)) eqn:Ef; [|done]. all: injection Hz as <-; apply fits_spec in Ef; lia.
Qed.

Lemma convert_fits price expo v :
  price ≤ I64_MAX → convert_pyth_price b price expo = Some (Some v) → 0 ≤ v ≤ U128_MAX.
Proof.
  intros Hp. unfold convert_pyth_price. destruct (Z.leb_spec price 0); [done|].
  destruct (arith_i _ _ _ _) as [shift|]; [|done]. cbn [mbind option_bind]. destruct (0 <=? shift).
  - destruct (try_from _ _ _) as [n|]; cbn; [|done]. destruct (checked_pow10 n) as [m|]; cbn; [|done].
    unfold checked_u. destruct (fits _ _ _) eqn:Ef; [|done]. intros [= <-]. by apply fits_spec.
  - destruct (arith_i _ _ _ _) as [neg|]; [|done]. cbn [mbind option_bind].
    destruct (try_from 0 _ neg) as [n|] eqn:En; cbn; [|done]. apply try_from_Some in En as [-> En].
    rewrite checked_pow10_spec by lia. destruct (checked_u _ _) as [m|] eqn:Em; cbn; [|done].
    intros [= <-]. unfold checked_u in Em. destruct (fits _ _ _); [|done]. injection Em as <-.
    pose proof (Z.pow_pos_nonneg 10 neg ltac:(lia) ltac:(lia)). pose proof (div_le_self price (10 ^ neg)). lia.
Qed.

(** A price that was read fits a [u128]. *)
Lemma read_price_fits self c w price w' : read_price self c w = (Ok price, w') → 0 ≤ price ≤ U128_MAX.
Proof.
  unfold read_price. intros E. destruct (List.find _ (chainlink_feeds self)) as [f|].
  - apply fetch_chainlink_ok in E as [_ ?]. lia.
  - destruct (List.find _ (pyth_feeds self)) as [f|]; [|done].
    unfold read_pyth_price, fetch_pyth in E. minv E. subst. apply parse_i_le in Ho0; [|lia]. by apply convert_fits in Ha.
Qed.

(** ** Properties *)

(** The Pyth conversion is exact: for a positive price and an exponent of at
    least -8 it is price * 10^(8+expo), and nothing when that leaves a [u128]; for
    a smaller exponent it is the quotient rounded down, and nothing below -46;
    a price that is not positive gives nothing. An exponent that overflows
    8 + expo panics in a debug build and is rejected in a release build. *)
Theorem pyth_conversion price expo :
  price ≤ I64_MAX → I32_MIN ≤ expo ≤ I32_MAX →
  convert_pyth_price b price expo =
    if price <=? 0 then Some None
    else if I32_MAX - 8 <? expo then match b with Debug => None | Release => Some None end
    else if -8 <=? expo then Some (checked_u U128_MAX (price * 10 ^ (8 + expo)))
    else if -46 <=? expo then Some (Some (price / 10 ^ (- (8 + expo))))
    else Some None.
Proof.
  intros Hp He. destruct (Z.leb_spec price 0) as [Hle|Hlt].
  { unfold convert_pyth_price. by rewrite (proj2 (Z.leb_le _ _) Hle). }
  destruct (Z.ltb_spec (I32_MAX - 8) expo).
  - unfold convert_pyth_price, TARGET_DECIMALS. destruct (Z.leb_spec price 0); [lia|].
    unfold arith_i. rewrite (proj2 (fits_false I32_MIN I32_MAX (8 + expo))) by lia.
    destruct b; [done|]. cbn [mbind option_bind].
    replace ((8 + expo - I32_MIN) mod (I32_MAX - I32_MIN + 1) + I32_MIN) with (8 + expo - 4294967296).
    2:{ rewrite (Z.mod_eq _ (I32_MAX - I32_MIN + 1)) by lia.
        replace ((8 + expo - I32_MIN) / (I32_MAX - I32_MIN + 1)) with 1; [lia|].
        apply Z.div_unique with (8 + expo - 4294967296 - I32_MIN); lia. }
    destruct (Z.leb_spec 0 (8 + expo - 4294967296)); [lia|].
    destruct (decide (expo = I32_MAX - 7)) as [->|Hne]; [reflexivity|].
    rewrite (proj2 (fits_spec I32_MIN I32_MAX (- (8 + expo - 4294967296)))) by lia.
    cbn [mbind option_bind]. unfold try_from, checked_pow10.
    rewrite (proj2 (fits_spec _ _ _)) by lia. cbn [mbind option_bind].
    by rewrite (proj2 (Z.ltb_lt _ _)) by lia.
  - destruct (Z.leb_spec (-8) expo); [by apply convert_up; lia|].
    rewrite convert_down by lia.
    destruct (Z.ltb_spec expo (-46)), (Z.leb_spec (-46) expo); done || lia.
Qed.

(** A price is the answer of the commodity's first Chainlink feed when there
    is one, whatever Pyth says, and always fits a [u128]. The feed's declared
    decimals are not used: a feed that reports a price of [p] units in [d]
    decimals is read as the documented eight-decimal integer only if [d] is 8. *)
Theorem chainlink_price self feed c p d w w' :
  List.find (λ feed, bool_decide (cf_commodity feed = c)) (chainlink_feeds self) = Some feed →
  cf_decimals feed = d → 0 < p → 0 ≤ d → p * 10 ^ d ≤ U128_MAX →
  latest_answer (cf_address feed) w = (inr (p * 10 ^ d), w') →
  read_price self c w = (Ok (p * 10 ^ d), w') ∧ (p * 10 ^ d = p * 10 ^ TARGET_DECIMALS ↔ d = 8).
Proof.
  intros Hf Hd Hp Hd0 Hfit Ha. unfold read_price. rewrite Hf. split.
  - apply fetch_chainlink_ok. split; [done|].
    pose proof (Z.pow_pos_nonneg 10 d ltac:(lia) Hd0). nia.
  - unfold TARGET_DECIMALS. split; [|by intros ->]. intros Heq.
    apply (Z.pow_inj_r 10); [lia|lia|lia|]. nia.
Qed.

(** Sampling a commodity adds at most one sample to the session's calculator
    and otherwise leaves it alone: on success the price read, which fits a
    [u128], with the time of the reading and the source that was used; a sample
    is dropped only if the clock is before the session start. A commodity with no
    feed is an error. *)
Theorem sample_into_twap_correct self c calc w :
  (∀ f w r w1, get_json f w = (inr r, w1) → Forall (λ e, I32_MIN ≤ hp_expo e ≤ I32_MAX - 8) (parsed r)) →
  match sample_into_twap self c calc w with
  | (Ok calc', w') => ∃ price,
      read_price self c w = (Ok price, w') ∧ 0 ≤ price ≤ U128_MAX ∧
      tc_session_start calc' = tc_session_start calc ∧
      tc_samples calc' = tc_samples calc ++
        (if net_now w' <? tc_session_start calc then []
         else [ {| ps_price := price; ps_sampled_at := net_now w';
                   ps_oracle := if existsb (λ f, bool_decide (cf_commodity f = c)) (chainlink_feeds self)
                                then Chainlink else Pyth |} ])
  | (Err e, w') => read_price self c w = (Err e, w')
  | (Panic, _) => False
  end.
Proof.
  intros Hexpo.
  assert (∀ w', read_price self c w ≠ (Panic, w')) as Hnp.
  { intros w' Hr. unfold read_price in Hr. destruct (List.find _ (chainlink_feeds self)) as [f|].
    - unfold read_chainlink_price, fetch_chainlink, net, mbind, M_bind in Hr.
      destruct (latest_answer _ w) as [[e|a] w1]; [done|]. destruct (a <=? 0); [done|].
      unfold ok_or in Hr. by destruct (try_from _ _ a).
    - destruct (List.find _ (pyth_feeds self)) as [f|]; [|done].
      unfold read_pyth_price, fetch_pyth, net, mbind, M_bind in Hr.
      destruct (get_json _ w) as [[e|r] w1] eqn:Ej; [done|]. apply Hexpo in Ej.
      destruct (parsed r) as [|e es]; [done|]. apply Forall_cons in Ej as [He _]. cbn in Hr.
      destruct (parse_i _ _ _) as [raw|]; [|done]. cbn in Hr.
      destruct (convert_pyth_price b raw (hp_expo e)) as [[v|]|] eqn:Ec; [done|done|].
      unfold convert_pyth_price in Ec. destruct (raw <=? 0); [done|]. unfold TARGET_DECIMALS in Ec.
      rewrite arith_i_fits in Ec by lia. cbn in Ec. destruct (Z.leb_spec 0 (8 + hp_expo e)); [done|].
      by rewrite arith_i_fits in Ec by lia. }
  unfold sample_into_twap. unfold mbind at 1, M_bind at 1.
  destruct (read_price self c w) as [[price|e|] w'] eqn:E; [|done|by destruct (Hnp w')].
  cbn. exists price. split; [done|]. split.
  - by apply read_price_fits in E.
  - unfold add_sample. cbn. destruct (net_now w' <? tc_session_start calc); cbn; [by rewrite app_nil_r|done].
Qed.
End reader.

(** ** A fixed network and the witnesses *)
#[export] Instance toy_net : OracleNet nat := {|
  latest_answer a w := (inr 320450000000, S w);
  get_json url w := (inr {| parsed := [ {| hp_price := "6512"; hp_expo := -2 |} ] |}, S w);
  net_now w := Z.of_nat w * NANOS_PER_SEC
|}.

Lemma pyth_conversion_witness :
  convert_pyth_price Release 6512 (-2) = Some (Some 6512000000) ∧
  convert_pyth_price Debug 6512 2147483647 = None.
Proof.
  split.
  - rewrite (pyth_conversion Release 6512 (-2)) by lia. reflexivity.
  - rewrite (pyth_conversion Debug 6512 2147483647) by lia. reflexivity.
Defined.

(** A feed in 6 decimals: 320450 units are read as 3204.5. *)
Lemma chainlink_price_witness :
  read_price Release (oracle_new [ {| cf_commodity := Gold; cf_address := 1; cf_decimals := 6 |} ] []) Gold 0%nat =
    (Ok 320450000000, 1%nat) ∧ 320450 * 10 ^ 6 ≠ 320450 * 10 ^ TARGET_DECIMALS.
Proof.
  destruct (chainlink_price Release
    (oracle_new [ {| cf_commodity := Gold; cf_address := 1; cf_decimals := 6 |} ] [])
    {| cf_commodity := Gold; cf_address := 1; cf_decimals := 6 |} Gold 320450 6 0%nat 1%nat) as [H1 H2];
    [reflexivity|reflexivity|lia|lia|lia|reflexivity|].
  split; [exact H1|]. intros H3. apply H2 in H3. lia.
Defined.

Lemma sample_into_twap_correct_witness :
  match sample_into_twap Debug (oracle_new default_chainlink_feeds default_pyth_feeds) CrudeOil (twap_new 0) 0%nat with
  | (Ok calc', _) => length (tc_samples calc') = 1%nat
  | _ => False
  end.
Proof.
  pose proof (sample_into_twap_correct Debug (oracle_new default_chainlink_feeds default_pyth_feeds)
    CrudeOil (twap_new 0) 0%nat) as H.
  specialize (H ltac:(intros f w r w1 [= <- <-]; repeat constructor; cbn; lia)).
  destruct (sample_into_twap _ _ _ _ _) as [[calc'|e|] w'] eqn:E.
  - destruct H as (price & _ & _ & _ & ->). apply (f_equal snd) in E. vm_compute in E. subst w'. reflexivity.
  - apply (f_equal fst) in E. vm_compute in E. discriminate.
  - exact H.
Defined.
