(* ===== verification/Postgres.v ===== *)
(** * crates/postgres-store/src/lib.rs: anomaly events and mint proposals

    The two tables as lists of rows (migrations 0001 to 0004) and each method as
    its SQL statement. The server itself is a parameter: its clock, the faults of
    its connections, its identifiers and NUMERIC division, and the texts that
    dependencies give the bound values. *)
From stdpp Require Import sorting.
From S2P Require Import Prelude Common.

(** ** Tables *)
Record AnomalyRow := mkAnomalyRow {
  an_id : string;
  an_session_id : string;
  an_wallet : string;
  an_score : Z;
  an_triggers : string;
  an_level : string;
  an_created_at : DateTime
}.

Record ProposalRow := mkProposalRow {
  pr_id : string;
  pr_session_id : string;
  pr_wallet : string;
  pr_gross_prm : Z;
  pr_net_usd_cents : option Z;
  pr_commodity : string;
  pr_chain : string;
  pr_attestation_json : string;
  pr_backend_sig : string;
  pr_status : string;
  pr_created_at : DateTime;
  pr_updated_at : DateTime
}.

Record Db := mkDb {
  anomaly_events : list AnomalyRow;
  mint_proposals : list ProposalRow;
  db_tick : nat
}.

Inductive PostgresStoreError :=
  | Sqlx (detail : string)
  | Pg_Serialization (detail : string)
  | Migration (detail : string).
#[export] Instance PostgresStoreError_display : Display PostgresStoreError := λ e,
  match e with
  | Sqlx detail => "database error: " +:+ detail
  | Pg_Serialization detail => "serialization error: " +:+ detail
  | Migration detail => "migration error: " +:+ detail
  end.
#[export] Instance PostgresStoreError_error : StdError PostgresStoreError := λ e,
  match e with Sqlx detail | Pg_Serialization detail | Migration detail => Some detail end.
#[export] Instance PostgresStoreError_telling : Telling PostgresStoreError.
Proof. telling_tac. Qed.

(** [PgPool::connect], and running the embedded migrations. *)
Class PgConnect (W : Type) := {
  pool_connect : string → W → (string + unit) * W;
  migrate : W → (string + unit) * W
}.
(** [new]: the store is its pool. *)
Definition postgres_new {W} `{!PgConnect W} (database_url : string) : M W PostgresStoreError unit :=
  map_err Sqlx (of_call (pool_connect database_url)).
Definition run_migrations {W} `{!PgConnect W} : M W PostgresStoreError unit := map_err Migration (of_call migrate).

(** ** Projections *)
Record PendingProposalRow := mkPendingProposalRow {
  pe_id : string;
  pe_session_id : string;
  pe_wallet : string;
  pe_gross_prm : string;
  pe_commodity : string;
  pe_chain : string;
  pe_status : string;
  pe_created_at : DateTime
}.
Record PayoutRow := mkPayoutRow {
  pa_session_id : string;
  pa_wallet : string;
  pa_gross_prm : string;
  pa_net_usd_cents : option Z;
  pa_commodity : string;
  pa_chain : string;
  pa_status : string;
  pa_created_at : DateTime
}.
Record EarningsRow := mkEarningsRow {
  ea_commodity : string;
  ea_session_count : Z;
  ea_total_gross_prm : string;
  ea_total_usd_cents : Z
}.
Record Earnings24h := mkEarnings24h {
  e24_total_gross_prm : string;
  e24_total_usd_cents : Z;
  e24_payout_count : Z
}.
Record EntityShare := mkEntityShare {
  es_company_prm_wei : string;
  es_total_prm_wei : string;
  es_share_bps : Z
}.
Record ReviewFlag := mkReviewFlag { rf_session_id : string; rf_created_at : DateTime }.

(** ** The server *)
Class PgServer := {
  (** [now()] of the statement run as the [n]-th *)
  db_now : nat → DateTime;
  (** a fault of the [n]-th statement: whether it took effect, and the error *)
  db_fault : nat → option (bool * string);
  gen_random_uuid : nat → string;
  (** NUMERIC division, cast to [bigint]: the quotient rounded to the nearest *)
  numeric_div_bigint : Z → Z → Z;
  numeric_div_near a b : 0 < b →
    1000000 * Z.abs (numeric_div_bigint a b * b - a) ≤ 500001 * b;
  (** a [TIMESTAMPTZ] has microseconds *)
  timestamptz : DateTime → DateTime;
  (** [format!("{:?}", wallet)], [format!("{}", backend_sig)], [serde_json] *)
  address_debug : Address → string;
  signature_display : Signature → string;
  attestation_json : AttestationResult → string + string;
  triggers_json : list InvalidReason → string + string
}.

(** Aggregates. *)
Definition sum_gross (rows : list ProposalRow) : Z := foldr (λ r acc, pr_gross_prm r + acc) 0 rows.
Definition sum_cents (rows : list ProposalRow) : Z :=
  foldr (λ r acc, default 0 (pr_net_usd_cents r) + acc) 0 rows.
(** [::bigint]. *)
Definition bigint (z : Z) : string + Z :=
  if fits I64_MIN I64_MAX z then inr z else inl "bigint out of range".

Definition by_created_asc : relation ProposalRow := λ a b, pr_created_at a ≤ pr_created_at b.
Definition by_created_desc : relation ProposalRow := λ a b, pr_created_at b ≤ pr_created_at a.
Definition flag_desc : relation AnomalyRow := λ a b, an_created_at b ≤ an_created_at a.
#[export] Instance by_created_asc_dec : RelDecision by_created_asc.
Proof. intros a b. unfold by_created_asc. apply _. Defined.
#[export] Instance by_created_desc_dec : RelDecision by_created_desc.
Proof. intros a b. unfold by_created_desc. apply _. Defined.
#[export] Instance flag_desc_dec : RelDecision flag_desc.
Proof. intros a b. unfold flag_desc. apply _. Defined.

Definition interval_24h : Z := 86400 * NANOS_PER_SEC.

Section store.
Context `{!PgServer}.
Definition PM (A : Type) : Type := M Db PostgresStoreError A.

Definition next (db : Db) : Db := mkDb (anomaly_events db) (mint_proposals db) (S (db_tick db)).

(** A statement run on the pool. *)
Definition sql {A} (stmt : DateTime → Db → string + A * Db) : PM A := λ db,
  match db_fault (db_tick db), stmt (db_now (db_tick db)) db with
  | None, inr (a, db') => (Ok a, next db')
  | None, inl e => (Err (Sqlx e), next db)
  | Some (true, e), inr (_, db') => (Err (Sqlx e), next db')
  | Some (_, e), _ => (Err (Sqlx e), next db)
  end.
(** A query. *)
Definition select {A} (q : DateTime → Db → string + A) : PM A :=
  sql (λ now db, match q now db with inl e => inl e | inr a => inr (a, db) end).

Definition insert_anomaly_event (event : AnomalyEvent) : PM unit :=
  match triggers_json (ae_triggers event) with
  | inl e => fail (Pg_Serialization e)
  | inr triggers =>
      sql (λ now db, inr (tt, mkDb
        (anomaly_events db ++
          [ {| an_id := gen_random_uuid (db_tick db); an_session_id := ae_session_id event;
               an_wallet := address_debug (ae_wallet event);
               an_score := (ae_score event + 2147483648) mod 4294967296 - 2147483648;
               an_triggers := triggers; an_level := level_debug (ae_level event);
               an_created_at := timestamptz (ae_timestamp event) |} ])
        (mint_proposals db) (db_tick db)))
  end.

(** The row of a proposal, inserted at [now] as statement [t]. *)
Definition proposal_row (proposal : MintProposal) (attestation_json : string) (now : DateTime) (t : nat)
    : ProposalRow :=
  {| pr_id := gen_random_uuid t; pr_session_id := mp_session_id proposal;
     pr_wallet := address_debug (mp_wallet proposal); pr_gross_prm := mp_gross_prm proposal;
     pr_net_usd_cents := mp_net_usd_cents proposal;
     pr_commodity := commodity_debug (mp_commodity proposal);
     pr_chain := chain_as_str (mp_chain proposal); pr_attestation_json := attestation_json;
     pr_backend_sig := signature_display (mp_backend_sig proposal);
     pr_status := status_debug (mp_status proposal);
     pr_created_at := timestamptz (mp_created_at proposal); pr_updated_at := now |}.

Definition insert_mint_proposal (proposal : MintProposal) : PM unit :=
  match attestation_json (mp_attestation proposal) with
  | inl e => fail (Pg_Serialization e)
  | inr json =>
      sql (λ now db,
        if bool_decide (mp_session_id proposal ∈ (pr_session_id <$> mint_proposals db)) then
          inl "duplicate key value violates unique constraint"
        else inr (tt, mkDb (anomaly_events db)
               (mint_proposals db ++ [proposal_row proposal json now (db_tick db)]) (db_tick db)))
  end.

Definition set_status (status : ProposalStatus) (now : DateTime) (r : ProposalRow) : ProposalRow :=
  {| pr_id := pr_id r; pr_session_id := pr_session_id r; pr_wallet := pr_wallet r;
     pr_gross_prm := pr_gross_prm r; pr_net_usd_cents := pr_net_usd_cents r;
     pr_commodity := pr_commodity r; pr_chain := pr_chain r;
     pr_attestation_json := pr_attestation_json r; pr_backend_sig := pr_backend_sig r;
     pr_status := status_debug status; pr_created_at := pr_created_at r; pr_updated_at := now |}.

Definition update_proposal_status (session_id : SessionId) (status : ProposalStatus) : PM unit :=
  sql (λ now db, inr (tt, mkDb (anomaly_events db)
    ((λ r, if String.eqb (pr_session_id r) session_id then set_status status now r else r)
       <$> mint_proposals db) (db_tick db))).

Definition pending_row (r : ProposalRow) : PendingProposalRow :=
  {| pe_id := pr_id r; pe_session_id := pr_session_id r; pe_wallet := pr_wallet r;
     pe_gross_prm := show (pr_gross_prm r); pe_commodity := pr_commodity r; pe_chain := pr_chain r;
     pe_status := pr_status r; pe_created_at := pr_created_at r |}.

Definition get_pending_proposals : PM (list PendingProposalRow) :=
  select (λ _ db, inr (pending_row <$>
    merge_sort by_created_asc (filter (λ r, pr_status r = "Pending") (mint_proposals db)))).

Definition payout_row (r : ProposalRow) : PayoutRow :=
  {| pa_session_id := pr_session_id r; pa_wallet := pr_wallet r; pa_gross_prm := show (pr_gross_prm r);
     pa_net_usd_cents := pr_net_usd_cents r; pa_commodity := pr_commodity r; pa_chain := pr_chain r;
     pa_status := pr_status r; pa_created_at := pr_created_at r |}.

(** [LIMIT $n]. *)
Definition limited {A} (limit : Z) (rows : list A) : string + list A :=
  if limit <? 0 then inl "LIMIT must not be negative" else inr (take (Z.to_nat limit) rows).

Definition get_payouts_for_wallet (wallet : string) (limit : Z) : PM (list PayoutRow) :=
  select (λ _ db, limited limit (payout_row <$>
    merge_sort by_created_desc (filter (λ r, pr_wallet r = wallet) (mint_proposals db)))).

(** [GROUP BY commodity]: one group per commodity that occurs, with its rows. *)
Definition earnings_row (rows : list ProposalRow) (commodity : string) : string + EarningsRow :=
  let group := filter (λ r, pr_commodity r = commodity) rows in
  match bigint (sum_cents group) with
  | inl e => inl e
  | inr cents =>
      inr {| ea_commodity := commodity; ea_session_count := Z.of_nat (length group);
             ea_total_gross_prm := show (sum_gross group); ea_total_usd_cents := cents |}
  end.
Fixpoint collect_rows {A} (l : list (string + A)) : string + list A :=
  match l with
  | [] => inr []
  | inl e :: _ => inl e
  | inr a :: l => match collect_rows l with inl e => inl e | inr l => inr (a :: l) end
  end.

Definition get_earnings_by_commodity (wallet : string) : PM (list EarningsRow) :=
  select (λ _ db,
    let rows := filter (λ r, pr_wallet r = wallet) (mint_proposals db) in
    collect_rows (earnings_row rows <$> remove_dups (pr_commodity <$> rows))).

Definition total_minted_wei_24h : PM string :=
  select (λ now db, inr (show (sum_gross
    (filter (λ r, pr_status r = "Confirmed" ∧ now - interval_24h < pr_created_at r) (mint_proposals db))))).

Definition count_anomaly_events : PM Z :=
  select (λ _ db, inr (Z.of_nat (length (anomaly_events db)))).

Definition get_earnings_24h (wallet : string) : PM Earnings24h :=
  select (λ now db,
    let rows := filter (λ r, pr_wallet r = wallet ∧ now - interval_24h < pr_created_at r)
                  (mint_proposals db) in
    match bigint (sum_cents rows) with
    | inl e => inl e
    | inr cents => inr {| e24_total_gross_prm := show (sum_gross rows); e24_total_usd_cents := cents;
                          e24_payout_count := Z.of_nat (length rows) |}
    end).

Definition company_mining_share (company_wallet_key : string) : PM EntityShare :=
  select (λ _ db,
    let rows := filter (λ r, pr_status r = "Confirmed") (mint_proposals db) in
    let mine := filter (λ r, pr_wallet r = company_wallet_key) rows in
    let total := sum_gross rows in
    let share := match mine with
                 | [] => 0
                 | _ => if total =? 0 then 0 else numeric_div_bigint (sum_gross mine * 10000) total
                 end in
    match bigint share with
    | inl e => inl e
    | inr share => inr {| es_company_prm_wei := show (sum_gross mine);
                          es_total_prm_wei := show total; es_share_bps := share |}
    end).

Definition get_review_flags_for_wallet (wallet : string) (limit : Z) : PM (list ReviewFlag) :=
  select (λ _ db, limited limit ((λ r, mkReviewFlag (an_session_id r) (an_created_at r)) <$>
    merge_sort flag_desc (filter (λ r, an_wallet r = wallet) (anomaly_events db)))).

(** ** Lemmas *)
Lemma sql_run {A} (stmt : DateTime → Db → string + A * Db) db :
  db_fault (db_tick db) = None →
  sql stmt db = match stmt (db_now (db_tick db)) db with
                | inr (a, db') => (Ok a, next db')
                | inl e => (Err (Sqlx e), next db)
                end.
Proof. intros E. unfold sql. rewrite E. by destruct (stmt _ _) as [|[]]. Qed.

Lemma select_run {A} (q : DateTime → Db → string + A) db :
  db_fault (db_tick db) = None →
  select q db = (match q (db_now (db_tick db)) db with inr a => Ok a | inl e => Err (Sqlx e) end, next db).
Proof. intros E. unfold select. rewrite sql_run by done. by destruct (q _ _). Qed.

(** A query changes no row, whatever happens. *)
Lemma select_state {A} (q : DateTime → Db → string + A) db : (select q db).2 = next db.
Proof.
  unfold select, sql. destruct (db_fault _) as [[[] e]|], (q (db_now (db_tick db)) db); done.
Qed.

(** The schema's constraints: one proposal per session, amounts as inserted. *)
Definition db_ok (db : Db) : Prop :=
  NoDup (pr_session_id <$> mint_proposals db) ∧
  Forall (λ r, 0 ≤ pr_gross_prm r ≤ U128_MAX) (mint_proposals db).

Lemma insert_ok proposal db :
  db_ok db → 0 ≤ mp_gross_prm proposal ≤ U128_MAX →
  db_ok (insert_mint_proposal proposal db).2.
Proof.
  intros [Hnd Hall] Hg. unfold insert_mint_proposal. destruct (attestation_json _) as [e|j]; [done|].
  unfold sql. case_bool_decide as Hin; destruct (db_fault _) as [[[] e]|]; try done.
  all: split; cbn; [rewrite fmap_app; cbn; rewrite NoDup_app | apply Forall_app; split; [done|by constructor]].
  all: split_and!; [done| |apply NoDup_singleton]; intros x Hx; rewrite list_elem_of_singleton; by intros ->.
Qed.

Lemma set_status_ids sid st now (l : list ProposalRow) :
  pr_session_id <$> ((λ r, if String.eqb (pr_session_id r) sid then set_status st now r else r) <$> l) =
  pr_session_id <$> l.
Proof.
  rewrite <-list_fmap_compose. apply list_fmap_ext. intros i r _. cbn. by destruct (String.eqb _ _).
Qed.

Lemma update_ok sid st db : db_ok db → db_ok (update_proposal_status sid st db).2.
Proof.
  intros [Hnd Hall]. unfold update_proposal_status, sql. destruct (db_fault _) as [[[] e]|]; try done.
  all: split; cbn; [by rewrite set_status_ids|].
  all: apply Forall_fmap; eapply Forall_impl; [exact Hall|]; intros r; cbn; by destruct (String.eqb _ _).
Qed.

Lemma sum_gross_app l k : sum_gross (l ++ k) = sum_gross l + sum_gross k.
Proof. unfold sum_gross. induction l as [|r l IH]; cbn; [done|]. rewrite IH. lia. Qed.
Lemma sum_gross_nonneg l : Forall (λ r, 0 ≤ pr_gross_prm r ≤ U128_MAX) l → 0 ≤ sum_gross l.
Proof. unfold sum_gross. induction 1; cbn; lia. Qed.
Lemma sum_gross_filter (P : ProposalRow → Prop) `{!∀ r, Decision (P r)} l :
  Forall (λ r, 0 ≤ pr_gross_prm r ≤ U128_MAX) l → 0 ≤ sum_gross (filter P l) ≤ sum_gross l.
Proof.
  induction 1 as [|r l Hr Hl IH]; [done|]. rewrite filter_cons. unfold sum_gross in *. cbn.
  case_decide; cbn; lia.
Qed.

(** Grouping by commodity loses and doubles nothing. *)
Definition total (f : ProposalRow → Z) (rows : list ProposalRow) : Z := foldr (λ r acc, f r + acc) 0 rows.
Definition zsum (l : list Z) : Z := foldr Z.add 0 l.

Lemma zsum_add (g h : string → Z) keys :
  zsum ((λ k, g k + h k) <$> keys) = zsum (g <$> keys) + zsum (h <$> keys).
Proof. unfold zsum. induction keys as [|k keys IH]; [done|]. rewrite !fmap_cons. cbn [foldr]. lia. Qed.

Lemma zsum_indicator (x : Z) (c : string) (keys : list string) :
  NoDup keys → zsum ((λ k, if decide (c = k) then x else 0) <$> keys) =
               if decide (c ∈ keys) then x else 0.
Proof.
  unfold zsum. induction 1 as [|k keys Hk Hnd IH]; [done|]. rewrite fmap_cons. cbn [foldr]. rewrite IH.
  destruct (decide (c = k)) as [->|Hne].
  - rewrite decide_False by done. rewrite decide_True by set_solver. lia.
  - destruct (decide (c ∈ keys)); [rewrite decide_True by set_solver|rewrite decide_False by set_solver]; lia.
Qed.

Lemma group_total f rows (keys : list string) :
  NoDup keys → (∀ r, r ∈ rows → pr_commodity r ∈ keys) →
  zsum ((λ k, total f (filter (λ r, pr_commodity r = k) rows)) <$> keys) = total f rows.
Proof.
  intros Hnd. induction rows as [|r rows IH]; intros Hin.
  - cbn. clear. unfold zsum. induction keys as [|k keys IH]; cbn; [done|]. exact IH.
  - transitivity (zsum ((λ k, (if decide (pr_commodity r = k) then f r else 0) +
      total f (filter (λ r, pr_commodity r = k) rows)) <$> keys)).
    + f_equal. apply list_fmap_ext. intros i k _. rewrite filter_cons. by case_decide.
    + rewrite zsum_add, zsum_indicator by done. rewrite decide_True by (apply Hin; set_solver).
      rewrite IH by set_solver. done.
Qed.

Lemma collect_rows_ok {A B} (f : A → string + B) (l : list A) (k : list B) :
  collect_rows (f <$> l) = inr k ↔ f <$> l = inr <$> k.
Proof.
  revert k. induction l as [|a l IH]; intros k.
  - split; [by intros [= <-]|]. by destruct k.
  - rewrite fmap_cons. cbn [collect_rows]. destruct (f a) as [e|x]; [split; [done|by destruct k]|].
    destruct (collect_rows (f <$> l)) as [e|k'].
    + split; [done|]. destruct k as [|y k]; [done|]. rewrite fmap_cons. intros [= -> Hk]. by apply IH in Hk.
    + split; [intros [= <-]; rewrite fmap_cons; f_equal; by apply IH|].
      destruct k as [|y k]; [done|]. rewrite fmap_cons. intros [= -> Hk]. apply IH in Hk. by injection Hk as ->.
Qed.

(** ** Properties *)

(** C34. The life of a proposal, whether or not the connection holds. A first insertion
    appends exactly the session's row, and a second one is refused without effect; an
    attestation that does not serialise is refused before any statement. A status
    update writes the status of that session's row alone, whatever the status was
    before, so that a rejected proposal can be confirmed. When the connection fails the
    answer is an error and the statement took effect wholly or not at all; in every
    case the schema's constraints hold afterwards, and no review event is touched. *)
Theorem proposal_life proposal st db :
  db_ok db → 0 ≤ mp_gross_prm proposal ≤ U128_MAX →
  let sid := mp_session_id proposal in
  let landed := match db_fault (db_tick db) with Some (landed, _) => landed | None => true end in
  let answer := match db_fault (db_tick db) with Some (_, e) => Err (Sqlx e) | None => Ok tt end in
  let inserted := insert_mint_proposal proposal db in
  let updated := update_proposal_status sid st db in
  (∀ e, attestation_json (mp_attestation proposal) = inl e → inserted = (Err (Pg_Serialization e), db)) ∧
  (∀ json, attestation_json (mp_attestation proposal) = inr json → sid ∉ (pr_session_id <$> mint_proposals db) →
     inserted.1 = answer ∧
     mint_proposals inserted.2 =
       mint_proposals db ++ if landed then [proposal_row proposal json (db_now (db_tick db)) (db_tick db)] else []) ∧
  (sid ∈ (pr_session_id <$> mint_proposals db) →
     (∃ e, inserted.1 = Err e) ∧ mint_proposals inserted.2 = mint_proposals db) ∧
  updated.1 = answer ∧
  (∀ i r, mint_proposals db !! i = Some r →
     mint_proposals updated.2 !! i =
       Some (if landed && String.eqb (pr_session_id r) sid then set_status st (db_now (db_tick db)) r else r)) ∧
  (db_ok inserted.2 ∧ anomaly_events inserted.2 = anomaly_events db) ∧
  db_ok updated.2 ∧ anomaly_events updated.2 = anomaly_events db.
Proof.
  intros Hok Hg sid landed answer inserted updated. split_and!; [..|by apply insert_ok| |by apply update_ok|].
  - intros e He. unfold inserted, insert_mint_proposal. by rewrite He.
  - intros json Hj Hni. unfold inserted, landed, answer, insert_mint_proposal, sql. rewrite Hj, bool_decide_eq_false_2 by done.
    destruct (db_fault _) as [[[] e]|]; cbn; by rewrite ?app_nil_r.
  - intros Hin. unfold inserted, insert_mint_proposal, sql. destruct (attestation_json _) as [e|json]; [by split; [eexists|]|].
    rewrite bool_decide_eq_true_2 by done. destruct (db_fault _) as [[[] e]|]; by split; [eexists|].
  - unfold updated, answer, update_proposal_status, sql. by destruct (db_fault _) as [[[] e]|].
  - intros i r Hr. unfold updated, landed, update_proposal_status, sql.
    destruct (db_fault _) as [[[] e]|]; cbn; [by rewrite list_lookup_fmap, Hr|done|by rewrite list_lookup_fmap, Hr].
  - unfold inserted, insert_mint_proposal, sql. destruct (attestation_json _); [done|].
    case_bool_decide; by destruct (db_fault _) as [[[] e]|].
  - unfold updated, update_proposal_status, sql. by destruct (db_fault _) as [[[] e]|].
Qed.

(** The day's mint is what was confirmed of the proposals created in the last
    24 hours: pending and rejected proposals never count, and neither does a
    proposal that is confirmed a day or more after its creation. Where every
    confirmation takes that long, as with a 48-hour timelock, the figure that
    the per-day ceiling is compared with is always 0. *)
Theorem minted_24h db :
  db_fault (db_tick db) = None → db_ok db →
  let now := db_now (db_tick db) in
  let counted := filter (λ r, pr_status r = "Confirmed" ∧ now - interval_24h < pr_created_at r)
                   (mint_proposals db) in
  (total_minted_wei_24h db).1 = Ok (show (sum_gross counted)) ∧
  0 ≤ sum_gross counted ≤ sum_gross (mint_proposals db) ∧
  (Forall (λ r, pr_status r = "Confirmed" →
             pr_created_at r + interval_24h ≤ pr_updated_at r ≤ now) (mint_proposals db) →
   (total_minted_wei_24h db).1 = Ok "0").
Proof.
  intros Hf [Hnd Hall] now counted.
  assert ((total_minted_wei_24h db).1 = Ok (show (sum_gross counted))) as Ht.
  { unfold total_minted_wei_24h. by rewrite select_run. }
  split_and!; [done|by apply sum_gross_filter..|]. intros Hlate. rewrite Ht.
  assert (counted = []) as ->; [|done]. unfold counted.
  clear -Hlate. induction Hlate as [|r l Hr _ IH]; [done|]. rewrite filter_cons, IH.
  rewrite decide_False; [done|]. intros [Hc Hlt]. specialize (Hr Hc). lia.
Qed.

(** The company's share counts confirmed mints only: it lies between 0 and
    10000 basis points, is 0 when the company or everyone minted nothing, and
    the company's total never exceeds the total. *)
Theorem company_share_bounds db key :
  db_fault (db_tick db) = None → db_ok db →
  ∃ company total bps,
    (company_mining_share key db).1 =
      Ok {| es_company_prm_wei := show company; es_total_prm_wei := show total; es_share_bps := bps |} ∧
    total = sum_gross (filter (λ r, pr_status r = "Confirmed") (mint_proposals db)) ∧
    0 ≤ company ≤ total ∧ 0 ≤ bps ≤ 10000 ∧
    (total = 0 → bps = 0) ∧ (company = 0 → bps = 0) ∧ (company = total → 0 < total → bps = 10000).
Proof.
  intros Hf [Hnd Hall].
  set (rows := filter (λ r, pr_status r = "Confirmed") (mint_proposals db)).
  set (mine := filter (λ r, pr_wallet r = key) rows).
  assert (Forall (λ r, 0 ≤ pr_gross_prm r ≤ U128_MAX) rows) as Hrows.
  { apply Forall_forall. intros r [_ Hr]%list_elem_of_filter. by eapply Forall_forall in Hall. }
  pose proof (sum_gross_filter (λ r, pr_wallet r = key) rows Hrows) as Hle. fold mine in Hle.
  set (share := match mine with [] => 0 | _ => if sum_gross rows =? 0 then 0
                else numeric_div_bigint (sum_gross mine * 10000) (sum_gross rows) end).
  assert (0 ≤ share ≤ 10000 ∧ (sum_gross rows = 0 → share = 0) ∧ (sum_gross mine = 0 → share = 0) ∧
          (sum_gross mine = sum_gross rows → 0 < sum_gross rows → share = 10000)) as (Hs & H0 & H1 & H2).
  { assert (mine = [] → sum_gross mine = 0) as Hnil by (by intros ->). unfold share.
    destruct mine as [|m ms] eqn:Em; [specialize (Hnil eq_refl); split_and!; lia|].
    destruct (Z.eqb_spec (sum_gross rows) 0) as [He|Hne]; [split_and!; lia|].
    pose proof (numeric_div_near (sum_gross (m :: ms) * 10000) (sum_gross rows) ltac:(lia)) as Hnear.
    set (q := numeric_div_bigint _ _) in *. set (a := sum_gross (m :: ms)) in *.
    set (t := sum_gross rows) in *. split_and!; try lia; nia. }
  exists (sum_gross mine), (sum_gross rows), share. split_and!; try done; try lia.
  unfold company_mining_share. rewrite select_run by done. cbv zeta. fold rows mine share.
  unfold bigint. by rewrite (proj2 (fits_spec _ _ share)) by lia.
Qed.

(** The reports are complete: the queue holds every pending proposal, oldest
    first; a wallet's payouts are its newest rows, newest first, as many as the
    limit allows; the earnings by commodity split the wallet's proposals: the
    counts, PRM and cents of the groups add up to those of all its rows. *)
Theorem reports_complete db wallet limit :
  db_fault (db_tick db) = None → 0 ≤ limit →
  let rows := filter (λ r, pr_wallet r = wallet) (mint_proposals db) in
  (∃ l, (get_pending_proposals db).1 = Ok (pending_row <$> l) ∧
     l ≡ₚ filter (λ r, pr_status r = "Pending") (mint_proposals db) ∧ Sorted by_created_asc l) ∧
  (∃ l, (get_payouts_for_wallet wallet limit db).1 = Ok (payout_row <$> take (Z.to_nat limit) l) ∧
     l ≡ₚ rows ∧ Sorted by_created_desc l) ∧
  (∀ l, (get_earnings_by_commodity wallet db).1 = Ok l →
     NoDup (ea_commodity <$> l) ∧
     zsum (ea_session_count <$> l) = Z.of_nat (length rows) ∧
     zsum (ea_total_usd_cents <$> l) = sum_cents rows ∧
     ∃ prm, ea_total_gross_prm <$> l = show <$> prm ∧ zsum prm = sum_gross rows).
Proof.
  intros Hf Hl rows.
  assert (Total by_created_asc) as Ht1 by (intros x y; unfold by_created_asc; lia).
  assert (Total by_created_desc) as Ht2 by (intros x y; unfold by_created_desc; lia).
  split_and!.
  - eexists. unfold get_pending_proposals. rewrite select_run by done. cbn.
    split; [done|]. split; [apply merge_sort_Permutation|by apply Sorted_merge_sort].
  - eexists. unfold get_payouts_for_wallet, limited. rewrite select_run by done. cbn.
    rewrite (proj2 (Z.ltb_ge limit 0)) by done. cbn. rewrite <-fmap_take. fold rows.
    split; [done|]. split; [apply merge_sort_Permutation|by apply Sorted_merge_sort].
  - intros l. unfold get_earnings_by_commodity. rewrite select_run by done. cbv zeta. cbn [fst]. fold rows.
    set (keys := remove_dups (pr_commodity <$> rows)).
    destruct (collect_rows (earnings_row rows <$> keys)) as [e|l'] eqn:E; [done|]. intros [= ->].
    apply collect_rows_ok in E.
    assert (NoDup keys) as Hnd by apply NoDup_remove_dups.
    assert (∀ r, r ∈ rows → pr_commodity r ∈ keys) as Hin.
    { intros r Hr. unfold keys. rewrite elem_of_remove_dups. apply list_elem_of_fmap. by exists r. }
    assert (∀ (B : Type) (g : EarningsRow → B) (h : string → B),
      (∀ k e, earnings_row rows k = inr e → g e = h k) → g <$> l = h <$> keys) as Hproj.
    { clear Hnd Hin. revert l E. generalize keys. intros ks. induction ks as [|k ks IH]; intros [|e l] E B g h Hgh; try done.
      cbn in E. injection E as Ek E. cbn. f_equal; [by apply Hgh|]. by apply IH. }
    assert (∀ k e, earnings_row rows k = inr e →
      e = {| ea_commodity := k; ea_session_count := Z.of_nat (length (filter (λ r, pr_commodity r = k) rows));
             ea_total_gross_prm := show (sum_gross (filter (λ r, pr_commodity r = k) rows));
             ea_total_usd_cents := sum_cents (filter (λ r, pr_commodity r = k) rows) |}) as Hrow.
    { intros k e. unfold earnings_row, bigint. destruct (fits _ _ _); [|done]. by intros [= <-]. }
    assert (∀ rs, Z.of_nat (length rs) = total (λ _, 1) rs) as Hlen.
    { unfold total. induction rs as [|r rs IH]; cbn [length foldr]; [done|]. lia. }
    split_and!.
    + rewrite (Hproj _ ea_commodity id) by (by intros k e ->%Hrow). by rewrite list_fmap_id.
    + rewrite (Hproj _ _ (λ k, total (λ _, 1) (filter (λ r, pr_commodity r = k) rows)))
        by (intros k e ->%Hrow; apply Hlen). rewrite Hlen. by apply group_total.
    + rewrite (Hproj _ _ (λ k, total (λ r, default 0 (pr_net_usd_cents r)) (filter (λ r, pr_commodity r = k) rows)))
        by (by intros k e ->%Hrow). by apply (group_total (λ r, default 0 (pr_net_usd_cents r))).
    + exists ((λ k, sum_gross (filter (λ r, pr_commodity r = k) rows)) <$> keys). split.
      * rewrite <-list_fmap_compose. apply Hproj. by intros k e ->%Hrow.
      * by apply (group_total pr_gross_prm).
Qed.
End store.

(** ** A server and the witnesses *)
#[local] Obligation Tactic := idtac.
#[export] Program Instance toy_pg : PgServer := {|
  db_now n := (1000000 + Z.of_nat n) * NANOS_PER_SEC;
  db_fault _ := None;
  gen_random_uuid n := "row-" +:+ show (Z.of_nat n);
  numeric_div_bigint a b := (2 * a + b) / (2 * b);
  timestamptz t := t / 1000 * 1000;
  address_debug a := "0x" +:+ show a;
  signature_display s := show (sig_r s);
  attestation_json a := inr (ar_session_id a);
  triggers_json l := inr "[]"
|}.
Next Obligation.
  intros a b Hb. pose proof (Z.div_mod (2 * a + b) (2 * b) ltac:(lia)).
  pose proof (Z.mod_pos_bound (2 * a + b) (2 * b) ltac:(lia)).
  set (q := (2 * a + b) / (2 * b)) in *. lia.
Qed.

Definition toy_attestation : AttestationResult := mkAttestationResult "s1" [] [] [] [] 0.
Definition toy_proposal (sid : string) (wallet gross : Z) (created : DateTime) : MintProposal :=
  mkMintProposal sid wallet gross (Some 1531) Gold Polygon toy_attestation (mkSignature 1 2 false) created Pending.
Definition toy_row (sid : string) (wallet gross : Z) (created : DateTime) (status : ProposalStatus) (t : nat) : ProposalRow :=
  set_status status (db_now t) (proposal_row (toy_proposal sid wallet gross created) "s1" 0 t).

(** A proposal confirmed two days after its creation, and a pending one. *)
Definition toy_db : Db :=
  mkDb [] [toy_row "s1" 17 30 (800000 * NANOS_PER_SEC) Confirmed 0;
           toy_row "s2" 34 10 (999000 * NANOS_PER_SEC) Pending 1] 2.

Lemma toy_db_ok : db_ok toy_db.
Proof.
  split; [|repeat constructor; cbn; lia]. apply (bool_decide_unpack _). vm_compute. exact I.
Qed.

Lemma toy_db_fault : db_fault (db_tick toy_db) = None.
Proof. reflexivity. Qed.

Lemma proposal_life_witness :
  mint_proposals (update_proposal_status "s1" Rejected toy_db).2 !! 0%nat =
    Some (set_status Rejected (db_now 2) (toy_row "s1" 17 30 (800000 * NANOS_PER_SEC) Confirmed 0)).
Proof.
  destruct (proposal_life (toy_proposal "s1" 17 30 0) Rejected toy_db toy_db_ok) as (_ & _ & _ & _ & H & _); [cbn; lia|].
  exact (H 0%nat (toy_row "s1" 17 30 (800000 * NANOS_PER_SEC) Confirmed 0) eq_refl).
Defined.

Lemma minted_24h_witness : (total_minted_wei_24h toy_db).1 = Ok "0".
Proof.
  destruct (minted_24h toy_db toy_db_fault toy_db_ok) as (_ & _ & H). apply H.
  apply (bool_decide_unpack _). vm_compute. exact I.
Defined.

Lemma company_share_bounds_witness :
  ∃ share, (company_mining_share "0x17" toy_db).1 = Ok share ∧ es_share_bps share = 10000.
Proof.
  destruct (company_share_bounds toy_db "0x17" toy_db_fault toy_db_ok)
    as (company & total & bps & H & _). exists (mkEntityShare (show company) (show total) bps).
  split; [exact H|]. vm_compute in H. injection H as _ _ H. exact (eq_sym H).
Defined.

Lemma reports_complete_witness :
  ∃ l, (get_pending_proposals toy_db).1 = Ok (pending_row <$> l) ∧
    l ≡ₚ [toy_row "s2" 34 10 (999000 * NANOS_PER_SEC) Pending 1].
Proof.
  destruct (reports_complete toy_db "0x17" 50 toy_db_fault ltac:(lia)) as ((l & H1 & H2 & _) & _).
  exists l. split; [exact H1|]. rewrite H2. reflexivity.
Defined.
