(* ===== verification/Onchain.v ===== *)
(** * crates/onchain-client/src/lib.rs: chain access and proposal signing

    The JSON-RPC provider and the contracts behind it are parameters over a world
    [W]: every call yields a value or an error message and may change the world. *)
From S2P Require Import Prelude Common.

Inductive OnchainClientError :=
  | Transport (e : string)
  | InvalidUrl (url : string)
  | Onchain_Serialization (e : string)
  | Signing (e : string)
  | Contract (msg : string).
#[export] Instance OnchainClientError_display : Display OnchainClientError := λ e,
  match e with
  | Transport e => "transport error: " +:+ e
  | InvalidUrl url => "invalid rpc url: " +:+ url
  | Onchain_Serialization e => "serialization error: " +:+ e
  | Signing e => "signing error: " +:+ e
  | Contract msg => "contract error: " +:+ msg
  end.
#[export] Instance OnchainClientError_error : StdError OnchainClientError := λ e,
  match e with
  | Transport e | Onchain_Serialization e | Signing e => Some e
  | InvalidUrl _ | Contract _ => None
  end.
#[export] Instance OnchainClientError_telling : Telling OnchainClientError.
Proof. telling_tac. Qed.

(** [rpc_url.parse()], as every constructor of the crate does it. *)
Definition rpc_endpoint {Url P Key} `{!Providers Url P Key} (rpc_url : string) : OnchainClientError + Url :=
  match parse_url rpc_url with Some url => inr url | None => inl (InvalidUrl rpc_url) end.

(** ** The provider *)
Inductive ContractCall :=
  | SubmitPrice (commodity price : Z)
  | ProposeMint (proposal_id session_id : bytes) (recipient : Address) (amount : Z)
  | ApproveMint (proposal_id : bytes)
  | ExecuteMint (proposal_id : bytes)
  | CancelMint (proposal_id : bytes).

Record Receipt := mkReceipt { rc_status : bool; rc_transaction_hash : bytes }.
(** What the view functions return, their [uint256]s as integers. *)
Record RawStake := mkRawStake { rs_amount : Z; rs_lock_period : Z; rs_active : bool }.
Record RawProposal := mkRawProposal {
  rp_session_id : bytes; rp_recipient : Address; rp_amount : Z; rp_proposed_at : Z;
  rp_approvals : Z; rp_executed : bool; rp_cancelled : bool
}.

(** [P] is a provider: an endpoint, with a wallet where it writes. *)
Class Rpc (W P : Type) := {
  block_number : P → W → (string + Z) * W;
  block_hash : P → Z → W → (string + option bytes) * W;
  pending_nonce : P → Address → W → (string + Z) * W;
  (** [send()] and [get_receipt()], with the nonce if one is set *)
  transact : P → Address → ContractCall → option Z → W → (string + Receipt) * W;
  call_stakes : P → Address → Address → W → (string + RawStake) * W;
  call_edge : P → Address → W → (string + Z) * W;
  call_token : P → Address → bool → W → (string + Address) * W;
  call_balance : P → Address → Address → W → (string + Z) * W;
  call_reserve : P → Address → bool → W → (string + Z) * W;
  call_proposal : P → Address → bytes → W → (string + RawProposal) * W;
  (** [Instant::now()] *)
  instant : W → Z
}.

(** [serde_json::to_vec] of a proposal and the signer. *)
Class ProposalSigner (Key : Type) := {
  proposal_json : MintProposal → string + bytes;
  sign_bytes : Key → bytes → string + Signature;
  as_bytes : Signature → bytes;
  signature_try_from : bytes → option Signature;
  signature_roundtrip s : signature_try_from (as_bytes s) = Some s
}.

(** [str::contains]. *)
Fixpoint contains (s sub : string) : bool :=
  String.prefix sub s ||
  match s with EmptyString => false | String _ s' => contains s' sub end.

(** A value with the instant it was fetched. *)
Record Cached (A : Type) := mkCached { cached_value : A; cached_fetched_at : Z }.
Arguments mkCached {A} _ _.
Arguments cached_value {A} _.
Arguments cached_fetched_at {A} _.

Section client.
Context {W P : Type} `{!Rpc W P}.
Definition OCM (A : Type) : Type := M W OnchainClientError A.

(** A call of the provider as a step, its error mapped by [f]. *)
Definition rpc {A} (f : string → OnchainClientError) (c : W → (string + A) * W) : OCM A := λ w,
  let '(r, w') := c w in (match r with inl e => Err (f e) | inr a => Ok a end, w').

Record OnchainClient := mkOnchainClient { oc_provider : P; oc_chain_id : Z }.

Definition get_block_number (self : OnchainClient) : OCM Z := rpc Transport (block_number (oc_provider self)).
Definition get_block_hash (self : OnchainClient) (n : Z) : OCM (option bytes) :=
  rpc Transport (block_hash (oc_provider self) n).

Definition sign_proposal {Key} `{!ProposalSigner Key} (proposal : MintProposal) (signing_key : Key)
    : OnchainClientError + bytes :=
  match proposal_json proposal with
  | inl e => inl (Onchain_Serialization e)
  | inr json =>
      match sign_bytes signing_key json with
      | inl e => inl (Signing e)
      | inr signature => inr (as_bytes signature)
      end
  end.

(** ** OracleSubmitter *)
Definition MAX_NONCE_RETRIES : nat := 5.

Definition is_nonce_error (message : string) : bool :=
  let m := to_ascii_lowercase message in
  contains m "nonce" || contains m "already known" || contains m "replacement transaction underpriced".

Record OracleSubmitter := mkOracleSubmitter {
  os_provider : P;
  os_aggregator_address : Address;
  os_signer_address : Address
}.

(** The loop of [submit_price], with [retries] of [MAX_NONCE_RETRIES] left. *)
Fixpoint submit_loop (self : OracleSubmitter) (commodity price : Z) (retries : nat) : OCM bytes :=
  nonce ← rpc Contract (pending_nonce (os_provider self) (os_signer_address self));
  result ← attempt (rpc Contract (transact (os_provider self) (os_aggregator_address self)
                                    (SubmitPrice commodity price) (Some nonce)));
  match result with
  | inr receipt =>
      if negb (rc_status receipt) then fail (Contract "transaction reverted")
      else mret (rc_transaction_hash receipt)
  | inl (Contract message) =>
      match retries with
      | S retries =>
          if is_nonce_error message then submit_loop self commodity price retries
          else fail (Contract message)
      | O => fail (Contract message)
      end
  | inl e => fail e
  end.

Definition submit_price (self : OracleSubmitter) (commodity price : Z) : OCM bytes :=
  submit_loop self commodity price MAX_NONCE_RETRIES.

Definition commodity_to_u8 (commodity : Commodity) : Z :=
  match commodity with Gold => 0 | Platinum => 1 | Silver => 2 | CrudeOil => 3 end.

(** ** MiningWriter *)
Record OnchainProposal := mkOnchainProposal {
  op_session_id : bytes;
  op_recipient : Address;
  op_amount : Z;
  op_proposed_at : Z;
  op_approvals : Z;
  op_executed : bool;
  op_cancelled : bool
}.

Record MiningWriter := mkMiningWriter { mw_provider : P; mw_mining_address : Address }.

Definition transaction (self : MiningWriter) (c : ContractCall) : OCM bytes :=
  receipt ← rpc Contract (transact (mw_provider self) (mw_mining_address self) c None);
  if negb (rc_status receipt) then fail (Contract "transaction reverted")
  else mret (rc_transaction_hash receipt).

Definition propose_mint (self : MiningWriter) (proposal_id session_id : bytes) (recipient : Address)
    (amount : Z) : OCM bytes := transaction self (ProposeMint proposal_id session_id recipient amount).
Definition approve_mint (self : MiningWriter) (proposal_id : bytes) : OCM bytes :=
  transaction self (ApproveMint proposal_id).
Definition execute_mint (self : MiningWriter) (proposal_id : bytes) : OCM bytes :=
  transaction self (ExecuteMint proposal_id).
Definition cancel_mint (self : MiningWriter) (proposal_id : bytes) : OCM bytes :=
  transaction self (CancelMint proposal_id).

Definition get_proposal (self : MiningWriter) (proposal_id : bytes) : OCM OnchainProposal :=
  ret ← rpc Contract (call_proposal (mw_provider self) (mw_mining_address self) proposal_id);
  amount ← ok_or (try_from 0 U128_MAX (rp_amount ret)) (Contract "amount overflows u128");
  proposed_at ← ok_or (try_from 0 U64_MAX (rp_proposed_at ret)) (Contract "proposedAt overflows u64");
  mret {| op_session_id := rp_session_id ret; op_recipient := rp_recipient ret; op_amount := amount;
          op_proposed_at := proposed_at; op_approvals := rp_approvals ret;
          op_executed := rp_executed ret; op_cancelled := rp_cancelled ret |}.

(** ** StakingReader *)
Record StakeInfo := mkStakeInfo { si_amount : Z; si_lock_period : Z; si_active : bool }.
Record StakingReader := mkStakingReader { sr_provider : P; sr_staking_address : Address }.

Definition read_stake (self : StakingReader) (wallet : Address) : OCM StakeInfo :=
  ret ← rpc Contract (call_stakes (sr_provider self) (sr_staking_address self) wallet);
  amount ← ok_or (try_from 0 U128_MAX (rs_amount ret)) (Contract "stake amount overflows u128");
  mret {| si_amount := amount; si_lock_period := rs_lock_period ret; si_active := rs_active ret |}.

(** ** Readers with a cache: it is the reader's own state, beside the world *)
Record HouseEdgeReader := mkHouseEdgeReader {
  he_provider : P; he_house_edge_address : Address; he_ttl : Z
}.

Definition read_edge (self : HouseEdgeReader) : OCM Z :=
  edge_bps ← rpc Contract (call_edge (he_provider self) (he_house_edge_address self));
  ok_or (try_from 0 U128_MAX edge_bps) (Contract "edge bps overflows u128").

(** The body the two readers share: [fetched_at.elapsed() < ttl]. *)
Definition through_cache {A} (ttl : Z) (fetch : OCM A) : M (option (Cached A) * W) OnchainClientError A :=
  λ '(cache, w),
  match (match cache with
         | Some c => if Z.max 0 (instant w - cached_fetched_at c) <? ttl then Some (cached_value c) else None
         | None => None
         end) with
  | Some v => (Ok v, (cache, w))
  | None =>
      match fetch w with
      | (Ok v, w') => (Ok v, (Some (mkCached v (instant w')), w'))
      | (Err e, w') => (Err e, (cache, w'))
      | (Panic, w') => (Panic, (cache, w'))
      end
  end.

Definition current_edge_bps (self : HouseEdgeReader) : M (option (Cached Z) * W) OnchainClientError Z :=
  through_cache (he_ttl self) (read_edge self).

Record ReserveBalances := mkReserveBalances {
  rb_usdc : Z; rb_usdt : Z; rb_total_reserve_usd : Z; rb_total_redeemed_usd : Z
}.
Record TreasuryReader := mkTreasuryReader { ty_provider : P; ty_treasury_address : Address; ty_ttl : Z }.

Definition to_u128 (v : Z) (what : string) : OCM Z :=
  ok_or (try_from 0 U128_MAX v) (Contract (what +:+ " overflows u128")).

Definition read_balances (self : TreasuryReader) : OCM ReserveBalances :=
  let p := ty_provider self in
  let t := ty_treasury_address self in
  usdc_addr ← rpc Contract (call_token p t true);
  usdt_addr ← rpc Contract (call_token p t false);
  usdc_raw ← rpc Contract (call_balance p usdc_addr t);
  usdt_raw ← rpc Contract (call_balance p usdt_addr t);
  total_reserve_raw ← rpc Contract (call_reserve p t true);
  total_redeemed_raw ← rpc Contract (call_reserve p t false);
  usdc ← to_u128 usdc_raw "usdc balance";
  usdt ← to_u128 usdt_raw "usdt balance";
  total_reserve ← to_u128 total_reserve_raw "total reserve";
  total_redeemed ← to_u128 total_redeemed_raw "total redeemed";
  mret (mkReserveBalances usdc usdt total_reserve total_redeemed).

Definition reserve_balances (self : TreasuryReader)
    : M (option (Cached ReserveBalances) * W) OnchainClientError ReserveBalances :=
  through_cache (ty_ttl self) (read_balances self).
End client.

(** ** The constructors: a provider on the URL, with the key's wallet where it signs *)
Section constructors.
Context {Url P Key : Type} `{!Providers Url P Key}.

Definition with_url {A} (rpc_url : string) (k : Url → A) : OnchainClientError + A :=
  match rpc_endpoint rpc_url with inl e => inl e | inr url => inr (k url) end.

Definition onchain_client_new (rpc_url : string) (chain_id : Z) : OnchainClientError + OnchainClient (P:=P) :=
  with_url rpc_url (λ url, {| oc_provider := connect_http url; oc_chain_id := chain_id |}).
Definition oracle_submitter_new (rpc_url : string) (signing_key : Key) (aggregator_address : Address)
    : OnchainClientError + OracleSubmitter (P:=P) :=
  with_url rpc_url (λ url,
    {| os_provider := connect_wallet url signing_key; os_aggregator_address := aggregator_address;
       os_signer_address := key_address signing_key |}).
Definition mining_writer_new (rpc_url : string) (signing_key : Key) (mining_address : Address)
    : OnchainClientError + MiningWriter (P:=P) :=
  with_url rpc_url (λ url, {| mw_provider := connect_wallet url signing_key; mw_mining_address := mining_address |}).
Definition staking_reader_new (rpc_url : string) (staking_address : Address)
    : OnchainClientError + StakingReader (P:=P) :=
  with_url rpc_url (λ url, {| sr_provider := connect_http url; sr_staking_address := staking_address |}).
(** The readers start with an empty cache, which is a part of the world. *)
Definition house_edge_reader_new (rpc_url : string) (house_edge_address : Address) (ttl : Z)
    : OnchainClientError + HouseEdgeReader (P:=P) :=
  with_url rpc_url (λ url,
    {| he_provider := connect_http url; he_house_edge_address := house_edge_address; he_ttl := ttl |}).
Definition treasury_reader_new (rpc_url : string) (treasury_address : Address) (ttl : Z)
    : OnchainClientError + TreasuryReader (P:=P) :=
  with_url rpc_url (λ url,
    {| ty_provider := connect_http url; ty_treasury_address := treasury_address; ty_ttl := ttl |}).

Lemma with_url_inv {A} rpc_url (k : Url → A) r :
  with_url rpc_url k = r →
  (∃ url, parse_url rpc_url = Some url ∧ r = inr (k url)) ∨
  (parse_url rpc_url = None ∧ r = inl (InvalidUrl rpc_url)).
Proof. unfold with_url, rpc_endpoint. destruct (parse_url rpc_url) as [url|]; intros <-; [left; by exists url|by right]. Qed.
End constructors.

(** ** Observing a provider: every nonce read and transaction is logged *)
Inductive event :=
  | Fetched (r : string + Z)
  | Sent (c : ContractCall) (nonce : option Z) (r : string + Receipt).

Section logged.
Context {W P : Type} `{Base : !Rpc W P}.

Definition on_world {A} (c : W → A * W) : W * list event → A * (W * list event) :=
  λ '(w, l), let '(a, w') := c w in (a, (w', l)).
Definition on_event {A} (ev : A → event) (c : W → A * W) : W * list event → A * (W * list event) :=
  λ '(w, l), let '(a, w') := c w in (a, (w', l ++ [ev a])).

#[export] Instance logged : Rpc (W * list event) P := {|
  block_number p := on_world (block_number p);
  block_hash p n := on_world (block_hash p n);
  pending_nonce p a := on_event Fetched (pending_nonce p a);
  transact p a c n := on_event (Sent c n) (transact p a c n);
  call_stakes p a u := on_world (call_stakes p a u);
  call_edge p a := on_world (call_edge p a);
  call_token p a t := on_world (call_token p a t);
  call_balance p a u := on_world (call_balance p a u);
  call_reserve p a t := on_world (call_reserve p a t);
  call_proposal p a i := on_world (call_proposal p a i);
  instant '(w, _) := instant w
|}.

(** How a submission with [retries] left ends. *)
Inductive ending (c p : Z) (retries : nat) : list event → outcome OnchainClientError bytes → Prop :=
  | end_fetch m : ending c p retries [Fetched (inl m)] (Err (Contract m))
  | end_ok n h :
      ending c p retries [Fetched (inr n); Sent (SubmitPrice c p) (Some n) (inr (mkReceipt true h))] (Ok h)
  | end_revert n h :
      ending c p retries [Fetched (inr n); Sent (SubmitPrice c p) (Some n) (inr (mkReceipt false h))]
        (Err (Contract "transaction reverted"))
  | end_error n m :
      is_nonce_error m = false ∨ retries = 0%nat →
      ending c p retries [Fetched (inr n); Sent (SubmitPrice c p) (Some n) (inl m)] (Err (Contract m)).

(** The two events of an attempt refused for its nonce. *)
Definition conflict (c p : Z) (a : Z * string) : list event :=
  [Fetched (inr a.1); Sent (SubmitPrice c p) (Some a.1) (inl a.2)].

Lemma submit_loop_log (self : OracleSubmitter (P:=P)) c p : ∀ retries w l r w' l',
  submit_loop (Rpc0 := logged) self c p retries (w, l) = (r, (w', l')) →
  ∃ conflicts tail,
    (length conflicts ≤ retries)%nat ∧
    Forall (λ a, is_nonce_error a.2 = true) conflicts ∧
    l' = l ++ concat (conflict c p <$> conflicts) ++ tail ∧
    ending c p (retries - length conflicts) tail r.
Proof.
  intros retries. induction retries as [|k IH]; intros w l r w' l'; cbn [submit_loop];
    unfold mbind, M_bind, attempt, rpc; cbn [pending_nonce transact logged on_event].
  all: destruct (pending_nonce _ _ w) as [[m|n] w1]; cbn;
    [intros [= <- <- <-]; exists [], [Fetched (inl m)]; cbn;
     split_and!; [lia|constructor|done|apply end_fetch]|].
  all: destruct (transact _ _ _ _ w1) as [[m|rc] w2]; cbn.
  2,4: destruct rc as [st h]; intros Hx;
    exists [], [Fetched (inr n); Sent (SubmitPrice c p) (Some n) (inr (mkReceipt st h))];
    destruct st; injection Hx as <- <- <-; cbn; rewrite <-app_assoc;
    (split_and!; [lia|constructor|reflexivity|constructor]).
  - intros [= <- <- <-]. exists [], [Fetched (inr n); Sent (SubmitPrice c p) (Some n) (inl m)]. cbn.
    rewrite <-app_assoc. split_and!; [lia|constructor|done|]. constructor. by right.
  - destruct (is_nonce_error m) eqn:Em.
    + intros H. apply IH in H as (cs & tail & Hlen & Hcs & -> & Hend).
      exists ((n, m) :: cs), tail. cbn. rewrite <-!app_assoc. split_and!; [lia|by constructor|done|done].
    + intros [= <- <- <-]. exists [], [Fetched (inr n); Sent (SubmitPrice c p) (Some n) (inl m)]. cbn.
      rewrite <-app_assoc. split_and!; [lia|constructor|done|]. constructor. by left.
Qed.

(** ** Properties *)

(** C36. Submitting a price ends after at most six transactions. Every
    transaction carries the pending nonce read immediately before it; all but the
    last were refused for their nonce; the last one decides: success is a receipt
    with a good status, a revert, any other error, a failed nonce read or the
    sixth conflict is returned as it is. Nothing is ever sent after a success. *)
Theorem submit_price_attempts (self : OracleSubmitter (P:=P)) c p w r w' l' :
  submit_price (Rpc0 := logged) self c p (w, []) = (r, (w', l')) →
  ∃ conflicts tail,
    (length conflicts ≤ 5)%nat ∧
    Forall (λ a, is_nonce_error a.2 = true) conflicts ∧
    l' = concat (conflict c p <$> conflicts) ++ tail ∧
    ending c p (MAX_NONCE_RETRIES - length conflicts) tail r.
Proof. intros H. by apply submit_loop_log in H as (cs & tail & ? & ? & -> & ?); exists cs, tail. Qed.

Lemma read_edge_ok (self : HouseEdgeReader (P:=P)) w v w' :
  read_edge self w = (Ok v, w') ↔
    call_edge (he_provider self) (he_house_edge_address self) w = (inr v, w') ∧ 0 ≤ v ≤ U128_MAX.
Proof.
  unfold read_edge, rpc, mbind, M_bind. destruct (call_edge _ _ w) as [[e|z] w1]; [naive_solver|].
  rewrite ok_or_ok, try_from_Some. naive_solver.
Qed.

(** The live house edge is at most a TTL old: a cached edge younger than the
    TTL is returned without touching the chain, otherwise the contract is read
    and the answer cached with its time; a failed read reports the error, keeps
    the old entry and never serves a stale edge. *)
Theorem edge_cache (self : HouseEdgeReader (P:=P)) cache w :
  let fresh := match cache with
               | Some c => Z.max 0 (instant w - cached_fetched_at c) <? he_ttl self
               | None => false
               end in
  if fresh then
    ∃ c, cache = Some c ∧ current_edge_bps self (cache, w) = (Ok (cached_value c), (cache, w))
  else
    match call_edge (he_provider self) (he_house_edge_address self) w with
    | (inr v, w') =>
        if fits 0 U128_MAX v then
          current_edge_bps self (cache, w) = (Ok v, (Some (mkCached v (instant w')), w'))
        else current_edge_bps self (cache, w) = (Err (Contract "edge bps overflows u128"), (cache, w'))
    | (inl e, w') => current_edge_bps self (cache, w) = (Err (Contract e), (cache, w'))
    end.
Proof.
  intros fresh. unfold current_edge_bps, through_cache.
  assert (∀ o : option Z, match o with Some v => (Ok v, (cache, w)) | None =>
      match read_edge self w with
      | (Ok v, w') => (Ok v, (Some (mkCached v (instant w')), w'))
      | (Err e, w') => (Err e, (cache, w'))
      | (Panic, w') => (Panic, (cache, w'))
      end end = match o with Some v => (Ok v, (cache, w)) | None =>
      match call_edge (he_provider self) (he_house_edge_address self) w with
      | (inr v, w') => if fits 0 U128_MAX v then (Ok v, (Some (mkCached v (instant w')), w'))
                       else (Err (Contract "edge bps overflows u128"), (cache, w'))
      | (inl e, w') => (Err (Contract e), (cache, w'))
      end end) as Heq.
  { intros [v|]; [done|]. unfold read_edge, rpc, mbind, M_bind.
    destruct (call_edge _ _ w) as [[e|v] w1]; [done|]. unfold ok_or, try_from. by destruct (fits 0 U128_MAX v). }
  rewrite Heq. clear Heq. unfold fresh. destruct cache as [c|]; [destruct (_ <? _); [by exists c|]|].
  all: destruct (call_edge _ _ w) as [[e|v] w1]; [done|]; by destruct (fits 0 U128_MAX v).
Qed.
End logged.

(** ** A scripted provider and the witness *)
#[export] Instance toy_rpc : Rpc (list (string + Receipt)) unit := {|
  block_number _ w := (inr 100, w);
  block_hash _ n w := (inr (Some (replicate 32 (n mod 256))), w);
  pending_nonce _ _ w := (inr (Z.of_nat (length w)), w);
  transact _ _ _ _ w := match w with [] => (inl "no more", []) | r :: w => (r, w) end;
  call_stakes _ _ _ w := (inr (mkRawStake 0 0 false), w);
  call_edge _ _ w := (inr 1700, w);
  call_token _ _ _ w := (inr 1, w);
  call_balance _ _ _ w := (inr 0, w);
  call_reserve _ _ _ w := (inr 0, w);
  call_proposal _ _ _ w := (inl "none", w);
  instant _ := 0
|}.

(** One conflict, then success. *)
Lemma submit_price_attempts_witness :
  ∃ w' l', submit_price (Rpc0 := logged) (mkOracleSubmitter tt 1 2) 0 320450000000
      ([inl "nonce too low"; inr (mkReceipt true [9])], []) = (Ok [9], (w', l')) ∧
    length l' = 4%nat.
Proof.
  destruct (submit_price (Rpc0 := logged) (mkOracleSubmitter tt 1 2) 0 320450000000
      ([inl "nonce too low"; inr (mkReceipt true [9])], [])) as [r [w' l']] eqn:E.
  destruct (submit_price_attempts _ _ _ _ _ _ _ E) as (cs & tail & Hlen & _ & Hl & Hend).
  vm_compute in E. injection E as <- <- <-. do 2 eexists. split; reflexivity.
Defined.
