(* ===== verification/Service.v ===== *)
(** * crates/verification-service/src/lib.rs: the session lifecycle handlers

    The shared state of the handlers as one world, the conversions of the other
    components' errors, and the handlers that create, feed, pause, resume and end
    a session. *)
From S2P Require Import Prelude Common Payout MintCeiling Twap Anomaly Validator Redis RateLimiter.
From S2P Require Import SessionStore RandomX NodeCoordinator Oracle Postgres Onchain Metrics.

Definition SEED_BLOCK_OFFSET : Z := 3.
Definition NET_USDC_SCALE_TO_CENTS : Z := 10000.
Definition PRM_WEI : Z := 1000000000000000000.

(** [ApiError] and its HTTP status. *)
Inductive ApiError :=
  | BadRequest (msg : string)
  | NotFound
  | Forbidden (msg : string)
  | Conflict (msg : string)
  | RateLimited
  | ApiInternal.
Definition into_response (e : ApiError) : Z * string :=
  match e with
  | BadRequest msg => (400, msg)
  | NotFound => (404, "session not found")
  | Forbidden msg => (403, msg)
  | Conflict msg => (409, msg)
  | RateLimited => (429, "rate limit exceeded")
  | ApiInternal => (500, "internal error")
  end.

(** Texts parsed by dependencies: [Address::from_str], [hex::decode], and the
    [Debug] text of a string. *)
Class ServiceCodec := {
  parse_address : string → option Address;
  hex_decode : string → option bytes;
  string_debug : string → string
}.

(** What the handlers share and change. *)
Record App (R X : Type) := mkApp {
  app_redis : renv R;
  app_db : Db;
  app_net : X;
  app_twap : gmap string TwapCalculator;
  app_edge : option (Cached Z);
  app_events : list AnomalyEvent;
  app_metrics : Metrics;
  (** the cache of each Treasury reader *)
  app_reserves : gmap nat (Cached ReserveBalances);
  (** the outstanding admin login nonces, with their instants *)
  app_nonces : gmap string Z
}.
Arguments mkApp {R X} _ _ _ _ _ _ _ _ _.
Arguments app_redis {R X} _.
Arguments app_db {R X} _.
Arguments app_net {R X} _.
Arguments app_twap {R X} _.
Arguments app_edge {R X} _.
Arguments app_events {R X} _.
Arguments app_metrics {R X} _.
Arguments app_reserves {R X} _.
Arguments app_nonces {R X} _.

(** ** Requests *)
Record CreateSessionRequest := mkCreateSessionRequest {
  cr_wallet : string;
  cr_client_type : string;
  cr_commit_hash : string;
  cr_assigned_node_id : option string;
  cr_commodity : string;
  cr_chain : string;
  cr_cpu_threads : Z
}.
Record CreateSessionResponse := mkCreateSessionResponse {
  csr_session_id : string;
  csr_assigned_site : option NodeSite
}.
Record SubmitProofRequest := mkSubmitProofRequest {
  sp_sequence : Z;
  sp_hashrate : Z;
  sp_proof_hash : string;
  sp_proof_input : string;
  sp_difficulty : Z
}.
Record SubmitProofResponse := mkSubmitProofResponse {
  spr_accepted : bool;
  spr_suspicion_level : string
}.

(** ** Parsing *)
Definition parse_client_type (raw : string) : option ClientType :=
  let s := to_ascii_lowercase raw in
  if String.eqb s "browser" then Some Browser
  else if String.eqb s "desktop" then Some Desktop
  else if String.eqb s "cli" then Some Cli
  else None.

Definition parse_commodity (raw : string) : Commodity :=
  let s := to_ascii_lowercase raw in
  if String.eqb s "silver" then Silver
  else if String.eqb s "platinum" then Platinum
  else if String.eqb s "oil" || String.eqb s "crudeoil" || String.eqb s "crude_oil" then CrudeOil
  else Gold.

Definition result_label (r : ValidationResult) : string :=
  match r with Valid => "Valid" | Invalid _ => "Invalid" | Suspicious _ => "Suspicious" end.

Section service.
Context {R X P C Key : Type} `{!RedisServer R, Codec : !SessionCodec, !PgServer, !OracleNet X, !Rpc X P,
  !NodeClient X C, !Timer X, !AttestationCrypto, !ProposalSigner Key, !ServiceCodec}.
Context (b : build) (clk : nat → DateTime) (fuel : nat).
(** The anomaly channel's [try_send]. *)
Context (try_send : AnomalyEvent → list AnomalyEvent → bool * list AnomalyEvent).

(** The part of [AppState] that does not change. *)
Record AppState := mkAppState {
  st_mint_ceiling : MintCeilingCalculator;
  st_onchain_client : OnchainClient (P:=P);
  st_node_coordinator : NodeCoordinator (C:=C);
  st_signing_key : Key;
  st_oracle_reader : OracleReader;
  st_oracle_submitters : list (Chain * OracleSubmitter (P:=P));
  st_staking_readers : list (Chain * StakingReader (P:=P));
  st_treasury_readers : list (Chain * TreasuryReader (P:=P));
  st_house_edge_reader : option (HouseEdgeReader (P:=P));
  st_node_sites : gmap string NodeSite;
  st_admin_wallets : gset Address;
  st_admin_session_secret : option bytes;
  st_admin_domain : string;
  st_admin_session_ttl : Z;
  st_company_wallet : option Address;
  st_mint_ceiling_active_users : Z;
  st_mint_ceiling_avg_daily_prm_per_user : Z
}.

Definition HM (A : Type) : Type := M (App R X) ApiError A.

(** *** Calls on the parts of the world *)
Definition set_redis (v : renv R) (w : App R X) : App R X :=
  mkApp v (app_db w) (app_net w) (app_twap w) (app_edge w) (app_events w) (app_metrics w)
    (app_reserves w) (app_nonces w).
Definition set_db (v : Db) (w : App R X) : App R X :=
  mkApp (app_redis w) v (app_net w) (app_twap w) (app_edge w) (app_events w) (app_metrics w)
    (app_reserves w) (app_nonces w).
Definition set_net (v : X) (w : App R X) : App R X :=
  mkApp (app_redis w) (app_db w) v (app_twap w) (app_edge w) (app_events w) (app_metrics w)
    (app_reserves w) (app_nonces w).
Definition set_twap (v : gmap string TwapCalculator) (w : App R X) : App R X :=
  mkApp (app_redis w) (app_db w) (app_net w) v (app_edge w) (app_events w) (app_metrics w)
    (app_reserves w) (app_nonces w).
Definition set_edge (v : option (Cached Z) * X) (w : App R X) : App R X :=
  mkApp (app_redis w) (app_db w) v.2 (app_twap w) v.1 (app_events w) (app_metrics w)
    (app_reserves w) (app_nonces w).
Definition set_events (v : list AnomalyEvent) (w : App R X) : App R X :=
  mkApp (app_redis w) (app_db w) (app_net w) (app_twap w) (app_edge w) v (app_metrics w)
    (app_reserves w) (app_nonces w).
Definition set_metrics (v : Metrics) (w : App R X) : App R X :=
  mkApp (app_redis w) (app_db w) (app_net w) (app_twap w) (app_edge w) (app_events w) v
    (app_reserves w) (app_nonces w).

Definition set_reserves (v : gmap nat (Cached ReserveBalances) * X) (w : App R X) : App R X :=
  mkApp (app_redis w) (app_db w) v.2 (app_twap w) (app_edge w) (app_events w) (app_metrics w)
    v.1 (app_nonces w).
Definition set_nonces (v : gmap string Z) (w : App R X) : App R X :=
  mkApp (app_redis w) (app_db w) (app_net w) (app_twap w) (app_edge w) (app_events w) (app_metrics w)
    (app_reserves w) v.

Definition on_redis {E A} (m : M (renv R) E A) : M (App R X) E A := zoom app_redis set_redis m.
Definition on_db {E A} (m : M Db E A) : M (App R X) E A := zoom app_db set_db m.
Definition on_net {E A} (m : M X E A) : M (App R X) E A := zoom app_net set_net m.
Definition on_events {A} (f : list AnomalyEvent → A * list AnomalyEvent) : HM A :=
  λ w, (Ok (f (app_events w)).1, set_events (f (app_events w)).2 w).
(** The [From] conversions of the component errors: all are internal errors. *)
Definition internal {E A} (m : M (App R X) E A) : HM A := map_err (λ _, ApiInternal) m.
Definition now_utc : HM DateTime := on_redis (utc_now clk).
Definition metric (f : Metrics → Metrics) : HM unit := modify (λ w, set_metrics (f (app_metrics w)) w).
Definition gauge (d : Z) : HM unit :=
  metric (λ m, mkMetrics (m_session_active m + d) (m_proofs m) (m_anomalies m) (m_proposals m)).
(** A loop of the store that has not ended within the fuel: no result. *)
Definition ended {A} (o : option A) : HM A := lift_arith o.

Definition parse_hash (raw field : string) : HM bytes :=
  bytes ← ok_or (hex_decode raw) (BadRequest field);
  if decide (length bytes = 32%nat) then mret bytes else fail (BadRequest field).

Definition parse_wallet (raw : string) : HM Address :=
  ok_or (parse_address raw) (BadRequest "invalid wallet address").

Definition enforce (r : RateLimitResult) : HM unit :=
  match r with Allowed => mret tt | Denied _ _ => fail RateLimited end.

(** *** [POST /sessions] *)
Definition create_session (state : AppState) (peer_ip : string) (body : CreateSessionRequest)
    : HM (Z * CreateSessionResponse) :=
  wallet ← parse_wallet (cr_wallet body);
  client_type ← ok_or (parse_client_type (cr_client_type body)) (BadRequest "unknown client_type");
  commit_hash ← parse_hash (cr_commit_hash body) "invalid commit_hash";
  let commodity := parse_commodity (cr_commodity body) in
  target_chain ← ok_or (from_str_id (cr_chain body))
    (BadRequest "invalid or missing chain (expected ethereum or polygon)");
  let assigned_site := id ← cr_assigned_node_id body; st_node_sites state !! id in
  r ← internal (on_redis (check_wallet clk address_display wallet));
  enforce r ;;
  r ← internal (on_redis (check_ip clk peer_ip));
  enforce r ;;
  count ← internal (on_redis (get_active_session_count b clk fuel wallet));
  active_sessions_count ← ended count;
  started_at ← now_utc;
  let ctx := {| ctx_wallet := wallet; ctx_ip := Some peer_ip; ctx_client_type := client_type;
                ctx_active_sessions_count := active_sessions_count; ctx_started_at := started_at;
                ctx_last_submission_at := None; ctx_assigned_node_id := cr_assigned_node_id body;
                ctx_commodity := commodity; ctx_target_chain := target_chain;
                ctx_cpu_threads := cr_cpu_threads body; ctx_assigned_site := assigned_site |} in
  session_id ← internal (on_redis (SessionStore.create_session clk ctx));
  internal (on_redis (set_commit clk session_id commit_hash)) ;;
  now ← now_utc;
  modify (λ w, set_twap (<[session_id := twap_new now]> (app_twap w)) w) ;;
  gauge 1 ;;
  mret (201, {| csr_session_id := session_id; csr_assigned_site := assigned_site |}).

(** *** [POST /sessions/{id}/proofs] *)

(** [format!("{reason:?}")]. *)
Definition reason_debug (r : InvalidReason) : string :=
  match r with
  | MalformedProof => "MalformedProof" | HashMismatch => "HashMismatch"
  | TimingAnomaly => "TimingAnomaly" | HashrateImpossible => "HashrateImpossible"
  | DuplicateSession => "DuplicateSession" | ProofDeficit => "ProofDeficit"
  | StaleProof => "StaleProof" | InvalidSignature => "InvalidSignature"
  | Other msg => "Other(" +:+ string_debug msg +:+ ")"
  end.

(** [if let Err(e) = ... { warn }]: a failure is logged and ignored. *)
Definition ignore {A} (m : M (renv R) SessionManagerError A) : HM unit :=
  _ ← (attempt (on_redis m) : HM (SessionManagerError + A)); mret tt.

Definition is_invalid (r : ValidationResult) : bool := match r with Invalid _ => true | _ => false end.

(** The counters and the activity a validated proof updates. *)
Definition count_proof (session_id : SessionId) (difficulty : Z) (result : ValidationResult) : HM unit :=
  ignore (increment_proof_count clk session_id) ;;
  if is_invalid result then ignore (increment_rejected_proof_count clk session_id)
  else
    now ← now_utc;
    ignore (record_accepted_proof clk session_id difficulty (timestamp now)) ;;
    ignore (touch_last_activity clk session_id) ;;
    ignore (increment_verified_proof_count clk session_id).

(** The assessment, and the persistence of an event above [Low]. *)
Definition assess (session_id : SessionId) (wallet : Address) (result : ValidationResult) : HM SuspicionLevel :=
  let triggers := match result with Invalid reason => [reason] | _ => [] end in
  now ← now_utc;
  assessment ← on_events (process try_send now session_id wallet [result]);
  let level := as_level assessment in
  (if decide (level ≠ Low) then
     now ← now_utc;
     let event := {| ae_session_id := session_id; ae_wallet := wallet; ae_score := as_score_bps assessment;
                     ae_triggers := triggers; ae_level := level; ae_timestamp := now |} in
     _ ← (attempt (on_db (insert_anomaly_event event)) : HM (PostgresStoreError + unit));
     let trigger_label := from_option reason_debug "none" (head triggers) in
     metric (λ m, mkMetrics (m_session_active m) (m_proofs m)
               (m_anomalies m ++ [(level_debug level, trigger_label)]) (m_proposals m))
   else mret tt) ;;
  mret level.

(** The sample of the session's calculator, if it has one; a failed read is logged. *)
Definition sample_session (state : AppState) (session_id : SessionId) (commodity : Commodity) : HM unit :=
  map ← gets app_twap;
  match map !! session_id with
  | None => mret tt
  | Some calculator =>
      r ← (attempt (on_net (sample_into_twap b (st_oracle_reader state) commodity calculator))
             : HM (OracleReaderError + TwapCalculator));
      match r with
      | inr calculator' => modify (λ w, set_twap (<[session_id := calculator']> (app_twap w)) w)
      | inl _ => mret tt
      end
  end.

Definition submit_proof (state : AppState) (session_id : SessionId) (body : SubmitProofRequest)
    : HM SubmitProofResponse :=
  session ← internal (on_redis (get_session clk session_id));
  ctx ← ok_or session NotFound;
  paused ← internal (on_redis (is_paused clk session_id));
  (if (paused : bool) then fail (Conflict "session paused") else mret tt : HM unit) ;;
  proof_hash ← parse_hash (sp_proof_hash body) "invalid proof_hash";
  proof_input ← (if String.eqb (sp_proof_input body) "" then mret []
                 else ok_or (hex_decode (sp_proof_input body)) (BadRequest "invalid proof_input"));
  submitted_at ← now_utc;
  let proof := {| pp_session_id := session_id; pp_wallet := ctx_wallet ctx; pp_sequence := sp_sequence body;
                  pp_hashrate := sp_hashrate body; pp_proof_hash := proof_hash;
                  pp_proof_input := proof_input; pp_difficulty := sp_difficulty body;
                  pp_submitted_at := submitted_at; pp_signature := None |} in
  let result := validate mkPreFilterValidator proof PreFilter ctx in
  count_proof session_id (sp_difficulty body) result ;;
  internal (on_redis (store_proof clk session_id proof)) ;;
  metric (λ m, mkMetrics (m_session_active m)
            (m_proofs m ++ [(client_type_debug (ctx_client_type ctx), result_label result)])
            (m_anomalies m) (m_proposals m)) ;;
  level ← assess session_id (ctx_wallet ctx) result;
  sample_session state session_id (ctx_commodity ctx) ;;
  mret {| spr_accepted := negb (is_invalid result); spr_suspicion_level := level_debug level |}.

(** *** Staking and the live edge *)
Record ChainStake := mkChainStake {
  cs_chain : Chain;
  cs_amount : string;
  cs_lock_period : Z;
  cs_active : bool
}.
Record StakingSummary := mkStakingSummary {
  su_chains : list ChainStake;
  su_total_staked : string;
  su_effective_boost_bps : Z
}.

(** The result of a chain's read: absent when the chain is not configured. *)
Definition StakeRead : Type := option (OnchainClientError + StakeInfo).

(** [resolve_chain_stake]: the entries to push, and the active stake. *)
Definition resolve_chain_stake (chain : Chain) (result : StakeRead) : list ChainStake * option (Z * Z) :=
  match result with
  | None => ([], None)
  | Some (inr stake) =>
      ([ {| cs_chain := chain; cs_amount := show (si_amount stake);
            cs_lock_period := si_lock_period stake; cs_active := si_active stake |} ],
       if si_active stake then Some (si_amount stake, si_lock_period stake) else None)
  | Some (inl _) =>
      ([ {| cs_chain := chain; cs_amount := "0"; cs_lock_period := 0; cs_active := false |} ], None)
  end.

Definition build_summary (ethereum_result polygon_result : StakeRead) : option StakingSummary :=
  let '(eth_entries, ethereum_stake) := resolve_chain_stake Ethereum ethereum_result in
  let '(pol_entries, polygon_stake) := resolve_chain_stake Polygon polygon_result in
  let polygon_amount := fst <$> polygon_stake in
  effective_boost_bps ← combined_boost_bps b ethereum_stake polygon_amount;
  let total := sat_u U128_MAX (from_option fst 0 ethereum_stake + default 0 polygon_amount) in
  Some {| su_chains := eth_entries ++ pol_entries; su_total_staked := show total;
          su_effective_boost_bps := effective_boost_bps |}.

Definition find_chain {A} (c : Chain) (l : list (Chain * A)) : option A :=
  snd <$> List.find (λ p, bool_decide (p.1 = c)) l.

Definition read_chain (state : AppState) (c : Chain) (wallet : Address) : HM StakeRead :=
  match find_chain c (st_staking_readers state) with
  | Some reader => r ← attempt (on_net (read_stake reader wallet)); mret (Some r)
  | None => mret None
  end.

(** [staking_summary]: the two reads of [tokio::join!], Ethereum's first. *)
Definition staking_summary (state : AppState) (wallet : Address) : HM StakingSummary :=
  ethereum_result ← read_chain state Ethereum wallet;
  polygon_result ← read_chain state Polygon wallet;
  lift_arith (build_summary ethereum_result polygon_result).

Definition payout_config_with_live_edge (state : AppState) : HM PayoutConfig :=
  let config := default_config in
  match st_house_edge_reader state with
  | None => mret config
  | Some reader =>
      r ← (attempt (zoom (λ w, (app_edge w, app_net w)) set_edge (current_edge_bps reader))
             : HM (OnchainClientError + Z));
      match r with
      | inr edge_bps =>
          mret {| base_coefficient_scaled := base_coefficient_scaled config;
                  price_coefficient_scaled := price_coefficient_scaled config;
                  house_edge_bps := edge_bps |}
      | inl _ => mret config
      end
  end.

(** *** [POST /sessions/{id}/end] *)
Definition with_status (code : Z) (status : string) : HM (Z * string) := mret (code, status).

Fixpoint submit_all (l : list (Chain * OracleSubmitter (P:=P))) (commodity price : Z) : HM unit :=
  match l with
  | [] => mret tt
  | (_, submitter) :: l =>
      _ ← (attempt (on_net (submit_price submitter commodity price)) : HM (OnchainClientError + bytes));
      submit_all l commodity price
  end.

(** The seed: the hash of the block three behind the head, zero if it is absent. *)
Definition session_seed (state : AppState) : HM bytes :=
  n ← internal (on_net (get_block_number (st_onchain_client state)));
  hash ← internal (on_net (get_block_hash (st_onchain_client state) (sat_u U64_MAX (n - SEED_BLOCK_OFFSET))));
  mret (default (replicate 32 0) hash).

(** The economics of an attested session: the amount to mint and the net cents. *)
Definition compute_payout (state : AppState) (session_id : SessionId) (ctx : SessionContext)
    (twap : TwapResult) : HM (Z * option Z) :=
  let duration_secs := Z.max (num_seconds (tr_session_end twap - tr_session_start twap)) 0 in
  payout_config ← payout_config_with_live_edge state;
  rate ← (attempt (on_redis (get_session_hashrate b clk session_id (ctx_client_type ctx)))
            : HM (SessionManagerError + Z));
  let avg_hashrate := match rate with inr r => r | inl _ => 0 end in
  base_gross ← lift_arith (calculate_gross_prm b avg_hashrate duration_secs payout_config (ctx_commodity ctx));
  summary ← staking_summary state (ctx_wallet ctx);
  boosted_gross ← lift_arith (apply_staking_boost b base_gross (su_effective_boost_bps summary));
  payout_result ← lift_arith (calculate_payout_from_gross b boosted_gross (tr_twap twap) (ctx_commodity ctx)
                                payout_config);
  mret (gross_calib_to_wei boosted_gross,
        try_from I64_MIN I64_MAX (pr_net_usdc_scaled payout_result / NET_USDC_SCALE_TO_CENTS)).

Definition daily_ceiling_wei (state : AppState) : Z :=
  sat_u U128_MAX (daily_ceiling (st_mint_ceiling state) (st_mint_ceiling_active_users state)
                    (st_mint_ceiling_avg_daily_prm_per_user state) * PRM_WEI).

(** The proposal of an attested session: signed with a zero signature in place. *)
Definition settle (state : AppState) (session_id : SessionId) (ctx : SessionContext) (mint_amount_wei : Z)
    (net_usd_cents : option Z) (attestation : AttestationResult) : HM (Z * string) :=
  created_at ← now_utc;
  let unsigned := {| mp_session_id := session_id; mp_wallet := ctx_wallet ctx; mp_gross_prm := mint_amount_wei;
                     mp_net_usd_cents := net_usd_cents; mp_commodity := ctx_commodity ctx;
                     mp_chain := ctx_target_chain ctx; mp_attestation := attestation;
                     mp_backend_sig := mkSignature 0 0 false; mp_created_at := created_at;
                     mp_status := Pending |} in
  bytes ← (match sign_proposal unsigned (st_signing_key state) with
           | inl _ => fail ApiInternal
           | inr bytes => mret bytes
           end : HM bytes);
  sig ← ok_or (signature_try_from bytes) ApiInternal;
  let proposal := {| mp_session_id := mp_session_id unsigned; mp_wallet := mp_wallet unsigned;
                     mp_gross_prm := mp_gross_prm unsigned; mp_net_usd_cents := mp_net_usd_cents unsigned;
                     mp_commodity := mp_commodity unsigned; mp_chain := mp_chain unsigned;
                     mp_attestation := mp_attestation unsigned; mp_backend_sig := sig;
                     mp_created_at := mp_created_at unsigned; mp_status := mp_status unsigned |} in
  _ ← (attempt (on_db (insert_mint_proposal proposal)) : HM (PostgresStoreError + unit));
  metric (λ m, mkMetrics (m_session_active m) (m_proofs m) (m_anomalies m) (m_proposals m ++ ["Pending"])) ;;
  gauge (-1) ;;
  internal (on_redis (delete_session clk (ctx_wallet ctx) session_id)) ;;
  with_status 200 "completed".

(** What follows an attestation: the payout, the ceiling, the proposal. *)
Definition mint (state : AppState) (session_id : SessionId) (ctx : SessionContext) (twap : TwapResult)
    (attestation : AttestationResult) : HM (Z * string) :=
  '(mint_amount_wei, net_usd_cents) ← compute_payout state session_id ctx twap;
  total ← (attempt (on_db total_minted_wei_24h) : HM (PostgresStoreError + string));
  match total with
  | inl _ => with_status 200 "mint_ceiling_unverified"
  | inr total =>
      let minted_24h_wei := default U128_MAX (parse_u U128_MAX total) in
      if daily_ceiling_wei state <? sat_u U128_MAX (minted_24h_wei + mint_amount_wei) then
        with_status 200 "mint_ceiling_exceeded"
      else settle state session_id ctx mint_amount_wei net_usd_cents attestation
  end.

(** [coordinate_attestation] on the network. *)
Definition attest (state : AppState) (session_id : SessionId) (proof_set : list PartialProof) (seed : bytes)
    (assigned : NodeId) : M X NodeCoordinatorError AttestationResult := λ x,
  let '(r, x') := coordinate_attestation (st_node_coordinator state) net_now session_id proof_set seed assigned x in
  (match r with inl e => Err e | inr a => Ok a end, x').

(** The calculator of the session leaves the map; its result, if it has samples. *)
Definition take_twap (session_id : SessionId) : HM (option TwapResult) :=
  map ← gets app_twap;
  modify (λ w, set_twap (delete session_id (app_twap w)) w) ;;
  match map !! session_id with
  | None => mret None
  | Some calc => now ← now_utc; lift_arith (finalize b calc now)
  end.

(** The end of a session whose nonce was revealed. *)
Definition finish (state : AppState) (session_id : SessionId) (ctx : SessionContext) (assigned : NodeId)
    : HM (Z * string) :=
  result ← take_twap session_id;
  match result with
  | None => with_status 400 "no_samples"
  | Some twap =>
      submit_all (st_oracle_submitters state) (commodity_to_u8 (ctx_commodity ctx)) (tr_twap twap) ;;
      proof_set ← internal (on_redis (get_proofs clk session_id));
      seed ← session_seed state;
      attestation ← (attempt (on_net (attest state session_id proof_set seed assigned))
                       : HM (NodeCoordinatorError + AttestationResult));
      match attestation with
      | inr attestation_result => mint state session_id ctx twap attestation_result
      | inl _ => with_status 500 "attestation_failed"
      end
  end.

Definition end_session (state : AppState) (session_id : SessionId) (nonce_hex : string) : HM (Z * string) :=
  session ← internal (on_redis (get_session clk session_id));
  ctx ← ok_or session NotFound;
  nonce ← ok_or (hex_decode nonce_hex) (BadRequest "invalid nonce");
  verified ← internal (on_redis (verify_reveal clk session_id nonce));
  if negb verified then with_status 400 "rejected"
  else
    match ctx_assigned_node_id ctx with
    | None => with_status 400 "no_assigned_node"
    | Some assigned_node_id => finish state session_id ctx assigned_node_id
    end.

(** *** [POST /sessions/{id}/pause] and [/resume] *)
Definition authorize_session_owner (session_id : SessionId) (wallet_raw : string) : HM unit :=
  session ← internal (on_redis (get_session clk session_id));
  ctx ← ok_or session NotFound;
  wallet ← parse_wallet wallet_raw;
  if decide (wallet ≠ ctx_wallet ctx) then fail (Forbidden "wallet does not own this session") else mret tt.

Definition pause_session (session_id : SessionId) (wallet : string) : HM bool :=
  authorize_session_owner session_id wallet ;;
  internal (on_redis (set_paused clk session_id)) ;;
  mret true.

Definition resume_session (session_id : SessionId) (wallet : string) : HM bool :=
  authorize_session_owner session_id wallet ;;
  internal (on_redis (clear_paused clk session_id)) ;;
  mret false.
End service.
Arguments AppState {P C Key} : assert.

(** ** Lemmas: what a handler leaves alone *)
Create HintDb leaves discriminated.

(** Proves [leaves get m] by the shape of [m]; the projections commute with the
    setters by computation. *)
Ltac leaves_tac :=
  repeat match goal with
  | |- leaves _ (mbind _ _) => apply leaves_bind; [|intros ?]
  | |- leaves _ (mret _) => apply leaves_ret
  | |- leaves _ (fail _) => apply leaves_fail
  | |- leaves _ (gets _) => apply leaves_gets
  | |- leaves _ (ok_or _ _) => apply leaves_ok_or
  | |- leaves _ (lift_arith _) => apply leaves_lift
  | |- leaves _ (ended _) => apply leaves_lift
  | |- leaves _ (parse_wallet _) => apply leaves_ok_or
  | |- leaves _ (map_err _ _) => apply leaves_map_err
  | |- leaves _ (internal _) => apply leaves_map_err
  | |- leaves _ (attempt (on_db _)) => solve [auto with leaves]
  | |- leaves _ (attempt _) => apply leaves_attempt
  | |- leaves _ (on_redis _) => apply leaves_zoom; by intros ? []
  | |- leaves _ (on_db _) => apply leaves_zoom; by intros ? []
  | |- leaves _ (on_net _) => apply leaves_zoom; by intros ? []
  | |- leaves _ (now_utc _) => apply leaves_zoom; by intros ? []
  | |- leaves _ (zoom _ _ _) => apply leaves_zoom; by intros ? []
  | |- leaves _ (modify _) => apply leaves_modify; by intros []
  | |- leaves _ (metric _) => apply leaves_modify; by intros []
  | |- leaves _ (gauge _) => apply leaves_modify; by intros []
  | |- leaves _ (with_status _ _) => apply leaves_ret
  | |- leaves _ (match ?x with _ => _ end) => destruct x
  | |- leaves _ _ => solve [auto with leaves]
  end.

(** Runs the first call of the goal's outermost sequence, which leaves [get] alone:
    either it ends the run ([Hs], [Hno]), or it returned [a] ([Hr]) in a world with the
    same [get] ([Hw]). *)
Ltac leaves_step get a Hs Hno Hr Hw :=
  lazymatch goal with
  | |- context [@mbind ?M ?I ?A ?B ?f ?m ?w] =>
      let t := constr:(@mbind M I A B f m w) in
      let w1 := fresh "w" in
      assert ((get t.2 = get w ∧ ∀ r, t.1 ≠ Ok r) ∨ ∃ a w1, m w = (Ok a, w1) ∧ get w1 = get w ∧ t = f a w1)
        as [[Hs Hno]|(a & w1 & Hr & Hw & ->)]; [apply (leaves_prefix get); solve [leaves_tac]| |]; cbv beta
  end.

(** Drops what follows the outermost sequence's first call: it leaves [get] alone. *)
Ltac leaves_drop get :=
  lazymatch goal with
  | |- context [@mbind ?M ?I ?A ?B ?f ?m ?w] =>
      let t := constr:(@mbind M I A B f m w) in
      replace (get t.2) with (get (m w).2) by (symmetry; apply (leaves_suffix get); intros ?; solve [leaves_tac])
  end.

Section lifecycle.
Context {R X P C Key : Type} `{!RedisServer R, Codec : !SessionCodec, !PgServer, !OracleNet X, !Rpc X P,
  !NodeClient X C, !Timer X, !AttestationCrypto, !ProposalSigner Key, !ServiceCodec}.
Context (b : build) (clk : nat → DateTime) (fuel : nat).
Context (try_send : AnomalyEvent → list AnomalyEvent → bool * list AnomalyEvent).
Abbreviation App := (App R X).
Abbreviation State := (AppState (P:=P) (C:=C) (Key:=Key)).

Lemma leaves_ignore {V} (get : App → V) {A} (m : M (renv R) SessionManagerError A) :
  (∀ v w, get (set_redis v w) = get w) → leaves get (ignore m).
Proof. intros Hs. unfold ignore. leaves_tac. Qed.

Lemma on_events_leaves {V} (get : App → V) {A} (f : list AnomalyEvent → A * list AnomalyEvent) :
  (∀ v w, get (set_events v w) = get w) → leaves get (on_events f).
Proof. intros Hs w. apply Hs. Qed.

Lemma submit_all_leaves {V} (get : App → V) (l : list (Chain * OracleSubmitter (P:=P))) c p :
  (∀ v w, get (set_net v w) = get w) → leaves get (submit_all l c p).
Proof.
  intros Hs. induction l as [|[ch s] l IH]; cbn; [leaves_tac|].
  apply leaves_bind; [|done]. apply leaves_attempt. by apply leaves_zoom.
Qed.

Lemma session_seed_leaves {V} (get : App → V) (state : State) :
  (∀ v w, get (set_net v w) = get w) → leaves get (session_seed state : HM bytes).
Proof. intros Hs. unfold session_seed. leaves_tac. Qed.

Lemma compute_payout_leaves {V} (get : App → V) (state : State) sid ctx t :
  (∀ v w, get (set_net v w) = get w) → (∀ v w, get (set_redis v w) = get w) →
  (∀ v w, get (set_edge v w) = get w) → leaves get (compute_payout b clk state sid ctx t).
Proof.
  intros Hn Hr He. unfold compute_payout, payout_config_with_live_edge, staking_summary, read_chain. leaves_tac.
Qed.

Lemma take_twap_leaves {V} (get : App → V) sid :
  (∀ v w, get (set_twap v w) = get w) → (∀ v w, get (set_redis v w) = get w) →
  leaves get (take_twap b clk sid).
Proof. intros Ht Hr. unfold take_twap. leaves_tac. Qed.
#[local] Hint Extern 2 (leaves _ (session_seed _)) => apply session_seed_leaves; done : leaves.
#[local] Hint Extern 2 (leaves _ (compute_payout _ _ _ _ _ _)) => apply compute_payout_leaves; done : leaves.
#[local] Hint Extern 2 (leaves _ (take_twap _ _ _)) => apply take_twap_leaves; done : leaves.
#[local] Hint Extern 2 (leaves _ (submit_all _ _ _)) => apply submit_all_leaves; done : leaves.
#[local] Hint Extern 2 (leaves _ (on_events _)) => apply on_events_leaves; done : leaves.
#[local] Hint Extern 2 (leaves _ (ignore _)) => apply leaves_ignore; done : leaves.

Abbreviation twaps := (app_twap : App → gmap string TwapCalculator).
Definition rows (w : App) : list ProposalRow := mint_proposals (app_db w).

Lemma rows_select {E A} (q : DateTime → Db → string + A) :
  leaves rows (attempt (on_db (select q)) : M App E (PostgresStoreError + A)).
Proof.
  apply leaves_attempt. intros w. unfold rows, on_db, zoom. cbn [fst snd]. by rewrite select_state.
Qed.
#[local] Hint Extern 2 (leaves _ (attempt (on_db _))) => apply rows_select : leaves.

(** The row that a proposal becomes. *)
Definition is_row_of (row : ProposalRow) (sid : SessionId) (ctx : SessionContext) (amount : Z)
    (cents : option Z) (att : AttestationResult) : Prop :=
  pr_session_id row = sid ∧ pr_wallet row = address_debug (ctx_wallet ctx) ∧
  pr_commodity row = commodity_debug (ctx_commodity ctx) ∧ pr_chain row = chain_as_str (ctx_target_chain ctx) ∧
  pr_gross_prm row = amount ∧ pr_net_usd_cents row = cents ∧ pr_status row = "Pending" ∧
  attestation_json att = inr (pr_attestation_json row).

Lemma insert_mint_proposal_rows p db :
  mint_proposals (insert_mint_proposal p db).2 = mint_proposals db ∨
  ∃ json, attestation_json (mp_attestation p) = inr json ∧ ¬ (mp_session_id p ∈ (pr_session_id <$> mint_proposals db)) ∧
    mint_proposals (insert_mint_proposal p db).2 =
      mint_proposals db ++ [proposal_row p json (db_now (db_tick db)) (db_tick db)].
Proof.
  unfold insert_mint_proposal. destruct (attestation_json _) as [e|json]; [by left|].
  unfold sql. case_bool_decide as Hin; destruct (db_fault _) as [[[] e]|]; try by left.
  all: right; by exists json.
Qed.

Lemma settle_rows (state : State) sid ctx amount cents att w :
  rows (settle clk state sid ctx amount cents att w).2 = rows w ∨
  ∃ row, rows (settle clk state sid ctx amount cents att w).2 = rows w ++ [row] ∧
    ¬ (sid ∈ (pr_session_id <$> rows w)) ∧ is_row_of row sid ctx amount cents att.
Proof.
  unfold settle. do 3 (let a := fresh "a" in leaves_step rows a Hs Hno Hr Hw; [by left|]; rewrite <-Hw; clear Hr Hw).
  leaves_drop rows. unfold attempt, on_db, zoom. cbn [fst snd].
  set (p := {| mp_session_id := _ |}).
  match goal with |- context [insert_mint_proposal p ?db] =>
    pose proof (insert_mint_proposal_rows p db) as Hs; destruct (insert_mint_proposal p db) as [r db'] end.
  replace (rows _) with (mint_proposals db') by (by destruct r).
  destruct Hs as [Hs|(json & Hj & Hni & Hs)]; [by left|right; eexists]. split; [exact Hs|]. by split_and!.
Qed.

(** The figure [end_session] compares with the ceiling. *)
Definition minted_24h_of (w : App) : Z :=
  sum_gross (filter (λ r, pr_status r = "Confirmed" ∧ db_now (db_tick (app_db w)) - interval_24h < pr_created_at r)
    (rows w)).

Lemma ceiling_check (state : State) text amount :
  0 ≤ amount →
  (daily_ceiling_wei state <? sat_u U128_MAX (default U128_MAX (parse_u U128_MAX (show text)) + amount)) = false →
  text + amount ≤ daily_ceiling (st_mint_ceiling state) (st_mint_ceiling_active_users state)
                    (st_mint_ceiling_avg_daily_prm_per_user state) * PRM_WEI.
Proof.
  intros Ha Hle%Z.ltb_ge. revert Hle. unfold daily_ceiling_wei.
  assert (0 ≤ daily_ceiling (st_mint_ceiling state) (st_mint_ceiling_active_users state)
                (st_mint_ceiling_avg_daily_prm_per_user state) ≤ U64_MAX) as Hd by by apply sat_u_range.
  set (d := daily_ceiling _ _ _) in *. unfold sat_u, PRM_WEI.
  destruct (parse_u _ _) as [m|] eqn:E; cbn [default from_option id]; clearbody d; [|lia].
  apply parse_u_show_inv in E as [-> E]. lia.
Qed.

Lemma compute_payout_amount (state : State) sid ctx t w amount cents w' :
  compute_payout b clk state sid ctx t w = (Ok (amount, cents), w') → 0 ≤ amount ≤ U128_MAX.
Proof.
  unfold compute_payout. intros H'. minv H'. injection Hr as <- <-. by apply sat_u_range.
Qed.

Lemma total_minted_ok db text db' :
  total_minted_wei_24h db = (Ok text, db') →
  text = show (sum_gross (filter (λ r, pr_status r = "Confirmed" ∧
                 db_now (db_tick db) - interval_24h < pr_created_at r) (mint_proposals db))).
Proof.
  unfold total_minted_wei_24h, select, sql. destruct (db_fault _) as [[[] e]|]; [done..|]. by intros [= <- _].
Qed.

(** A row appears only within the ceiling. *)
Lemma mint_rows (state : State) sid ctx t att w :
  rows (mint b clk state sid ctx t att w).2 = rows w ∨
  ∃ row amount cents z, rows (mint b clk state sid ctx t att w).2 = rows w ++ [row] ∧
    compute_payout b clk state sid ctx t w = (Ok (amount, cents), z) ∧ ¬ (sid ∈ (pr_session_id <$> rows w)) ∧ is_row_of row sid ctx amount cents att ∧
    minted_24h_of w + amount ≤ daily_ceiling (st_mint_ceiling state) (st_mint_ceiling_active_users state)
                      (st_mint_ceiling_avg_daily_prm_per_user state) * PRM_WEI ∧ 0 ≤ amount ≤ U128_MAX.
Proof.
  unfold mint. leaves_step (app_db : App → _) payout Hs Hno Hr Hw; [left; unfold rows; by rewrite Hs|]. destruct payout as [amount cents].
  apply compute_payout_amount in Hr as Ha. rename Hr into Hpay, w into w1. unfold minted_24h_of, rows. rewrite <-Hw. clear Hw. rename w0 into w.
  leaves_step rows minted Hs Hno Hr Hw; [by left|]. destruct minted as [e|text]; [left; exact Hw|].
  change (mint_proposals (app_db w)) with (rows w). rewrite <-Hw. apply attempt_ok in Hr as [(s & [= ->] & Hr)|(? & ? & ?)]; [|done].
  apply zoom_ok in Hr as (db & Hr & ->). apply total_minted_ok in Hr as ->.
  destruct (_ <? _) eqn:Hc; [by left|]. apply ceiling_check in Hc; [|lia].
  destruct (settle_rows state sid ctx amount cents att (set_db db w)) as [Hs|(row & Hrow & Hni & Hof)].
  - left. exact Hs.
  - right. exists row, amount, cents, w. split_and!; [exact Hrow|done|done|done|by rewrite Hw|lia..].
Qed.

Lemma attest_ok (state : State) sid proofs seed node x att x' :
  attest state sid proofs seed node x = (Ok att, x') →
  coordinate_attestation (st_node_coordinator state) net_now sid proofs seed node x = (inr att, x').
Proof. unfold attest. by destruct (coordinate_attestation _ _ _ _ _ _ x) as [[e|r] x1]; intros [= -> ->]. Qed.

Lemma take_twap_run sid (w : App) t w' :
  take_twap b clk sid w = (Ok (Some t), w') → ∃ calc now v,
    app_twap w !! sid = Some calc ∧ (utc_now clk (app_redis w) : outcome ApiError _ * _) = (Ok now, v) ∧
    finalize b calc now = Some (Some t) ∧ w' = set_redis v (set_twap (delete sid (app_twap w)) w).
Proof.
  unfold take_twap. intros Ht. minv Ht. destruct (a !! sid) as [calc|] eqn:E; [|by minv Ht]. minv Ht. subst a.
  
  match goal with Hq : _ = w0 |- _ => subst w0 | Hq : (_, _) = (_, w0) |- _ => injection Hq as <- end.
  match goal with Hq : now_utc _ _ = _ |- _ => apply zoom_ok in Hq as (v & Hv & ->) end.
  exists calc, a1, v. by split_and!.
Qed.

(** What a mint changes of the books, and an early answer: the databases, calculators
    and metrics are as they were. *)
Definition money (w : App) : Db * Metrics := (app_db w, app_metrics w).
Definition kept (w : App) : Db * gmap string TwapCalculator * Metrics := (app_db w, app_twap w, app_metrics w).
Definition early (w : App) (r : outcome ApiError (Z * string) * App) : Prop :=
  kept r.2 = kept w ∧
  ∀ code s, r.1 = Ok (code, s) → code = 400 ∧ (s = "rejected" ∨ s = "no_assigned_node").

Lemma early_none w v r : kept r.2 = kept v → kept v = kept w → (∀ x, r.1 ≠ Ok x) → early w r.
Proof. intros Hs Hv Hno. split; [congruence|]. by intros code s ?%Hno. Qed.

(** [end_session] up to its reveal: the session that Redis returned, and the nonce that it
    matched with the session's commit; [v] is the connection then. *)
Definition revealed (sid : SessionId) (nonce_hex : string) (w : App) (ctx : SessionContext) (v : renv R) : Prop :=
  ∃ nonce v1, get_session clk sid (app_redis w) = (Ok (Some ctx), v1) ∧ hex_decode nonce_hex = Some nonce ∧
    verify_reveal clk sid nonce v1 = (Ok true, v).

(** [finish] up to the payout, from [w] to [u]: the session's calculator leaves the map
    and is finalised, the proofs are the ones that Redis returned, and the attestation is
    the one the nodes gave over those proofs, chosen by the seed that the chain gave. *)
Inductive attested (state : State) (sid : SessionId) (ctx : SessionContext) (node : NodeId) (w : App)
    (twap : TwapResult) (proofs : list PartialProof) (seed : bytes) (att : AttestationResult) : App → Prop :=
  | Attested calc now v1 w1 v2 w2 x :
      app_twap w !! sid = Some calc → (utc_now clk (app_redis w) : outcome ApiError _ * _) = (Ok now, v1) →
      finalize b calc now = Some (Some twap) →
      submit_all (st_oracle_submitters state) (commodity_to_u8 (ctx_commodity ctx)) (tr_twap twap)
        (set_redis v1 (set_twap (delete sid (app_twap w)) w)) = (Ok tt, w1) →
      get_proofs clk sid v1 = (Ok proofs, v2) →
      session_seed state (set_redis v2 w1) = (Ok seed, w2) →
      coordinate_attestation (st_node_coordinator state) net_now sid proofs seed node (app_net w2) = (inr att, x) →
      attested state sid ctx node w twap proofs seed att (set_net x w2).

(** [end_session] either answered early, or what is left is [finish]. *)
Lemma end_session_finishes (state : State) sid nonce_hex w :
  early w (end_session b clk state sid nonce_hex w) ∨
  ∃ ctx node v, revealed sid nonce_hex w ctx v ∧ ctx_assigned_node_id ctx = Some node ∧
    end_session b clk state sid nonce_hex w = finish b clk state sid ctx node (set_redis v w).
Proof.
  unfold end_session.
  leaves_step kept session Hs Hno Hr Hw; [left; by eapply early_none|].
  apply map_err_ok, zoom_ok in Hr as (v1 & Hctx & ->).
  leaves_step kept ctx Hs Hno Hr Hw1; [left; by eapply early_none|]. apply ok_or_ok in Hr as [-> <-].
  leaves_step kept nonce Hs Hno Hr Hw2; [left; by eapply early_none|]. apply ok_or_ok in Hr as [Hnonce <-].
  leaves_step kept matched Hs Hno Hr Hw3; [left; by eapply early_none|]. rewrite Hw in Hw3.
  destruct matched; cbn [negb]; [|left; split; [done|intros code s [= <- <-]; auto]].
  apply map_err_ok, zoom_ok in Hr as (v2 & Hv & ->).
  destruct (ctx_assigned_node_id ctx) as [node|] eqn:Hnode; [|left; split; [done|intros code s [= <- <-]; auto]].
  right. exists ctx, node, v2. split_and!; [|done|done]. by exists nonce, v1.
Qed.

(** Past the reveal and the assigned node, the end is [finish]. *)
Lemma end_session_run (state : State) sid nonce_hex w ctx node v :
  revealed sid nonce_hex w ctx v → ctx_assigned_node_id ctx = Some node →
  end_session b clk state sid nonce_hex w = finish b clk state sid ctx node (set_redis v w).
Proof.
  intros (nonce & v1 & Hget & Hnonce & Hv) Hnode.
  unfold end_session, internal, on_redis, mbind, M_bind, map_err, zoom. rewrite Hget. cbn. rewrite Hnonce. cbn.
  by rewrite Hv, Hnode.
Qed.

(** [finish] up to the payout: either no proposal is added, or what is left is [mint]. *)
Lemma finish_mints (state : State) sid ctx node w :
  let r := finish b clk state sid ctx node w in
  (money r.2 = money w ∧ ∀ s, r.1 ≠ Ok (200, s)) ∨
  ∃ twap proofs seed att u, attested state sid ctx node w twap proofs seed att u ∧ money u = money w ∧
    r = mint b clk state sid ctx twap att u.
Proof.
  cbv zeta. unfold finish.
  leaves_step money finalized Hs Hno Hr Hw; [by left|]. destruct finalized as [twap|]; [|by left].
  apply take_twap_run in Hr as (calc & now & v1 & Hcalc & Hnow & Ht & ->). rewrite <-Hw. clear Hw.
  leaves_step money u Hs Hno Hsub Hw; [by left|]. destruct u. rewrite <-Hw. clear Hw.
  assert (app_redis w0 = v1) as Hv1.
  { pose proof (submit_all_leaves app_redis (st_oracle_submitters state) (commodity_to_u8 (ctx_commodity ctx)) (tr_twap twap)
      ltac:(done) (set_redis v1 (set_twap (delete sid (app_twap w)) w))) as Hl. by rewrite Hsub in Hl. }
  leaves_step money proofs Hs Hno Hq Hw; [by left|]. apply map_err_ok, zoom_ok in Hq as (v2 & Hproofs & ->).
  rewrite Hv1 in Hproofs. rewrite <-Hw. clear Hw.
  leaves_step money seed Hs Hno Hseed Hw; [by left|]. rewrite <-Hw. clear Hw.
  leaves_step money answer Hs Hno Hq Hw; [by left|]. rewrite <-Hw.
  destruct answer as [e|att]; [by left|]. right.
  apply attempt_ok in Hq as [(? & [= <-] & Hq)|(? & ? & ?)]; [|done].
  apply zoom_ok in Hq as (x1 & Hq & ->). apply attest_ok in Hq.
  exists twap, proofs, seed, att, (set_net x1 w1). split; [by eapply Attested|]. by split.
Qed.
Lemma attested_sampled (state : State) sid ctx node w twap proofs seed att u :
  attested state sid ctx node w twap proofs seed att u → is_Some (app_twap w !! sid).
Proof. intros [calc ? ? ? ? ? ? Hc]. by exists calc. Qed.

Lemma settle_twap (state : State) sid ctx amount cents att :
  leaves twaps (settle clk state sid ctx amount cents att).
Proof.
  unfold settle. leaves_tac.
Qed.
#[local] Hint Extern 2 (leaves _ (settle _ _ _ _ _ _ _)) => apply settle_twap : leaves.

Lemma mint_twap (state : State) sid ctx t att : leaves twaps (mint b clk state sid ctx t att).
Proof. unfold mint. leaves_tac. Qed.
#[local] Hint Extern 2 (leaves _ (mint _ _ _ _ _ _ _)) => apply mint_twap : leaves.

Lemma take_twap_deletes sid (w : App) : app_twap (take_twap b clk sid w).2 = delete sid (app_twap w).
Proof.
  unfold take_twap. destruct (app_twap w !! sid) as [calc|] eqn:E.
  all: unfold mbind at 1 2, M_bind at 1 2, gets, modify; rewrite E.
  2: done.
  destruct (leaves_prefix twaps (now_utc clk) (λ now, lift_arith (finalize b calc now))
    (set_twap (delete sid (app_twap w)) w)) as [[Hs _]|(now & w1 & _ & Hw & ->)]; [leaves_tac|exact Hs|].
  by destruct (finalize b calc now).
Qed.

Lemma finish_twap (state : State) sid ctx node w :
  app_twap (finish b clk state sid ctx node w).2 = delete sid (app_twap w).
Proof.
  unfold finish. leaves_drop (app_twap : App → _). apply take_twap_deletes.
Qed.

(** Whether the session has a calculator. *)
Definition sampled (sid : SessionId) (w : App) : bool :=
  match app_twap w !! sid with Some _ => true | None => false end.

Lemma sample_session_sampled (state : State) sid c : leaves (sampled sid) (sample_session b state sid c).
Proof.
  intros w. unfold sample_session, sampled. unfold mbind at 1, M_bind at 1, gets. destruct (app_twap w !! sid) as [calc|] eqn:E; cbn [fst snd]; [|cbn; by rewrite ?E].

  leaves_step (app_twap : App → _) r Hs Hno Hr Hw; [by rewrite Hs, E|]. destruct r as [e|calc']; cbn; [by rewrite Hw, E|].
  by rewrite lookup_insert_eq.
Qed.
#[local] Hint Extern 2 (leaves _ (sample_session _ _ _ _)) => apply sample_session_sampled : leaves.

Lemma submit_proof_sampled (state : State) sid body : leaves (sampled sid) (submit_proof b clk try_send state sid body).
Proof.
  unfold submit_proof, count_proof, assess, parse_hash. leaves_tac.
Qed.

Lemma finish_unsampled (state : State) sid ctx node w s :
  sampled sid w = false → (finish b clk state sid ctx node w).1 ≠ Ok (200, s).
Proof.
  unfold sampled. intros Hn. destruct (finish_mints state sid ctx node w) as [[_ Hs]|(? & ? & ? & ? & ? & Hatt & _ & _)]; [done|].
  apply attested_sampled in Hatt as [c Hc]. by rewrite Hc in Hn.
Qed.

Lemma unsampled_rows (state : State) sid nonce w :
  sampled sid w = false → app_db (end_session b clk state sid nonce w).2 = app_db w.
Proof.
  unfold sampled. intros Hn. destruct (end_session_finishes state sid nonce w) as [[Hk _]|(ctx & node & v & _ & _ & ->)].
  { by injection Hk. }
  destruct (finish_mints state sid ctx node (set_redis v w)) as [[[= Hs _] _]|(? & ? & ? & ? & ? & Hatt & _ & _)]; [done|].
  apply attested_sampled in Hatt as [c Hc]. cbn in Hc. by rewrite Hc in Hn.
Qed.

(** *** The gauge of active sessions *)
Definition active (w : App) : Z := m_session_active (app_metrics w).

Lemma settle_active (state : State) sid ctx amount cents att w :
  active (settle clk state sid ctx amount cents att w).2 = active w ∨
  active (settle clk state sid ctx amount cents att w).2 = active w - 1.
Proof.
  unfold settle. do 5 (let a := fresh "a" in leaves_step active a Hs Hno Hr Hw; [by left|]; rewrite <-Hw; clear Hr Hw).
  right. unfold gauge, metric, modify at 1. unfold mbind at 1, M_bind at 1. cbv beta iota.
  match goal with |- active ((?m ≫= ?f) ?w1).2 = _ =>
    replace (active ((m ≫= f) w1).2) with (active (m w1).2) by (symmetry; apply (leaves_suffix active); intros ?; solve [leaves_tac]) end.
  match goal with |- active (?m ?w1).2 = _ => transitivity (active w1) end; [|unfold active; cbn; lia].
  assert (leaves active (internal (on_redis (delete_session clk (ctx_wallet ctx) sid)))) as Hl by leaves_tac. apply Hl.
Qed.

Lemma mint_active (state : State) sid ctx t att w :
  active (mint b clk state sid ctx t att w).2 = active w ∨ active (mint b clk state sid ctx t att w).2 = active w - 1.
Proof.
  unfold mint. leaves_step active payout Hs Hno Hr Hw; [by left|]. destruct payout as [amount cents].
  rewrite <-Hw. clear Hr Hw. leaves_step active minted Hs Hno Hr Hw; [by left|]. rewrite <-Hw. clear Hr Hw.
  destruct minted as [e|text]; [by left|]. destruct (_ <? _); [by left|]. apply settle_active.
Qed.

(** The end of a session takes one off the gauge only together with its calculator. *)
Lemma end_session_active (state : State) sid nonce w :
  let w' := (end_session b clk state sid nonce w).2 in
  (active w' = active w ∧ (app_twap w' = app_twap w ∨ app_twap w' = delete sid (app_twap w))) ∨
  (sampled sid w = true ∧ app_twap w' = delete sid (app_twap w) ∧ active w' = active w - 1).
Proof.
  cbv zeta. destruct (end_session_finishes state sid nonce w) as [[Hk _]|(ctx & node & v & _ & _ & ->)].
  { injection Hk as _ Ht Hm. unfold active. rewrite Hm. auto. }
  rewrite finish_twap. unfold sampled. change (app_twap (set_redis v w)) with (app_twap w).
  destruct (finish_mints state sid ctx node (set_redis v w)) as [[[= _ Hs] _]|(t & ? & ? & ? & w2 & Hatt & [= _ Hm2] & ->)].
  { left. unfold active. rewrite Hs. auto. }
  apply attested_sampled in Hatt as [c Hc]. cbn in Hc. rewrite Hc. assert (active w2 = active w) as <- by (unfold active; by rewrite Hm2).
  match goal with |- context [mint ?b ?clk ?s ?sid ?ctx ?t ?a w2] => destruct (mint_active s sid ctx t a w2) end; auto.
Qed.

(** *** Handlers that do not look at the database *)
Definition blind {E A} (m : M App E A) : Prop := ∀ w db,
  (m (set_db db w)).1 = (m w).1 ∧ ∃ db', (m (set_db db w)).2 = set_db db' (m w).2.

Lemma blind_bind {E A B} (m : M App E A) (f : A → M App E B) :
  blind m → (∀ a, blind (f a)) → blind (m ≫= f).
Proof.
  intros Hm Hf w db. destruct (Hm w db) as [Ha (db' & Hb)]. unfold mbind, M_bind.
  destruct (m (set_db db w)) as [o v], (m w) as [o' v']. cbn in Ha, Hb. subst o v.
  destruct o' as [a|e|]; [apply Hf|by split; [|eexists]..].
Qed.
Lemma blind_zoom {V E A} (g : App → V) (set : V → App → App) (m : M V E A) :
  (∀ w db, g (set_db db w) = g w) → (∀ v w db, set v (set_db db w) = set_db db (set v w)) →
  blind (zoom g set m).
Proof. intros Hg Hs w db. unfold zoom. rewrite Hg, Hs. cbn. split; [done|by eexists]. Qed.
Lemma blind_modify {E} (f : App → App) :
  (∀ w db, f (set_db db w) = set_db db (f w)) → blind (modify f : M App E unit).
Proof. intros Hf w db. unfold modify. rewrite Hf. split; [done|by eexists]. Qed.
Lemma blind_pure {E A} (o : outcome E A) : blind (λ w, (o, w)).
Proof. intros w db. split; [done|by eexists]. Qed.
Lemma blind_map_err {E E' A} (f : E → E') (m : M App E A) : blind m → blind (map_err f m).
Proof.
  intros Hm w db. destruct (Hm w db) as [Ha (db' & Hb)]. unfold map_err.
  destruct (m (set_db db w)) as [o v], (m w) as [o' v']. cbn in Ha, Hb. subst o v.
  destruct o'; by split; [|eexists].
Qed.
(** A statement whose result is dropped. *)
Lemma blind_dropped {E E' A B} (m : M Db E A) (k : M App E' B) :
  (∀ db, (m db).1 ≠ Panic) → blind k → blind (attempt (on_db m) ≫= λ _ : E + A, k).
Proof.
  intros Hm Hk w db. unfold mbind, M_bind, attempt, on_db, zoom. cbn [fst snd].
  pose proof (Hm (app_db (set_db db w))) as Hp. pose proof (Hm (app_db w)) as Hq.
  destruct (m (app_db (set_db db w))) as [[a|e|] d1], (m (app_db w)) as [[a'|e'|] d2]; try done;
    cbn [fst snd]; change (set_db d1 (set_db db w)) with (set_db d1 w);
    destruct (Hk w d1) as [E1 (x1 & E2)], (Hk w d2) as [E3 (x3 & E4)]; rewrite E1, E2, E3, E4;
    (split; [done|by exists x1]).
Qed.

Lemma insert_no_panic p db : (insert_mint_proposal p db).1 ≠ Panic.
Proof.
  unfold insert_mint_proposal, sql. destruct (attestation_json _); [done|].
  case_bool_decide; by destruct (db_fault _) as [[[] e]|].
Qed.

Lemma settle_blind (state : State) sid ctx amount cents att : blind (settle clk state sid ctx amount cents att).
Proof.
  unfold settle. apply blind_bind; [by apply blind_zoom|intros created].
  apply blind_bind; [destruct (sign_proposal _ _); apply blind_pure|intros bytes].
  apply blind_bind; [destruct (signature_try_from bytes); apply blind_pure|intros sig].
  apply blind_dropped; [apply insert_no_panic|]. apply blind_bind; [by apply blind_modify|intros _].
  apply blind_bind; [by apply blind_modify|intros _].
  apply blind_bind; [by apply blind_map_err, blind_zoom|intros _]. apply blind_pure.
Qed.

(** What a successful attestation means. *)
Lemma attested_quorum (state : State) sid proofs seed node x att :
  (coordinate_attestation (st_node_coordinator state) net_now sid proofs seed node x).1 = inr att →
  (3 ≤ length (ar_signatures att))%nat ∧ NoDup (ar_signers att) ∧
  Forall3 (genuine (st_node_coordinator state) node proofs) (ar_signatures att) (ar_node_ids att) (ar_signers att).
Proof.
  intros Hatt. destruct (coordinate_collected (st_node_coordinator state) net_now sid proofs seed node x)
    as (c & x1 & (Hg & Hd & _) & Hc). rewrite Hc in Hatt. revert Hatt. cbn [fst].
  destruct (Nat.leb_spec 3 (length (co_signatures c))); [|done]. intros [= <-]. by split_and!.
Qed.

(** A row that the end of session [sid] with the nonce [nonce_hex] may add in the world [w]. *)
Definition mintable (state : State) (sid : SessionId) (nonce_hex : string) (w : App) (row : ProposalRow) : Prop :=
  ∃ ctx node v twap proofs seed att u amount cents z,
    revealed sid nonce_hex w ctx v ∧ ctx_assigned_node_id ctx = Some node ∧
    attested state sid ctx node (set_redis v w) twap proofs seed att u ∧
    compute_payout b clk state sid ctx twap u = (Ok (amount, cents), z) ∧
    ¬ (sid ∈ (pr_session_id <$> rows w)) ∧ is_row_of row sid ctx amount cents att ∧
    (3 ≤ length (ar_signatures att))%nat ∧ NoDup (ar_signers att) ∧
    Forall3 (genuine (st_node_coordinator state) node proofs) (ar_signatures att) (ar_node_ids att) (ar_signers att) ∧
    minted_24h_of w + amount ≤ daily_ceiling (st_mint_ceiling state) (st_mint_ceiling_active_users state)
                      (st_mint_ceiling_avg_daily_prm_per_user state) * PRM_WEI ∧ 0 ≤ amount ≤ U128_MAX.

Lemma attested_genuine (state : State) sid ctx node w twap proofs seed att u :
  attested state sid ctx node w twap proofs seed att u →
  (3 ≤ length (ar_signatures att))%nat ∧ NoDup (ar_signers att) ∧
  Forall3 (genuine (st_node_coordinator state) node proofs) (ar_signatures att) (ar_node_ids att) (ar_signers att).
Proof. intros [????????????? Hatt]. eapply attested_quorum. by rewrite Hatt. Qed.

Lemma end_session_rows (state : State) sid nonce w :
  let w' := (end_session b clk state sid nonce w).2 in
  rows w' = rows w ∨ ∃ row, rows w' = rows w ++ [row] ∧ mintable state sid nonce w row.
Proof.
  cbv zeta. destruct (end_session_finishes state sid nonce w) as [[Hk _]|(ctx & node & v & Hrev & Hnode & ->)].
  { left. unfold rows. by injection Hk as -> _ _. }
  destruct (finish_mints state sid ctx node (set_redis v w)) as
    [[[= Hs _] _]|(twap & proofs & seed & att & u & Hatt & [= Hdb _] & ->)]; [by left; unfold rows; rewrite Hs|].
  destruct (mint_rows state sid ctx twap att u) as [Hs|(row & amount & cents & z & Hs & Hpay & Hni & Hof & Hle & Ha)];
    unfold minted_24h_of, rows in *; rewrite Hdb in *; [by left|right].
  exists row. split; [done|]. destruct (attested_genuine _ _ _ _ _ _ _ _ _ _ Hatt) as (? & ? & ?).
  exists ctx, node, v, twap, proofs, seed, att, u, amount, cents, z. destruct Ha. by split_and!.
Qed.

(** All but the Redis connection. *)
Definition outside (w : App) :=
  (app_db w, app_net w, app_twap w, app_edge w, app_events w, app_metrics w, app_reserves w, app_nonces w).
Definition no_err {E A} (m : M App E A) : Prop := ∀ w e, (m w).1 ≠ Err e.

Lemma no_err_bind {E A B} (m : M App E A) (f : A → M App E B) :
  no_err m → (∀ a, no_err (f a)) → no_err (m ≫= f).
Proof.
  intros Hm Hf w e. specialize (Hm w e). unfold mbind, M_bind. destruct (m w) as [[a|e'|] w1]; [apply Hf|naive_solver..].
Qed.
Lemma no_err_attempt {E E' A} (m : M App E A) : no_err (attempt m : M App E' (E + A)).
Proof. intros w e. unfold attempt. by destruct (m w) as [[a|e'|] w1]. Qed.

Lemma no_err_assess sid wallet result : no_err (assess clk try_send sid wallet result).
Proof.
  unfold assess. apply no_err_bind; [done|intros now]. apply no_err_bind; [done|intros a].
  apply no_err_bind; [|done]. case_decide; [|done]. apply no_err_bind; [done|intros t].
  apply no_err_bind; [apply no_err_attempt|done].
Qed.
Lemma no_err_sample (state : State) sid c : no_err (sample_session b state sid c).
Proof.
  unfold sample_session. apply no_err_bind; [done|intros map]. destruct (map !! sid); [|done].
  apply no_err_bind; [apply no_err_attempt|by intros []].
Qed.

Lemma no_err_outside {A B} (m : HM A) (f : A → HM B) w e :
  leaves outside m → (∀ a w1, ((f a) w1).1 = Err e → outside ((f a) w1).2 = outside w1) →
  ((m ≫= f) w).1 = Err e → outside ((m ≫= f) w).2 = outside w.
Proof.
  intros Hm Hf. specialize (Hm w). unfold mbind, M_bind. destruct (m w) as [[a|e'|] w1]; [|done..].
  cbn in Hm. rewrite <-Hm. apply Hf.
Qed.

Lemma submit_proof_errs (state : State) sid body w e :
  (submit_proof b clk try_send state sid body w).1 = Err e →
  outside (submit_proof b clk try_send state sid body w).2 = outside w.
Proof.
  unfold submit_proof, parse_hash.
  repeat (apply no_err_outside; [unfold count_proof; solve [leaves_tac]|intros ? ?]).
  intros He. exfalso. revert He. apply no_err_bind; [done|intros _].
  apply no_err_bind; [apply no_err_assess|intros level]. by apply no_err_bind; [apply no_err_sample|].
Qed.

Lemma assess_level sid wallet result (w : App) level w' :
  assess clk try_send sid wallet result w = (Ok level, w') →
  (∀ s, result = Suspicious s → s = High) →
  level_debug level = if decide (result = Valid) then "Low" else "Medium".
Proof.
  unfold assess. intros H' Hhigh. minv H'. injection Hm0 as <- _. rewrite <-Hr. unfold process.
  destruct result as [|reason|s]; [..|rewrite (Hhigh s eq_refl)]; cbn; by destruct (try_send _ _).
Qed.

Lemma prefilter_suspicious proof ctx s : prefilter_checks proof ctx = Suspicious s → s = High.
Proof. unfold prefilter_checks. intros Hs. repeat case_match; by simplify_eq. Qed.

Lemma ok_or_run {E A} (o : option A) (e : E) (w : App) :
  (ok_or o e : M App E A) w = match o with Some a => (Ok a, w) | None => (Err e, w) end.
Proof. by destruct o. Qed.
Lemma parse_hash_run raw field (w : App) :
  parse_hash raw field w =
    match hex_decode raw with
    | Some h => if decide (length h = 32%nat) then (Ok h, w) else (Err (BadRequest field), w)
    | None => (Err (BadRequest field), w)
    end.
Proof.
  unfold parse_hash, mbind, M_bind. rewrite ok_or_run. destruct (hex_decode raw) as [h|]; [|done].
  by destruct (decide (length h = 32%nat)).
Qed.

(** The clock is read through the connection: the stored keys stay. *)
Lemma now_utc_keys : leaves (λ w : App, re_state (app_redis w)) (now_utc clk : HM DateTime).
Proof. done. Qed.
#[local] Hint Extern 1 (leaves (λ w, re_state (app_redis w)) (now_utc _)) => apply now_utc_keys : leaves.

Lemma assess_keys sid wallet result :
  leaves (λ w : App, re_state (app_redis w)) (assess clk try_send sid wallet result).
Proof. unfold assess. leaves_tac. Qed.
Lemma sample_session_keys (state : State) sid c :
  leaves (λ w : App, re_state (app_redis w)) (sample_session b state sid c : HM unit).
Proof. unfold sample_session. leaves_tac. Qed.

(** The proof that a request makes of a session, at an instant. *)
Definition requested_proof (sid : SessionId) (body : SubmitProofRequest) (ctx : SessionContext) (hash input : bytes)
    (now : DateTime) : PartialProof :=
  {| pp_session_id := sid; pp_wallet := ctx_wallet ctx; pp_sequence := sp_sequence body;
     pp_hashrate := sp_hashrate body; pp_proof_hash := hash; pp_proof_input := input;
     pp_difficulty := sp_difficulty body; pp_submitted_at := now; pp_signature := None |}.

Lemma submit_proof_ok (state : State) sid body w resp w' :
  submit_proof b clk try_send state sid body w = (Ok resp, w') → ∃ ctx v1 v2 hash input now v3 w4 v5,
     get_session clk sid (app_redis w) = (Ok (Some ctx), v1) ∧ is_paused clk sid v1 = (Ok false, v2) ∧
     hex_decode (sp_proof_hash body) = Some hash ∧ length hash = 32%nat ∧
     (if String.eqb (sp_proof_input body) "" then input = [] else hex_decode (sp_proof_input body) = Some input) ∧
     (utc_now clk v2 : outcome ApiError _ * _) = (Ok now, v3) ∧
     let proof := requested_proof sid body ctx hash input now in
     let result := prefilter_checks proof ctx in
     count_proof clk sid (sp_difficulty body) result (set_redis v3 w) = (Ok tt, w4) ∧
     store_proof clk sid proof (app_redis w4) = (Ok tt, v5) ∧ re_state (app_redis w') = re_state v5 ∧
     spr_accepted resp = negb (is_invalid result) ∧
     spr_suspicion_level resp = (if decide (result = Valid) then "Low" else "Medium").
Proof.
  unfold submit_proof. intros H'.
  apply bind_ok in H' as (session & w1 & Hq & H'). apply map_err_ok, zoom_ok in Hq as (v1 & Hget & ->).
  apply bind_ok in H' as (ctx & ? & Hq & H'). apply ok_or_ok in Hq as [-> <-].
  apply bind_ok in H' as (paused & ? & Hq & H'). apply map_err_ok, zoom_ok in Hq as (v2 & Hp & ->).
  apply bind_ok in H' as ([] & ? & Hq & H'). destruct paused; [by apply fail_ok in Hq|]. apply ret_ok in Hq as [_ <-].
  apply bind_ok in H' as (hash & ? & Hq & H'). rewrite parse_hash_run in Hq.
  destruct (hex_decode (sp_proof_hash body)) as [h|] eqn:Hh; [|done]. case_decide as Hlen; [|done]. injection Hq as -> <-.
  apply bind_ok in H' as (input & ? & Hq & H').
  match type of Hq with _ = (_, ?x) => assert
    ((if String.eqb (sp_proof_input body) "" then input = [] else hex_decode (sp_proof_input body) = Some input) ∧
     set_redis v2 w = x) as [Hin <-] end.
  { revert Hq. destruct (String.eqb _ _); [by intros [<- <-]%ret_ok|]. by intros [-> <-]%ok_or_ok. }
  clear Hq. apply bind_ok in H' as (now & ? & Hq & H'). apply zoom_ok in Hq as (v3 & Hnow & ->).
  apply bind_ok in H' as ([] & w4 & Hcount & H').
  apply bind_ok in H' as ([] & ? & Hq & H'). apply map_err_ok, zoom_ok in Hq as (v5 & Hstore & ->).
  apply bind_ok in H' as ([] & ? & Hq & H'). apply modify_ok in Hq. subst.
  apply bind_ok in H' as (level & w5 & Hlevel & H').
  pose proof (assess_keys sid (ctx_wallet ctx) (validate mkPreFilterValidator (requested_proof sid body ctx hash input now) PreFilter ctx)) as Hk.
  match type of Hlevel with _ ?x = _ => specialize (Hk x) end.
  unfold requested_proof in Hk. rewrite Hlevel in Hk. cbn in Hk.
  apply assess_level in Hlevel; [|intros ?; apply prefilter_suspicious].
  apply bind_ok in H' as ([] & w6 & Hsample & H'). pose proof (sample_session_keys state sid (ctx_commodity ctx) w5) as Hk'.
  rewrite Hsample in Hk'. cbn in Hk'. apply ret_ok in H' as [<- <-].
  exists ctx, v1, v2, hash, input, now, v3, w4, v5. split_and!; try done. by rewrite Hk', Hk.
Qed.

Lemma sample_session_others (state : State) sid c id :
  id ≠ sid → leaves (λ w : App, app_twap w !! id) (sample_session b state sid c : HM unit).
Proof.
  intros Hne w. unfold sample_session. unfold mbind at 1, M_bind at 1, gets.
  destruct (app_twap w !! sid) as [calc|]; [|done].
  leaves_step (app_twap : App → _) r Hs Hno Hr Hw; [by rewrite Hs|]. destruct r as [e|calc']; cbn; rewrite Hw; [done|].
  by rewrite lookup_insert_ne.
Qed.

Lemma sample_session_rows (state : State) sid c : leaves rows (sample_session b state sid c : HM unit).
Proof. unfold sample_session. leaves_tac. Qed.

Lemma insert_anomaly_rows e : leaves rows (attempt (on_db (insert_anomaly_event e)) : HM (PostgresStoreError + unit)).
Proof.
  apply leaves_attempt. intros w. unfold rows, on_db, zoom, insert_anomaly_event, sql. cbn [fst snd].
  destruct (triggers_json _); [done|]. by destruct (db_fault _) as [[[] ?]|].
Qed.

#[local] Hint Extern 2 (leaves _ (attempt (on_db (insert_anomaly_event _)))) => apply insert_anomaly_rows : leaves.

Lemma submit_proof_rows (state : State) sid body : leaves rows (submit_proof b clk try_send state sid body).
Proof. unfold submit_proof, count_proof, assess, parse_hash, sample_session. leaves_tac. Qed.

Lemma submit_proof_others (state : State) sid body id :
  id ≠ sid → leaves (λ w : App, app_twap w !! id) (submit_proof b clk try_send state sid body).
Proof.
  intros Hne. pose proof (λ c, sample_session_others state sid c id Hne) as Hs.
  unfold submit_proof, count_proof, assess, parse_hash. leaves_tac.
Qed.

Lemma not_ok_outside {A B} (m : HM A) (f : A → HM B) w :
  leaves outside m → (∀ a w1, (∀ x, ((f a) w1).1 ≠ Ok x) → outside ((f a) w1).2 = outside w1) →
  (∀ x, ((m ≫= f) w).1 ≠ Ok x) → outside ((m ≫= f) w).2 = outside w.
Proof.
  intros Hm Hf. specialize (Hm w). unfold mbind, M_bind. destruct (m w) as [[a|e'|] w1]; [|done..].
  cbn in Hm. rewrite <-Hm. apply Hf.
Qed.

(** The session that a request asks for. *)
Definition requested (state : State) (peer_ip : string) (body : CreateSessionRequest) (wallet : Address)
    (client_type : ClientType) (chain : Chain) (active : Z) (now : DateTime) : SessionContext :=
  {| ctx_wallet := wallet; ctx_ip := Some peer_ip; ctx_client_type := client_type;
     ctx_active_sessions_count := active; ctx_started_at := now; ctx_last_submission_at := None;
     ctx_assigned_node_id := cr_assigned_node_id body; ctx_commodity := parse_commodity (cr_commodity body);
     ctx_target_chain := chain; ctx_cpu_threads := cr_cpu_threads body;
     ctx_assigned_site := id ← cr_assigned_node_id body; st_node_sites state !! id |}.

Lemma create_session_malformed (state : State) ip body (w : App) :
  parse_address (cr_wallet body) = None ∨ parse_client_type (cr_client_type body) = None ∨
    (∀ h, hex_decode (cr_commit_hash body) = Some h → length h ≠ 32%nat) ∨ from_str_id (cr_chain body) = None →
  ∃ msg, create_session b clk fuel state ip body w = (Err (BadRequest msg), w).
Proof.
  intros Hbad. unfold create_session, parse_wallet, mbind, M_bind.
  rewrite ok_or_run. destruct (parse_address _) as [wallet|]; [|by eexists]. cbv beta iota.
  rewrite ok_or_run. destruct (parse_client_type _) as [ct|]; [|by eexists]. cbv beta iota.
  rewrite parse_hash_run. destruct (hex_decode _) as [h|]; [|by eexists]. cbv beta iota.
  destruct (decide (length h = 32%nat)) as [Hlen|Hlen]; [|by eexists]. cbv beta iota.
  rewrite ok_or_run. destruct (from_str_id _) as [chain|]; [|by eexists].
  destruct Hbad as [|[|[Hh|]]]; try done. by destruct (Hh h).
Qed.

Lemma create_session_fails (state : State) ip body w :
  (∀ x, (create_session b clk fuel state ip body w).1 ≠ Ok x) →
  outside (create_session b clk fuel state ip body w).2 = outside w.
Proof.
  unfold create_session, parse_hash, enforce.
  repeat (apply not_ok_outside; [solve [leaves_tac]|intros ? ?]).
  intros Hno. by destruct (Hno _ eq_refl).
Qed.

Lemma create_session_ok (state : State) ip body (w : App) code resp (w' : App) :
  create_session b clk fuel state ip body w = (Ok (code, resp), w') →
  ∃ wallet ct commit chain active started now v0 v1 v2 v3 v4 v5 v6,
    parse_address (cr_wallet body) = Some wallet ∧ parse_client_type (cr_client_type body) = Some ct ∧
    hex_decode (cr_commit_hash body) = Some commit ∧ length commit = 32%nat ∧
    from_str_id (cr_chain body) = Some chain ∧
    check_wallet clk address_display wallet (app_redis w) = (Ok Allowed, v0) ∧ check_ip clk ip v0 = (Ok Allowed, v1) ∧
    get_active_session_count b clk fuel wallet v1 = (Ok (Some active), v2) ∧
    (utc_now clk v2 : outcome ApiError _ * _) = (Ok started, v3) ∧
    SessionStore.create_session clk (requested state ip body wallet ct chain active started) v3 =
      (Ok (csr_session_id resp), v4) ∧
    set_commit clk (csr_session_id resp) commit v4 = (Ok tt, v5) ∧
    (utc_now clk v5 : outcome ApiError _ * _) = (Ok now, v6) ∧
    code = 201 ∧ csr_assigned_site resp = (id ← cr_assigned_node_id body; st_node_sites state !! id) ∧
    w' = set_metrics (mkMetrics (m_session_active (app_metrics w) + 1) (m_proofs (app_metrics w))
           (m_anomalies (app_metrics w)) (m_proposals (app_metrics w)))
         (set_twap (<[csr_session_id resp := twap_new now]> (app_twap w)) (set_redis v6 w)).
Proof.
  unfold create_session, parse_wallet. intros H'.
  apply bind_ok in H' as (wallet & ? & Hq & H'). apply ok_or_ok in Hq as [Hwallet <-].
  apply bind_ok in H' as (ct & ? & Hq & H'). apply ok_or_ok in Hq as [Hct <-].
  apply bind_ok in H' as (commit & ? & Hq & H'). rewrite parse_hash_run in Hq.
  destruct (hex_decode (cr_commit_hash body)) as [h|] eqn:Hh; [|done]. case_decide as Hlen; [|done]. injection Hq as -> <-.
  apply bind_ok in H' as (chain & ? & Hq & H'). apply ok_or_ok in Hq as [Hchain <-].
  apply bind_ok in H' as (r & ? & Hq & H'). apply map_err_ok, zoom_ok in Hq as (v0 & Hwl & ->).
  apply bind_ok in H' as ([] & ? & Hq & H'). destruct r; [|by apply fail_ok in Hq]. apply ret_ok in Hq as [_ <-].
  apply bind_ok in H' as (r & ? & Hq & H'). apply map_err_ok, zoom_ok in Hq as (v1 & Hipl & ->).
  apply bind_ok in H' as ([] & ? & Hq & H'). destruct r; [|by apply fail_ok in Hq]. apply ret_ok in Hq as [_ <-].
  apply bind_ok in H' as (count & ? & Hq & H'). apply map_err_ok, zoom_ok in Hq as (v2 & Hcount & ->).
  apply bind_ok in H' as (active & ? & Hq & H'). apply lift_arith_ok in Hq as [-> <-].
  apply bind_ok in H' as (started & ? & Hq & H'). apply zoom_ok in Hq as (v3 & Hstarted & ->).
  apply bind_ok in H' as (id & ? & Hq & H'). apply map_err_ok, zoom_ok in Hq as (v4 & Hcreate & ->).
  apply bind_ok in H' as ([] & ? & Hq & H'). apply map_err_ok, zoom_ok in Hq as (v5 & Hset & ->).
  apply bind_ok in H' as (now & ? & Hq & H'). apply zoom_ok in Hq as (v6 & Hnow & ->).
  apply bind_ok in H' as ([] & ? & Hq & H'). apply modify_ok in Hq. subst.
  apply bind_ok in H' as ([] & ? & Hq & H'). apply modify_ok in Hq. subst.
  apply ret_ok in H' as [[= <- <-] <-].
  exists wallet, ct, commit, chain, active, started, now, v0, v1, v2, v3, v4, v5, v6. by split_and!.
Qed.

(** ** Properties *)

(** C1. A mint is always backed. Whatever the network, the databases and the
    caller do, ending a session adds at most one proposal, and only one that is
    pending, is the first of its session, and pays the wallet of the session that
    Redis returned, on its chain, after the session's commit matched the nonce. Its
    attestation is the one the nodes gave, in this call, over exactly the proofs that
    Redis returned for this session and with the seed the chain returned, by at least
    three distinct registered signers among the session's node and the selected ones.
    Its amount is the payout computed from the session's own calculator, which left
    the map, and, with what was confirmed of the last day's proposals, it is within
    the daily ceiling, to the wei. *)
Theorem mint_safety (state : State) sid nonce w :
  let w' := (end_session b clk state sid nonce w).2 in
  rows w' = rows w ∨
  ∃ row ctx node v twap proofs seed att u amount cents z,
    rows w' = rows w ++ [row] ∧
    revealed sid nonce w ctx v ∧ ctx_assigned_node_id ctx = Some node ∧
    attested state sid ctx node (set_redis v w) twap proofs seed att u ∧
    compute_payout b clk state sid ctx twap u = (Ok (amount, cents), z) ∧
    ¬ (sid ∈ (pr_session_id <$> rows w)) ∧ is_row_of row sid ctx amount cents att ∧
    (3 ≤ length (ar_signatures att))%nat ∧ NoDup (ar_signers att) ∧
    Forall3 (genuine (st_node_coordinator state) node proofs) (ar_signatures att) (ar_node_ids att) (ar_signers att) ∧
    minted_24h_of w + amount ≤ daily_ceiling (st_mint_ceiling state) (st_mint_ceiling_active_users state)
                      (st_mint_ceiling_avg_daily_prm_per_user state) * PRM_WEI.
Proof.
  cbv zeta. destruct (end_session_rows state sid nonce w) as
    [Hs|(row & Hs & ctx & node & v & twap & proofs & seed & att & u & amount & cents & z & Hm)]; [by left|right].
  exists row, ctx, node, v, twap, proofs, seed, att, u, amount, cents, z. naive_solver.
Qed.

(** C15. A session gets one attempt. Once the nonce matched the commit and the
    session names a node, the end of a session takes its calculator away, and only
    its own, whatever then happens and whatever is answered, errors included: an
    unreachable Redis or chain, a failed attestation, an exceeded or unread ceiling.
    Without it no end is answered with 200 and no proposal is ever added; neither
    another end nor a proof brings it back, so that the work of such a session is
    never paid. *)
Theorem failed_end_is_final (state : State) sid nonce body w :
  let r := end_session b clk state sid nonce w in
  (∀ ctx v1 bs v2 node, get_session clk sid (app_redis w) = (Ok (Some ctx), v1) → hex_decode nonce = Some bs →
     verify_reveal clk sid bs v1 = (Ok true, v2) → ctx_assigned_node_id ctx = Some node →
     app_twap r.2 = delete sid (app_twap w)) ∧
  (∀ code s, r.1 = Ok (code, s) → s ≠ "rejected" → s ≠ "no_assigned_node" → sampled sid r.2 = false) ∧
  (sampled sid w = false →
     (∀ s, r.1 ≠ Ok (200, s)) ∧ rows r.2 = rows w ∧ sampled sid r.2 = false ∧
     sampled sid (submit_proof b clk try_send state sid body w).2 = false).
Proof.
  cbv zeta. split_and!.
  - intros ctx v1 bs v2 node Hget Hbs Hv Hnode.
    rewrite (end_session_run state sid nonce w ctx node v2 ltac:(by exists bs, v1) Hnode).
    exact (finish_twap state sid ctx node (set_redis v2 w)).
  - destruct (end_session_finishes state sid nonce w) as [[_ Hk]|(ctx & node & v & _ & _ & ->)].
    + intros code s Hr. destruct (Hk _ _ Hr) as [_ [->| ->]]; done.
    + intros _ _ _ _ _. unfold sampled. by rewrite finish_twap, lookup_delete_eq.
  - intros Hn. split_and!; [| |destruct (end_session_finishes state sid nonce w) as
        [[Hk _]|(ctx & node & v & _ & _ & ->)]|by rewrite submit_proof_sampled].
    + intros s. destruct (end_session_finishes state sid nonce w) as [[_ Hk]|(ctx & node & v & _ & _ & ->)].
      * by intros [[=] _]%Hk.
      * by apply finish_unsampled.
    + unfold rows. by rewrite unsampled_rows.
    + unfold sampled. injection Hk as _ -> _. done.
    + unfold sampled. by rewrite finish_twap, lookup_delete_eq.
Qed.

(** C16. Completion does not depend on the proposal being stored: whatever the
    database holds and does with the insertion, the answer, the session's keys, the
    metrics and all else outside the database are the same; when it refuses, no
    proposal is added, yet the answer is the one of a stored proposal. *)
Theorem completed_without_proposal (state : State) sid ctx amount cents att (w : App) db :
  let run db := settle clk state sid ctx amount cents att (set_db db w) in
  (run db).1 = (run (app_db w)).1 ∧
  (∃ db', (run db).2 = set_db db' (run (app_db w)).2) ∧
  (∀ e, db_fault (db_tick db) = Some (false, e) → mint_proposals (app_db (run db).2) = mint_proposals db).
Proof.
  intros run. unfold run. split_and!.
  - etrans; [|symmetry]; apply settle_blind.
  - destruct (settle_blind state sid ctx amount cents att w db) as [_ (d1 & ->)].
    destruct (settle_blind state sid ctx amount cents att w (app_db w)) as [_ (d2 & ->)]. by exists d1.
  - intros e He. change (mint_proposals db) with (rows (set_db db w)).
    change (db_tick db) with (db_tick (app_db (set_db db w))) in He. generalize dependent (set_db db w).
    clear w run. intros w He. change (rows (settle clk state sid ctx amount cents att w).2 = rows w). unfold settle.
    do 3 (let a := fresh "a" in leaves_step (app_db : App → _) a Hs Hno Hr Hw; [unfold rows; by rewrite Hs|];
      rewrite <-Hw in He; unfold rows; rewrite <-Hw; clear Hr Hw).
    match goal with |- mint_proposals (app_db ?v) = _ => change (rows v = rows w2) end. leaves_drop rows. unfold attempt, on_db, zoom. cbn [fst snd].
    unfold insert_mint_proposal, sql. destruct (attestation_json _); [done|].
    rewrite He. by repeat case_match.
Qed.

(** C17. A proof is judged by the pre-filter alone, on the stored session's terms.
    An unknown or paused session is answered 404 or 409. An accepted call, on the
    session that Redis returned and that is not paused, stored exactly the proof that
    the request makes: the request's sequence, hashrate and difficulty, its two hex
    texts decoded (a digest of 32 bytes; no input for an empty text), the session's
    wallet, the clock's reading and no signature; after it no key of Redis is
    written. It returns whether the pre-filter rejects that proof, and a level that
    is Low exactly when the pre-filter finds nothing and Medium otherwise: one proof
    never reaches High, the level that calls for a slash vote. Errors change nothing
    outside Redis, and no call touches a proposal or another session's calculator. *)
Theorem submit_proof_correct (state : State) sid body w :
  let r := submit_proof b clk try_send state sid body w in
  (∀ v, get_session clk sid (app_redis w) = (Ok None, v) → r = (Err NotFound, set_redis v w)) ∧
  (∀ ctx v v', get_session clk sid (app_redis w) = (Ok (Some ctx), v) →
     is_paused clk sid v = (Ok true, v') → r = (Err (Conflict "session paused"), set_redis v' w)) ∧
  (∀ resp, r.1 = Ok resp → ∃ ctx v1 v2 hash input now v3 w4 v5,
     get_session clk sid (app_redis w) = (Ok (Some ctx), v1) ∧ is_paused clk sid v1 = (Ok false, v2) ∧
     hex_decode (sp_proof_hash body) = Some hash ∧ length hash = 32%nat ∧
     (if String.eqb (sp_proof_input body) "" then input = [] else hex_decode (sp_proof_input body) = Some input) ∧
     (utc_now clk v2 : outcome ApiError _ * _) = (Ok now, v3) ∧
     let proof := {| pp_session_id := sid; pp_wallet := ctx_wallet ctx; pp_sequence := sp_sequence body;
                     pp_hashrate := sp_hashrate body; pp_proof_hash := hash; pp_proof_input := input;
                     pp_difficulty := sp_difficulty body; pp_submitted_at := now; pp_signature := None |} in
     let result := prefilter_checks proof ctx in
     count_proof clk sid (sp_difficulty body) result (set_redis v3 w) = (Ok tt, w4) ∧
     store_proof clk sid proof (app_redis w4) = (Ok tt, v5) ∧ re_state (app_redis r.2) = re_state v5 ∧
     spr_accepted resp = negb (is_invalid result) ∧
     spr_suspicion_level resp = (if decide (result = Valid) then "Low" else "Medium")) ∧
  (∀ e, r.1 = Err e → outside r.2 = outside w) ∧
  rows r.2 = rows w ∧ ∀ id, id ≠ sid → app_twap r.2 !! id = app_twap w !! id.
Proof.
  intros r. unfold r. split_and!.
  - intros v Hg. unfold submit_proof, internal, on_redis, mbind, M_bind, map_err, zoom. by rewrite Hg.
  - intros ctx v v' Hg Hp. unfold submit_proof, internal, on_redis, mbind, M_bind, map_err, zoom. rewrite Hg. cbn.
    by rewrite Hp.
  - intros resp Hr. destruct (submit_proof _ _ _ _ _ _ w) as [o w'] eqn:E. cbn in Hr. subst o.
    by apply submit_proof_ok in E.
  - intros e. apply submit_proof_errs.
  - apply submit_proof_rows.
  - intros id Hne. by apply (submit_proof_others state sid body id Hne).
Qed.

(** C18. A session is created whole or not at all, up to what is in Redis. A wallet,
    client type, commit hash or chain that does not parse is answered 400 before
    anything is touched; a failure of any kind, rate limits included, changes
    nothing outside Redis. A success is a 201 with the requested session's id and
    site, and its whole effect is this: the wallet's and the address's rate limits
    allowed it, the wallet's active sessions were counted, the clock was read, the
    requested session with that count and instant was stored and its commit under
    the same id, the clock was read again, and in that Redis the session gets a
    fresh calculator and the gauge of active sessions one more. *)
Theorem create_session_correct (state : State) ip body w :
  let r := create_session b clk fuel state ip body w in
  (parse_address (cr_wallet body) = None ∨ parse_client_type (cr_client_type body) = None ∨
   (∀ h, hex_decode (cr_commit_hash body) = Some h → length h ≠ 32%nat) ∨ from_str_id (cr_chain body) = None →
     ∃ msg, r = (Err (BadRequest msg), w)) ∧
  ((∀ x, r.1 ≠ Ok x) → outside r.2 = outside w) ∧
  (∀ code resp, r.1 = Ok (code, resp) →
     ∃ wallet ct commit chain active started now v0 v1 v2 v3 v4 v5 v6,
       parse_address (cr_wallet body) = Some wallet ∧ parse_client_type (cr_client_type body) = Some ct ∧
       hex_decode (cr_commit_hash body) = Some commit ∧ length commit = 32%nat ∧
       from_str_id (cr_chain body) = Some chain ∧
       check_wallet clk address_display wallet (app_redis w) = (Ok Allowed, v0) ∧
       check_ip clk ip v0 = (Ok Allowed, v1) ∧
       get_active_session_count b clk fuel wallet v1 = (Ok (Some active), v2) ∧
       (utc_now clk v2 : outcome ApiError _ * _) = (Ok started, v3) ∧
       SessionStore.create_session clk (requested state ip body wallet ct chain active started) v3 =
         (Ok (csr_session_id resp), v4) ∧
       set_commit clk (csr_session_id resp) commit v4 = (Ok tt, v5) ∧
       (utc_now clk v5 : outcome ApiError _ * _) = (Ok now, v6) ∧
       code = 201 ∧ csr_assigned_site resp = (id ← cr_assigned_node_id body; st_node_sites state !! id) ∧
       r.2 = set_metrics (mkMetrics (m_session_active (app_metrics w) + 1) (m_proofs (app_metrics w))
               (m_anomalies (app_metrics w)) (m_proposals (app_metrics w)))
             (set_twap (<[csr_session_id resp := twap_new now]> (app_twap w)) (set_redis v6 w))).
Proof.
  intros r. unfold r. split_and!.
  - apply create_session_malformed.
  - apply create_session_fails.
  - intros code resp Hr. destruct (create_session _ _ _ _ _ _ w) as [o w'] eqn:E. cbn in Hr. subst o.
    by apply create_session_ok.
Qed.

(** C38. Only the owner pauses or resumes. When the session cannot be read the answer
    is 500, when there is none 404, for a wallet that does not parse 400 and for
    another wallet than the session's 403: in each case nothing is written after the
    read of the session. For the owner the flag is written, and only it, and the
    answer is its new value; a write that fails is a 500. *)
Theorem owner_only sid raw (w : App) :
  let pause := pause_session clk sid raw w in
  let resume := resume_session clk sid raw w in
  (∀ e v, get_session clk sid (app_redis w) = (Err e, v) →
     pause = (Err ApiInternal, set_redis v w) ∧ resume = (Err ApiInternal, set_redis v w)) ∧
  (∀ v, get_session clk sid (app_redis w) = (Ok None, v) →
     pause = (Err NotFound, set_redis v w) ∧ resume = (Err NotFound, set_redis v w)) ∧
  (∀ ctx v, get_session clk sid (app_redis w) = (Ok (Some ctx), v) →
     (parse_address raw = None →
        pause = (Err (BadRequest "invalid wallet address"), set_redis v w) ∧
        resume = (Err (BadRequest "invalid wallet address"), set_redis v w)) ∧
     (∀ wallet, parse_address raw = Some wallet → wallet ≠ ctx_wallet ctx →
        pause = (Err (Forbidden "wallet does not own this session"), set_redis v w) ∧
        resume = (Err (Forbidden "wallet does not own this session"), set_redis v w)) ∧
     (parse_address raw = Some (ctx_wallet ctx) →
        (∀ v', set_paused clk sid v = (Ok tt, v') → pause = (Ok true, set_redis v' w)) ∧
        (∀ v', clear_paused clk sid v = (Ok tt, v') → resume = (Ok false, set_redis v' w)) ∧
        (∀ e v', set_paused clk sid v = (Err e, v') → pause = (Err ApiInternal, set_redis v' w)) ∧
        (∀ e v', clear_paused clk sid v = (Err e, v') → resume = (Err ApiInternal, set_redis v' w)))).
Proof.
  cbv zeta. unfold pause_session, resume_session, authorize_session_owner, parse_wallet, internal, on_redis,
    mbind, M_bind, map_err, zoom. split_and!; [by intros e v ->|by intros v ->|intros ctx v ->; cbn].
  split_and!; [by intros ->|intros wallet -> Hne; cbn; by rewrite decide_True|intros ->; cbn].
  rewrite decide_False by (by intros []). cbn.
  split_and!; [intros v' ->|intros v' ->|intros e v' ->|intros e v' ->]; done.
Qed.
End lifecycle.

#[export] Hint Extern 2 (leaves _ (session_seed _)) => apply session_seed_leaves; done : leaves.
#[export] Hint Extern 2 (leaves _ (compute_payout _ _ _ _ _ _)) => apply compute_payout_leaves; done : leaves.
#[export] Hint Extern 2 (leaves _ (take_twap _ _ _)) => apply take_twap_leaves; done : leaves.
#[export] Hint Extern 2 (leaves _ (submit_all _ _ _)) => apply submit_all_leaves; done : leaves.
#[export] Hint Extern 2 (leaves _ (on_events _)) => apply on_events_leaves; done : leaves.
#[export] Hint Extern 2 (leaves _ (ignore _)) => apply leaves_ignore; done : leaves.

(** ** A session from start to mint

    An empty store, the network of four nodes of NodeCoordinator, a fixed price,
    and a chain that answers. *)
#[local] Existing Instances toy_timer toy_crypto toy_message_signer toy_codec toy_grpc.
Fixpoint string_bytes (s : string) : bytes :=
  match s with EmptyString => [] | String c s => Z.of_nat (nat_of_ascii c) :: string_bytes s end.
Fixpoint bytes_string (l : bytes) : string :=
  match l with [] => "" | x :: l => String (ascii_of_nat (Z.to_nat x)) (bytes_string l) end.
Lemma bytes_string_bytes s : bytes_string (string_bytes s) = s.
Proof. induction s as [|c s IH]; cbn; [done|]. by rewrite IH, Nat2Z.id, ascii_nat_embedding. Qed.
#[local] Instance toy_service_codec : ServiceCodec := {|
  parse_address := parse_u U64_MAX;
  hex_decode s := Some (string_bytes s);
  string_debug s := s
|}.
Definition toy_as_bytes (s : Signature) : bytes := [sig_r s; sig_s s; if sig_y_parity s then 1 else 0].
Definition toy_try_from (l : bytes) : option Signature :=
  match l with [r; s; p] => Some (mkSignature r s (p =? 1)) | _ => None end.
Lemma toy_signature_roundtrip s : toy_try_from (toy_as_bytes s) = Some s.
Proof. by destruct s as [r s []]. Qed.
#[local] Instance toy_proposal_signer : ProposalSigner Z := {|
  proposal_json p := inr [mp_gross_prm p];
  sign_bytes k m := inr (mkSignature k (foldr Z.add 0 m) false);
  as_bytes := toy_as_bytes;
  signature_try_from := toy_try_from;
  signature_roundtrip := toy_signature_roundtrip
|}.
#[local] Instance toy_chain : Rpc nat unit := {|
  block_number _ w := (inr 100, w);
  block_hash _ n w := (inr (Some toy_seed), w);
  pending_nonce _ _ w := (inr 0, w);
  transact _ _ _ _ w := (inl "offline", w);
  call_stakes _ _ _ w := (inr (mkRawStake 0 0 false), w);
  call_edge _ _ w := (inr 1700, w);
  call_token _ _ _ w := (inr 1, w);
  call_balance _ _ _ w := (inr 0, w);
  call_reserve _ _ _ w := (inr 0, w);
  call_proposal _ _ _ w := (inl "none", w);
  instant _ := 0
|}.

Definition run_clk (n : nat) : DateTime := sclk (60 * n).
Definition toy_state : AppState (P:=unit) (C:=GrpcNodeClient (Channel:=Z)) (Key:=Z) := {|
  st_mint_ceiling := mint_ceiling_new;
  st_onchain_client := mkOnchainClient tt 137;
  st_node_coordinator := toy_coordinator true;
  st_signing_key := 99;
  st_oracle_reader := oracle_new default_chainlink_feeds default_pyth_feeds;
  st_oracle_submitters := [(Polygon, mkOracleSubmitter tt 1 2)];
  st_staking_readers := [];
  st_treasury_readers := [];
  st_house_edge_reader := None;
  st_node_sites := ∅;
  st_admin_wallets := {[42]};
  st_admin_session_secret := Some [1; 2; 3];
  st_admin_domain := "admin.primora.io";
  st_admin_session_ttl := 3600;
  st_company_wallet := None;
  st_mint_ceiling_active_users := 1000;
  st_mint_ceiling_avg_daily_prm_per_user := 100
|}.
Definition toy_app : App MemRedis nat :=
  mkApp s_empty (mkDb [] [] 0) 1000%nat ∅ None [] (mkMetrics 0 [] [] []) ∅ ∅.

Definition toy_create : CreateSessionRequest :=
  mkCreateSessionRequest "7" "Desktop" (bytes_string (toy_digest [33])) (Some "n1") "gold" "polygon" 8.
Definition toy_submit : SubmitProofRequest :=
  mkSubmitProofRequest 0 1000 (bytes_string (RandomX.toy_hash [1; 2; 3])) (bytes_string [1; 2; 3]) 6000000.
(** What the store holds of them, with the clock's readings. *)
Definition toy_session (active : Z) (at_tick : nat) : SessionContext :=
  requested toy_state "10.0.0.1" toy_create 7 Desktop Polygon active (run_clk at_tick).
Definition run_proof (sid : SessionId) (at_tick : nat) : PartialProof :=
  mkPartialProof sid 7 0 1000 (RandomX.toy_hash [1; 2; 3]) [1; 2; 3] 6000000 (run_clk at_tick) None.


(** The codec of the values that occur. *)
Definition run_codec : SessionCodec :=
  table_codec [toy_session 0 5] [[run_proof "s6" 14]; [run_proof "s6" 14; run_proof "s6" 28]]
    ltac:(apply Nat.leb_le; reflexivity) ltac:(apply Nat.leb_le; reflexivity).
#[local] Existing Instance run_codec.
Definition send_all (e : AnomalyEvent) (q : list AnomalyEvent) : bool * list AnomalyEvent := (true, q ++ [e]).
Definition HM_run (A : Type) : Type := HM (R:=MemRedis) (X:=nat) A.

(** A session with two proofs, ended with its nonce. *)
Definition toy_run : HM_run (Z * string) :=
  '(_, created) ← create_session Debug run_clk 10 toy_state "10.0.0.1" toy_create;
  submit_proof Debug run_clk send_all toy_state (csr_session_id created) toy_submit ;;
  submit_proof Debug run_clk send_all toy_state (csr_session_id created) toy_submit ;;
  end_session Debug run_clk toy_state (csr_session_id created) "!".

Example toy_run_mints :
  (toy_run toy_app).1 = Ok (200, "completed") ∧
  (λ r, (pr_session_id r, pr_wallet r, pr_gross_prm r, pr_net_usd_cents r, pr_status r)) <$> rows (toy_run toy_app).2 =
    [("s6", "0x7", 2040 * PRM_WEI, Some 173, "Pending")].
Proof. split; vm_compute; reflexivity. Qed.

(** The owner pauses the session; another wallet cannot. *)
Definition toy_started : App MemRedis nat :=
  (create_session Debug run_clk 10 toy_state "10.0.0.1" toy_create toy_app).2.

Lemma toy_started_session :
  ∃ v, get_session run_clk "s6" (app_redis toy_started) = (Ok (Some (toy_session 0 5)), v) ∧
    ∃ v', set_paused run_clk "s6" v = (Ok tt, v').
Proof.
  destruct (get_session run_clk "s6" (app_redis toy_started)) as [o v] eqn:E. exists v.
  assert (o = Ok (Some (toy_session 0 5))) as -> by (apply (f_equal fst) in E; cbn [fst] in E; rewrite <-E; vm_compute; reflexivity).
  split; [done|]. destruct (set_paused run_clk "s6" v) as [o v'] eqn:E'. exists v'.
  apply (f_equal snd) in E. cbn [snd] in E. apply (f_equal fst) in E'. rewrite <-E in E'. vm_compute in E'. congruence.
Qed.

Lemma owner_only_witness :
  (pause_session run_clk "s6" "8" toy_started).1 = Err (Forbidden "wallet does not own this session") ∧
  (pause_session run_clk "s6" "7" toy_started).1 = Ok true ∧
  (resume_session run_clk "s9" "7" toy_started).1 = Err NotFound.
Proof.
  destruct toy_started_session as (v & Hv & v' & Hv').
  destruct (owner_only run_clk "s6" "8" toy_started) as (_ & _ & Ho).
  destruct (owner_only run_clk "s6" "7" toy_started) as (_ & _ & Ho').
  destruct (owner_only run_clk "s9" "7" toy_started) as (_ & Hnone & _).
  destruct (Ho _ _ Hv) as (_ & H8 & _). destruct (Ho' _ _ Hv) as (_ & _ & H7).
  split; [|split].
  - destruct (H8 8) as [-> _]; [reflexivity|discriminate|reflexivity].
  - destruct H7 as [H7 _]; [reflexivity|]. rewrite (H7 v' Hv'). reflexivity.
  - destruct (get_session run_clk "s9" (app_redis toy_started)) as [o v9] eqn:E.
    assert (o = Ok None) as -> by (apply (f_equal fst) in E; cbn [fst] in E; rewrite <-E; vm_compute; reflexivity).
    destruct (Hnone v9 eq_refl) as [_ ->]. reflexivity.
Defined.
