(* ===== verification/Total.v ===== *)
(** * Total correctness of the store's operations

    [ends m w Q]: the program [m] returns a value, in a state that [Q] relates to it;
    no error, no panic. The rules for it, program by program, on a Redis server that is
    up: the commands by what the server shows ([shown]), the methods of the session
    store by what has been recorded for a session ([Progress], [on_server]), the
    creation of a session and the limiter by what they leave. *)
From S2P Require Import Prelude Common Redis RateLimiter SessionStore.

(** ** Total correctness *)
Definition ends {W E A} (m : M W E A) (w : W) (Q : A → W → Prop) : Prop :=
  match m w with (Ok a, w') => Q a w' | _ => False end.

Section ends.
Context {W E : Type}.
Implicit Types w : W.
Lemma ends_iff {A} (m : M W E A) w Q : ends m w Q ↔ ∃ a w', m w = (Ok a, w') ∧ Q a w'.
Proof. unfold ends. destruct (m w) as [[a|e|] w']; naive_solver. Qed.
Lemma ends_mono {A} (m : M W E A) w (Q Q' : A → W → Prop) :
  ends m w Q → (∀ a w', Q a w' → Q' a w') → ends m w Q'.
Proof. unfold ends. destruct (m w) as [[a|e|] w']; auto. Qed.
(** What is shown of the end may use the run itself. *)
Lemma ends_run {A} (m : M W E A) w (Q : A → W → Prop) :
  ends m w (λ a w', m w = (Ok a, w') → Q a w') → ends m w Q.
Proof. unfold ends. destruct (m w) as [[a|e|] w']; auto. Qed.
Lemma ends_ret {A} (a : A) w Q : Q a w → ends (mret a : M W E A) w Q.
Proof. done. Qed.
Lemma ends_bind {A B} (m : M W E A) (f : A → M W E B) w Q :
  ends m w (λ a w', ends (f a) w' Q) → ends (m ≫= f) w Q.
Proof. unfold ends, mbind, M_bind. by destruct (m w) as [[a|e|] w']. Qed.
Lemma ends_gets {A} (f : W → A) w Q : Q (f w) w → ends (gets f : M W E A) w Q.
Proof. done. Qed.
Lemma ends_modify (f : W → W) w Q : Q tt (f w) → ends (modify f : M W E unit) w Q.
Proof. done. Qed.
Lemma ends_ok_or {A} (o : option A) (e : E) a w Q : o = Some a → Q a w → ends (ok_or o e : M W E A) w Q.
Proof. by intros ->. Qed.
Lemma ends_lift {A} (o : option A) a w Q : o = Some a → Q a w → ends (lift_arith o : M W E A) w Q.
Proof. by intros ->. Qed.
Lemma ends_map_err {E' A} (f : E' → E) (m : M W E' A) w Q : ends m w Q → ends (map_err f m) w Q.
Proof. unfold ends, map_err. by destruct (m w) as [[a|e|] w']. Qed.
Lemma ends_attempt {E' A} (m : M W E' A) w Q :
  ends m w (λ a, Q (inr a)) → ends (attempt m : M W E (E' + A)) w Q.
Proof. unfold ends, attempt. by destruct (m w) as [[a|e|] w']. Qed.
(** A call whose error is caught only has to not panic. *)
Lemma ends_caught {E' A} (m : M W E' A) w (Q : E' + A → W → Prop) :
  (m w).1 ≠ Panic → (∀ r, Q r (m w).2) → ends (attempt m : M W E (E' + A)) w Q.
Proof. unfold ends, attempt. destruct (m w) as [[a|e|] w']; cbn; intros Hp HQ; [apply HQ..|done]. Qed.
Lemma ends_zoom {V A} (g : W → V) (set : V → W → W) (m : M V E A) w Q :
  ends m (g w) (λ a v, Q a (set v w)) → ends (zoom g set m) w Q.
Proof. unfold ends, zoom. by destruct (m (g w)) as [[a|e|] v]. Qed.
End ends.

(** ** Programs on a reachable server, over what is seen

    Before the [n]-th reading of the clock the server is healthy and shows [v]. *)
Section server.
Context {R : Type} `{!RedisServer R} (clk : nat → DateTime).
Hypothesis Hclk : ∀ n m, (n ≤ m)%nat → clk n ≤ clk m.

Definition shown (n : nat) (v : view) (w : renv R) : Prop :=
  healthy (re_state w) ∧ re_tick w = n ∧ view_from (clk n) (sees w) v.

Lemma shown_redis c n v w (Q : reply → renv R → Prop) :
  shown n v w → accepted_cmd c (clk n) v →
  (∀ r w', answers glob c (clk n) v r → shown (S n) (effect c (clk n) v) w' → Q r w') →
  ends (redis clk c) w Q.
Proof.
  intros (Hh & <- & Hv) Hc HQ. apply ends_iff.
  assert (∀ k, sees w (clk (re_tick w)) k = v (clk (re_tick w)) k) as Heq by (intros; apply Hv; lia).
  destruct (redis_healthy clk c w Hh) as (r & w' & E & Hh' & Ha & Hv' & Ht).
  { destruct c; cbn in *; try done. unfold now_of. by rewrite Heq. }
  exists r, w'. split; [done|]. apply HQ.
  - destruct c; cbn in *; unfold now_of in *; rewrite <-?Heq; try done.
    destruct Ha as (nx & ks & -> & Hks). exists nx, ks. split; [done|].
    eapply Forall_impl; [exact Hks|]. cbn. intros k. by rewrite Heq.
  - split_and!; [done|done|]. unfold now_of in Hv'. intros t' k Ht'.
    pose proof (Hclk (re_tick w) (S (re_tick w)) ltac:(lia)).
    rewrite Hv' by lia. by apply effect_proper; [apply Hv|lia].
Qed.

Lemma shown_now {E} n v w (Q : DateTime → renv R → Prop) :
  shown n v w → (∀ w', shown (S n) v w' → Q (clk n) w') → ends (utc_now clk : M (renv R) E DateTime) w Q.
Proof.
  intros (Hh & <- & Hv) HQ. unfold ends, utc_now. apply HQ. split_and!; [done|done|].
  intros t' k Ht'. apply Hv. pose proof (Hclk (re_tick w) (S (re_tick w)) ltac:(lia)). lia.
Qed.

End server.

(** ** The store's commands as such programs *)
Section store.
Context {R : Type} `{!RedisServer R} `{Codec : !SessionCodec} (b : build) (clk : nat → DateTime).
Hypothesis Hclk : ∀ n m, (n ≤ m)%nat → clk n ≤ clk m.
Abbreviation shown := (shown clk).
Implicit Types (w : renv R) (v : view).

Lemma query_ends {A} (f : reply → RedisError + A) c n v w (Q : A → renv R → Prop) :
  shown n v w → accepted_cmd c (clk n) v →
  (∀ r w', answers glob c (clk n) v r → shown (S n) (effect c (clk n) v) w' → ∃ a, f r = inr a ∧ Q a w') →
  ends (query clk f c) w Q.
Proof.
  intros Hs Hc HQ. unfold query. apply ends_map_err, ends_bind.
  eapply (shown_redis clk Hclk); [done..|]. intros r w' Ha Hs'. destruct (HQ r w' Ha Hs') as (a & Hf & Hq).
  unfold decode. rewrite Hf. by apply ends_ret.
Qed.

Lemma exec_unit_ends c n v w (Q : unit → renv R → Prop) :
  shown n v w → accepted_cmd c (clk n) v → (∀ w', shown (S n) (effect c (clk n) v) w' → Q tt w') →
  ends (exec_unit clk c) w Q.
Proof.
  intros Hs Hc HQ. unfold exec_unit, cmd. apply ends_bind, ends_map_err.
  eapply (shown_redis clk Hclk); [done..|]. intros r w' _ Hs'. by apply ends_ret, HQ.
Qed.

Lemma get_ends k n v w (Q : option string → renv R → Prop) :
  shown n v w → (∀ w', shown (S n) v w' → Q (v (clk n) k) w') → ends (query clk as_opt_string (GET k)) w Q.
Proof.
  intros Hs HQ. eapply query_ends; [done..|]. cbn. intros r w' -> Hs'. eexists. split; [|by apply HQ].
  by destruct (v (clk n) k); autorewrite with prm_rw.
Qed.

(** An integer is printed under a key, or none is. *)
Definition holds_int (v : view) (t : DateTime) (k : string) (o : option Z) : Prop :=
  v t k = show <$> o ∧ ∀ z, o = Some z → I64_MIN ≤ z ≤ I64_MAX.

Lemma get_int_ends k n v w o (Q : option Z → renv R → Prop) :
  shown n v w → holds_int v (clk n) k o → (∀ w', shown (S n) v w' → Q o w') →
  ends (query clk as_opt_i64 (GET k)) w Q.
Proof.
  intros Hs [Hv Ho] HQ. eapply query_ends; [done..|]. cbn. rewrite Hv. intros r w' -> Hs'.
  exists o. split; [|by apply HQ]. destruct o as [z|]; cbn; [|by autorewrite with prm_rw].
  apply as_opt_i64_bulk. unfold parse_i64. apply parse_i_show; [lia|by apply Ho].
Qed.

(** A counter goes up; its life is as it was. *)
Definition raised (v : view) (k : string) (o : option Z) (z : Z) : view :=
  set_key v k (λ t, match o, v t k with
    | Some _, None => None
    | _, _ => Some (show (default 0 o + z))
    end).

Lemma raised_other v k o z t k' : k' ≠ k → raised v k o z t k' = v t k'.
Proof. apply set_key_ne. Qed.

Lemma incr_ends k z n v w o (Q : Z → renv R → Prop) :
  shown n v w → holds_int v (clk n) k o → I64_MIN ≤ z ≤ I64_MAX → I64_MIN ≤ default 0 o + z ≤ I64_MAX →
  (∀ w', shown (S n) (raised v k o z) w' → Q (default 0 o + z) w') →
  ends (query clk as_i64 (INCRBY k z)) w Q.
Proof.
  intros Hs [Hv Ho] Hz Hr HQ.
  assert (counter (v (clk n) k) = Some (default 0 o)) as Hc.
  { rewrite Hv. destruct o as [x|]; cbn; [|done]. unfold parse_i64. apply parse_i_show; [lia|by apply Ho]. }
  eapply query_ends; [done|by eexists|]. intros r w' (y & Hy & -> & _) Hs'.
  rewrite Hc in Hy. injection Hy as <-. exists (default 0 o + z). split; [by apply as_i64_int|]. apply HQ.
  destruct Hs' as (Hh & Ht & Hvw). split_and!; [done|done|]. intros t k' Hk. rewrite Hvw by done.
  cbn [effect]. rewrite Hv. unfold raised. destruct o as [x|]; cbn [fmap option_fmap option_map default from_option id].
  - unfold parse_i64. rewrite parse_i_show by (lia || by apply Ho). done.
  - done.
Qed.
End store.

(** ** A session on the server *)

(** What a session has on the server besides its record and its commit. *)
Record Progress := mkProgress {
  pg_proofs : list PartialProof;
  pg_first : option Z;
  pg_sum : option Z;
  pg_last : option Z;
  pg_count : option Z;
  pg_verified : option Z
}.
Definition no_progress : Progress := mkProgress [] None None None None None.

Section record.
Context {R : Type} `{!RedisServer R} `{Codec : !SessionCodec} (b : build) (clk : nat → DateTime).
Hypothesis Hclk : ∀ n m, (n ≤ m)%nat → clk n ≤ clk m.
Context (ctx : SessionContext) (sid : SessionId) (commit : bytes).
Abbreviation shown := (shown clk).
Implicit Types (w : renv R) (v : view) (p : Progress).

(** The session's keys at the instant [t]. *)
Definition recorded p v t : Prop :=
  v t (lookup_key sid) = Some (address_display (ctx_wallet ctx)) ∧
  (∃ payload, v t (session_key (address_display (ctx_wallet ctx)) sid) = Some payload ∧
     ctx_to_json ctx = inr payload) ∧
  v t (commit_key sid) = Some (hex_encode commit) ∧ v t (paused_key sid) = None ∧
  match v t (proofs_key sid) with
  | Some x => proofs_to_json (pg_proofs p) = inr x
  | None => pg_proofs p = []
  end ∧
  holds_int v t (first_key sid) (pg_first p) ∧ holds_int v t (sum_key sid) (pg_sum p) ∧
  holds_int v t (activity_key sid) (pg_last p) ∧ holds_int v t (proof_count_key sid) (pg_count p) ∧
  holds_int v t (verified_key sid) (pg_verified p).
(** From the [n]-th reading of the clock until [d]. *)
Definition kept_until (d : DateTime) (n : nat) p v : Prop := ∀ t, clk n ≤ t < d → recorded p v t.

Lemma kept_later d n m p v : (n ≤ m)%nat → kept_until d n p v → kept_until d m p v.
Proof. intros Hn Hk t Ht. apply Hk. pose proof (Hclk n m Hn). lia. Qed.

Lemma kept_same d n p v v' :
  (∀ t k, clk n ≤ t < d → v' t k = v t k) → kept_until d n p v → kept_until d n p v'.
Proof. intros Heq Hk t Ht. specialize (Hk t Ht). unfold recorded, holds_int in *. by rewrite !Heq. Qed.

Definition set_count o p := mkProgress (pg_proofs p) (pg_first p) (pg_sum p) (pg_last p) o (pg_verified p).
Definition set_verified o p := mkProgress (pg_proofs p) (pg_first p) (pg_sum p) (pg_last p) (pg_count p) o.
Definition set_first o p := mkProgress (pg_proofs p) o (pg_sum p) (pg_last p) (pg_count p) (pg_verified p).
Definition set_sum o p := mkProgress (pg_proofs p) (pg_first p) o (pg_last p) (pg_count p) (pg_verified p).
Definition set_last o p := mkProgress (pg_proofs p) (pg_first p) (pg_sum p) o (pg_count p) (pg_verified p).
Definition set_proofs l p := mkProgress l (pg_first p) (pg_sum p) (pg_last p) (pg_count p) (pg_verified p).

Lemma holds_int_ne v k f t k' o : k' ≠ k → holds_int v t k' o → holds_int (set_key v k f) t k' o.
Proof. intros Hne [Hv Ho]. split; [by rewrite set_key_ne|done]. Qed.
Lemma holds_int_eq v k f t z : f t = Some (show z) → I64_MIN ≤ z ≤ I64_MAX → holds_int (set_key v k f) t k (Some z).
Proof. intros Hf Hz. split; [by rewrite set_key_eq|by intros ? [= <-]]. Qed.
Lemma raised_int v t k o z :
  holds_int v t k o → I64_MIN ≤ default 0 o + z ≤ I64_MAX → holds_int (raised v k o z) t k (Some (default 0 o + z)).
Proof. intros [Hv Ho] Hz. apply holds_int_eq; [|done]. rewrite Hv. by destruct o. Qed.

(** One key changes: the others of the session are as they were. *)
Ltac one_key Hk :=
  intros t Ht; destruct (Hk t Ht) as (H1 & H2 & H3 & H4 & H5 & H6 & H7 & H8 & H9 & H10);
  unfold recorded, raised; cbn [pg_proofs pg_first pg_sum pg_last pg_count pg_verified
    set_proofs set_first set_sum set_last set_count set_verified];
  rewrite ?set_key_eq, ?set_key_ne by discriminate;
  split_and!; try done; try (apply holds_int_ne; [discriminate|done]).

Lemma kept_count d n p v :
  kept_until d n p v → I64_MIN ≤ default 0 (pg_count p) + 1 ≤ I64_MAX →
  kept_until d n (set_count (Some (default 0 (pg_count p) + 1)) p) (raised v (proof_count_key sid) (pg_count p) 1).
Proof. intros Hk Hr. one_key Hk. by apply raised_int. Qed.

Lemma kept_verified d n p v :
  kept_until d n p v → I64_MIN ≤ default 0 (pg_verified p) + 1 ≤ I64_MAX →
  kept_until d n (set_verified (Some (default 0 (pg_verified p) + 1)) p) (raised v (verified_key sid) (pg_verified p) 1).
Proof. intros Hk Hr. one_key Hk. by apply raised_int. Qed.

Lemma kept_sum d n p v z :
  kept_until d n p v → I64_MIN ≤ default 0 (pg_sum p) + z ≤ I64_MAX →
  kept_until d n (set_sum (Some (default 0 (pg_sum p) + z)) p) (raised v (sum_key sid) (pg_sum p) z).
Proof. intros Hk Hr. one_key Hk. by apply raised_int. Qed.

Lemma kept_first d n p v z e :
  kept_until d n p v → d ≤ e → I64_MIN ≤ z ≤ I64_MAX →
  kept_until d n (set_first (Some z) p) (set_key v (first_key sid) (until e (show z))).
Proof. intros Hk He Hr. one_key Hk. apply holds_int_eq; [apply until_before; lia|done]. Qed.

Lemma kept_last d n p v z e :
  kept_until d n p v → d ≤ e → I64_MIN ≤ z ≤ I64_MAX →
  kept_until d n (set_last (Some z) p) (set_key v (activity_key sid) (until e (show z))).
Proof. intros Hk He Hr. one_key Hk. apply holds_int_eq; [apply until_before; lia|done]. Qed.

Lemma kept_proofs d n p v l x e :
  kept_until d n p v → d ≤ e → proofs_to_json l = inr x →
  kept_until d n (set_proofs l p) (set_key v (proofs_key sid) (until e x)).
Proof. intros Hk He Hr. one_key Hk. by rewrite until_before by lia. Qed.

(** A new expiry that does not come before [d]. *)
Lemma kept_expire d n p v k o s :
  kept_until d n p v → clk n < d ≤ clk n + secs s → (∀ t, clk n ≤ t < d → holds_int v t k o) →
  kept_until d n p (effect (EXPIRE k s) (clk n) v).
Proof.
  intros Hk Hd Ho. eapply kept_same, Hk. intros t k' Ht. cbn [effect].
  destruct (v (clk n) k) as [x|] eqn:E; [|done]. unfold set_key. case_decide as Heq; [|done]. subst k'.
  rewrite until_before by lia. destruct (Ho t Ht) as [-> _], (Ho (clk n) ltac:(lia)) as [E' _]. congruence.
Qed.

(** The server shows the session with the progress [p] at the [n]-th reading. *)
Definition on_server (d : DateTime) (n : nat) p w : Prop := ∃ v, shown n v w ∧ kept_until d n p v.

Lemma on_server_now {E} d n p w (Q : DateTime → renv R → Prop) :
  on_server d n p w → (∀ w', on_server d (S n) p w' → Q (clk n) w') → ends (utc_now clk : M (renv R) E DateTime) w Q.
Proof.
  intros (v & Hs & Hk) HQ. eapply (shown_now clk Hclk); [done|]. intros w' Hs'. apply HQ.
  exists v. split; [done|]. eapply kept_later, Hk. lia.
Qed.

(** A write, from what it does to the keys. *)
Lemma on_server_exec d n p p' w c (Q : unit → renv R → Prop) :
  on_server d n p w → (∀ v, accepted_cmd c (clk n) v) →
  (∀ v, kept_until d n p v → kept_until d n p' (effect c (clk n) v)) →
  (∀ w', on_server d (S n) p' w' → Q tt w') → ends (exec_unit clk c) w Q.
Proof.
  intros (v & Hs & Hk) Ha He HQ. eapply exec_unit_ends; [done..|]. intros w' Hs'. apply HQ.
  eexists. split; [done|]. eapply kept_later, He, Hk. lia.
Qed.

Lemma on_server_incr d n p p' w k (o : Progress → option Z) z (Q : Z → renv R → Prop) :
  on_server d n p w → clk n < d → (∀ v t, recorded p v t → holds_int v t k (o p)) →
  I64_MIN ≤ z ≤ I64_MAX → I64_MIN ≤ default 0 (o p) + z ≤ I64_MAX →
  (∀ v, kept_until d n p v → kept_until d n p' (raised v k (o p) z)) →
  (∀ w', on_server d (S n) p' w' → Q (default 0 (o p) + z) w') → ends (query clk as_i64 (INCRBY k z)) w Q.
Proof.
  intros (v & Hs & Hk) Hn Ho Hz Hr Hp HQ. eapply incr_ends; [done|done|apply Ho, Hk; lia|done|done|].
  intros w' Hs'. apply HQ. eexists. split; [done|]. eapply kept_later, Hp, Hk. lia.
Qed.

Lemma get_session_ends d n p w (Q : option SessionContext → renv R → Prop) :
  on_server d n p w → clk (S n) < d → (∀ w', on_server d (2 + n) p w' → Q (Some ctx) w') →
  ends (get_session clk sid) w Q.
Proof.
  intros (v & Hs & Hk) Hn HQ. pose proof (Hclk n (S n) ltac:(lia)).
  destruct (Hk (clk n) ltac:(lia)) as (H1 & _). destruct (Hk (clk (S n)) ltac:(lia)) as (_ & (x & H2 & Hx) & _).
  unfold get_session. apply ends_bind. eapply get_ends; [done..|]. intros w1 Hs1. rewrite H1.
  apply ends_bind. eapply get_ends; [done..|]. intros w2 Hs2. rewrite H2.
  apply ends_bind. unfold json. rewrite (ctx_json_roundtrip _ _ Hx). apply ends_ret, ends_ret, HQ.
  exists v. split; [done|]. eapply kept_later, Hk. lia.
Qed.

Lemma is_paused_ends d n p w (Q : bool → renv R → Prop) :
  on_server d n p w → clk n < d → (∀ w', on_server d (S n) p w' → Q false w') → ends (is_paused clk sid) w Q.
Proof.
  intros (v & Hs & Hk) Hn HQ. destruct (Hk (clk n) ltac:(lia)) as (_ & _ & _ & H4 & _).
  unfold is_paused. eapply query_ends; [done..|]. cbn [answers effect]. rewrite H4. intros r w' -> Hs'.
  exists false. split; [by rewrite as_bool_int|]. apply HQ. exists v. split; [done|]. eapply kept_later, Hk. lia.
Qed.

Lemma verify_reveal_ends d n p w nonce (Q : bool → renv R → Prop) :
  on_server d n p w → clk n < d → sha256 nonce = commit → (∀ w', on_server d (S n) p w' → Q true w') →
  ends (verify_reveal clk sid nonce) w Q.
Proof.
  intros (v & Hs & Hk) Hn Hc HQ. destruct (Hk (clk n) ltac:(lia)) as (_ & _ & H3 & _).
  unfold verify_reveal. apply ends_bind. eapply get_ends; [done..|]. intros w' Hs'. rewrite H3, <-Hc.
  destruct (String.eqb_spec (hex_encode (sha256 nonce)) COMMIT_PENDING) as [Heq|_].
  { pose proof (hex_encode_length (sha256 nonce)) as Hl. rewrite Heq, (proj2 (sha256_bytes nonce)) in Hl. done. }
  apply ends_ret. rewrite String.eqb_refl. apply HQ. exists v. split; [done|]. eapply kept_later, Hk. lia.
Qed.

Lemma get_proofs_ends d n p w (Q : list PartialProof → renv R → Prop) :
  on_server d n p w → clk n < d → (∀ w', on_server d (S n) p w' → Q (pg_proofs p) w') →
  ends (get_proofs clk sid) w Q.
Proof.
  intros (v & Hs & Hk) Hn HQ. destruct (Hk (clk n) ltac:(lia)) as (_ & _ & _ & _ & H5 & _).
  unfold get_proofs. apply ends_bind. eapply get_ends; [done..|]. intros w' Hs'.
  assert (Q (pg_proofs p) w') as Hq.
  { apply HQ. exists v. split; [done|]. eapply kept_later, Hk. lia. }
  destruct (v (clk n) (proofs_key sid)) as [x|]; [|apply ends_ret; by rewrite <-H5].
  unfold json. rewrite (proofs_json_roundtrip _ _ H5). by apply ends_ret.
Qed.

Hypothesis Hrange : ∀ n, 0 ≤ timestamp (clk n) ≤ I64_MAX.
(** The record outlives [d] by every expiry the store sets. *)
Context (d : DateTime).
Definition in_life (n : nat) : Prop := clk n < d ≤ clk n + secs TTL_SECS.
Lemma in_life_later n m : (n ≤ m)%nat → in_life n → clk m < d → in_life m.
Proof. intros Hn Hl Hm. unfold in_life in *. pose proof (Hclk n m Hn). lia. Qed.

Definition record_progress (difficulty s : Z) p : Progress :=
  match pg_first p with
  | None => set_first (Some s) p
  | Some _ => set_sum (Some (default 0 (pg_sum p) + difficulty)) p
  end.
Definition record_ticks p : nat := match pg_first p with None => 1 | Some _ => 3 end.

Lemma record_ends n p w difficulty s (Q : unit → renv R → Prop) :
  on_server d n p w → in_life n → clk (2 + n)%nat < d → I64_MIN ≤ s ≤ I64_MAX → I64_MIN ≤ difficulty ≤ I64_MAX →
  I64_MIN ≤ default 0 (pg_sum p) + difficulty ≤ I64_MAX →
  (∀ w', on_server d (record_ticks p + n) (record_progress difficulty s p) w' → Q tt w') →
  ends (record_accepted_proof clk sid difficulty s) w Q.
Proof.
  intros (v & Hs & Hk) Hl Hn Hsr Hdr Hsum HQ. destruct Hl as [Hl1 Hl2].
  destruct (Hk (clk n) ltac:(lia)) as (_ & _ & _ & _ & _ & [H6 _] & _).
  unfold record_accepted_proof. apply ends_bind. eapply query_ends; [done..|]. cbn [answers effect].
  unfold record_progress, record_ticks in HQ. rewrite H6. intros r w' -> Hs'.
  destruct (pg_first p) as [f|]; cbn [fmap option_fmap option_map] in *; autorewrite with prm_rw;
    eexists; (split; [done|]).
  - apply ends_bind. assert (on_server d (S n) p w') as Hw.
    { exists v. split; [done|]. eapply kept_later, Hk. lia. }
    pose proof (Hclk (S n) (2 + n) ltac:(lia)). pose proof (Hclk n (S n) ltac:(lia)).
    eapply (on_server_incr _ _ p _ _ _ pg_sum difficulty); [done|lia|by intros ? ? (?&?&?&?&?&?&?&?)|done|done| |].
    { intros v' Hv'. by apply kept_sum. }
    intros w2 Hw2. eapply on_server_exec; [done|done| |exact (HQ)].
    intros v' Hv'. apply kept_expire with (o := Some (default 0 (pg_sum p) + difficulty)); [done|cbn [Nat.add] in *; lia|].
    intros t Ht. by destruct (Hv' t Ht) as (?&?&?&?&?&?&?&?).
  - apply ends_ret, HQ. eexists. split; [done|]. apply (kept_later d n); [lia|]. by apply kept_first.
Qed.

Lemma touch_ends n p w (Q : unit → renv R → Prop) :
  on_server d n p w → in_life n → clk (S n) < d →
  (∀ w', on_server d (2 + n) (set_last (Some (timestamp (clk n))) p) w' → Q tt w') →
  ends (touch_last_activity clk sid) w Q.
Proof.
  intros Hw [Hl1 Hl2] Hn HQ. unfold touch_last_activity. apply ends_bind. eapply on_server_now; [done|].
  intros w1 Hw1. eapply on_server_exec; [done|done| |done].
  intros v Hv. pose proof (Hclk n (S n) ltac:(lia)). cbn [effect]. apply kept_last; [done|lia|].
  pose proof (Hrange n). lia.
Qed.

Lemma count_ends n p w (Q : Z → renv R → Prop) :
  on_server d n p w → clk n < d → 0 ≤ default 0 (pg_count p) < I64_MAX →
  (∀ z w', on_server d (S n) (set_count (Some (default 0 (pg_count p) + 1)) p) w' → Q z w') →
  ends (increment_proof_count clk sid) w Q.
Proof.
  intros Hw Hn Hc HQ. unfold increment_proof_count. apply ends_bind.
  eapply (on_server_incr _ _ p _ _ _ pg_count 1); [done|lia|by intros ? ? (?&?&?&?&?&?&?&?&?&?)|lia|lia| |].
  { intros v' Hv'. apply kept_count; [done|lia]. }
  intros w2 Hw2. by apply ends_ret, HQ.
Qed.

Lemma verified_ends n p w (Q : Z → renv R → Prop) :
  on_server d n p w → in_life n → clk (S n) < d → 0 ≤ default 0 (pg_verified p) < I64_MAX →
  (∀ z w', on_server d (2 + n) (set_verified (Some (default 0 (pg_verified p) + 1)) p) w' → Q z w') →
  ends (increment_verified_proof_count clk sid) w Q.
Proof.
  intros Hw [Hl1 Hl2] Hn Hc HQ. unfold increment_verified_proof_count, incr_session_counter. apply ends_bind.
  eapply (on_server_incr _ _ p _ _ _ pg_verified 1); [done|lia|by intros ? ? (?&?&?&?&?&?&?&?&?&?)|lia|lia| |].
  { intros v' Hv'. apply kept_verified; [done|lia]. }
  intros w2 Hw2. apply ends_bind. pose proof (Hclk n (S n) ltac:(lia)).
  eapply on_server_exec; [done|done| |].
  { intros v' Hv'. apply kept_expire with (o := Some (default 0 (pg_verified p) + 1)); [done|lia|].
    intros t Ht. by destruct (Hv' t Ht) as (?&?&?&?&?&?&?&?&?&?). }
  intros w3 Hw3. by apply ends_ret, HQ.
Qed.

Lemma store_ends n p w proof x (Q : unit → renv R → Prop) :
  on_server d n p w → in_life n → clk (S n) < d → proofs_to_json (pg_proofs p ++ [proof]) = inr x →
  (∀ w', on_server d (2 + n) (set_proofs (pg_proofs p ++ [proof]) p) w' → Q tt w') →
  ends (store_proof clk sid proof) w Q.
Proof.
  intros (v & Hs & Hk) [Hl1 Hl2] Hn Hx HQ. destruct (Hk (clk n) ltac:(lia)) as (_ & _ & _ & _ & H5 & _).
  pose proof (Hclk n (S n) ltac:(lia)).
  unfold store_proof. apply ends_bind. eapply get_ends; [done..|]. intros w' Hs'.
  assert (on_server d (S n) p w') as Hw by (exists v; split; [done|eapply kept_later, Hk; lia]).
  apply ends_bind. apply ends_mono with (Q := λ l w2, l = pg_proofs p ∧ w2 = w').
  { destruct (v (clk n) (proofs_key sid)) as [y|]; [|by apply ends_ret].
    unfold json. rewrite (proofs_json_roundtrip _ _ H5). by apply ends_ret. }
  intros ? ? [-> ->]. apply ends_bind. unfold json. rewrite Hx. apply ends_ret.
  eapply on_server_exec; [done|done| |done]. intros v' Hv'. cbn [effect]. apply kept_proofs; [done|lia|done].
Qed.
End record.

(** ** A new session on the server *)
Section creation.
Context {R : Type} `{!RedisServer R} `{Codec : !SessionCodec} (b : build) (clk : nat → DateTime).
Hypothesis Hclk : ∀ n m, (n ≤ m)%nat → clk n ≤ clk m.
Abbreviation shown := (shown clk).
Implicit Types (w : renv R) (v : view).

(** From the [n]-th reading on, the limiter has counted fewer than [limit] under [key]. *)
Definition below (n : nat) v (key : string) (limit : Z) : Prop :=
  ∀ t, clk n ≤ t → ∃ o, holds_int v t key o ∧ 0 ≤ default 0 o < limit.

(** From [clk n] on, two views differ at [key] only. *)
Definition but_for (n : nat) (key : string) v v' : Prop := ∀ t k, clk n ≤ t → k ≠ key → v' t k = v t k.

Lemma crowded_redis room (crowd : nat → R → Prop) c n v w (Q : reply → renv R → Prop) :
  (∀ k c w, crowd k (re_state w) → crowd (S k) (re_state (redis clk c w).2)) →
  shown n v w → crowd (room + n)%nat (re_state w) → accepted_cmd c (clk n) v →
  (∀ r w', answers glob c (clk n) v r → shown (S n) (effect c (clk n) v) w' →
     crowd (room + S n)%nat (re_state w') → Q r w') →
  ends (redis clk c) w Q.
Proof.
  intros Hcrowd Hs Hcr Ha HQ. pose proof (Hcrowd _ c _ Hcr) as Hcr1. apply ends_iff.
  pose proof (shown_redis clk Hclk c n v w (λ r w', answers glob c (clk n) v r ∧ shown (S n) (effect c (clk n) v) w')
    Hs Ha (λ r w' H1 H2, conj H1 H2)) as He.
  apply ends_iff in He as (r & w' & E & Hr & Hs'). rewrite E in Hcr1. exists r, w'. split; [done|].
  apply HQ; [done|done|]. by replace (room + S n)%nat with (S (room + n)) by lia.
Qed.

Lemma check_ends room (crowd : nat → R → Prop) key limit window n v w (Q : RateLimitResult → renv R → Prop) :
  (∀ k c w, crowd k (re_state w) → crowd (S k) (re_state (redis clk c w).2)) →
  shown n v w → crowd (room + n)%nat (re_state w) → below n v key limit → limit ≤ U32_MAX →
  (∀ m v' w', (n ≤ m ≤ 2 + n)%nat → but_for n key v v' → shown m v' w' → crowd (room + m)%nat (re_state w') →
     Q Allowed w') →
  ends (check clk key limit window) w Q.
Proof.
  intros Hcrowd Hs Hcr Hb Hl HQ. destruct (Hb (clk n) ltac:(lia)) as (o & [Ho Hr] & Hlt).
  unfold check. apply ends_map_err, ends_bind.
  assert (counter (v (clk n) key) = Some (default 0 o)) as Hc.
  { rewrite Ho. destruct o as [x|]; cbn; [|done]. unfold parse_i64. apply parse_i_show; [lia|by apply Hr]. }
  eapply (crowded_redis room crowd); [exact Hcrowd|exact Hs|exact Hcr|eexists; split; [exact Hc|lia]|].
  intros r w1 (z & Hz & -> & _) Hs1 Hcr1.
  rewrite Hc in Hz. injection Hz as <-. apply ends_bind. unfold decode. rewrite as_i64_int by lia. apply ends_ret.
  set (v1 := effect _ _ v) in *.
  assert (but_for n key v v1) as Hv1.
  { intros t k _ Hk. unfold v1. apply effect_frame. cbn. by rewrite list_elem_of_singleton. }
  assert (∀ v' w' m, (m ≤ 2 + n)%nat → (n ≤ m)%nat → but_for n key v v' → shown m v' w' →
    crowd (room + m)%nat (re_state w') → ends (mret (if limit <? default 0 o + 1 then Denied limit window else Allowed) : M (renv R) RedisError _) w' Q) as Hend.
  { intros v' w' m Hm Hn Hv' Hs' Hcr'. apply ends_ret. rewrite (proj2 (Z.ltb_ge _ _)) by lia. eapply HQ; [|done..]. lia. }
  apply ends_bind. destruct (_ =? 1).
  - apply ends_bind. eapply (crowded_redis room crowd); [exact Hcrowd|exact Hs1|exact Hcr1|exact I|]. intros r2 w2 _ Hs2 Hcr2. apply ends_ret.
    eapply Hend; [| | |exact Hs2|exact Hcr2]; [lia..|]. intros t k Ht Hk. rewrite <-Hv1 by done.
    apply effect_frame. cbn. by rewrite list_elem_of_singleton.
  - apply ends_ret. eapply Hend; [| | |exact Hs1|exact Hcr1]; [lia..|done].
Qed.

(** The scan of a wallet's sessions ends, and its pages hold no more keys than the server. *)
Record scannable (pattern : string) (rank : Z → nat) (crowd : nat → R → Prop) : Prop := {
  scan_rank cursor w next keys w' :
    redis clk (SCAN cursor pattern 100) w = (Ok (RScan next keys), w') → next = 0 ∨ (rank next < rank cursor)%nat;
  scan_page k cursor w next keys w' :
    crowd k (re_state w) → redis clk (SCAN cursor pattern 100) w = (Ok (RScan next keys), w') → (length keys ≤ k)%nat;
  scan_crowd k c w : crowd k (re_state w) → crowd (S k) (re_state (redis clk c w).2)
}.

Lemma count_loop_total room pattern rank crowd : scannable pattern rank crowd →
  ∀ fuel cursor count n v w (Q : option Z → renv R → Prop),
  (rank cursor < fuel)%nat → 0 ≤ count → count + Z.of_nat (room + fuel + n) * Z.of_nat fuel ≤ U32_MAX →
  shown n v w → crowd (room + n)%nat (re_state w) →
  (∀ k m w', (n ≤ m ≤ fuel + n)%nat → shown m v w' → Q (Some k) w') →
  ends (count_loop b clk fuel pattern cursor count) w Q.
Proof.
  intros Hscan fuel. induction fuel as [|fuel IH]; intros cursor count n v w Q Hf Hc Hmax Hs Hcr HQ; [lia|].
  cbn [count_loop]. apply ends_bind. unfold query. apply ends_map_err, ends_bind.
  apply ends_mono with (Q := λ r w1, redis clk (SCAN cursor pattern 100) w = (Ok r, w1) ∧
    (∃ next keys, r = RScan next keys) ∧ shown (S n) v w1).
  { apply ends_iff. pose proof (shown_redis clk Hclk (SCAN cursor pattern 100) n v w
      (λ r w1, (∃ next keys, r = RScan next keys) ∧ shown (S n) v w1) Hs I) as He.
    apply ends_iff in He as (r & w1 & E & Hr); [by exists r, w1|].
    intros r w1 (nx & ks & -> & _) Hs1. split; [by eauto|exact Hs1]. }
  intros r w1 (E & (next & keys & ->) & Hs1). pose proof (scan_page _ _ _ Hscan _ _ _ _ _ _ Hcr E) as Hlen.
  pose proof (scan_crowd _ _ _ Hscan _ (SCAN cursor pattern 100) _ Hcr) as Hcr1. rewrite E in Hcr1. cbn in Hcr1.
  unfold decode. autorewrite with prm_rw. apply ends_ret. cbn beta iota.
  assert (as_u U32_MAX (Z.of_nat (length keys)) = Z.of_nat (length keys)) as ->.
  { unfold as_u. apply Z.mod_small. nia. }
  apply ends_bind. eapply ends_lift; [apply arith_u_fits; nia|].
  destruct (Z.eqb_spec next 0) as [->|Hne].
  - apply ends_ret. eapply HQ; [|exact Hs1]. lia.
  - destruct (scan_rank _ _ _ Hscan _ _ _ _ _ E) as [|Hlt]; [done|].
    apply (IH next _ (S n) v); [lia|lia|nia|done|by replace (room + S n)%nat with (S (room + n)) by lia|].
    intros k m w' Hm Hs'. apply (HQ k m w'); [lia|done].
Qed.
(** The keys a session gets besides its record and its commit. *)
Definition progress_keys (id : SessionId) : list string :=
  [paused_key id; proofs_key id; first_key id; sum_key id; activity_key id; proof_count_key id; verified_key id].
Definition unused (n : nat) (id : SessionId) v : Prop := ∀ t k, clk n ≤ t → k ∈ progress_keys id → v t k = None.

Definition with_record (n : nat) v (ctx : SessionContext) (id : SessionId) (payload : string) : view :=
  let wallet := address_display (ctx_wallet ctx) in
  set_key (set_key (set_key v
    (session_key wallet id) (until (clk n + secs TTL_SECS) payload))
    (lookup_key id) (until (clk (1 + n)%nat + secs TTL_SECS) wallet))
    (commit_key id) (until (clk (2 + n)%nat + secs TTL_SECS) COMMIT_PENDING).

Lemma create_ends ctx payload n v w (Q : SessionId → renv R → Prop) :
  shown n v w → ctx_to_json ctx = inr payload →
  (∀ w', shown (3 + n) (with_record n v ctx (new_uuid n) payload) w' → Q (new_uuid n) w') →
  ends (SessionStore.create_session clk ctx) w Q.
Proof.
  intros Hs Hp HQ. unfold SessionStore.create_session. apply ends_bind, ends_gets. cbv zeta.
  pose proof Hs as (_ & -> & _). apply ends_bind. unfold json. rewrite Hp. apply ends_ret.
  apply ends_bind. eapply (exec_unit_ends clk Hclk); [exact Hs|done|]. intros w1 Hs1.
  apply ends_bind. eapply (exec_unit_ends clk Hclk); [exact Hs1|done|]. intros w2 Hs2.
  apply ends_bind. eapply (exec_unit_ends clk Hclk); [exact Hs2|done|]. intros w3 Hs3.
  by apply ends_ret, HQ.
Qed.

Lemma commit_ends ctx payload id commit d n v w (Q : unit → renv R → Prop) :
  shown (3 + n) (with_record n v ctx id payload) w → unused (4 + n) id v → ctx_to_json ctx = inr payload →
  d ≤ clk n + secs TTL_SECS →
  (∀ w', on_server clk ctx id commit d (4 + n) no_progress w' → Q tt w') →
  ends (set_commit clk id commit) w Q.
Proof.
  intros Hs Hu Hp Hd HQ. unfold set_commit. eapply (exec_unit_ends clk Hclk); [exact Hs|done|]. intros w' Hs'.
  apply HQ. eexists. split; [exact Hs'|]. intros t Ht.
  pose proof (Hclk n (1 + n)%nat ltac:(lia)). pose proof (Hclk (1 + n)%nat (2 + n)%nat ltac:(lia)).
  pose proof (Hclk (2 + n)%nat (3 + n)%nat ltac:(lia)).
  assert (∀ k, k ∈ progress_keys id → effect (SET (commit_key id) (hex_encode commit) TTL_SECS) (clk (3 + n)%nat)
    (with_record n v ctx id payload) t k = None) as Hnone.
  { intros k Hk. cbn [effect]. unfold with_record. rewrite !set_key_ne; [apply Hu; [apply Ht|done]|..];
      (unfold progress_keys in Hk; rewrite !elem_of_cons, elem_of_nil in Hk;
       repeat (destruct Hk as [->|Hk]; [discriminate|]); by destruct Hk). }
  assert (∀ k, k ∈ progress_keys id → holds_int (effect (SET (commit_key id) (hex_encode commit) TTL_SECS)
    (clk (3 + n)%nat) (with_record n v ctx id payload)) t k None) as Hints by (intros k Hk; split; [by apply Hnone|done]).
  unfold recorded. rewrite (Hnone (proofs_key id)), (Hnone (paused_key id)) by (unfold progress_keys; set_solver).
  cbn [effect] in *. unfold with_record in *. split_and!; try done;
    try (apply Hints; unfold progress_keys; set_solver).
  - rewrite set_key_ne, set_key_ne, set_key_eq by discriminate. apply until_before. lia.
  - exists payload. split; [|done]. rewrite !set_key_ne, set_key_eq by discriminate. apply until_before. lia.
  - rewrite set_key_eq. apply until_before. lia.
Qed.
End creation.
