(* ===== verification/Journey.v ===== *)
(** * A session from creation to its mint, seen by an honest client

    The handlers as programs that end well ([ends], from Total): what a world must be
    like for [submit_proof] to accept and for [end_session] to mint, and that they keep
    it so. [mining] are the runs of one client's proofs among anything others do. *)
From S2P Require Import Prelude Common Payout MintCeiling Twap Anomaly Validator Redis RateLimiter.
From S2P Require Import SessionStore RandomX NodeCoordinator Oracle Postgres Onchain Metrics Service Total.

(** ** The handlers *)
Section handlers.
Context {R X P C Key : Type} `{!RedisServer R, Codec : !SessionCodec, !PgServer, !OracleNet X, !Rpc X P,
  !NodeClient X C, !Timer X, !AttestationCrypto, !ProposalSigner Key, !ServiceCodec}.
Context (b : build) (clk : nat → DateTime).
Context (try_send : AnomalyEvent → list AnomalyEvent → bool * list AnomalyEvent).
Hypothesis Hclk : ∀ n m, (n ≤ m)%nat → clk n ≤ clk m.
Hypothesis Hrange : ∀ n, 0 ≤ timestamp (clk n) ≤ I64_MAX.
Abbreviation App := (App R X).
Abbreviation State := (AppState (P:=P) (C:=C) (Key:=Key)).
Context (ctx : SessionContext) (sid : SessionId) (commit : bytes) (d : DateTime).
Abbreviation on_server := (on_server clk ctx sid commit d).
Abbreviation in_life := (in_life clk d).
Implicit Types (w : App) (p : Progress).

Lemma internal_ends {E A} (m : M App E A) w (Q : A → App → Prop) : ends m w Q → ends (internal m) w Q.
Proof. apply ends_map_err. Qed.

Lemma ignore_ends {A} (m : M (renv R) SessionManagerError A) w (Q : unit → App → Prop) :
  ends m (app_redis w) (λ _ v, Q tt (set_redis v w)) → ends (ignore m) w Q.
Proof.
  intros Hm. unfold ignore. apply ends_bind, ends_attempt, ends_zoom.
  eapply ends_mono; [exact Hm|]. intros a v HQ. by apply ends_ret.
Qed.

Lemma now_ends n p w (Q : DateTime → App → Prop) :
  on_server n p (app_redis w) → (∀ v, on_server (S n) p v → Q (clk n) (set_redis v w)) → ends (now_utc clk) w Q.
Proof. intros Hs HQ. apply ends_zoom. eapply (on_server_now clk Hclk); [done|]. intros v Hv. by apply HQ. Qed.

(** What a proof that passes adds to the counters, from the [n]-th reading on. *)
Definition count_progress (n : nat) (difficulty : Z) p : Progress :=
  let p1 := set_count (Some (default 0 (pg_count p) + 1)) p in
  let p2 := record_progress difficulty (timestamp (clk (S n))) p1 in
  let p3 := set_last (Some (timestamp (clk (record_ticks p + (2 + n))))) p2 in
  set_verified (Some (default 0 (pg_verified p3) + 1)) p3.
Definition count_ticks p : nat := 6 + record_ticks p.
(** The counters have room for one more proof. *)
Definition room (difficulty : Z) p : Prop :=
  0 ≤ default 0 (pg_count p) < I64_MAX ∧ 0 ≤ default 0 (pg_verified p) < I64_MAX ∧
  0 ≤ default 0 (pg_sum p) ∧ 0 ≤ difficulty ∧ default 0 (pg_sum p) + difficulty ≤ I64_MAX.

Lemma count_proof_ends n p w difficulty result (Q : unit → App → Prop) :
  on_server n p (app_redis w) → in_life n → clk (9 + n)%nat < d → is_invalid result = false → room difficulty p →
  (∀ v, on_server (count_ticks p + n) (count_progress n difficulty p) v → Q tt (set_redis v w)) →
  ends (count_proof clk sid difficulty result) w Q.
Proof.
  intros Hs Hl Hd Hi (Hc & Hvf & Hs0 & Hd0 & Hsum) HQ. pose proof (in_life_later clk Hclk d n) as Hlater.
  assert (∀ m, (m ≤ 9 + n)%nat → clk m < d) as Hin.
  { intros m Hm. pose proof (Hclk m (9 + n)%nat Hm). lia. }
  unfold count_proof. rewrite Hi. apply ends_bind, ignore_ends.
  eapply (count_ends clk Hclk); [done|apply Hin; lia|done|]. intros _ v1 Hv1.
  apply ends_bind. eapply now_ends; [exact Hv1|]. intros v2 Hv2.
  apply ends_bind, ignore_ends. pose proof (Hrange (S n)).
  eapply (record_ends clk Hclk); [exact Hv2|apply Hlater; [lia|done|apply Hin; lia]|apply Hin; lia|cbn; lia..|].
  intros v3 Hv3. change (record_ticks (set_count _ p)) with (record_ticks p) in Hv3.
  assert (1 ≤ record_ticks p ≤ 3)%nat as Hrt by (unfold record_ticks; destruct (pg_first p); lia).
  apply ends_bind, ignore_ends. eapply (touch_ends clk Hclk); [done|exact Hv3| | |].
  { apply Hlater; [lia|done|]. apply Hin. lia. }
  { apply Hin. lia. }
  intros v4 Hv4. apply ignore_ends. eapply (verified_ends clk Hclk); [exact Hv4| | | |].
  { apply Hlater; [lia|done|]. apply Hin. lia. }
  { apply Hin. lia. }
  { unfold record_progress. by destruct (pg_first (set_count _ p)). }
  intros _ v5 Hv5. apply HQ. replace (count_ticks p + n)%nat with (2 + (2 + (record_ticks p + S (S n))))%nat
    by (unfold count_ticks; lia). exact Hv5.
Qed.

Context (state : State) (late start : DateTime) (max_price : Z) (Good : X → Prop).

(** The world outside serves the session: in good states of the network the price of
    commodity [c] is read, after [late], the head of the chain is known, and no call
    the service makes leads out of the good states, whatever it answers. *)
Record serves (c : Commodity) : Prop := {
  serves_price x : Good x → ∃ price x', read_price b (st_oracle_reader state) c x = (Ok price, x') ∧
    0 < price ≤ max_price ∧ late ≤ net_now x' ∧ Good x';
  serves_head x : Good x → ∃ n x', block_number (oc_provider (st_onchain_client state)) x = (inr n, x') ∧ Good x';
  serves_hash n x : Good x →
    ∃ h x', block_hash (oc_provider (st_onchain_client state)) n x = (inr h, x') ∧ Good x';
  serves_nonce q a x : Good x → Good (pending_nonce (P:=P) q a x).2;
  serves_transact q a call o x : Good x → Good (transact (P:=P) q a call o x).2;
  serves_node t a ps secs x : Good x → Good (try_request (st_node_coordinator state) t a ps secs x).2;
  serves_stakes q a wallet x : Good x → Good (call_stakes (P:=P) q a wallet x).2;
  serves_edge q a x : Good x → Good (call_edge (P:=P) q a x).2
}.
Hypothesis Hserves : serves (ctx_commodity ctx).
Hypothesis Hstart : start ≤ late.

(** The session as the service has it: its keys, its calculator with one price for
    each proof, and a network that serves it. *)
Definition timely p : Prop :=
  (∀ z, pg_first p = Some z → 0 ≤ z ≤ I64_MAX) ∧ (∀ z, pg_last p = Some z → 0 ≤ z ≤ I64_MAX).
Definition running p w : Prop :=
  on_server (re_tick (app_redis w)) p (app_redis w) ∧ timely p ∧ Good (app_net w) ∧
  ∃ calc, app_twap w !! sid = Some calc ∧ tc_session_start calc = start ∧
    Forall (λ s, 0 < ps_price s ≤ max_price) (tc_samples calc) ∧ length (tc_samples calc) = length (pg_proofs p).

Lemma sample_ends w calc (Q : unit → App → Prop) :
  Good (app_net w) → app_twap w !! sid = Some calc → tc_session_start calc = start →
  (∀ x s, Good x → 0 < ps_price s ≤ max_price →
     Q tt (set_twap (<[sid := mkTwapCalculator (tc_samples calc ++ [s]) start]> (app_twap w)) (set_net x w))) →
  ends (sample_session b state sid (ctx_commodity ctx)) w Q.
Proof.
  intros Hg Hc Hst HQ. unfold sample_session. apply ends_bind, ends_gets. rewrite Hc.
  apply ends_bind, ends_attempt, ends_zoom. unfold sample_into_twap. apply ends_bind.
  destruct (serves_price _ Hserves _ Hg) as (price & x & E & Hp & Hn & Hx).
  apply ends_iff. exists price, x. split; [exact E|]. apply ends_bind, ends_gets, ends_ret, ends_modify.
  unfold add_sample. cbn [ps_sampled_at]. rewrite Hst, (proj2 (Z.ltb_ge (net_now x) start)) by lia.
  by apply HQ.
Qed.

Lemma assess_ends n p w result (Q : SuspicionLevel → App → Prop) :
  on_server n p (app_redis w) → clk (S n) < d →
  (∀ level w' m, (n ≤ m)%nat → on_server m p (app_redis w') → app_net w' = app_net w → app_twap w' = app_twap w →
     rows w' = rows w → Q level w') →
  ends (assess clk try_send sid (ctx_wallet ctx) result) w Q.
Proof.
  intros Hs Hn HQ. unfold assess. apply ends_bind. eapply now_ends; [exact Hs|]. intros v1 Hv1.
  apply ends_bind. unfold on_events, ends at 1. apply ends_bind.
  set (a := (process _ _ _ _ _ _).1). set (w1 := set_events _ _).
  destruct (decide (as_level a ≠ Low)) as [_|_].
  - apply ends_bind. eapply now_ends; [exact Hv1|]. intros v2 Hv2.
    set (ev := {| ae_session_id := sid |}).
    apply ends_bind. set (w2 := set_redis v2 w1). assert (rows w2 = rows w) as Hw2 by done. apply ends_caught.
    + unfold on_db, zoom. cbn [fst]. unfold insert_anomaly_event, sql.
      destruct (triggers_json _); [done|]. by destruct (db_fault _) as [[[] e]|].
    + intros _. apply ends_modify, ends_ret. eapply HQ; [|exact Hv2|done|done|]; [lia|].
      rewrite <-Hw2. unfold rows, on_db, zoom, insert_anomaly_event, sql. cbn [fst snd].
      destruct (triggers_json _); [done|]. by destruct (db_fault _) as [[[] e]|].
  - apply ends_ret, ends_ret. eapply HQ; [|exact Hv1|done..]. lia.
Qed.

(** The proof built from a request that comes at the [n]-th reading. *)
Definition proof_of (n : nat) (body : SubmitProofRequest) : option PartialProof :=
  hash ← hex_decode (sp_proof_hash body);
  input ← (if String.eqb (sp_proof_input body) "" then Some [] else hex_decode (sp_proof_input body));
  if decide (length hash = 32%nat) then
    Some {| pp_session_id := sid; pp_wallet := ctx_wallet ctx; pp_sequence := sp_sequence body;
            pp_hashrate := sp_hashrate body; pp_proof_hash := hash; pp_proof_input := input;
            pp_difficulty := sp_difficulty body; pp_submitted_at := clk (3 + n)%nat; pp_signature := None |}
  else None.
(** A well-formed proof at a rate the client can have. *)
Definition acceptable (n : nat) p (body : SubmitProofRequest) (proof : PartialProof) : Prop :=
  proof_of n body = Some proof ∧ sp_hashrate body ≤ max_hashrate (ctx_client_type ctx) ∧
  room (sp_difficulty body) p ∧ ∃ x, proofs_to_json (pg_proofs p ++ [proof]) = inr x.
(** What is on the server when it has been accepted. *)
Definition submit_progress (n : nat) (proof : PartialProof) p : Progress :=
  set_proofs (pg_proofs p ++ [proof]) (count_progress (4 + n) (pp_difficulty proof) p).

(** What [submit_proof] does with the proof it has built. *)
Definition judge (body : SubmitProofRequest) (proof : PartialProof) : HM SubmitProofResponse :=
  let result := validate mkPreFilterValidator proof PreFilter ctx in
  count_proof clk sid (sp_difficulty body) result ;;
  internal (on_redis (store_proof clk sid proof)) ;;
  metric (λ m, mkMetrics (m_session_active m)
            (m_proofs m ++ [(client_type_debug (ctx_client_type ctx), result_label result)])
            (m_anomalies m) (m_proposals m)) ;;
  level ← assess clk try_send sid (ctx_wallet ctx) result;
  sample_session b state sid (ctx_commodity ctx) ;;
  mret {| spr_accepted := negb (is_invalid result); spr_suspicion_level := level_debug level |}.

Lemma submit_judges n p w body proof (Q : SubmitProofResponse → App → Prop) :
  on_server n p (app_redis w) → clk (4 + n)%nat < d → proof_of n body = Some proof →
  (∀ v, on_server (4 + n) p v → ends (judge body proof) (set_redis v w) Q) →
  ends (submit_proof b clk try_send state sid body) w Q.
Proof.
  intros Hs Hd Hp HQ. unfold proof_of in Hp.
  destruct (hex_decode (sp_proof_hash body)) as [hash|] eqn:Eh; [|done]. cbn [mbind option_bind] in Hp.
  destruct (if String.eqb (sp_proof_input body) "" then Some [] else hex_decode (sp_proof_input body))
    as [input|] eqn:Ei; [|done]. cbn [mbind option_bind] in Hp.
  destruct (decide (length hash = 32%nat)) as [Hh|]; [|done]. injection Hp as <-.
  assert (∀ m, (m ≤ 4 + n)%nat → clk m < d) as Hin.
  { intros m Hm. pose proof (Hclk m (4 + n)%nat Hm). lia. }
  unfold submit_proof. apply ends_bind, internal_ends, ends_zoom.
  eapply (get_session_ends clk Hclk); [exact Hs|apply Hin; lia|]. intros v1 Hv1.
  apply ends_bind. eapply ends_ok_or; [done|]. apply ends_bind, internal_ends, ends_zoom.
  eapply (is_paused_ends clk Hclk); [exact Hv1|apply Hin; lia|]. intros v2 Hv2.
  apply ends_bind, ends_ret, ends_bind. unfold parse_hash. rewrite Eh. apply ends_bind, ends_ret.
  destruct (decide (length hash = 32%nat)) as [_|]; [|done]. apply ends_ret.
  apply ends_bind, ends_mono with (Q := λ i w2, i = input ∧ w2 = set_redis v2 (set_redis v1 w)).
  { destruct (String.eqb _ _); [by injection Ei as <-|]. by rewrite Ei. }
  intros ? ? [-> ->]. apply ends_bind. eapply now_ends; [exact Hv2|]. intros v3 Hv3.
  by apply HQ.
Qed.

Lemma accepted_valid n p body proof :
  ctx_last_submission_at ctx = None → acceptable n p body proof →
  is_invalid (validate mkPreFilterValidator proof PreFilter ctx) = false ∧ pp_difficulty proof = sp_difficulty body.
Proof.
  intros Hlast (Hp & Hrate & _). unfold proof_of in Hp.
  destruct (hex_decode (sp_proof_hash body)) as [hash|]; [|done]. cbn [mbind option_bind] in Hp.
  destruct (if String.eqb (sp_proof_input body) "" then Some [] else hex_decode (sp_proof_input body))
    as [input|]; [|done]. cbn [mbind option_bind] in Hp.
  destruct (decide (length hash = 32%nat)); [|done]. injection Hp as <-. split; [|done].
  match goal with |- is_invalid (validate _ ?q _ _) = _ =>
    change (validate mkPreFilterValidator q PreFilter ctx) with (prefilter_checks q ctx) end.
  unfold prefilter_checks, timing_ok. rewrite Hlast. cbn.
  rewrite (proj2 (Z.ltb_ge _ _) Hrate). by destruct (_ <? _).
Qed.

Lemma submit_timely n proof p : timely p → timely (submit_progress n proof p).
Proof.
  intros [Hf Hlast]. unfold submit_progress, count_progress, record_progress. cbn [pg_first set_count].
  destruct (pg_first p) as [f|] eqn:E; (split; cbn; [|intros z [= <-]; apply Hrange]); [by rewrite E|].
  intros z [= <-]. apply Hrange.
Qed.

Lemma submit_ends p w body proof :
  let n := re_tick (app_redis w) in
  running p w → in_life n → clk (19 + n)%nat < d → ctx_last_submission_at ctx = None →
  acceptable n p body proof →
  ends (submit_proof b clk try_send state sid body) w (λ r w',
    spr_accepted r = true ∧ running (submit_progress n proof p) w' ∧ (n ≤ re_tick (app_redis w'))%nat ∧ rows w' = rows w).
Proof.
  intros n (Hs & Htime & Hg & calc & Hcalc & Hst & Hpr & Hlen) Hl Hd Hlast Hacc.
  fold n in Hs. clearbody n. destruct (accepted_valid _ _ _ _ Hlast Hacc) as [Hvalid Hdiff].
  destruct Hacc as (Hp & Hrate & Hroom & x & Hx).
  pose proof (in_life_later clk Hclk d n) as Hlater. assert (∀ m, (m ≤ 19 + n)%nat → clk m < d) as Hin.
  { intros m Hm. pose proof (Hclk m (19 + n)%nat Hm). lia. }
  eapply submit_judges; [exact Hs|apply Hin; lia|exact Hp|]. intros v3 Hv3. unfold judge.
  set (result := validate _ _ _ _) in *. clearbody result.
  apply ends_bind. eapply count_proof_ends; [exact Hv3|apply Hlater; [lia|done|apply Hin; lia]
    |apply Hin; lia|done|done|]. intros v4 Hv4.
  assert (count_ticks p ≤ 9)%nat by (unfold count_ticks, record_ticks; destruct (pg_first p); lia).
  apply ends_bind, internal_ends, ends_zoom.
  eapply (store_ends clk Hclk) with (proof := proof);
    [exact Hv4|apply Hlater; [lia|done|apply Hin; lia]|apply Hin; lia| |].
  { unfold count_progress, record_progress. destruct (pg_first _); exact Hx. }
  intros v5 Hv5. apply ends_bind, ends_modify, ends_bind. eapply assess_ends; [exact Hv5|apply Hin; lia|].
  intros level w6 m Hm6 Hs6 Hg6 Ht6 Hr6. apply ends_bind. eapply sample_ends; [by rewrite Hg6|by rewrite Ht6|done|].
  intros y smp Hy Hsmp. apply ends_ret. split; [by rewrite Hvalid|]. split; [|split; [|exact Hr6]].
  2:{ destruct Hs6 as (v & (_ & Hm & _) & _). cbn. rewrite Hm. lia. }
  split_and!; [|by apply submit_timely|exact Hy|].
  - destruct Hs6 as (v & Hv & Hk). pose proof Hv as (_ & Hm & _). cbn. rewrite Hm. exists v. split; [done|].
    unfold submit_progress. rewrite Hdiff.
    replace (pg_proofs p) with (pg_proofs (count_progress (4 + n) (sp_difficulty body) p)); [exact Hk|].
    unfold count_progress, record_progress. by destruct (pg_first _).
  - eexists. cbn. split; [by rewrite Ht6, lookup_insert_eq|]. cbn. split_and!; [done| |].
    + apply Forall_app. split; [done|]. by apply Forall_singleton.
    + rewrite !length_app. by rewrite Hlen.
Qed.

(** *** Calls of the network that keep it good, whatever they answer *)
Definition tame {E A} (m : M X E A) : Prop := ∀ x, Good x → (m x).1 ≠ Panic ∧ Good (m x).2.

Lemma tame_bind {E A B} (m : M X E A) (f : A → M X E B) : tame m → (∀ a, tame (f a)) → tame (m ≫= f).
Proof.
  intros Hm Hf x Hx. destruct (Hm x Hx) as [Hp Hg]. unfold mbind, M_bind.
  destruct (m x) as [[a|e|] x']; cbn in *; [by apply Hf|done|done].
Qed.
Lemma tame_ret {E A} (a : A) : tame (mret a : M X E A).
Proof. by intros x. Qed.
Lemma tame_fail {E A} (e : E) : tame (fail e : M X E A).
Proof. by intros x. Qed.
Lemma tame_ok_or {E A} (o : option A) (e : E) : tame (ok_or o e : M X E A).
Proof. destruct o; by intros x. Qed.
Lemma tame_attempt {E E' A} (m : M X E A) : tame m → tame (attempt m : M X E' (E + A)).
Proof. intros Hm x Hx. destruct (Hm x Hx). unfold attempt. by destruct (m x) as [[a|e|] x']. Qed.
Lemma tame_rpc {A} f (c : X → (string + A) * X) : (∀ x, Good x → Good (c x).2) → tame (rpc f c).
Proof. intros Hc x Hx. specialize (Hc x Hx). unfold rpc. by destruct (c x) as [[e|a] x']. Qed.

Lemma submit_loop_tame s c price retries : tame (submit_loop (P:=P) s c price retries).
Proof.
  induction retries as [|retries IH]; cbn [submit_loop];
    (apply tame_bind; [apply tame_rpc; intros; by apply (serves_nonce _ Hserves)|intros nonce]);
    (apply tame_bind; [apply tame_attempt, tame_rpc; intros; by apply (serves_transact _ Hserves)|]);
    intros [[]|receipt]; try apply tame_fail; try (destruct (is_nonce_error _); [apply IH|apply tame_fail]);
    (destruct (rc_status receipt); [apply tame_ret|apply tame_fail]).
Qed.

Lemma read_stake_tame (r : StakingReader (P:=P)) wallet : tame (read_stake r wallet).
Proof.
  unfold read_stake. apply tame_bind; [apply tame_rpc; intros; by apply (serves_stakes _ Hserves)|intros ret].
  apply tame_bind; [apply tame_ok_or|intros a; apply tame_ret].
Qed.

(** A call of the network whose error is caught. *)
Lemma caught_net_ends {E A} (m : M X E A) w (Q : E + A → App → Prop) :
  tame m → Good (app_net w) → (∀ r x, Good x → Q r (set_net x w)) → ends (attempt (on_net m) : M App ApiError (E + A)) w Q.
Proof.
  intros Hm Hg HQ. destruct (Hm _ Hg) as [Hp Hg']. apply ends_caught.
  - unfold on_net, zoom. cbn. done.
  - intros r. unfold on_net, zoom. cbn. by apply HQ.
Qed.

Lemma submit_all_ends l c price w (Q : unit → App → Prop) :
  Good (app_net w) → (∀ x, Good x → Q tt (set_net x w)) → ends (submit_all (P:=P) l c price) w Q.
Proof.
  revert w. induction l as [|[ch s] l IH]; intros w Hg HQ; cbn [submit_all].
  - apply ends_ret. replace w with (set_net (app_net w) w) by by destruct w. by apply HQ.
  - apply ends_bind, caught_net_ends; [apply submit_loop_tame|done|]. intros r x Hx. by apply IH.
Qed.

Lemma session_seed_ends w (Q : bytes → App → Prop) :
  Good (app_net w) → (∀ seed x, Good x → Q seed (set_net x w)) → ends (session_seed state) w Q.
Proof.
  intros Hg HQ. destruct (serves_head _ Hserves _ Hg) as (n & x & E & Hx).
  destruct (serves_hash _ Hserves (sat_u U64_MAX (n - SEED_BLOCK_OFFSET)) _ Hx) as (h & x' & E' & Hx').
  unfold session_seed. apply ends_bind, internal_ends, ends_zoom.
  unfold get_block_number, rpc, ends at 1. rewrite E. apply ends_bind, internal_ends, ends_zoom.
  unfold get_block_hash, rpc, ends at 1. cbn [app_net set_net]. rewrite E'. by apply ends_ret, HQ.
Qed.

(** *** The quorum: three of the targets sign, for any seed *)
Definition quorum (ps : list PartialProof) (assigned : NodeId) : Prop := ∀ seed,
  let self := st_node_coordinator state in
  let targets := assigned :: select_nodes self seed (Some assigned) in
  ∃ ans, (∀ t x, t ∈ targets →
      (try_request self t assigned ps (nc_attestation_timeout_secs self) x).1 = ans t) ∧
    NoDup (omap (λ t, nc_signers self !! t) targets) ∧ (3 ≤ length (List.filter (verified self ps ans) targets))%nat.

Lemma collect_good assigned ps msg secs targets : ∀ acc x,
  Good x → Good (collect_signatures (st_node_coordinator state) assigned ps msg secs targets acc x).2.
Proof.
  induction targets as [|t targets IH]; intros acc x Hx; cbn; [done|].
  pose proof (serves_node _ Hserves t assigned ps secs x Hx) as Hg.
  destruct (try_request _ _ _ _ _ x) as [a x']. by apply IH.
Qed.

Lemma attest_ends ps seed assigned w (Q : NodeCoordinatorError + AttestationResult → App → Prop) :
  Good (app_net w) → quorum ps assigned → (∀ att x, Good x → Q (inr att) (set_net x w)) →
  ends (attempt (on_net (attest state sid ps seed assigned)) : M App ApiError _) w Q.
Proof.
  intros Hg Hq HQ. apply ends_attempt, ends_zoom. unfold attest, coordinate_attestation. cbv zeta.
  destruct (Hq seed) as (ans & Hans & Hnd & Hlen). set (self := st_node_coordinator state) in *. unfold ends.
  pose proof (collect_good assigned ps (pp_proof_hash <$> head ps) (nc_attestation_timeout_secs self)
    (assigned :: select_nodes self seed (Some assigned)) collected_none _ Hg) as Hg'. fold self in Hg'.
  destruct (collect_signatures _ _ _ _ _ _ _ (app_net w)) as [c x] eqn:E.
  apply (collect_signatures_complete _ _ _ _ ans) in E as [Hids Hl]; [|done|done|set_solver|done].
  rewrite Hids in Hl. cbn [co_node_ids collected_none app] in Hl. unfold is_sufficient. cbn [ar_signatures].
  rewrite (proj2 (Nat.leb_le _ _)); [by apply HQ|]. lia.
Qed.

(** *** The economics *)
Definition edge_sane w : Prop := ∀ c, app_edge w = Some c → 0 ≤ cached_value c.

Lemma edge_ends w (Q : PayoutConfig → App → Prop) :
  Good (app_net w) → edge_sane w →
  (∀ edge v, 0 ≤ edge → Good v.2 → Q (edge_config edge) (set_edge v w)) →
  ends (payout_config_with_live_edge state) w Q.
Proof.
  intros Hg He HQ. unfold payout_config_with_live_edge.
  assert (∀ v, Good v.2 → Q default_config (set_edge v w)) as Hdef by (intros v Hv; by apply (HQ 1700)).
  destruct (st_house_edge_reader state) as [reader|].
  2:{ apply ends_ret. replace w with (set_edge (app_edge w, app_net w) w) by by destruct w. by apply Hdef. }
  apply ends_bind. unfold ends at 1, attempt, zoom, current_edge_bps, through_cache.
  set (hit := match app_edge w with Some c => _ | None => None end).
  assert (∀ v, hit = Some v → 0 ≤ v) as Hhit.
  { unfold hit. destruct (app_edge w) as [c|] eqn:E; [|done]. destruct (_ <? _); [|done].
    intros v [= <-]. by apply He. }
  destruct hit as [v|]; cbn [fst snd]; [apply ends_ret, HQ; [by apply Hhit|done]|].
  unfold read_edge, rpc, mbind, M_bind. pose proof (serves_edge _ Hserves (he_provider reader)
    (he_house_edge_address reader) _ Hg) as Hx.
  destruct (call_edge _ _ (app_net w)) as [[e|raw] x]; cbn [fst snd] in *; [by apply ends_ret, Hdef|].
  unfold ok_or. destruct (try_from 0 U128_MAX raw) as [edge|] eqn:E; cbn; [|exact (Hdef (_, _) Hx)].
  apply try_from_Some in E as [-> ?]. apply (HQ raw (_, _)); [lia|done].
Qed.

Lemma hashrate_ends n p (v : renv R) c (Q : Z → renv R → Prop) :
  on_server n p v → clk (2 + n)%nat < d → timely p →
  (∀ v', on_server (3 + n) p v' → Q (hashrate_of (pg_first p) (pg_sum p) (pg_last p) c) v') →
  ends (get_session_hashrate b clk sid c) v Q.
Proof.
  intros (u & Hs & Hk) Hd [Hf Hlast] HQ. pose proof (Hclk n (S n) ltac:(lia)). pose proof (Hclk (S n) (2 + n)%nat ltac:(lia)).
  destruct (Hk (clk n) ltac:(lia)) as (_ & _ & _ & _ & _ & Hf0 & _).
  destruct (Hk (clk (S n)) ltac:(lia)) as (_ & _ & _ & _ & _ & _ & _ & Hl0 & _).
  destruct (Hk (clk (2 + n)) ltac:(lia)) as (_ & _ & _ & _ & _ & _ & Hs0 & _).
  unfold get_session_hashrate. apply ends_bind. eapply get_int_ends; [done..|]. intros v1 Hv1.
  apply ends_bind. eapply get_int_ends; [done..|]. intros v2 Hv2.
  apply ends_bind. eapply get_int_ends; [done..|]. intros v3 Hv3.
  assert (on_server (3 + n) p v3) as Hv by (exists u; split; [done|eapply (kept_later clk Hclk), Hk; lia]).
  specialize (HQ v3 Hv). unfold hashrate_of in HQ.
  destruct (pg_first p) as [f|], (pg_last p) as [l|], (pg_sum p) as [s|]; try by apply ends_ret.
  specialize (Hf _ eq_refl). specialize (Hlast _ eq_refl).
  destruct (Z.ltb_spec f l), (Z.ltb_spec 0 s); cbn [andb] in *; try by apply ends_ret.
  apply ends_bind. eapply ends_lift; [unfold arith_i; rewrite (proj2 (fits_spec _ _ (l - f))) by lia; done|].
  replace (Z.max (l - f) 1) with (l - f) by lia. replace (Z.max s 0) with s by lia. by apply ends_ret.
Qed.

Lemma read_chain_ends c w (Q : StakeRead → App → Prop) :
  Good (app_net w) → (∀ r x, Good x → Q r (set_net x w)) → ends (read_chain state c (ctx_wallet ctx)) w Q.
Proof.
  intros Hg HQ. unfold read_chain. destruct (find_chain _ _) as [reader|].
  - apply ends_bind, caught_net_ends; [apply read_stake_tame|done|]. intros r x Hx. by apply ends_ret, HQ.
  - apply ends_ret. replace w with (set_net (app_net w) w) by by destruct w. by apply HQ.
Qed.

Lemma staking_ends w (Q : StakingSummary → App → Prop) :
  Good (app_net w) →
  (∀ s x, 0 ≤ su_effective_boost_bps s ≤ MAX_BOOST_BPS → Good x → Q s (set_net x w)) →
  ends (staking_summary b state (ctx_wallet ctx)) w Q.
Proof.
  intros Hg HQ. unfold staking_summary. apply ends_bind, read_chain_ends; [done|]. intros r1 x1 Hx1.
  apply ends_bind, read_chain_ends; [done|]. intros r2 x2 Hx2. unfold build_summary.
  destruct (resolve_chain_stake _ r1) as [l1 e], (resolve_chain_stake _ r2) as [l2 q].
  rewrite combined_boost_bps_eq. cbn. apply HQ; [apply combined_boost_spec_range|done].
Qed.

Lemma hashrate_of_range first sum last c : 0 ≤ hashrate_of first sum last c ≤ 5000.
Proof.
  pose proof (max_hashrate_range c). unfold hashrate_of.
  destruct first as [f|], last as [l|], sum as [s|]; try lia.
  destruct (Z.ltb_spec f l), (Z.ltb_spec 0 s); cbn [andb]; try lia.
  pose proof (Z.div_pos s (l - f)). lia.
Qed.

(** The gross amount, in the calculator's unit, of the work on the server. *)
Definition earned p (duration boost : Z) : Z :=
  gross_spec (hashrate_of (pg_first p) (pg_sum p) (pg_last p) (ctx_client_type ctx)) duration 1000 (ctx_commodity ctx)
    * (BPS_DENOMINATOR + boost) / BPS_DENOMINATOR.
Definition duration_of (t : TwapResult) : Z := Z.max (num_seconds (tr_session_end t - tr_session_start t)) 0.

(** The boost of the wallet's stake, as the readers show it at the payout in [u]: the edge
    is read first, then the session's hashrate, then the stakes. *)
Definition stake_boost (u : App) (boost : Z) : Prop :=
  ∃ config u1 rate v summary u2,
    payout_config_with_live_edge state u = (Ok config, u1) ∧
    get_session_hashrate b clk sid (ctx_client_type ctx) (app_redis u1) = (Ok rate, v) ∧
    staking_summary b state (ctx_wallet ctx) (set_redis v u1) = (Ok summary, u2) ∧
    boost = su_effective_boost_bps summary.

Lemma payout_ends n p w t (Q : Z * option Z → App → Prop) :
  on_server n p (app_redis w) → clk (2 + n)%nat < d → timely p → Good (app_net w) → edge_sane w →
  0 ≤ tr_twap t ≤ 100000000000000 → duration_of t ≤ 31536000 →
  (∀ boost cents v x e, 0 ≤ boost ≤ MAX_BOOST_BPS → stake_boost w boost → on_server (3 + n) p v → Good x →
     Q (earned p (duration_of t) boost * GROSS_CALIB_TO_WEI, cents) (set_redis v (set_edge (e, x) w))) →
  ends (compute_payout b clk state sid ctx t) w Q.
Proof.
  intros Hs Hd Ht Hg He Hp Hdur HQ. unfold compute_payout. fold (duration_of t).
  assert (0 ≤ duration_of t) as Hd0 by (unfold duration_of; lia).
  apply ends_bind, ends_run, edge_ends; [done..|]. intros edge [e x] Hedge Hx Hconfig.
  apply ends_bind, ends_attempt, ends_zoom, ends_run. eapply hashrate_ends; [exact Hs|done|done|]. intros v Hv Hread.
  pose proof (hashrate_of_range (pg_first p) (pg_sum p) (pg_last p) (ctx_client_type ctx)) as Hrate.
  set (rate := hashrate_of _ _ _ _) in *. cbv zeta.
  apply ends_bind. eapply ends_lift; [by apply (pipeline_gross rate (duration_of t) 0); [lia..|split; done]|].
  apply ends_bind, ends_run, staking_ends; [exact Hx|]. intros su y Hboost Hy Hstake.
  apply ends_bind. eapply ends_lift.
  { apply (pipeline_gross rate (duration_of t) (su_effective_boost_bps su) (ctx_commodity ctx) Hrate ltac:(lia) Hboost b edge). }
  destruct (pipeline_any_edge b rate (duration_of t) (su_effective_boost_bps su) (ctx_commodity ctx) (tr_twap t) edge)
    as [r Hr]; [done|lia|done|lia|done|].
  apply ends_bind. eapply ends_lift; [exact Hr|]. apply ends_ret.
  rewrite pipeline_wei by (done || lia). refine (HQ (su_effective_boost_bps su) _ v y e Hboost _ Hv Hy).
  by eexists _, _, _, v, su, _.
Qed.

(** *** The books *)
Definition db_up (db : Db) : Prop := ∀ k, (db_tick db ≤ k)%nat → db_fault k = None.
Definition signs : Prop :=
  (∀ m, ∃ s, sign_proposal m (st_signing_key state) = inr (as_bytes (Key:=Key) s)) ∧
  ∀ att, ∃ json, attestation_json att = inr json.

Lemma settle_ends n p w amount cents att (Q : Z * string → App → Prop) :
  on_server n p (app_redis w) → db_up (app_db w) → signs → sid ∉ (pr_session_id <$> rows w) →
  (∀ row w', is_row_of row sid ctx amount cents att → rows w' = rows w ++ [row] → Q (200, "completed") w') →
  ends (settle clk state sid ctx amount cents att) w Q.
Proof.
  intros Hs Hdb [Hsign Hjson] Hni HQ. unfold settle. apply ends_bind. eapply now_ends; [exact Hs|]. intros v Hv.
  set (unsigned := {| mp_session_id := sid |}). destruct (Hsign unsigned) as [sg ->].
  apply ends_bind, ends_ret, ends_bind. eapply ends_ok_or; [apply signature_roundtrip|].
  set (m := {| mp_session_id := mp_session_id unsigned |}). destruct (Hjson (mp_attestation m)) as [json Hj].
  apply ends_bind, ends_attempt, ends_zoom. unfold insert_mint_proposal, sql, ends at 1. rewrite Hj.
  cbn [app_db set_redis]. rewrite (Hdb (db_tick (app_db w))) by lia.
  rewrite bool_decide_eq_false_2 by exact Hni.
  apply ends_bind, ends_modify, ends_bind, ends_modify, ends_bind, internal_ends, ends_zoom.
  destruct Hv as (u & Hu & _). eapply (exec_unit_ends clk Hclk); [exact Hu|done|]. intros v' _. apply ends_ret.
  eapply HQ; [|reflexivity]. by split_and!.
Qed.

Definition minted_room w (amount : Z) : Prop :=
  0 ≤ minted_24h_of w ∧ minted_24h_of w + amount ≤ daily_ceiling (st_mint_ceiling state)
    (st_mint_ceiling_active_users state) (st_mint_ceiling_avg_daily_prm_per_user state) * PRM_WEI.

Lemma within_ceiling w amount :
  0 ≤ amount → minted_room w amount →
  (daily_ceiling_wei state <? sat_u U128_MAX (default U128_MAX (parse_u U128_MAX (show (minted_24h_of w))) + amount)) = false.
Proof.
  intros Ha [Hm Hle]. unfold daily_ceiling_wei.
  assert (0 ≤ daily_ceiling (st_mint_ceiling state) (st_mint_ceiling_active_users state)
    (st_mint_ceiling_avg_daily_prm_per_user state) ≤ U64_MAX) as Hd by by apply sat_u_range.
  set (c := daily_ceiling _ _ _) in *. unfold PRM_WEI in *.
  rewrite parse_u_show by lia. cbn. apply Z.ltb_ge. unfold sat_u. lia.
Qed.

Lemma attest_caught ps seed assigned w att x :
  (attempt (on_net (attest state sid ps seed assigned)) : M App ApiError _) w = (Ok (inr att), set_net x w) →
  coordinate_attestation (st_node_coordinator state) net_now sid ps seed assigned (app_net w) = (inr att, x).
Proof.
  intros Hq. apply attempt_ok in Hq as [(? & [= <-] & Hq)|(? & ? & ?)]; [|done].
  apply zoom_ok in Hq as (x' & Hq & Heq). apply (f_equal app_net) in Heq. cbn in Heq. subst x'. by apply attest_ok.
Qed.

Lemma mint_ends n p w t att (Q : Z * string → App → Prop) :
  on_server n p (app_redis w) → clk (3 + n)%nat < d → timely p → Good (app_net w) → edge_sane w →
  0 ≤ tr_twap t ≤ 100000000000000 → duration_of t ≤ 31536000 →
  db_up (app_db w) → signs → sid ∉ (pr_session_id <$> rows w) →
  (∀ boost, 0 ≤ boost ≤ MAX_BOOST_BPS → minted_room w (earned p (duration_of t) boost * GROSS_CALIB_TO_WEI)) →
  (∀ boost cents z row w', 0 ≤ boost ≤ MAX_BOOST_BPS → stake_boost w boost →
     compute_payout b clk state sid ctx t w = (Ok (earned p (duration_of t) boost * GROSS_CALIB_TO_WEI, cents), z) →
     is_row_of row sid ctx (earned p (duration_of t) boost * GROSS_CALIB_TO_WEI) cents att →
     rows w' = rows w ++ [row] → Q (200, "completed") w') →
  ends (mint b clk state sid ctx t att) w Q.
Proof.
  intros Hs Hd Ht Hg He Hp Hdur Hdb Hsign Hni Hroom HQ. unfold mint.
  assert (clk (2 + n)%nat < d) as Hd2 by (pose proof (Hclk (2 + n)%nat (3 + n)%nat ltac:(lia)); lia).
  apply ends_bind, ends_run. eapply payout_ends; [exact Hs|done..|]. intros boost cents v x e Hb Hsb Hv Hx Hpay.
  set (amount := earned _ _ _ * _). set (w1 := set_redis v (set_edge (e, x) w)).
  apply ends_bind, ends_attempt, ends_zoom. unfold total_minted_wei_24h, select, sql, ends at 1.
  change (app_db w1) with (app_db w). rewrite (Hdb (db_tick (app_db w))) by lia.
  change (sum_gross _) with (minted_24h_of w).
  assert (0 ≤ amount) as Ha.
  { pose proof (hashrate_of_range (pg_first p) (pg_sum p) (pg_last p) (ctx_client_type ctx)) as Hrate.
    assert (0 ≤ duration_of t) by (unfold duration_of; lia).
    destruct (pipeline_gross_bounds _ (duration_of t) boost (ctx_commodity ctx) Hrate ltac:(lia) Hb) as (? & ? & _).
    unfold amount, earned, GROSS_CALIB_TO_WEI. lia. }
  rewrite (within_ceiling w amount Ha (Hroom boost Hb)).
  eapply settle_ends; [exact Hv| |done|exact Hni|].
  - intros k Hk. apply Hdb. cbn in Hk. lia.
  - intros row w' Hrow Hw'. exact (HQ boost cents _ row w' Hb Hsb Hpay Hrow Hw').
Qed.

Lemma finalize_ends calc now :
  tc_session_start calc = start → Forall (λ s, 0 < ps_price s ≤ max_price) (tc_samples calc) →
  tc_samples calc ≠ [] → max_price * Z.of_nat (length (tc_samples calc)) ≤ U128_MAX →
  ∃ t, finalize b calc now = Some (Some t) ∧ 0 ≤ tr_twap t ≤ max_price ∧
    tr_session_start t = start ∧ tr_session_end t = now.
Proof.
  intros Hst Hf Hne Hmax. assert (0 < Z.of_nat (length (tc_samples calc))) as Hlen.
  { destruct (tc_samples calc); [done|cbn; lia]. }
  pose proof (price_sum_bounds 0 max_price (tc_samples calc)) as Hb.
  specialize (Hb ltac:(eapply Forall_impl; [exact Hf|cbn; lia])).
  unfold finalize, twap_calculate. rewrite sum_prices_exact;
    [|eapply Forall_impl; [exact Hf|cbn; lia]|lia].
  set (len := length (tc_samples calc)) in *. destruct (tc_samples calc) as [|s l]; [done|].
  cbn [mbind option_bind]. eexists. split; [done|]. cbn in Hb |- *. split_and!; [apply Z.div_pos; lia| |done|done].
  apply Z.div_le_upper_bound; lia.
Qed.

(** *** The end *)
Definition final_duration (n : nat) : Z := Z.max (num_seconds (clk (3 + n)%nat - start)) 0.
(** What the end of the session needs of the world and the books. *)
Record payable (assigned : NodeId) p w : Prop := {
  payable_quorum : quorum (pg_proofs p) assigned;
  payable_edge : edge_sane w;
  payable_db : db_up (app_db w);
  payable_signs : signs;
  payable_new : sid ∉ (pr_session_id <$> rows w);
  payable_room boost : 0 ≤ boost ≤ MAX_BOOST_BPS →
    minted_room w (earned p (final_duration (re_tick (app_redis w))) boost * GROSS_CALIB_TO_WEI);
  payable_price : max_price ≤ 100000000000000;
  payable_count : (1 ≤ length (pg_proofs p))%nat ∧ max_price * Z.of_nat (length (pg_proofs p)) ≤ U128_MAX
}.

Lemma end_ends p w nonce_hex nonce assigned :
  let n := re_tick (app_redis w) in
  running p w → clk (8 + n)%nat < d → final_duration n ≤ 31536000 →
  ctx_assigned_node_id ctx = Some assigned → hex_decode nonce_hex = Some nonce → sha256 nonce = commit →
  payable assigned p w →
  ends (end_session b clk state sid nonce_hex) w (λ r w', r = (200, "completed") ∧
    ∃ row v twap seed att u boost cents z, let amount := earned p (final_duration n) boost * GROSS_CALIB_TO_WEI in
      rows w' = rows w ++ [row] ∧ revealed clk sid nonce_hex w ctx v ∧
      attested b clk state sid ctx assigned (set_redis v w) twap (pg_proofs p) seed att u ∧
      stake_boost u boost ∧ 0 ≤ boost ≤ MAX_BOOST_BPS ∧
      compute_payout b clk state sid ctx twap u = (Ok (amount, cents), z) ∧ is_row_of row sid ctx amount cents att).
Proof.
  intros n (Hs & Ht & Hg & calc & Hcalc & Hst & Hpr & Hlen) Hd Hdur Hnode Hdec Hsha
    [Hq He Hdb Hsign Hni Hroom Hmax [Hone Hcount]]. fold n in Hs, Hroom. clearbody n.
  assert (∀ m, (m ≤ 8 + n)%nat → clk m < d) as Hin.
  { intros m Hm. pose proof (Hclk m (8 + n)%nat Hm). lia. }
  unfold end_session. apply ends_bind, internal_ends, ends_zoom, ends_run.
  eapply (get_session_ends clk Hclk); [exact Hs|apply Hin; lia|]. intros v1 Hv1 Hget.
  apply ends_bind. eapply ends_ok_or; [done|]. apply ends_bind. eapply ends_ok_or; [exact Hdec|].
  apply ends_bind, internal_ends, ends_zoom, ends_run.
  eapply (verify_reveal_ends clk Hclk); [exact Hv1|apply Hin; lia|done|]. intros v2 Hv2 Hreveal. cbn [negb]. rewrite Hnode.
  unfold finish, take_twap. apply ends_bind, ends_bind, ends_gets, ends_bind, ends_modify. cbn [app_twap set_redis].
  rewrite Hcalc. apply ends_bind. unfold now_utc. apply ends_zoom, ends_run.
  eapply (on_server_now clk Hclk); [exact Hv2|]. intros v3 Hv3 Hnow.
  destruct (finalize_ends calc (clk (S (2 + n))%nat) Hst Hpr) as (t & Et & Htp & Hts & Hte).
  { intros Hnil. rewrite Hnil in Hlen. cbn in Hlen. lia. } { by rewrite Hlen. }
  assert (duration_of t = final_duration n) as Hdt by (unfold duration_of; by rewrite Hts, Hte).
  eapply ends_lift; [exact Et|].
  apply ends_bind, ends_run, submit_all_ends; [exact Hg|]. intros x1 Hx1 Hsubmit.
  apply ends_bind, internal_ends, ends_zoom, ends_run.
  eapply (get_proofs_ends clk Hclk); [exact Hv3|apply Hin; lia|]. intros v4 Hv4 Hproofs.
  apply ends_bind, ends_run, session_seed_ends; [exact Hx1|]. intros seed x2 Hx2 Hseed.
  apply ends_bind, ends_run, attest_ends with (assigned := assigned); [exact Hx2|exact Hq|]. intros att x3 Hx3 Hattest.
  apply attest_caught in Hattest.
  eapply mint_ends; [exact Hv4|apply Hin; lia|done|exact Hx3|exact He|lia|by rewrite Hdt|exact Hdb|exact Hsign
    |exact Hni|rewrite Hdt; exact Hroom|].
  intros boost cents z row w' Hb Hsb Hpay Hrow Hw'. rewrite Hdt in Hrow, Hpay. split; [done|].
  eexists row, v2, t, seed, att, _, boost, cents, z. split; [exact Hw'|]. split; [by exists nonce, v1|].
  split; [by eapply Attested|]. destruct Hb. by split_and!.
Qed.
End handlers.

(** ** The whole way *)
Section journey.
Context {R X P C Key : Type} `{!RedisServer R, Codec : !SessionCodec, !PgServer, !OracleNet X, !Rpc X P,
  !NodeClient X C, !Timer X, !AttestationCrypto, !ProposalSigner Key, !ServiceCodec}.
Context (b : build) (clk : nat → DateTime) (fuel : nat).
Context (try_send : AnomalyEvent → list AnomalyEvent → bool * list AnomalyEvent).
Hypothesis Hclk : ∀ n m, (n ≤ m)%nat → clk n ≤ clk m.
Hypothesis Hrange : ∀ n, 0 ≤ timestamp (clk n) ≤ I64_MAX.
Abbreviation App := (App R X).
Abbreviation State := (AppState (P:=P) (C:=C) (Key:=Key)).
Implicit Types (w : App) (p : Progress).

(** A request that the service can serve: its fields parse, and neither its wallet nor
    its address has used up its rate. *)
Record requestable (ip : string) (body : CreateSessionRequest) (wallet : Address) (ct : ClientType)
    (commit : bytes) (chain : Chain) w : Prop := {
  rq_wallet : parse_address (cr_wallet body) = Some wallet;
  rq_client : parse_client_type (cr_client_type body) = Some ct;
  rq_commit : hex_decode (cr_commit_hash body) = Some commit ∧ length commit = 32%nat;
  rq_chain : from_str_id (cr_chain body) = Some chain;
  rq_wallet_rate : below clk (re_tick (app_redis w)) (sees (app_redis w)) (wallet_key address_display wallet) WALLET_LIMIT;
  rq_ip_rate : below clk (re_tick (app_redis w)) (sees (app_redis w)) (ip_key ip) IP_LIMIT
}.
(** A server that is up, knows no session of a new id, and ends its scans. *)
Record ready (wallet : Address) (rank : Z → nat) (room : nat) (crowd : nat → R → Prop) w : Prop := {
  rd_healthy : healthy (re_state (app_redis w));
  rd_unused m : unused clk (re_tick (app_redis w)) (new_uuid m) (sees (app_redis w));
  rd_json ctx : ∃ x, ctx_to_json ctx = inr x;
  rd_scan : scannable clk (session_key (address_display wallet) "*") rank crowd;
  rd_crowd : crowd (room + re_tick (app_redis w))%nat (re_state (app_redis w));
  rd_fuel : (rank 0%Z < fuel)%nat ∧ Z.of_nat (4 + room + fuel + re_tick (app_redis w)) * Z.of_nat fuel ≤ U32_MAX
}.

Lemma but_for_unused n m key id v v' :
  unused clk n id v → (n ≤ m)%nat → but_for clk n key v v' → key ∉ progress_keys id → unused clk m id v'.
Proof.
  intros Hu Hn Hb Hk t k Ht Hin. pose proof (Hclk n m Hn). rewrite Hb; [apply Hu; [lia|done]|lia|]. by intros ->.
Qed.
Lemma rate_key_other (s : string) id : "rate:" +:+ s ∉ progress_keys id.
Proof.
  unfold progress_keys. rewrite !elem_of_cons, elem_of_nil. intros Hin.
  repeat (destruct Hin as [Hin|Hin]; [discriminate Hin|]). done.
Qed.

(** What [create_session] does once the request is parsed and within its rates. *)
Definition open_session (state : State) (ip : string) (body : CreateSessionRequest) (wallet : Address)
    (ct : ClientType) (commit : bytes) (chain : Chain) : HM (Z * CreateSessionResponse) :=
  count ← internal (on_redis (get_active_session_count b clk fuel wallet));
  active_sessions_count ← ended count;
  started_at ← now_utc clk;
  session_id ← internal (on_redis (SessionStore.create_session clk
    (requested state ip body wallet ct chain active_sessions_count started_at)));
  internal (on_redis (set_commit clk session_id commit)) ;;
  now ← now_utc clk;
  modify (λ w, set_twap (<[session_id := twap_new now]> (app_twap w)) w) ;;
  gauge 1 ;;
  mret (201, {| csr_session_id := session_id; csr_assigned_site := id ← cr_assigned_node_id body; st_node_sites state !! id |}).

Lemma create_opens (state : State) ip body wallet ct commit chain rank room crowd w Q :
  let n := re_tick (app_redis w) in
  requestable ip body wallet ct commit chain w → ready wallet rank room crowd w →
  (∀ m v u, (n ≤ m ≤ 4 + n)%nat → shown clk m v u → crowd (room + m)%nat (re_state u) →
     (∀ i, unused clk m (new_uuid i) v) →
     ends (open_session state ip body wallet ct commit chain) (set_redis u w) Q) →
  ends (create_session b clk fuel state ip body) w Q.
Proof.
  intros n [Hw Hc [Hdec Hlen] Hch Hrw Hri] [Hh Hu _ [_ _ Hcrowd] Hcr _] HQ. fold n in Hrw, Hri, Hu.
  unfold create_session. apply ends_bind. eapply ends_ok_or; [exact Hw|]. apply ends_bind. eapply ends_ok_or; [exact Hc|].
  apply ends_bind. unfold parse_hash. rewrite Hdec. apply ends_bind, ends_ret.
  destruct (decide (length commit = 32%nat)); [|done]. apply ends_ret.
  apply ends_bind. eapply ends_ok_or; [exact Hch|].
  assert (shown clk n (sees (app_redis w)) (app_redis w)) as Hs by (split_and!; done).
  apply ends_bind, internal_ends, ends_zoom.
  eapply (check_ends clk Hclk); [exact Hcrowd|exact Hs|exact Hcr|exact Hrw|done|].
  intros m1 v1 u1 Hm1 Hb1 Hs1 Hcr1. apply ends_bind, ends_ret.
  assert (below clk m1 v1 (ip_key ip) IP_LIMIT) as Hri1.
  { intros t Ht. pose proof (Hclk n m1 ltac:(lia)). unfold holds_int. rewrite Hb1; [apply Hri; lia|lia|].
    intros Heq. by destruct (wallet_ip_ne address_display wallet ip). }
  assert (∀ i, unused clk m1 (new_uuid i) v1) as Hu1.
  { intros i. eapply but_for_unused; [apply Hu|lia|exact Hb1|apply rate_key_other]. }
  apply ends_bind, internal_ends, ends_zoom.
  eapply (check_ends clk Hclk); [exact Hcrowd|exact Hs1|exact Hcr1|exact Hri1|done|].
  intros m2 v2 u2 Hm2 Hb2 Hs2 Hcr2. apply ends_bind, ends_ret. refine (HQ m2 v2 u2 _ Hs2 Hcr2 _); [lia|].
  intros i. eapply but_for_unused; [apply Hu1|lia|exact Hb2|apply rate_key_other].
Qed.

(** The session is open on the server and in the service. *)
Definition opened (ctx : SessionContext) (sid : SessionId) (commit : bytes) (d : DateTime) (n m k : nat) (w w1 : App) : Prop :=
  on_server clk ctx sid commit d m no_progress (app_redis w1) ∧ (n ≤ k ≤ m)%nat ∧
  app_twap w1 = <[sid := twap_new (clk k)]> (app_twap w) ∧ app_net w1 = app_net w ∧ app_db w1 = app_db w ∧
  app_edge w1 = app_edge w.

Lemma open_ends (state : State) ip body wallet ct commit chain rank room crowd m v u w :
  let n := re_tick (app_redis w) in
  ready wallet rank room crowd w → (n ≤ m ≤ 4 + n)%nat → shown clk m v u → crowd (room + m)%nat (re_state u) → (∀ i, unused clk m (new_uuid i) v) →
  ends (open_session state ip body wallet ct commit chain) (set_redis u w) (λ r w1, r.1 = 201 ∧ ∃ active t k m',
    (m' ≤ 7 + fuel + m)%nat ∧
    opened (requested state ip body wallet ct chain active t) (csr_session_id r.2) commit (clk n + secs TTL_SECS) n m' k w w1).
Proof.
  intros n [_ _ Hjson Hscan _ (Hf & Hmax)] Hn Hs Hcr Hu. fold n in Hmax. clearbody n. unfold open_session.
  apply ends_bind, internal_ends, ends_zoom. unfold get_active_session_count.
  eapply (count_loop_total b clk Hclk); [exact Hscan|exact Hf|done| |exact Hs|exact Hcr|].
  { etrans; [apply Z.mul_le_mono_nonneg_r; [lia|]|exact Hmax]. lia. }
  intros a m1 u1 Hm1 Hs1.
  apply ends_bind. eapply ends_lift; [done|]. apply ends_bind. unfold now_utc at 1. apply ends_zoom.
  eapply (shown_now clk Hclk); [exact Hs1|]. intros u2 Hs2.
  set (ctx := requested _ _ _ _ _ _ _ _). destruct (Hjson ctx) as [x Hx].
  apply ends_bind, internal_ends, ends_zoom. eapply (create_ends clk Hclk); [exact Hs2|exact Hx|]. intros u3 Hs3.
  set (sid := new_uuid (S m1)) in *.
  apply ends_bind, internal_ends, ends_zoom.
  pose proof (Hclk n (S m1) ltac:(lia)).
  eapply (commit_ends clk Hclk); [exact Hs3| |exact Hx|by apply Z.add_le_mono_r|].
  { intros t k Ht. apply Hu. pose proof (Hclk m (4 + S m1)%nat ltac:(lia)). lia. }
  intros u4 Hs4. apply ends_bind. unfold now_utc. apply ends_zoom. eapply (on_server_now clk Hclk); [exact Hs4|].
  intros u5 Hs5. apply ends_bind, ends_modify, ends_bind, ends_modify, ends_ret. split; [done|].
  exists a, (clk m1), (4 + S m1)%nat, (S (4 + S m1)). split; [lia|]. split; [exact Hs5|]. split_and!; try done; lia.
Qed.

(** What others do meanwhile: anything that leaves the session's keys and calculator
    alone and the server and the network in order. *)
Definition session_owns (ctx : SessionContext) (sid : SessionId) (k : string) : Prop :=
  k ∈ [session_key (address_display (ctx_wallet ctx)) sid; lookup_key sid; commit_key sid; paused_key sid;
       proofs_key sid; first_key sid; sum_key sid; activity_key sid; proof_count_key sid; verified_key sid].
Record meanwhile (ctx : SessionContext) (sid : SessionId) (Good : X → Prop) w w' : Prop := {
  mw_server : steps clk (session_owns ctx sid) (app_redis w) (app_redis w');
  mw_healthy : healthy (re_state (app_redis w'));
  mw_net : Good (app_net w');
  mw_twap : app_twap w' !! sid = app_twap w !! sid
}.

Section client.
Context (state : State) (ctx : SessionContext) (sid : SessionId) (commit : bytes) (d late start : DateTime)
  (max_price : Z) (Good : X → Prop).
Hypothesis Hserves : serves b state late max_price Good (ctx_commodity ctx).
Hypothesis Hstart : start ≤ late.
Hypothesis Hlast : ctx_last_submission_at ctx = None.
Abbreviation running := (running clk ctx sid commit d start max_price Good).

(** The client's acceptable proofs, one after the other, and what happens between them. *)
Inductive mining (w1 : App) : Progress → App → Prop :=
  | mining_start : mining w1 no_progress w1
  | mining_proof p w body proof :
      mining w1 p w → clk (19 + re_tick (app_redis w))%nat < d →
      acceptable clk ctx sid (re_tick (app_redis w)) p body proof →
      mining w1 (submit_progress clk (re_tick (app_redis w)) proof p) (submit_proof b clk try_send state sid body w).2
  | mining_meanwhile p w w' : mining w1 p w → meanwhile ctx sid Good w w' → mining w1 p w'.

Lemma running_meanwhile p w w' : running p w → meanwhile ctx sid Good w w' →
  running p w' ∧ (re_tick (app_redis w) ≤ re_tick (app_redis w'))%nat.
Proof.
  intros ((v & Hv & Hk) & Ht & Hg & Hcalc) [Hs Hh Hg' Htw].
  apply (steps_sees clk Hclk) in Hs as (Htick & Hn & Hs). split; [|done].
  split_and!; [|done|done|by rewrite Htw]. exists (sees (app_redis w')). split; [by split_and!|].
  intros t Htt. unfold now_of in Hn, Hs. specialize (Hk t ltac:(lia)). destruct Hv as (_ & _ & Hv).
  assert (∀ k, session_owns ctx sid k → sees (app_redis w') t k = v t k) as Heq.
  { intros k Hown. rewrite Hs by (done || lia). apply Hv. lia. }
  unfold recorded, holds_int in *. rewrite !Heq by (unfold session_owns; set_solver). exact Hk.
Qed.

Context (n0 : nat).
Hypothesis Hd : d ≤ clk n0 + secs TTL_SECS.

Lemma alive n : (n0 ≤ n)%nat → clk n < d → in_life clk d n.
Proof. intros Hn Hlt. pose proof (Hclk n0 n Hn). unfold in_life. lia. Qed.

Lemma mining_running w1 p w : running no_progress w1 → (n0 ≤ re_tick (app_redis w1))%nat → mining w1 p w →
  running p w ∧ (n0 ≤ re_tick (app_redis w))%nat.
Proof.
  intros Hrun Hn. induction 1 as [|p w body proof _ [IH Htick] Hin Hacc|p w w' _ [IH Htick] Hm]; [done| |].
  - pose proof (Hclk (re_tick (app_redis w)) (19 + re_tick (app_redis w))%nat ltac:(lia)).
    pose proof (submit_ends b clk try_send Hclk Hrange ctx sid commit d state late start max_price Good Hserves Hstart
      p w body proof IH (alive _ Htick ltac:(lia)) Hin Hlast Hacc) as He.
    apply ends_iff in He as (r & w' & E & _ & Hrun' & Htick' & _). rewrite E. split; [exact Hrun'|]. cbn. lia.
  - destruct (running_meanwhile _ _ _ IH Hm). split; [done|lia].
Qed.

(** The work a session is paid for: its proofs but the first. *)
Definition work (ps : list PartialProof) : option Z :=
  match ps with
  | [] | [_] => None
  | _ :: ps => Some (foldr (λ q acc, pp_difficulty q + acc) 0 ps)
  end.

Lemma work_snoc ps q : ps ≠ [] → work (ps ++ [q]) = Some (default 0 (work ps) + pp_difficulty q).
Proof.
  destruct ps as [|x ps]; [done|intros _]. destruct ps as [|y ps]; cbn; f_equal; [lia|].
  rewrite foldr_app. cbn. induction ps as [|z ps IH]; cbn in *; lia.
Qed.

Lemma mining_work w1 p w : mining w1 p w →
  pg_sum p = work (pg_proofs p) ∧ (pg_first p = None ↔ pg_proofs p = []).
Proof.
  induction 1 as [|p w body proof _ [IH1 IH2] _ _|]; [done| |done].
  unfold submit_progress, count_progress, record_progress. cbn [set_count pg_first].
  destruct (pg_first p) as [f|] eqn:E; cbn [set_proofs set_verified set_last set_first set_sum pg_sum pg_first pg_proofs].
  - rewrite work_snoc by naive_solver. rewrite <-IH1. split; [done|]. cbn [set_count pg_first]. rewrite E. split; [done|]. by destruct (pg_proofs p).
  - cbn. rewrite IH1. by destruct IH2 as [-> _].
Qed.
End client.

Lemma short_session n k m : (n ≤ k)%nat → clk (3 + m)%nat < clk n + secs TTL_SECS → final_duration clk (clk k) m ≤ 31536000.
Proof.
  intros Hk Hm. pose proof (Hclk n k Hk). unfold final_duration. apply Z.max_lub; [|done].
  apply Z.lt_succ_r, Z.lt_nge. rewrite num_seconds_le by lia. unfold secs, TTL_SECS, NANOS_PER_SEC in *. lia.
Qed.

(** ** The property *)

(** C3. An honest client is served and paid, from the creation of its session to the
    mint. In a world where the Redis server is up, the oracles, the chain and the nodes
    answer and no rate is used up, [create_session] answers 201, and from then on,
    whatever accepted proofs [p] the client has sent and whatever others have done in
    between to anything but the session's own keys and calculator: (1) the difficulty
    recorded for the session is that of its proofs without the first; (2) while the hour
    of the session lasts, the next well-formed proof at a possible rate is accepted;
    (3) the reveal of the committed nonce ends the session with 200 and adds exactly one
    row, for the session's wallet, chain and commodity. Its attestation is the one that
    at least three distinct registered signers gave in this call over exactly the
    session's proofs; its amount is what the recorded work and the duration earn with
    the boost of the wallet's stake as read at the payout. For (3) the world must be one
    in which a quorum is to be had for these proofs under any seed, the database takes
    its statements and has no row of the session yet, the signing key and the attestation
    serialise, the stored house edge is not negative, the ceiling has room for the amount
    at any boost, there is a proof, and the prices sampled are positive and small enough
    for their sum to fit ([payable]). No branch of the handlers on the way is an error,
    a panic or an overflow in either build. *)
Theorem honest_session_paid (state : State) ip body wallet ct commit chain rank room crowd late max_price Good w :
  let n := re_tick (app_redis w) in
  let d := clk n + secs TTL_SECS in
  requestable ip body wallet ct commit chain w → ready wallet rank room crowd w →
  serves b state late max_price Good (parse_commodity (cr_commodity body)) → Good (app_net w) →
  clk (11 + fuel + n)%nat ≤ late →
  ends (create_session b clk fuel state ip body) w (λ created w1, created.1 = 201 ∧ ∃ active t k,
    (n ≤ k ≤ 11 + fuel + n)%nat ∧ let start := clk k in
    let sid := csr_session_id created.2 in
    let ctx := requested state ip body wallet ct chain active t in
    ∀ p w2, mining state ctx sid d Good w1 p w2 →
      let m := re_tick (app_redis w2) in
      pg_sum p = work (pg_proofs p) ∧
      (∀ next proof, clk (19 + m)%nat < d → acceptable clk ctx sid m p next proof →
         ends (submit_proof b clk try_send state sid next) w2 (λ r _, spr_accepted r = true)) ∧
      (∀ assigned nonce_hex nonce, clk (8 + m)%nat < d → cr_assigned_node_id body = Some assigned →
         hex_decode nonce_hex = Some nonce → sha256 nonce = commit →
         payable clk ctx sid state start max_price assigned p w2 →
         ends (end_session b clk state sid nonce_hex) w2 (λ r w', r = (200, "completed") ∧
           ∃ row v twap seed att u boost cents z,
             let amount := earned ctx p (final_duration clk start m) boost * GROSS_CALIB_TO_WEI in
             rows w' = rows w2 ++ [row] ∧ revealed clk sid nonce_hex w2 ctx v ∧
             attested b clk state sid ctx assigned (set_redis v w2) twap (pg_proofs p) seed att u ∧
             (3 ≤ length (ar_signatures att))%nat ∧ NoDup (ar_signers att) ∧
             Forall3 (genuine (st_node_coordinator state) assigned (pg_proofs p))
               (ar_signatures att) (ar_node_ids att) (ar_signers att) ∧
             stake_boost b clk ctx sid state u boost ∧ 0 ≤ boost ≤ MAX_BOOST_BPS ∧
             compute_payout b clk state sid ctx twap u = (Ok (amount, cents), z) ∧
             is_row_of row sid ctx amount cents att))).
Proof.
  intros n d Hreq Hready Hserves Hg Hlate.
  eapply create_opens; [done..|]. fold n. intros m v u Hm Hs Hcr Hu.
  eapply ends_mono; [eapply (open_ends state ip body wallet ct commit chain rank room crowd); [exact Hready|exact Hm|exact Hs|exact Hcr|exact Hu]|].
  intros [code resp] w1 [Hcode (active & t & k & m' & Hm' & Hs1 & Hk & Htw & Hnet & _ & _)]. split; [done|].
  exists active, t, k. split; [lia|]. cbn [fst snd] in *. set (ctx := requested _ _ _ _ _ _ _ _) in *. set (sid := csr_session_id resp) in *.
  fold n d in Hs1. assert (clk k ≤ late) as Hstart.
  { pose proof (Hclk k (11 + fuel + n)%nat ltac:(lia)). lia. }
  assert (re_tick (app_redis w1) = m') as Hm1 by (by destruct Hs1 as (? & (_ & ? & _) & _)).
  assert (running clk ctx sid commit d (clk k) max_price Good no_progress w1) as Hrun.
  { split_and!; [by rewrite Hm1|done|by rewrite Hnet|]. exists (twap_new (clk k)). by rewrite Htw, lookup_insert_eq. }
  intros p w2 Hmine. destruct (mining_running state ctx sid commit d late (clk k) max_price Good Hserves Hstart eq_refl n
    ltac:(done) _ _ _ Hrun ltac:(lia) Hmine) as [Hrun2 Hn2].
  split; [by apply (mining_work _ _ _ _ _ _ _ _ Hmine)|]. split.
  - intros next proof Hin Hacc.
    pose proof (Hclk (re_tick (app_redis w2)) (19 + re_tick (app_redis w2))%nat ltac:(lia)).
    eapply ends_mono; [eapply (submit_ends b clk try_send Hclk Hrange ctx sid commit d state late (clk k) max_price Good);
      try done; apply (alive d n); [done|done|lia]|].
    by intros r w' [Hr _].
  - intros assigned nonce_hex nonce Hin Hnode Hdec Hsha Hpay.
    eapply ends_mono; [eapply (end_ends b clk Hclk Hrange ctx sid commit d state late (clk k) max_price Good); try done|].
    2:{ intros r w' (-> & row & v' & twap & seed & att & u' & boost & cents & z & Hw' & Hrev & Hatt & Hrest).
        split; [done|]. exists row, v', twap, seed, att, u', boost, cents, z. apply attested_genuine in Hatt as Hgen.
        destruct Hgen as (? & ? & ?). destruct Hrest as (? & [? ?] & ? & ?). by split_and!. }
    apply short_session with (n := n); [lia|].
    pose proof (Hclk (3 + re_tick (app_redis w2))%nat (8 + re_tick (app_redis w2))%nat ltac:(lia)). lia.
Qed.
End journey.

(** ** A run of it

    A codec that can write everything down: values as lists of lists of integers, those
    as positive numbers, those as strings of binary digits. *)
Fixpoint digits (p : positive) : string :=
  match p with xH => "" | xO p => String "0" (digits p) | xI p => String "1" (digits p) end.
Fixpoint undigits (s : string) : positive :=
  match s with EmptyString => xH | String c s => if Ascii.eqb c "0" then xO (undigits s) else xI (undigits s) end.
Lemma undigits_digits p : undigits (digits p) = p.
Proof. by induction p as [p IH|p IH|]; cbn; rewrite ?IH. Qed.

Definition written (l : list (list Z)) : string := digits (encode l).
Definition read (s : string) : option (list (list Z)) := countable.decode (undigits s).
Lemma read_written l : read (written l) = Some l.
Proof. unfold read, written. by rewrite undigits_digits, decode_encode. Qed.

Definition read_back {A} (f : list (list Z) → option A) (what : string) (s : string) : JsonError + A :=
  match r ← read s; f r with Some a => inr a | None => inl (mkJsonError what) end.

Definition optional {A} (f : A → list Z) (o : option A) : list Z := match o with Some a => 1 :: f a | None => [] end.
Definition unoptional {A} (f : list Z → A) (l : list Z) : option A := match l with _ :: l => Some (f l) | [] => None end.
Lemma unoptional_optional {A} (f : A → list Z) g o : (∀ a, g (f a) = a) → unoptional g (optional f o) = o.
Proof. intros Hg. destruct o as [a|]; cbn; by rewrite ?Hg. Qed.
Definition one (z : Z) : list Z := [z].
Definition unone (l : list Z) : Z := default 0 (head l).

Definition fields (c : SessionContext) : list (list Z) :=
  [ [ctx_wallet c]; optional string_bytes (ctx_ip c);
    [match ctx_client_type c with Browser => 0 | Desktop => 1 | Cli => 2 end]; [ctx_active_sessions_count c];
    [ctx_started_at c]; optional one (ctx_last_submission_at c); optional string_bytes (ctx_assigned_node_id c);
    [match ctx_commodity c with Gold => 0 | Platinum => 1 | Silver => 2 | CrudeOil => 3 end];
    [match ctx_target_chain c with Ethereum => 0 | Polygon => 1 end]; [ctx_cpu_threads c];
    optional (λ s, string_bytes (site_code s)) (ctx_assigned_site c);
    optional (λ s, string_bytes (site_city s)) (ctx_assigned_site c);
    optional (λ s, string_bytes (site_country s)) (ctx_assigned_site c) ].
Definition unfields (l : list (list Z)) : option SessionContext :=
  match l with
  | [w; ip; ct; n; at'; last; node; com; ch; th; code; city; country] =>
      Some (mkSessionContext (unone w) (unoptional bytes_string ip)
        (nth (Z.to_nat (unone ct)) [Browser; Desktop; Cli] Browser) (unone n) (unone at') (unoptional unone last)
        (unoptional bytes_string node) (nth (Z.to_nat (unone com)) [Gold; Platinum; Silver; CrudeOil] Gold)
        (nth (Z.to_nat (unone ch)) [Ethereum; Polygon] Ethereum) (unone th)
        (co ← unoptional bytes_string code; ci ← unoptional bytes_string city;
         cn ← unoptional bytes_string country; Some (mkNodeSite co ci cn)))
  | _ => None
  end.
Lemma unfields_fields c : unfields (fields c) = Some c.
Proof.
  destruct c as [w ip ct n at' last node com ch th site]. cbn.
  rewrite !unoptional_optional by (done || apply bytes_string_bytes).
  destruct site as [[co ci cn]|], ct, com, ch; cbn; by rewrite ?bytes_string_bytes.
Qed.

Definition proof_fields (p : PartialProof) : list (list Z) :=
  [ string_bytes (pp_session_id p); [pp_wallet p]; [pp_sequence p]; [pp_hashrate p]; pp_proof_hash p;
    pp_proof_input p; [pp_difficulty p]; [pp_submitted_at p];
    optional (λ s, [sig_r s; sig_s s; if sig_y_parity s then 1 else 0]) (pp_signature p) ].
Fixpoint unproofs (l : list (list Z)) : list PartialProof :=
  match l with
  | sid :: w :: n :: h :: hash :: input :: diff :: at' :: sg :: l =>
      mkPartialProof (bytes_string sid) (unone w) (unone n) (unone h) hash input (unone diff) (unone at')
        (unoptional (λ s, mkSignature (nth 0 s 0) (nth 1 s 0) (nth 2 s 0 =? 1)) sg) :: unproofs l
  | _ => []
  end.
Lemma unproofs_fields ps : unproofs (concat (proof_fields <$> ps)) = ps.
Proof.
  induction ps as [|[sid w n h hash input diff at' sg] ps IH]; [done|]. cbn. rewrite bytes_string_bytes, IH.
  do 2 f_equal. apply unoptional_optional. by intros [r s []].
Qed.

#[local] Obligation Tactic := idtac.
Program Definition full_codec : SessionCodec := {|
  ctx_to_json c := inr (written (fields c));
  ctx_from_json s := read_back unfields "context" s;
  proofs_to_json ps := inr (written (concat (proof_fields <$> ps)));
  proofs_from_json s := read_back (Some ∘ unproofs) "proofs" s;
  address_display := show;
  sha256 := toy_digest;
  hex_encode := hex;
  new_uuid n := "s" +:+ show (Z.of_nat n);
  from_timestamp t := Some (secs t)
|}.
Next Obligation. intros c s [= <-]. unfold read_back. by rewrite read_written; cbn [mbind option_bind]; rewrite unfields_fields. Qed.
Next Obligation. intros ps s [= <-]. unfold read_back. rewrite read_written. cbn. by rewrite unproofs_fields. Qed.
Next Obligation. apply hex_inj. Qed.
Next Obligation. apply hex_length. Qed.
Next Obligation. intros a. apply (@sha256_bytes sample_codec). Qed.

#[local] Existing Instances toy_timer toy_crypto toy_message_signer NodeCoordinator.toy_codec toy_grpc
  toy_service_codec toy_proposal_signer toy_chain full_codec.

(** The network has been up for a thousand seconds at least. *)
Definition net_up (x : nat) : Prop := (1000 ≤ x)%nat.

Lemma toy_serves : serves (Key:=Z) Debug toy_state (secs 1000) 100000000000000 net_up Gold.
Proof.
  assert (∀ x, net_up x → net_up (S x)) as HS by (unfold net_up; lia).
  constructor; try (intros; cbn; by eauto).
  - intros x Hx. exists 320450000000, (S x). split; [vm_compute; reflexivity|]. split; [lia|]. split; [|by apply HS].
    cbn [net_now toy_net]. unfold net_up, secs, NANOS_PER_SEC in *. lia.
  - intros t a ps s x Hx. unfold try_request. destruct (_ !! t) as [c|]; [|done]. by apply HS.
Qed.

Definition keys_at_most (k : nat) (s : MemRedis) : Prop := (size (mem s) ≤ k)%nat.

Lemma mem_run_keys k c t s : keys_at_most k s → keys_at_most (S k) (mem_run c t s).2.
Proof.
  unfold keys_at_most. intros Hk. assert (∀ key x d, (size (mem (mem_set s key x d)) ≤ S k)%nat) as Hset.
  { intros key x d. cbn. rewrite map_size_insert. case_match; unfold id; lia. }
  destruct c as [| | | | |ks| |]; cbn; repeat case_match; cbn [snd]; try apply Hset; try lia.
  cbn [mem]. assert (size (foldr delete (mem s) ks) ≤ size (mem s))%nat; [|lia].
  induction ks as [|key ks IH]; cbn; [done|]. rewrite map_size_delete. case_match; unfold id; lia.
Qed.

Lemma mem_scannable clk pattern : scannable (R:=MemRedis) clk pattern (λ _, 0%nat) keys_at_most.
Proof.
  assert (∀ c t s k, keys_at_most k s → keys_at_most (S k) (mem_exec c t s).2) as Hexec.
  { intros c t s k Hk. unfold mem_exec. destruct (faults s) as [|[] f]; [by apply mem_run_keys|cbn..].
    - unfold keys_at_most in *. cbn. lia.
    - by apply mem_run_keys. }
  assert (∀ pat t s next keys s', mem_exec (SCAN next pat 100) t s = (inr (RScan 0 keys), s') ->
    (length keys ≤ size (mem s))%nat) as Hpage.
  { intros pat t s next keys s' H. assert (keys = filter (λ k, mem_prefix_glob pat k = true) (mem_live (mkMemRedis (mem s) []) t)) as ->.
    { unfold mem_exec in H. destruct (faults s) as [|[] f]; cbn in H; [|done|]; by injection H as H _; rewrite <-H. }
    unfold mem_live. etrans; [apply length_filter|]. etrans; [apply length_filter|]. cbn [mem].
    by rewrite length_fmap, length_map_to_list. }
  assert (∀ cursor w next keys w', redis (R:=MemRedis) clk (SCAN cursor pattern 100) w = (Ok (RScan next keys), w') →
    next = 0 ∧ mem_exec (SCAN cursor pattern 100) (now_of clk w) (re_state w) = (inr (RScan 0 keys), re_state w')) as Hscan.
  { intros cursor w next keys w' H. unfold redis in H. cbn in H.
    destruct (mem_exec _ _ _) as [[e|r] s'] eqn:E; [done|]. injection H as -> <-. cbn.
    assert (next = 0) as ->; [|done].
    unfold mem_exec in E. destruct (faults (re_state w)) as [|[] f]; cbn in E; congruence. }
  constructor.
  - intros cursor w next keys w' H. left. by apply Hscan in H as [-> _].
  - intros k cursor w next keys w' Hk H. apply Hscan in H as [_ H]. apply Hpage in H. unfold keys_at_most in Hk. lia.
  - intros k c w Hk. specialize (Hexec c (now_of clk w) _ _ Hk). unfold redis. cbn. by destruct (mem_exec _ _ _).
Qed.

(** Gold is what [toy_create] asks for; the clock stops after a thousand seconds. *)
Definition toy_opened := create_session Debug bclk 10 toy_state "10.0.0.1" toy_create toy_app.
Definition toy_mined1 := submit_proof Debug bclk send_all toy_state "s6" toy_submit toy_opened.2.
Definition toy_mined2 := submit_proof Debug bclk send_all toy_state "s6" toy_submit toy_mined1.2.
Definition toy_proof_at (n : nat) : PartialProof :=
  mkPartialProof "s6" 7 0 1000 (RandomX.toy_hash [1; 2; 3]) [1; 2; 3] 6000000 (bclk (3 + n)) None.

Lemma filter_permuted {A} (f : A → bool) l l' : l ≡ₚ l' → List.filter f l ≡ₚ List.filter f l'.
Proof.
  induction 1; cbn; repeat case_match; try done; try (by constructor); try (by apply Permutation_skip).
  by etrans.
Qed.

Lemma toy_quorum ps : ps = [toy_proof_at 11; toy_proof_at 25] → quorum (Key:=Z) (P:=unit) (X:=nat) toy_state ps "n1".
Proof.
  intros -> seed. cbn zeta.
  set (ps := [_; _]). set (targets := "n1" :: _).
  assert (targets ≡ₚ ["n1"; "n2"; "n3"; "n4"]) as Hperm.
  { apply Permutation_skip. destruct (select_nodes_subset (st_node_coordinator toy_state) seed (Some "n1")) as [rest Hrest].
    assert (filter (λ node, Some "n1" ≠ Some node) (nc_eligible_nodes (st_node_coordinator toy_state)) = ["n2"; "n3"; "n4"])
      as Hothers by (vm_compute; reflexivity).
    rewrite Hothers in Hrest. pose proof (Permutation_length Hrest) as Hl. rewrite length_app in Hl.
    assert (length (select_nodes (st_node_coordinator toy_state) seed (Some "n1")) = 3%nat) as Hl3.
    { unfold select_nodes. rewrite length_take, (Permutation_length (shuffle_permutation _ _ _)), Hothers. done. }
    destruct rest; [by rewrite app_nil_r in Hrest|]. rewrite Hl3 in Hl. cbn in Hl. lia. }
  exists (λ t, (try_request (st_node_coordinator toy_state) t "n1" ps ATTESTATION_TIMEOUT_SECS 0%nat).1).
  split_and!.
  - intros t x Ht. rewrite Hperm in Ht. rewrite !elem_of_cons, elem_of_nil in Ht.
    destruct Ht as [->|[->|[->|[->|[]]]]]; vm_compute; reflexivity.
  - rewrite Hperm. apply (bool_decide_unpack _). vm_compute. exact I.
  - rewrite (Permutation_length (filter_permuted _ _ _ Hperm)). vm_compute. lia.
Qed.

Lemma bclk_early n : bclk n ≤ secs 1000.
Proof. unfold bclk, sclk, secs, NANOS_PER_SEC. lia. Qed.

Lemma toy_requestable :
  requestable (X:=nat) bclk "10.0.0.1" toy_create 7 Desktop (toy_digest [33]) Polygon toy_app.
Proof.
  constructor; [vm_compute; reflexivity..|split; vm_compute; reflexivity|vm_compute; reflexivity| |];
    intros t _; exists None; by split.
Qed.

Lemma toy_ready : ready (X:=nat) bclk 10 7 (λ _, 0%nat) 0 keys_at_most toy_app.
Proof.
  constructor; [done|by intros ? ? ?|by eexists|apply mem_scannable|unfold keys_at_most; by vm_compute|].
  split; vm_compute; [lia|done].
Qed.

Definition toy_ctx (active at' : Z) : SessionContext := requested toy_state "10.0.0.1" toy_create 7 Desktop Polygon active at'.

Lemma toy_acceptable1 active t : acceptable bclk (toy_ctx active t) "s6" 11 no_progress toy_submit (toy_proof_at 11).
Proof.
  split; [vm_compute; reflexivity|]. split; [vm_compute; done|]. split; [vm_compute; naive_solver|by eexists].
Qed.
Definition toy_progress1 : Progress := submit_progress bclk 11 (toy_proof_at 11) no_progress.
Lemma toy_acceptable2 active t :
  acceptable bclk (toy_ctx active t) "s6" 25 toy_progress1 toy_submit (toy_proof_at 25).
Proof.
  split; [vm_compute; reflexivity|]. split; [vm_compute; done|]. split; [vm_compute; naive_solver|by eexists].
Qed.
Definition toy_progress : Progress :=
  submit_progress bclk 25 (toy_proof_at 25) toy_progress1.

(** What the books and the caches hold when the second proof is in. *)
Lemma toy_mined_world :
  app_edge toy_mined2.2 = None ∧ rows toy_mined2.2 = [] ∧ re_tick (app_redis toy_mined2.2) = 41%nat ∧
  minted_24h_of toy_mined2.2 = 0.
Proof. split_and!; vm_compute; reflexivity. Qed.

Lemma toy_duration k : (k ≤ 21)%nat → 0 ≤ final_duration bclk (bclk k) 41 ≤ 1000.
Proof.
  intros Hk. unfold final_duration. do 22 (destruct k as [|k]; [vm_compute; split; discriminate|]). lia.
Qed.

Lemma toy_earned active t dur boost : 0 ≤ dur ≤ 1000 → 0 ≤ boost ≤ MAX_BOOST_BPS →
  earned (toy_ctx active t) toy_progress dur boost * GROSS_CALIB_TO_WEI ≤ 300000 * PRM_WEI.
Proof.
  intros Hdur Hb. unfold earned.
  assert (hashrate_of (pg_first toy_progress) (pg_sum toy_progress) (pg_last toy_progress)
    (ctx_client_type (toy_ctx active t)) = 4000) as -> by (vm_compute; reflexivity).
  assert (0 ≤ gross_spec 4000 dur 1000 Gold ≤ 4000 * 1000 * 1000 / commodity_difficulty Gold) as Hg.
  { split; [apply Z.div_pos|apply Z.div_le_mono]; cbn; lia. }
  change (ctx_commodity _) with Gold. set (g := gross_spec _ _ _ _) in *. clearbody g. clear -Hg Hb.
  vm_compute (_ / commodity_difficulty Gold) in Hg. unfold MAX_BOOST_BPS, BPS_DENOMINATOR, GROSS_CALIB_TO_WEI, PRM_WEI in *.
  pose proof (Z.div_le_upper_bound (g * (10000 + boost)) 10000 10000000000) as Hle. nia.
Qed.

Lemma toy_payable active t k : (k ≤ 21)%nat →
  payable (X:=nat) bclk (toy_ctx active t) "s6" toy_state (bclk k) 100000000000000 "n1" toy_progress toy_mined2.2.
Proof.
  intros Hk. destruct toy_mined_world as (Hedge & Hrows & Htick & Hminted). constructor.
  - apply toy_quorum. vm_compute. reflexivity.
  - intros c Hc. congruence.
  - intros n _. reflexivity.
  - split; [intros m|intros att]; by eexists.
  - rewrite Hrows. apply not_elem_of_nil.
  - intros boost Hb. unfold minted_room. rewrite Hminted, Htick. split; [done|]. rewrite Z.add_0_l.
    assert (daily_ceiling (st_mint_ceiling toy_state) (st_mint_ceiling_active_users toy_state)
      (st_mint_ceiling_avg_daily_prm_per_user toy_state) = 300000) as -> by (vm_compute; reflexivity).
    apply toy_earned; [by apply toy_duration|done].
  - lia.
  - split; [vm_compute; lia|vm_compute; discriminate].
Qed.

Lemma toy_opened_fine : ∃ created, toy_opened.1 = Ok created ∧ csr_session_id created.2 = "s6".
Proof. eexists. split; vm_compute; reflexivity. Qed.

Abbreviation toy_mining_run active t :=
  (mining (X:=nat) Debug bclk send_all toy_state (toy_ctx active t) "s6" (bclk 0 + secs TTL_SECS) net_up toy_opened.2).

Lemma toy_early n : bclk n < bclk 0 + secs TTL_SECS.
Proof. eapply Z.le_lt_trans; [apply bclk_early|vm_compute; reflexivity]. Qed.

Lemma toy_mining1 active t : toy_mining_run active t toy_progress1 toy_mined1.2.
Proof.
  assert (re_tick (app_redis toy_opened.2) = 11%nat) as H0 by (vm_compute; reflexivity).
  unfold toy_progress1. rewrite <-H0 at 1. apply mining_proof; [apply mining_start|apply toy_early|].
  rewrite H0. apply toy_acceptable1.
Qed.

Lemma toy_tick1 : re_tick (app_redis toy_mined1.2) = 25%nat.
Proof. vm_compute. reflexivity. Qed.

Lemma toy_mining2 active t : toy_mining_run active t toy_progress toy_mined2.2.
Proof.
  unfold toy_progress. rewrite <-toy_tick1 at 1. apply mining_proof; [apply toy_mining1|apply toy_early|].
  rewrite toy_tick1. apply toy_acceptable2.
Qed.

(** A client's two proofs are accepted and the end of its session is a row of the books. *)
Lemma honest_session_paid_witness :
  (∃ created, toy_opened.1 = Ok created ∧ created.1 = 201) ∧
  (∃ response, toy_mined2.1 = Ok response ∧ spr_accepted response = true) ∧
  (end_session Debug bclk toy_state "s6" "!" toy_mined2.2).1 = Ok (200, "completed") ∧
  ∃ row, rows (end_session Debug bclk toy_state "s6" "!" toy_mined2.2).2 = [row] ∧ pr_session_id row = "s6".
Proof.
  pose proof (honest_session_paid Debug bclk 10 send_all bclk_mono bclk_range toy_state "10.0.0.1" toy_create 7 Desktop
    (toy_digest [33]) Polygon (λ _, 0%nat) 0 keys_at_most (secs 1000) 100000000000000 net_up toy_app
    toy_requestable toy_ready toy_serves ltac:(unfold net_up; cbn; lia) (bclk_early _)) as H.
  cbv zeta in H. apply (proj1 (ends_iff _ _ _)) in H. destruct H as (created & w1 & E & H201 & active & t & k & Hk & H). fold toy_opened in E.
  destruct toy_opened_fine as (created' & E' & Hsid). rewrite E in E'. injection E' as <-.
  assert (toy_opened.2 = w1) as <- by (rewrite E; reflexivity). rewrite Hsid in H.
  split; [exists created; rewrite E; by split|]. split.
  - destruct (H _ _ (toy_mining1 active t)) as (_ & Hnext & _).
    specialize (Hnext toy_submit (toy_proof_at 25) (toy_early _)). rewrite toy_tick1 in Hnext.
    specialize (Hnext (toy_acceptable2 active t)). fold toy_mined2 in Hnext.
    apply (proj1 (ends_iff _ _ _)) in Hnext as (r & w' & Er & Hr). fold toy_mined2 in Er.
    exists r. rewrite Er. by split.
  - destruct (H _ _ (toy_mining2 active t)) as (_ & _ & Hend).
    specialize (Hend "n1" "!" [33] (toy_early _) eq_refl eq_refl eq_refl (toy_payable active t k (proj2 Hk))).
    apply (proj1 (ends_iff _ _ _)) in Hend as (r & w' & Er & -> & row & ? & ? & ? & ? & ? & ? & ? & ? & Hrows & _ & _ & _ & _ & _ & _ & _ & _ & Hrow).
    rewrite Er. split; [reflexivity|]. exists row. split; [|apply Hrow].
    rewrite (proj1 (proj2 toy_mined_world)) in Hrows. exact Hrows.
Defined.
