(* ===== verification/Wallet.v ===== *)
(** * crates/verification-service/src/lib.rs: the read endpoints

    Payouts, earnings, sessions, staking, company share, reserves, alerts,
    commodities, estimates and sites. *)
From stdpp Require Import sorting.
From S2P Require Import Prelude Common Payout MintCeiling Twap Validator Redis SessionStore.
From S2P Require Import RandomX NodeCoordinator Oracle Postgres Onchain Service.

Definition DEFAULT_PAYOUT_LIMIT : Z := 50.
Definition MAX_PAYOUT_LIMIT : Z := 200.
Definition ALERTS_LIMIT : Z := 50.
Definition ESTIMATE_DEFAULT_DURATION_SECS : Z := 3600.
Definition REF_HASHRATE_DESKTOP : Z := 2500.
Definition REF_HASHRATE_CLI : Z := 3000.
Definition REF_HASHRATE_BROWSER : Z := 200.

Record CompanyMiningShareResponse := mkCompanyMiningShareResponse {
  cms_company_prm_wei : string;
  cms_total_prm_wei : string;
  cms_share_bps : Z;
  cms_company_wallet : option string
}.
Record ChainReserve := mkChainReserve {
  crv_chain : Chain;
  crv_usdc : string;
  crv_usdt : string;
  crv_total_usd : string;
  crv_total_redeemed_usd : string;
  crv_available : bool
}.
Record ReserveResponse := mkReserveResponse {
  rr_chains : list ChainReserve;
  rr_total_reserve_usd : string;
  rr_total_redeemed_usd : string
}.
Record WalletAlert := mkWalletAlert {
  wa_session_id : string;
  wa_kind : string;
  wa_message : string;
  wa_timestamp : DateTime
}.
Record CommodityParams := mkCommodityParams {
  cp_commodity : string;
  cp_difficulty : string;
  cp_multiplier : string
}.
Record EstimateQuery := mkEstimateQuery {
  eq_commodity : string;
  eq_duration_secs : option Z;
  eq_wallet : option string;
  eq_client_type : option string
}.
Record EstimateResponse := mkEstimateResponse {
  er_commodity : string;
  er_hashrate_used : Z;
  er_hashrate_basis : string;
  er_duration_secs : Z;
  er_spot_price : option string;
  er_house_edge_bps : Z;
  er_effective_boost_bps : Z;
  er_gross_prm_wei : string;
  er_net_usd_cents : option Z;
  er_is_estimate : bool
}.

Definition payout_alert (status commodity : string) : string * string :=
  if String.eqb status "Confirmed" then
    ("payout_confirmed", "Payout confirmed — PRM minted for your " +:+ commodity +:+ " session.")
  else if String.eqb status "Rejected" then
    ("payout_rejected", "A payout for your " +:+ commodity +:+ " session was not approved.")
  else ("payout_processing", "Payout for your " +:+ commodity +:+ " session is being processed.").

Definition flag_alert (f : ReviewFlag) : WalletAlert :=
  {| wa_session_id := rf_session_id f; wa_kind := "under_review";
     wa_message := "A mining session is under review — any payout may be held pending verification.";
     wa_timestamp := rf_created_at f |}.
Definition payout_row_alert (p : PayoutRow) : WalletAlert :=
  let '(kind, message) := payout_alert (pa_status p) (pa_commodity p) in
  {| wa_session_id := pa_session_id p; wa_kind := kind; wa_message := message; wa_timestamp := pa_created_at p |}.

(** [slice::sort_by], a stable sort: an element stays before its equals. *)
Fixpoint insert_by {A} (R : relation A) `{!RelDecision R} (x : A) (l : list A) : list A :=
  match l with
  | [] => [x]
  | y :: l' => if decide (R x y) then x :: l else y :: insert_by R x l'
  end.
Definition sort_by {A} (R : relation A) `{!RelDecision R} (l : list A) : list A := foldr (insert_by R) [] l.

(** [|a, b| b.timestamp.cmp(&a.timestamp)]. *)
Definition alert_newer : relation WalletAlert := λ a b, wa_timestamp b ≤ wa_timestamp a.
#[export] Instance alert_newer_dec : RelDecision alert_newer.
Proof. intros a b. unfold alert_newer. apply _. Defined.

Definition scaled10 (value : Z) : string := show (value / 10) +:+ "." +:+ show (value mod 10).

Definition commodities : list CommodityParams :=
  (λ c, {| cp_commodity := commodity_debug c; cp_difficulty := scaled10 (commodity_difficulty c);
           cp_multiplier := scaled10 (commodity_multiplier c) |}) <$> [Gold; Platinum; Silver; CrudeOil].

(** [|a, b| a.code.cmp(&b.code)]. *)
Definition site_before : relation NodeSite := λ a b, String.leb (site_code a) (site_code b) = true.
#[export] Instance site_before_dec : RelDecision site_before.
Proof. intros a b. unfold site_before. apply _. Defined.

Definition set_est (cents : Z) (row : SessionSummary) : SessionSummary :=
  {| ss_session_id := ss_session_id row; ss_commodity := ss_commodity row;
     ss_proof_count := ss_proof_count row; ss_avg_hashrate := ss_avg_hashrate row;
     ss_client_type := ss_client_type row; ss_target_chain := ss_target_chain row;
     ss_started_at := ss_started_at row; ss_last_submission_at := ss_last_submission_at row;
     ss_status := ss_status row; ss_cpu_threads := ss_cpu_threads row;
     ss_verified_proof_count := ss_verified_proof_count row;
     ss_rejected_proof_count := ss_rejected_proof_count row; ss_est_net_usd_cents := cents;
     ss_site_code := ss_site_code row; ss_site_city := ss_site_city row; ss_paused := ss_paused row |}.

(** ** Lemmas on sorting *)
Lemma insert_by_perm {A} (R : relation A) `{!RelDecision R} x l : insert_by R x l ≡ₚ x :: l.
Proof. induction l as [|y l IH]; cbn; [done|]. case_decide; [done|]. rewrite IH. apply Permutation_swap. Qed.
Lemma sort_by_perm {A} (R : relation A) `{!RelDecision R} l : sort_by R l ≡ₚ l.
Proof. induction l as [|x l IH]; [done|]. cbn. by rewrite insert_by_perm, IH. Qed.
Lemma insert_by_sorted {A} (R : relation A) `{!RelDecision R, !Total R} x l :
  Sorted R l → Sorted R (insert_by R x l).
Proof.
  induction 1 as [|y l Hl IH Hy]; cbn; [by repeat constructor|].
  case_decide as Hd; [by repeat constructor|]. constructor; [done|].
  assert (R y x) by (destruct (base.total R x y); naive_solver).
  destruct l as [|z l]; cbn; [by constructor|]. case_decide; constructor; [done|]. by inversion Hy.
Qed.
Lemma sort_by_sorted {A} (R : relation A) `{!RelDecision R, !Total R} l : Sorted R (sort_by R l).
Proof. induction l as [|x l IH]; [constructor|]. by apply insert_by_sorted. Qed.

(** Sorting looks at the keys only. *)
Section sort_fmap.
Context {A B : Type} (f : A → B) (R : relation A) (R' : relation B) `{!RelDecision R, !RelDecision R'}.
Hypothesis Hf : ∀ x y, R x y ↔ R' (f x) (f y).

Lemma list_merge_fmap l1 : ∀ l2, f <$> list_merge R l1 l2 = list_merge R' (f <$> l1) (f <$> l2).
Proof.
  induction l1 as [|x l1 IH1]; intros l2; [by destruct l2|].
  induction l2 as [|y l2 IH2]; [done|]. cbn. destruct (decide (R x y)) as [Hd|Hd].
  - rewrite decide_True by by apply Hf. cbn. f_equal. apply (IH1 (y :: l2)).
  - rewrite decide_False by by rewrite <-Hf. cbn. f_equal. exact IH2.
Qed.
Definition stack_fmap : list (option (list A)) → list (option (list B)) :=
  fmap (M := list) (fmap (M := option) (fmap (M := list) f)).
Lemma merge_list_to_stack_fmap st : ∀ l,
  stack_fmap (merge_list_to_stack R st l) = merge_list_to_stack R' (stack_fmap st) (f <$> l).
Proof.
  induction st as [|[l'|] st IH]; intros l; [done| |done]. cbn [merge_list_to_stack stack_fmap fmap list_fmap option_fmap option_map].
  f_equal. rewrite <-list_merge_fmap. apply IH.
Qed.
Lemma merge_stack_fmap st : f <$> merge_stack R st = merge_stack R' (stack_fmap st).
Proof. induction st as [|[l|] st IH]; [done| |done]. cbn. by rewrite list_merge_fmap, IH. Qed.
Lemma merge_sort_aux_fmap l : ∀ st, f <$> merge_sort_aux R st l = merge_sort_aux R' (stack_fmap st) (f <$> l).
Proof.
  induction l as [|x l IH]; intros st; [apply merge_stack_fmap|]. cbn [merge_sort_aux fmap list_fmap].
  by rewrite IH, merge_list_to_stack_fmap.
Qed.
Lemma merge_sort_fmap l : f <$> merge_sort R l = merge_sort R' (f <$> l).
Proof. apply (merge_sort_aux_fmap l []). Qed.
End sort_fmap.

Lemma fmap_take_within {A B} (f : A → B) n (rows all : list A) x :
  rows ≡ₚ all → x ∈ f <$> take n rows → x ∈ f <$> all.
Proof.
  intros Hp (r & -> & Hr)%list_elem_of_fmap. apply list_elem_of_fmap_2. rewrite <-Hp.
  rewrite <-(take_drop n rows). set_solver.
Qed.

Section wallet.
Context {R X P C Key : Type} `{!RedisServer R, Codec : !SessionCodec, !PgServer, !OracleNet X, !Rpc X P,
  !NodeClient X C, !Timer X, !AttestationCrypto, !ProposalSigner Key, !ServiceCodec}.
Context (b : build) (clk : nat → DateTime) (fuel : nat).
Abbreviation App := (App R X).
Abbreviation State := (AppState (P:=P) (C:=C) (Key:=Key)).
Abbreviation HM := (HM (R:=R) (X:=X)).

Definition wallet_db_key (wallet : Address) : string := address_debug wallet.

Definition clamp (lo hi z : Z) : Z := if z <? lo then lo else if hi <? z then hi else z.

Definition wallet_payouts (wallet : string) (limit : option Z) : HM (list PayoutRow) :=
  address ← parse_wallet wallet;
  let limit := clamp 1 MAX_PAYOUT_LIMIT (default DEFAULT_PAYOUT_LIMIT limit) in
  internal (on_db (get_payouts_for_wallet (wallet_db_key address) limit)).

Definition wallet_earnings (wallet : string) : HM (list EarningsRow) :=
  address ← parse_wallet wallet;
  internal (on_db (get_earnings_by_commodity (wallet_db_key address))).

Definition wallet_earnings_24h (wallet : string) : HM Earnings24h :=
  address ← parse_wallet wallet;
  internal (on_db (get_earnings_24h (wallet_db_key address))).

(** The loop body of [wallet_sessions]: the estimate of one row. *)
Definition estimate_row (twap_map : gmap string TwapCalculator) (now : DateTime) (boost_bps : Z)
    (payout_config : PayoutConfig) (row : SessionSummary) : option SessionSummary :=
  let elapsed_secs := Z.max (num_seconds (now - ss_started_at row)) 0 in
  if (elapsed_secs =? 0) || (ss_avg_hashrate row =? 0) then Some row
  else
    twap ← match twap_map !! ss_session_id row with Some c => twap_calculate b c | None => Some None end;
    match twap with
    | None => Some row
    | Some twap_price =>
        let commodity := parse_commodity (ss_commodity row) in
        base_gross ← calculate_gross_prm b (ss_avg_hashrate row) elapsed_secs payout_config commodity;
        boosted_gross ← apply_staking_boost b base_gross boost_bps;
        payout ← calculate_payout_from_gross b boosted_gross twap_price commodity payout_config;
        Some (match try_from I64_MIN I64_MAX (pr_net_usdc_scaled payout / NET_USDC_SCALE_TO_CENTS) with
              | Some cents => set_est cents row
              | None => row
              end)
    end.

Definition wallet_sessions (state : State) (wallet : string) : HM (list SessionSummary) :=
  address ← parse_wallet wallet;
  listed ← internal (on_redis (list_sessions_for_wallet b clk fuel (address_display address)));
  rows ← ended listed;
  if decide (rows = []) then mret rows
  else
    summary ← staking_summary b state address;
    payout_config ← payout_config_with_live_edge state;
    now ← now_utc clk;
    twap_map ← gets app_twap;
    lift_arith (mapM (estimate_row twap_map now (su_effective_boost_bps summary) payout_config) rows).

Definition wallet_staking (state : State) (wallet : string) : HM StakingSummary :=
  address ← parse_wallet wallet;
  staking_summary b state address.

Definition entity_share (state : State) : HM CompanyMiningShareResponse :=
  let company_key := wallet_db_key <$> st_company_wallet state in
  share ← internal (on_db (company_mining_share (default "" company_key)));
  mret {| cms_company_prm_wei := es_company_prm_wei share; cms_total_prm_wei := es_total_prm_wei share;
          cms_share_bps := default 0 (try_from 0 U32_MAX (es_share_bps share));
          cms_company_wallet := company_key |}.

(** The [i]-th Treasury reader, through its cache. *)
Definition read_reserve (i : nat) (reader : TreasuryReader (P:=P)) : HM (OnchainClientError + ReserveBalances) :=
  attempt (zoom (λ w, (app_reserves w !! i, app_net w))
             (λ v w, set_reserves (partial_alter (λ _, v.1) i (app_reserves w), v.2) w)
             (reserve_balances reader)).

Fixpoint reserve_loop (i : nat) (readers : list (Chain * TreasuryReader (P:=P))) (chains : list ChainReserve)
    (total_reserve total_redeemed : Z) : HM ReserveResponse :=
  match readers with
  | [] => mret {| rr_chains := chains; rr_total_reserve_usd := show total_reserve;
                  rr_total_redeemed_usd := show total_redeemed |}
  | (chain, reader) :: readers =>
      r ← read_reserve i reader;
      match r with
      | inr bal =>
          reserve_loop (S i) readers
            (chains ++ [ {| crv_chain := chain; crv_usdc := show (rb_usdc bal); crv_usdt := show (rb_usdt bal);
                            crv_total_usd := show (rb_total_reserve_usd bal);
                            crv_total_redeemed_usd := show (rb_total_redeemed_usd bal);
                            crv_available := true |} ])
            (sat_u U128_MAX (total_reserve + rb_total_reserve_usd bal))
            (sat_u U128_MAX (total_redeemed + rb_total_redeemed_usd bal))
      | inl _ =>
          reserve_loop (S i) readers
            (chains ++ [ {| crv_chain := chain; crv_usdc := "0"; crv_usdt := "0"; crv_total_usd := "0";
                            crv_total_redeemed_usd := "0"; crv_available := false |} ])
            total_reserve total_redeemed
      end
  end.
Definition reserve (state : State) : HM ReserveResponse :=
  reserve_loop 0 (st_treasury_readers state) [] 0 0.

Definition wallet_alerts (wallet : string) : HM (list WalletAlert) :=
  address ← parse_wallet wallet;
  let key := wallet_db_key address in
  flags ← internal (on_db (get_review_flags_for_wallet key ALERTS_LIMIT));
  payouts ← internal (on_db (get_payouts_for_wallet key ALERTS_LIMIT));
  mret (sort_by alert_newer ((flag_alert <$> flags) ++ (payout_row_alert <$> payouts))).

(** [iter().map(..).max()]. *)
Definition best_hashrate (sessions : list SessionSummary) : Z :=
  foldr (λ s acc, Z.max (ss_avg_hashrate s) acc) 0 sessions.

Definition reference_hashrate (client_type : string) : Z :=
  if String.eqb client_type "cli" then REF_HASHRATE_CLI
  else if String.eqb client_type "browser" then REF_HASHRATE_BROWSER
  else REF_HASHRATE_DESKTOP.

Definition estimate_hashrate (wallet : option Address) (client_type : string) : HM (Z * string) :=
  best ← match wallet with
         | None => mret 0
         | Some addr =>
             r ← (attempt (on_redis (list_sessions_for_wallet b clk fuel (address_display addr)))
                    : HM (SessionManagerError + option (list SessionSummary)));
             match r with
             | inr listed => sessions ← ended listed; mret (best_hashrate sessions)
             | inl _ => mret 0
             end
         end;
  mret (if 0 <? best then (best, "personal") else (reference_hashrate client_type, "reference")).

(** The economics of [estimate]: the wei to show, and the cents at a spot price. *)
Definition estimate_payout (hashrate duration_secs boost_bps : Z) (config : PayoutConfig) (commodity : Commodity)
    : option Z :=
  base_gross ← calculate_gross_prm b hashrate duration_secs config commodity;
  apply_staking_boost b base_gross boost_bps.
Definition estimate_cents (boosted_gross price : Z) (config : PayoutConfig) (commodity : Commodity)
    : option (option Z) :=
  payout ← calculate_payout_from_gross b boosted_gross price commodity config;
  Some (try_from I64_MIN I64_MAX (pr_net_usdc_scaled payout / NET_USDC_SCALE_TO_CENTS)).

Definition estimate (state : State) (params : EstimateQuery) : HM EstimateResponse :=
  let commodity := parse_commodity (eq_commodity params) in
  let duration_secs := default ESTIMATE_DEFAULT_DURATION_SECS (eq_duration_secs params) in
  wallet ← match eq_wallet params with
           | Some raw => address ← parse_wallet raw; mret (Some address)
           | None => mret None
           end;
  let client_type := default "desktop" (eq_client_type params) in
  '(hashrate, basis) ← estimate_hashrate wallet client_type;
  config ← payout_config_with_live_edge state;
  boost_bps ← match wallet with
              | Some addr => summary ← staking_summary b state addr; mret (su_effective_boost_bps summary)
              | None => mret 0
              end;
  boosted_gross ← lift_arith (estimate_payout hashrate duration_secs boost_bps config commodity);
  price ← (attempt (on_net (read_price b (st_oracle_reader state) commodity)) : HM (OracleReaderError + Z));
  '(spot_price, net_usd_cents) ←
    match price with
    | inr price =>
        cents ← lift_arith (estimate_cents boosted_gross price config commodity);
        mret (Some (show price), cents)
    | inl _ => mret (None, None)
    end;
  mret {| er_commodity := commodity_debug commodity; er_hashrate_used := hashrate; er_hashrate_basis := basis;
          er_duration_secs := duration_secs; er_spot_price := spot_price;
          er_house_edge_bps := house_edge_bps config; er_effective_boost_bps := boost_bps;
          er_gross_prm_wei := show (gross_calib_to_wei boosted_gross);
          er_net_usd_cents := net_usd_cents; er_is_estimate := true |}.

Definition sites (state : State) : list NodeSite :=
  sort_by site_before (map_to_list (st_node_sites state)).*2.

(** ** Lemmas *)

(** A review event without what the anti-cheat engine found. *)
Definition erase (r : AnomalyRow) : AnomalyRow :=
  {| an_id := ""; an_session_id := an_session_id r; an_wallet := an_wallet r; an_score := 0;
     an_triggers := ""; an_level := ""; an_created_at := an_created_at r |}.
Definition same_public (db db' : Db) : Prop :=
  erase <$> anomaly_events db = erase <$> anomaly_events db' ∧
  mint_proposals db = mint_proposals db' ∧ db_tick db = db_tick db'.

Lemma select_public {A} (q : DateTime → Db → string + A) db db' :
  same_public db db' → (∀ now, q now db = q now db') →
  (select q db).1 = (select q db').1 ∧ same_public (select q db).2 (select q db').2.
Proof.
  intros (Ha & Hm & Ht) Hq. rewrite !select_state. split; [|by unfold same_public; cbn; rewrite Ha, Hm, Ht].
  unfold select, sql. rewrite Ht, Hq.
  destruct (db_fault _) as [[[] e]|], (q (db_now (db_tick db')) db'); done.
Qed.

Lemma flags_erased key (l : list AnomalyRow) :
  (λ r, mkReviewFlag (an_session_id r) (an_created_at r)) <$>
    merge_sort flag_desc (filter (λ r, an_wallet r = key) l) =
  (λ r, mkReviewFlag (an_session_id r) (an_created_at r)) <$>
    merge_sort flag_desc (filter (λ r, an_wallet r = key) (erase <$> l)).
Proof.
  assert (filter (λ r, an_wallet r = key) (erase <$> l) = erase <$> filter (λ r, an_wallet r = key) l) as ->.
  { induction l as [|r l IH]; [done|]. rewrite fmap_cons, !filter_cons. cbn. case_decide; [|done].
    rewrite fmap_cons. by f_equal. }
  rewrite <-(merge_sort_fmap erase flag_desc flag_desc (λ x y, iff_refl _)). by rewrite <-list_fmap_compose.
Qed.


Lemma select_ok {A} (q : DateTime → Db → string + A) db a db' :
  select q db = (Ok a, db') → q (db_now (db_tick db)) db = inr a ∧ db' = next db.
Proof.
  intros Hs. pose proof (select_state q db) as Hst. rewrite Hs in Hst. cbn in Hst. subst db'.
  split; [|done]. revert Hs. unfold select, sql. by destruct (db_fault _) as [[[] e]|], (q _ db); intros [= ->].
Qed.

Lemma wallet_alerts_run wallet (w : App) :
  let db := app_db w in
  (wallet_alerts wallet w).1 =
  match parse_address wallet with
  | None => Err (BadRequest "invalid wallet address")
  | Some a =>
      match (get_review_flags_for_wallet (wallet_db_key a) ALERTS_LIMIT db).1,
        (get_payouts_for_wallet (wallet_db_key a) ALERTS_LIMIT (next db)).1 with
      | Ok flags, Ok payouts => Ok (sort_by alert_newer ((flag_alert <$> flags) ++ (payout_row_alert <$> payouts)))
      | Err _, _ => Err ApiInternal
      | Panic, _ => Panic
      | Ok _, Err _ => Err ApiInternal
      | Ok _, Panic => Panic
      end
  end.
Proof.
  cbv zeta. unfold wallet_alerts, parse_wallet. destruct (parse_address wallet) as [a|]; [|done].
  unfold mbind, M_bind, ok_or, mret, M_ret, internal, map_err, on_db, zoom. set (key := wallet_db_key a).
  assert ((get_review_flags_for_wallet key ALERTS_LIMIT (app_db w)).2 = next (app_db w)) as <- by apply select_state.
  destruct (get_review_flags_for_wallet key ALERTS_LIMIT (app_db w)) as [[flags|e|] d]; [|done..].
  cbn [fst snd]. cbn [app_db set_db]. by destruct (get_payouts_for_wallet key ALERTS_LIMIT d) as [[ps|e|] d'].
Qed.

(** The alert of a review event, and of a proposal. *)
Definition event_alert (r : AnomalyRow) : WalletAlert :=
  flag_alert (mkReviewFlag (an_session_id r) (an_created_at r)).
Definition proposal_alert (r : ProposalRow) : WalletAlert := payout_row_alert (payout_row r).
Definition events_of (key : string) (db : Db) : list AnomalyRow :=
  filter (λ r, an_wallet r = key) (anomaly_events db).
Definition proposals_of (key : string) (db : Db) : list ProposalRow :=
  filter (λ r, pr_wallet r = key) (mint_proposals db).

Lemma get_review_flags_ok key limit db l :
  (get_review_flags_for_wallet key limit db).1 = Ok l →
  ∃ rows, rows ≡ₚ events_of key db ∧ flag_alert <$> l = event_alert <$> take (Z.to_nat limit) rows.
Proof.
  intros Hl. destruct (get_review_flags_for_wallet key limit db) as [o d] eqn:E. cbn in Hl. subst o.
  apply select_ok in E as [E _]. unfold limited in E. destruct (limit <? 0); [done|]. injection E as <-.
  eexists. split; [apply (merge_sort_Permutation flag_desc)|]. by rewrite <-fmap_take, <-list_fmap_compose.
Qed.
Lemma get_payouts_ok key limit db l :
  (get_payouts_for_wallet key limit db).1 = Ok l →
  ∃ rows, rows ≡ₚ proposals_of key db ∧ payout_row_alert <$> l = proposal_alert <$> take (Z.to_nat limit) rows.
Proof.
  intros Hl. destruct (get_payouts_for_wallet key limit db) as [o d] eqn:E. cbn in Hl. subst o.
  apply select_ok in E as [E _]. unfold limited in E. destruct (limit <? 0); [done|]. injection E as <-.
  eexists. split; [apply (merge_sort_Permutation by_created_desc)|]. by rewrite <-fmap_take, <-list_fmap_compose.
Qed.

Lemma alert_newer_total : Total alert_newer.
Proof. intros x y. unfold alert_newer. lia. Qed.

(** C31. The alerts of a wallet come from that wallet's review events and payouts
    and from nothing else, newest first and at most a hundred; all of them when
    there are no more than fifty of each; and they do not depend on what the
    anti-cheat engine found (the score, the triggers, the level, the event's id). *)
Theorem wallet_alerts_correct wallet a (w : App) :
  parse_address wallet = Some a →
  let key := wallet_db_key a in
  let events := event_alert <$> events_of key (app_db w) in
  let payouts := proposal_alert <$> proposals_of key (app_db w) in
  (∀ db', same_public (app_db w) db' → (wallet_alerts wallet (set_db db' w)).1 = (wallet_alerts wallet w).1) ∧
  (∀ l, (wallet_alerts wallet w).1 = Ok l →
     Sorted alert_newer l ∧ (length l ≤ 100)%nat ∧ (∀ x, x ∈ l → x ∈ events ∨ x ∈ payouts) ∧
     ((length events ≤ 50)%nat → (length payouts ≤ 50)%nat → l ≡ₚ events ++ payouts)).
Proof.
  intros Ha key events payouts. pose proof alert_newer_total as Htot.
  split.
  - intros db' Hs. rewrite !wallet_alerts_run, Ha. fold key. cbn [app_db set_db].
    destruct (select_public (λ _ db, limited ALERTS_LIMIT ((λ r, mkReviewFlag (an_session_id r) (an_created_at r)) <$>
      merge_sort flag_desc (filter (λ r, an_wallet r = key) (anomaly_events db)))) _ _ Hs) as [Hq1 Hs2].
    { intros _. by rewrite (flags_erased key (anomaly_events (app_db w))), (flags_erased key (anomaly_events db')), (proj1 Hs). }
    rewrite !select_state in Hs2.
    destruct (select_public (λ _ db, limited ALERTS_LIMIT (payout_row <$>
      merge_sort by_created_desc (filter (λ r, pr_wallet r = key) (mint_proposals db)))) _ _ Hs2) as [Hq3 _].
    { intros _. by rewrite (proj1 (proj2 Hs2)). }
    unfold get_review_flags_for_wallet, get_payouts_for_wallet. by rewrite Hq1, Hq3.
  - intros l. rewrite wallet_alerts_run, Ha. fold key.
    destruct (get_review_flags_for_wallet _ _ _).1 as [fl|e|] eqn:Ef; [|done..].
    destruct (get_payouts_for_wallet _ _ _).1 as [ps|e|] eqn:Ep; [|done..]. intros [= <-].
    apply get_review_flags_ok in Ef as (fr & Hfr & ->). apply get_payouts_ok in Ep as (pr & Hpr & ->).
    change (proposals_of key (next (app_db w))) with (proposals_of key (app_db w)) in Hpr.
    split; [apply sort_by_sorted; apply _|]. rewrite sort_by_perm. split.
    { rewrite length_app, !length_fmap, !length_take. unfold ALERTS_LIMIT. lia. }
    split.
    { intros x. rewrite sort_by_perm. intros [Hx|Hx]%elem_of_app; [left|right]; by eapply fmap_take_within. }
    intros Hle Hlp. unfold events in Hle. unfold payouts in Hlp. rewrite length_fmap, <-Hfr in Hle.
    rewrite length_fmap, <-Hpr in Hlp. rewrite !take_ge by (unfold ALERTS_LIMIT; lia). by rewrite Hfr, Hpr.
Qed.

Lemma build_summary_boost eth pol s :
  build_summary b eth pol = Some s → 0 ≤ su_effective_boost_bps s ≤ MAX_BOOST_BPS.
Proof.
  unfold build_summary. destruct (resolve_chain_stake _ _) as [e1 s1], (resolve_chain_stake _ _) as [e2 s2].
  rewrite combined_boost_bps_eq. intros [= <-]. apply combined_boost_spec_range.
Qed.
Lemma staking_summary_boost (state : State) a (w : App) s w' :
  staking_summary b state a w = (Ok s, w') → 0 ≤ su_effective_boost_bps s ≤ MAX_BOOST_BPS.
Proof. unfold staking_summary. intros H'. minv H'. by eapply build_summary_boost. Qed.

Lemma payout_config_edge (state : State) (w : App) config w' :
  payout_config_with_live_edge state w = (Ok config, w') → config = edge_config (house_edge_bps config).
Proof.
  unfold payout_config_with_live_edge. intros H'. destruct (st_house_edge_reader state); minv H'; [|by subst].
  destruct a as [e|edge]; minv H'; by subst.
Qed.

(** What a run of [estimate] read: the hashrate, then the edge, then the stake of the
    wallet, if it has one, in the world [w3]; the price is read last. *)
Definition estimate_reads (state : State) (params : EstimateQuery) (w : App) (e : EstimateResponse) (w3 : App) : Prop :=
  ∃ wallet w1 config w2,
    match eq_wallet params with Some raw => is_Some (parse_address raw) ∧ wallet = parse_address raw | None => wallet = None end ∧
    estimate_hashrate wallet (default "desktop" (eq_client_type params)) w =
      (Ok (er_hashrate_used e, er_hashrate_basis e), w1) ∧
    payout_config_with_live_edge state w1 = (Ok config, w2) ∧ er_house_edge_bps e = house_edge_bps config ∧
    match wallet with
    | Some a => ∃ summary, staking_summary b state a w2 = (Ok summary, w3) ∧
                  er_effective_boost_bps e = su_effective_boost_bps summary
    | None => w3 = w2 ∧ er_effective_boost_bps e = 0
    end.

Lemma estimate_ok (state : State) params (w : App) e w' :
  estimate state params w = (Ok e, w') →
  ∃ w3 gross,
    let c := parse_commodity (eq_commodity params) in
    let config := edge_config (er_house_edge_bps e) in
    estimate_reads state params w e w3 ∧ er_duration_secs e = default 3600 (eq_duration_secs params) ∧
    estimate_payout (er_hashrate_used e) (er_duration_secs e) (er_effective_boost_bps e) config c = Some gross ∧
    er_gross_prm_wei e = show (gross_calib_to_wei gross) ∧
    match (read_price b (st_oracle_reader state) c (app_net w3)).1 with
    | Ok price => er_spot_price e = Some (show price) ∧ estimate_cents gross price config c = Some (er_net_usd_cents e)
    | Err _ => er_spot_price e = None ∧ er_net_usd_cents e = None
    | Panic => False
    end.
Proof.
  unfold estimate. intros H'.
  apply bind_ok in H' as (wallet & wa & Hwallet & H'). apply bind_ok in H' as ([hashrate basis] & w1 & Hrate & H').
  apply bind_ok in H' as (config & w2 & Hconfig & H'). apply bind_ok in H' as (boost & w3 & Hboost & H').
  apply bind_ok in H' as (gross & ? & Hq & H'). apply lift_arith_ok in Hq as [Hgross <-].
  apply bind_ok in H' as (price & w4 & Hprice & H'). apply bind_ok in H' as ([spot cents] & w5 & Hspot & H').
  apply ret_ok in H' as [<- _]. apply payout_config_edge in Hconfig as Hedge. exists w3, gross.
  cbn -[estimate_payout estimate_cents]. rewrite <-Hedge. split_and!; [|done..|].
  - assert (match eq_wallet params with Some raw => is_Some (parse_address raw) ∧ wallet = parse_address raw | None => wallet = None end
      ∧ wa = w) as [Hw ->].
    { unfold parse_wallet in Hwallet. destruct (eq_wallet params) as [raw|]; [|by minv Hwallet; subst].
      apply bind_ok in Hwallet as (a & ? & [Ha <-]%ok_or_ok & [<- <-]%ret_ok). rewrite Ha. by split_and!; [eexists|..]. }
    exists wallet, w1, config, w2. split_and!; try done.
    destruct wallet as [a|]; minv Hboost; subst; [by eexists|done].
  - apply attempt_ok in Hprice as [(p & -> & Hp)|(er & -> & Hp)].
    + apply zoom_ok in Hp as (x & -> & ->). cbn. minv Hspot. injection Hr as <- <-. by split.
    + unfold on_net, zoom in Hp. destruct (read_price _ _ _ (app_net w3)) as [o x]. injection Hp as -> _. cbn.
      minv Hspot. by injection Hr as <- <-.
Qed.

Lemma estimate_boost (state : State) params (w : App) e w3 :
  estimate_reads state params w e w3 → 0 ≤ er_effective_boost_bps e ≤ MAX_BOOST_BPS.
Proof.
  intros (wallet & w1 & config & w2 & _ & _ & _ & _ & Hb). destruct wallet as [a|].
  - destruct Hb as (summary & Hs & ->). by eapply staking_summary_boost.
  - destruct Hb as [_ ->]. by unfold MAX_BOOST_BPS.
Qed.


(** A read endpoint. *)
Inductive read_endpoint (state : State) : ∀ {A}, HM A → Prop :=
  | Read_payouts wallet limit : read_endpoint state (wallet_payouts wallet limit)
  | Read_earnings wallet : read_endpoint state (wallet_earnings wallet)
  | Read_earnings_24h wallet : read_endpoint state (wallet_earnings_24h wallet)
  | Read_sessions wallet : read_endpoint state (wallet_sessions state wallet)
  | Read_staking wallet : read_endpoint state (wallet_staking state wallet)
  | Read_share : read_endpoint state (entity_share state)
  | Read_reserve : read_endpoint state (reserve state)
  | Read_alerts wallet : read_endpoint state (wallet_alerts wallet)
  | Read_estimate params : read_endpoint state (estimate state params).

(** The tables, without the clock of the database. *)
Definition ledger (w : App) : list ProposalRow * list AnomalyRow :=
  (mint_proposals (app_db w), anomaly_events (app_db w)).
Lemma ledger_on_db {A} (q : DateTime → Db → string + A) :
  leaves ledger (on_db (select q) : M App PostgresStoreError A).
Proof. intros w. unfold ledger, on_db, zoom. cbn [fst snd]. by rewrite select_state. Qed.
#[local] Hint Extern 2 (leaves _ (on_db _)) => apply ledger_on_db : leaves.

(** What the read endpoints leave alone: all that the stores they read, the network
    and the caches do not show. *)
Lemma reads_leave {V} (get : App → V) (state : State) {A} (m : HM A) :
  (∀ v w, get (set_redis v w) = get w) → (∀ v w, get (set_net v w) = get w) →
  (∀ v w, get (set_edge v w) = get w) → (∀ v w, get (set_reserves v w) = get w) →
  (∀ B (q : DateTime → Db → string + B), leaves get (on_db (select q) : M App PostgresStoreError B)) →
  read_endpoint state m → leaves get m.
Proof.
  intros Hr Hn He Hv Hq.
  assert (∀ (l : list (Chain * TreasuryReader (P:=P))) i chains t r, leaves get (reserve_loop i l chains t r)) as Hres.
  { intros l. induction l as [|[c rd] l IH]; intros i chains t r; cbn [reserve_loop]; [leaves_tac|].
    unfold read_reserve. apply leaves_bind; [apply leaves_attempt, leaves_zoom; naive_solver|intros [e|bal]; by apply IH]. }
  destruct 1; unfold wallet_payouts, wallet_earnings, wallet_earnings_24h, wallet_sessions, wallet_staking, entity_share,
    reserve, wallet_alerts, estimate, estimate_hashrate, payout_config_with_live_edge, staking_summary, read_chain;
    leaves_tac; apply Hq.
Qed.

(** Reading changes no money: no read endpoint, whatever it is asked and
    whatever the stores and networks answer, adds or alters a mint proposal or a
    recorded anomaly, touches a session's TWAP samples, queues an anomaly event, issues an admin nonce or
    changes a counter. *)
Theorem reads_are_safe (state : State) {A} (m : HM A) :
  read_endpoint state m →
  leaves ledger m ∧ leaves app_twap m ∧ leaves app_events m ∧ leaves app_nonces m ∧ leaves app_metrics m.
Proof. intros Hm. split_and!; (apply (reads_leave _ state); [done..|intros B q; first [apply ledger_on_db|by apply leaves_zoom]|done]). Qed.
End wallet.

(** ** Witnesses *)
#[local] Existing Instances toy_timer toy_crypto toy_message_signer toy_grpc toy_service_codec
  toy_proposal_signer toy_chain run_codec.

(** The alerts after the run of [Service.toy_run]: the wallet's one payout. *)
Definition after_run : App MemRedis nat := (toy_run toy_app).2.
Lemma wallet_alerts_correct_witness :
  (λ a, (wa_session_id a, wa_kind a)) <$> default [] (match (wallet_alerts "7" after_run).1 with Ok l => Some l | _ => None end) =
    [("s6", "payout_processing")] ∧
  match (wallet_alerts "7" after_run).1 with Ok l => Sorted alert_newer l | _ => False end.
Proof.
  split; [vm_compute; reflexivity|].
  assert (parse_address "7" = Some 7) as Ha by (vm_compute; reflexivity).
  destruct (wallet_alerts_correct "7" 7 after_run Ha) as [_ H].
  assert (∃ l, (wallet_alerts "7" after_run).1 = Ok l) as [l E] by (vm_compute; eexists; reflexivity).
  rewrite E. apply (H l E).
Defined.

Definition toy_query : EstimateQuery := mkEstimateQuery "gold" (Some 3600) None (Some "cli").
Definition toy_estimate : EstimateResponse := {|
  er_commodity := "Gold"; er_hashrate_used := 3000; er_hashrate_basis := "reference"; er_duration_secs := 3600;
  er_spot_price := Some "320450000000"; er_house_edge_bps := 1700; er_effective_boost_bps := 0;
  er_gross_prm_wei := "2700000000000000000000"; er_net_usd_cents := Some 229; er_is_estimate := true |}.

Lemma reads_are_safe_witness :
  leaves ledger (wallet_staking Debug toy_state "7" : HM_run _) ∧
  (wallet_staking Debug toy_state "7" toy_app).1 =
    Ok {| su_chains := []; su_total_staked := "0"; su_effective_boost_bps := 0 |}.
Proof.
  split; [|vm_compute; reflexivity].
  apply (reads_are_safe Debug run_clk 10 toy_state (wallet_staking Debug toy_state "7")). constructor.
Defined.

(** The duration is the caller's: the largest one overflows the payout's 128-bit
    product, a panic with overflow checks and a wrapped amount without them. *)
Definition huge_query : EstimateQuery := mkEstimateQuery "gold" (Some U64_MAX) None (Some "cli").
Lemma estimate_overflow :
  (estimate Debug run_clk 10 toy_state huge_query toy_app).1 = Panic ∧
  ∃ e, (estimate Release run_clk 10 toy_state huge_query toy_app).1 = Ok e ∧
    ¬ (er_net_usd_cents e = try_from I64_MIN I64_MAX (net_spec (redemption_spec
        (gross_spec 3000 U64_MAX 1000 Gold) 320450000000 1000 Gold) 1700 / NET_USDC_SCALE_TO_CENTS)).
Proof. split; [vm_compute; reflexivity|]. eexists. split; [vm_compute; reflexivity|]. vm_compute. discriminate. Qed.
