(* ===== verification/Admin.v ===== *)
(** * crates/verification-service/src/admin.rs: the admin console's sign-in

    The [ADMIN_WALLET] list, the single-use login nonces, sign-in with Ethereum,
    the session tokens, the guard of the admin routes, and the overview. *)
From S2P Require Import Prelude Text Common Payout MintCeiling Twap Validator Redis SessionStore.
From S2P Require Import RandomX NodeCoordinator Oracle Postgres Onchain Metrics Service Wallet.

(** [NONCE_TTL], in nanoseconds. *)
Definition NONCE_TTL : Z := 300 * NANOS_PER_SEC.
Definition SIWE_HEADER_SUFFIX : string := " wants you to sign in with your Ethereum account:".

Inductive AuthError := Unauthorized | AuthInternal.
Definition auth_into_response (e : AuthError) : Z * string :=
  match e with AuthInternal => (500, "internal error") | Unauthorized => (401, "unauthorized") end.

Record SessionClaims := mkSessionClaims { cl_addr : string; cl_exp : Z }.
Record SiweVerified := mkSiweVerified { sv_address : Address; sv_nonce : string }.
Record NonceResponse := mkNonceResponse {
  nr_nonce : string; nr_domain : string; nr_uri : string; nr_version : string; nr_statement : string;
  nr_issued_at : string; nr_expiration_time : string
}.
Record LoginRequest := mkLoginRequest { lr_message : string; lr_signature : string }.
Record LoginResponse := mkLoginResponse { lg_token : string; lg_expires_in : Z }.
Record AdminOverview := mkAdminOverview {
  ao_active_sessions : Z; ao_reserve_total_usd : string; ao_total_redeemed_usd : string;
  ao_company_mining_share_bps : Z; ao_flagged_events : Z; ao_daily_mint_ceiling_prm : Z
}.

(** The crates the module calls: [uuid] ([Uuid::new_v4().simple()], numbered by the
    clock), [hmac] and [sha2], [alloy_primitives::hex], [serde_json] on the claims,
    [chrono] on RFC 3339 text, and [HeaderValue::to_str]. *)
Class AdminCrypto := {
  uuid_simple : nat → string;
  (** [new_from_slice(key)], then [update] and [finalize]; the error of a bad key length *)
  hmac_sha256 : bytes → option (bytes → bytes);
  hex_encode : bytes → string;
  claims_to_vec : SessionClaims → option bytes;
  claims_from_slice : bytes → option SessionClaims;
  parse_from_rfc3339 : string → option DateTime;
  to_rfc3339 : DateTime → string;
  header_to_str : string → option string;
  string_as_bytes : string → bytes
}.

(** What those crates document: HMAC takes a key of any length and gives bytes, hex
    text has no dot and decodes to the bytes it encodes, the claims survive their
    JSON, and an address its [Debug] text. *)
Definition are_bytes : bytes → Prop := Forall (λ x, 0 ≤ x < 256).
Class AdminLaws `{!PgServer, !ServiceCodec, !AdminCrypto} := {
  hmac_any_key secret : is_Some (hmac_sha256 secret);
  hmac_bytes secret mac m : hmac_sha256 secret = Some mac → are_bytes (mac m);
  hex_plain l : are_bytes l → lacks "." (hex_encode l) = true;
  hex_roundtrip l : are_bytes l → hex_decode (hex_encode l) = Some l;
  claims_roundtrip c : 0 ≤ cl_exp c ≤ U64_MAX →
    ∃ payload, claims_to_vec c = Some payload ∧ are_bytes payload ∧ claims_from_slice payload = Some c;
  address_roundtrip a : 0 ≤ a < 2 ^ 160 → parse_address (address_debug a) = Some a
}.

(** ** [NonceStore] *)
Definition nonce_fresh (now issued : Z) : bool := Z.max 0 (now - issued) <? NONCE_TTL.
(** [issue] of the drawn nonce, and [consume], at the instant [now]. *)
Definition nonce_issue (nonce : string) (now : Z) (inner : gmap string Z) : gmap string Z :=
  <[nonce := now]> (filter (λ p, nonce_fresh now p.2 = true) inner).
Definition nonce_consume (nonce : string) (now : Z) (inner : gmap string Z) : bool * gmap string Z :=
  (match inner !! nonce with Some issued => nonce_fresh now issued | None => false end, delete nonce inner).

(** ** The nonce store over time *)
Inductive nonce_op := Issue (nonce : string) (now : Z) | Consume (nonce : string) (now : Z).
Definition op_nonce (o : nonce_op) : string := match o with Issue n _ | Consume n _ => n end.
Definition op_at (o : nonce_op) : Z := match o with Issue _ t | Consume _ t => t end.
Definition nonce_step (m : gmap string Z) (o : nonce_op) : gmap string Z :=
  match o with Issue n t => nonce_issue n t m | Consume n t => (nonce_consume n t m).2 end.
(** The store after [ops], from an empty one. *)
Definition nonce_run (ops : list nonce_op) : gmap string Z := foldl nonce_step ∅ ops.

Lemma nonce_run_snoc ops o : nonce_run (ops ++ [o]) = nonce_step (nonce_run ops) o.
Proof. unfold nonce_run. by rewrite foldl_app. Qed.

Lemma nonce_fresh_spec now t : nonce_fresh now t = true ↔ now - t < NONCE_TTL.
Proof. unfold nonce_fresh, NONCE_TTL, NANOS_PER_SEC. rewrite Z.ltb_lt. lia. Qed.

(** An operation that keeps the entry of [n] issued at [t]. *)
Definition op_keeps (n : string) (t : Z) (o : nonce_op) : Prop :=
  op_nonce o ≠ n ∧ match o with Issue _ t' => t' - t < NONCE_TTL | Consume _ _ => True end.

Lemma nonce_step_lookup n t m o :
  nonce_step m o !! n = Some t ↔ o = Issue n t ∨ (m !! n = Some t ∧ op_keeps n t o).
Proof.
  unfold op_keeps. destruct o as [n' t'|n' t']; cbn.
  - unfold nonce_issue. destruct (decide (n' = n)) as [->|Hn].
    + rewrite lookup_insert_eq. naive_solver.
    + rewrite lookup_insert_ne by done. rewrite map_lookup_filter_Some. cbn. rewrite nonce_fresh_spec. naive_solver.
  - destruct (decide (n' = n)) as [->|Hn]; [rewrite lookup_delete_eq; naive_solver|].
    rewrite lookup_delete_ne by done. naive_solver.
Qed.

Lemma nonce_run_lookup n t ops :
  nonce_run ops !! n = Some t ↔ ∃ ops1 ops2, ops = ops1 ++ Issue n t :: ops2 ∧ Forall (op_keeps n t) ops2.
Proof.
  induction ops as [|o ops IH] using rev_ind.
  - split; [done|]. by intros ([|? ?] & ? & ? & _).
  - rewrite nonce_run_snoc, nonce_step_lookup, IH. split.
    + intros [->|[(ops1 & ops2 & -> & Hf) Ho]]; [by exists ops, []|].
      exists ops1, (ops2 ++ [o]). split; [by rewrite <-app_assoc|]. by apply Forall_app_2, Forall_singleton.
    + intros (ops1 & ops2 & He & Hf). destruct ops2 as [|o' ops2 _] using rev_ind.
      * apply app_inj_tail in He as [-> ->]. by left.
      * rewrite app_comm_cons, app_assoc in He. apply app_inj_tail in He as [-> ->].
        apply Forall_app in Hf as [Hf [Ho _]%Forall_cons]. right. split; [by exists ops1, ops2|done].
Qed.

Lemma nonce_consume_spec n now m :
  (nonce_consume n now m).1 = true ↔ ∃ t, m !! n = Some t ∧ now - t < NONCE_TTL.
Proof. cbn. destruct (m !! n) as [t|]; [rewrite nonce_fresh_spec|]; naive_solver. Qed.

Lemma op_keeps_before n t now ops :
  Forall (λ o, op_at o ≤ now) ops → now - t < NONCE_TTL → Forall (λ o, op_nonce o ≠ n) ops →
  Forall (op_keeps n t) ops.
Proof.
  intros Hle Ht Hn. rewrite Forall_forall in Hle, Hn. apply Forall_forall. intros o Ho.
  split; [by apply Hn|]. specialize (Hle o Ho). destruct o; cbn in *; lia.
Qed.

(** C22. A login nonce is good once and for five minutes: after any sequence of
    issues and consumptions (none later than the consumption itself), consuming a
    nonce succeeds exactly when it was issued less than 300 s ago and neither issued
    again nor consumed since; and once consumed it stays refused, whatever happens
    in between, until that same nonce is issued again. *)
Theorem nonce_single_use ops n now :
  Forall (λ o, op_at o ≤ now) ops →
  ((nonce_consume n now (nonce_run ops)).1 = true ↔
   ∃ ops1 t ops2, ops = ops1 ++ Issue n t :: ops2 ∧ Forall (λ o, op_nonce o ≠ n) ops2 ∧ now - t < NONCE_TTL) ∧
  (∀ ops' now', Forall (λ o, ∀ t, o ≠ Issue n t) ops' →
     (nonce_consume n now' (nonce_run (ops ++ Consume n now :: ops'))).1 = false).
Proof.
  intros Hle. split.
  - rewrite nonce_consume_spec. split.
    + intros (t & (ops1 & ops2 & -> & Hf)%nonce_run_lookup & Ht). exists ops1, t, ops2. split_and!; [done| |done].
      eapply Forall_impl; [done|]. by intros o [].
    + intros (ops1 & t & ops2 & -> & Hf & Ht). exists t. split; [|done]. apply nonce_run_lookup. exists ops1, ops2.
      split; [done|]. apply Forall_app in Hle as [_ [_ Hle]%Forall_cons]. by eapply op_keeps_before.
  - intros ops' now' Hf. cbn. destruct (nonce_run _ !! n) as [t|] eqn:E; [exfalso|done].
    revert E. induction ops' as [|o ops' IH] using rev_ind.
    { rewrite nonce_run_snoc. cbn. by rewrite lookup_delete_eq. }
    apply Forall_app in Hf as [Hf [Ho _]%Forall_cons].
    rewrite app_comm_cons, app_assoc, nonce_run_snoc, nonce_step_lookup.
    intros [->|[E _]]; [by eapply Ho|by apply IH].
Qed.

(** [now_unix as i64]. *)
Definition as_i64 (z : Z) : Z := if z <=? I64_MAX then z else z - 18446744073709551616.

(** [message.lines().find_map(..)]. *)
Definition siwe_field (message prefix : string) : option string :=
  head (omap (λ line, trim <$> str_strip_prefix prefix line) (lines message)).

Section admin.
Context {R X P C Key : Type} `{!RedisServer R, Codec : !SessionCodec, !PgServer, !OracleNet X, !Rpc X P,
  !NodeClient X C, !Timer X, !AttestationCrypto, !ProposalSigner Key, !ServiceCodec, !AdminCrypto}.
Context (b : build) (clk : nat → DateTime) (fuel : nat).
Abbreviation App := (App R X).
Abbreviation State := (AppState (P:=P) (C:=C) (Key:=Key)).
Definition AM (A : Type) : Type := M App AuthError A.

Definition parse_admin_wallets (raw : string) : gset Address :=
  list_to_set (omap parse_address (entries "," raw)).

(** *** Session tokens *)
Definition issue_session_token (secret : bytes) (addr : Address) (ttl now_unix : Z) : AuthError + string :=
  let claims := {| cl_addr := address_debug addr; cl_exp := sat_u U64_MAX (now_unix + ttl) |} in
  match claims_to_vec claims with
  | None => inl AuthInternal
  | Some payload =>
      match hmac_sha256 secret with
      | None => inl AuthInternal
      | Some mac => inr (hex_encode payload +:+ "." +:+ hex_encode (mac payload))
      end
  end.

Definition verify_session_token (secret : bytes) (token : string) (now_unix : Z) : option Address :=
  '(payload_hex, sig_hex) ← split_once "." token;
  payload ← hex_decode payload_hex;
  sig ← hex_decode sig_hex;
  mac ← hmac_sha256 secret;
  if decide (sig = mac payload) then
    claims ← claims_from_slice payload;
    if cl_exp claims <=? now_unix then None else parse_address (cl_addr claims)
  else None.

(** *** Sign-in with Ethereum *)
Definition verify_siwe (message signature_hex expected_domain : string) (now_unix : Z) : option SiweVerified :=
  sig_bytes ← hex_decode (trim_start_matches "0x" (trim signature_hex));
  signature ← signature_try_from sig_bytes;
  recovered ← recover_address_from_msg signature (string_as_bytes message);
  header ← lines message !! 0%nat;
  domain ← trim <$> str_strip_suffix SIWE_HEADER_SUFFIX header;
  if negb (String.eqb domain expected_domain) then None
  else
    addr_line ← trim <$> lines message !! 1%nat;
    declared ← parse_address addr_line;
    if bool_decide (declared ≠ recovered) then None
    else
      nonce ← siwe_field message "Nonce:";
      if String.eqb nonce "" then None
      else
        match siwe_field message "Expiration Time:" with
        | Some expiration =>
            exp ← timestamp <$> parse_from_rfc3339 expiration;
            if exp <=? as_i64 now_unix then None else Some (mkSiweVerified recovered nonce)
        | None => Some (mkSiweVerified recovered nonce)
        end.

(** *** The handlers *)
Definition utc : AM DateTime := on_redis (utc_now clk).
Definition now_unix : AM Z := now ← utc; mret (default 0 (try_from 0 U64_MAX (Z.max (timestamp now) 0))).

Definition unauthorized {A} : AM A := fail Unauthorized.

Definition issue : AM string :=
  nonce ← gets (λ w, uuid_simple (re_tick (app_redis w)));
  now ← gets (λ w, instant (app_net w));
  modify (λ w, set_nonces (nonce_issue nonce now (app_nonces w)) w) ;;
  mret nonce.
Definition consume (nonce : string) : AM bool := λ w,
  let r := nonce_consume nonce (instant (app_net w)) (app_nonces w) in (Ok r.1, set_nonces r.2 w).

Definition nonce (state : State) : AM NonceResponse :=
  if bool_decide (st_admin_wallets state = ∅) || bool_decide (st_admin_session_secret state = None) then unauthorized
  else
    nonce ← issue;
    now ← utc;
    mret {| nr_nonce := nonce; nr_domain := st_admin_domain state; nr_uri := "https://" +:+ st_admin_domain state;
            nr_version := "1"; nr_statement := "Sign in to the Primora admin console.";
            nr_issued_at := to_rfc3339 now; nr_expiration_time := to_rfc3339 (now + NONCE_TTL) |}.

Definition login (state : State) (body : LoginRequest) : AM LoginResponse :=
  secret ← ok_or (st_admin_session_secret state) Unauthorized;
  if decide (st_admin_wallets state = ∅) then unauthorized
  else
    now ← now_unix;
    verified ← ok_or (verify_siwe (lr_message body) (lr_signature body) (st_admin_domain state) now) Unauthorized;
    if decide (sv_address verified ∈ st_admin_wallets state) then
      live ← consume (sv_nonce verified);
      if (live : bool) then
        token ← (match issue_session_token secret (sv_address verified) (st_admin_session_ttl state) now with
                 | inl e => fail e | inr token => mret token end : AM string);
        mret {| lg_token := token; lg_expires_in := st_admin_session_ttl state |}
      else unauthorized
    else unauthorized.

(** The token of the [Authorization] header. *)
Definition bearer_token (authorization : option string) : option string :=
  value ← authorization;
  text ← header_to_str value;
  str_strip_prefix "Bearer " text.

(** [admin_guard] on a request with the [Authorization] header, around [next]. *)
Definition admin_guard (state : State) (authorization : option string) {A} (next : AM A) : AM A :=
  match st_admin_session_secret state with
  | None => unauthorized
  | Some secret =>
      if decide (st_admin_wallets state = ∅) then unauthorized
      else
        address ← (match bearer_token authorization with
                   | None => mret None
                   | Some token => now ← now_unix; mret (verify_session_token secret token now)
                   end : AM (option Address));
        match address with
        | Some address => if decide (address ∈ st_admin_wallets state) then next else unauthorized
        | None => unauthorized
        end
  end.

Fixpoint overview_loop (i : nat) (readers : list (Chain * TreasuryReader (P:=P))) (reserve_total redeemed_total : Z)
    : AM (Z * Z) :=
  match readers with
  | [] => mret (reserve_total, redeemed_total)
  | (_, reader) :: readers =>
      r ← (map_err (λ _, AuthInternal) (read_reserve i reader) : AM (OnchainClientError + ReserveBalances));
      match r with
      | inr bal =>
          overview_loop (S i) readers (sat_u U128_MAX (reserve_total + rb_total_reserve_usd bal))
            (sat_u U128_MAX (redeemed_total + rb_total_redeemed_usd bal))
      | inl _ => overview_loop (S i) readers reserve_total redeemed_total
      end
  end.
Definition overview (state : State) : AM AdminOverview :=
  active_sessions ← gets (λ w, m_session_active (app_metrics w));
  '(reserve_total, redeemed_total) ← overview_loop 0 (st_treasury_readers state) 0 0;
  share ← (map_err (λ _, AuthInternal) (on_db (company_mining_share (default "" (wallet_db_key <$> st_company_wallet state))))
             : AM EntityShare);
  flagged_events ← (map_err (λ _, AuthInternal) (on_db count_anomaly_events) : AM Z);
  mret {| ao_active_sessions := active_sessions; ao_reserve_total_usd := show reserve_total;
          ao_total_redeemed_usd := show redeemed_total;
          ao_company_mining_share_bps := default 0 (try_from 0 U32_MAX (es_share_bps share));
          ao_flagged_events := flagged_events;
          ao_daily_mint_ceiling_prm := daily_ceiling (st_mint_ceiling state) (st_mint_ceiling_active_users state)
            (st_mint_ceiling_avg_daily_prm_per_user state) |}.

(** [logout]: no state; the token lives until it expires. *)
Definition logout : AM Z := mret 204.

(** ** Lemmas *)
Lemma token_sound secret token now a :
  verify_session_token secret token now = Some a →
  ∃ ph sh payload mac claims,
    token = ph +:+ String "." sh ∧ hex_decode ph = Some payload ∧ hmac_sha256 secret = Some mac ∧
    hex_decode sh = Some (mac payload) ∧ claims_from_slice payload = Some claims ∧
    now < cl_exp claims ∧ parse_address (cl_addr claims) = Some a.
Proof.
  unfold verify_session_token. destruct (split_once "." token) as [[ph sh]|] eqn:Es; [|done]. cbn.
  apply split_once_inv in Es as [-> _]. destruct (hex_decode ph) as [payload|] eqn:Ep; [|done].
  destruct (hex_decode sh) as [sig|] eqn:Eg; [|done]. destruct (hmac_sha256 secret) as [mac|]; [|done]. cbn.
  case_decide as Hs; [|done]. destruct (claims_from_slice payload) as [claims|] eqn:Ec; [|done]. cbn.
  destruct (Z.leb_spec (cl_exp claims) now); [done|]. intros Ha. subst sig. by exists ph, sh, payload, mac, claims.
Qed.

Lemma token_roundtrip `{!AdminLaws} secret a ttl issued now :
  0 ≤ a < 2 ^ 160 → 0 ≤ issued + ttl →
  ∃ token, issue_session_token secret a ttl issued = inr token ∧
    verify_session_token secret token now = if sat_u U64_MAX (issued + ttl) <=? now then None else Some a.
Proof.
  intros Ha Ht. unfold issue_session_token, verify_session_token.
  set (claims := {| cl_addr := _; cl_exp := _ |}).
  destruct (claims_roundtrip claims) as (payload & -> & Hb & Hc); [by apply sat_u_range|].
  destruct (hmac_any_key secret) as [mac Hmac]. rewrite Hmac. eexists. split; [done|].
  rewrite (split_once_app "." (hex_encode payload) (hex_encode (mac payload)) (hex_plain _ Hb)
    : split_once "." (hex_encode payload +:+ "." +:+ hex_encode (mac payload)) = _). cbn. rewrite !hex_roundtrip by (done || by eapply hmac_bytes).
  cbn. rewrite decide_True by done. rewrite Hc. cbn. by rewrite address_roundtrip.
Qed.

(** The clock's reading, and the world after it. *)
Definition unix_at (w : App) : Z := default 0 (try_from 0 U64_MAX (Z.max (timestamp (now_of clk (app_redis w))) 0)).
Definition ticked (w : App) : App := (utc w).2.

Lemma now_unix_run w : now_unix w = (Ok (unix_at w), ticked w).
Proof. done. Qed.
Lemma unix_at_nonneg w : 0 ≤ unix_at w.
Proof. unfold unix_at. destruct (try_from _ _ _) as [x|] eqn:E; [apply try_from_Some in E|]; cbn; lia. Qed.

(** The guard on a request, and the same with the token verified. *)
Lemma admin_guard_run state authorization {A} (next : AM A) w :
  admin_guard state authorization next w =
  match st_admin_session_secret state, bearer_token authorization with
  | None, _ => (Err Unauthorized, w)
  | Some secret, None => (Err Unauthorized, w)
  | Some secret, Some token =>
      if decide (st_admin_wallets state = ∅) then (Err Unauthorized, w)
      else
        match verify_session_token secret token (unix_at w) with
        | Some a => if decide (a ∈ st_admin_wallets state) then next (ticked w) else (Err Unauthorized, ticked w)
        | None => (Err Unauthorized, ticked w)
        end
  end.
Proof.
  unfold admin_guard. destruct (st_admin_session_secret state) as [secret|]; [|done].
  destruct (decide (st_admin_wallets state = ∅)); [by destruct (bearer_token _)|].
  destruct (bearer_token authorization) as [token|]; [|done].
  unfold mbind, M_bind. rewrite now_unix_run. cbn.
  destruct (verify_session_token _ _ _) as [a|]; [|done]. by case_decide.
Qed.

(** C21. The guard of the admin routes fails closed: the guarded handler runs only
    when the console is configured and the request carries a bearer token that the
    server's own secret signed, that has not expired and that names an address still
    in the admin list; every other request is answered 401 and changes nothing. *)
Theorem admin_guard_correct state authorization {A} (next : AM A) w :
  (∃ secret header token ph sh payload mac claims a,
     st_admin_session_secret state = Some secret ∧ a ∈ st_admin_wallets state ∧
     authorization = Some header ∧ header_to_str header = Some ("Bearer " +:+ token) ∧
     token = ph +:+ String "." sh ∧ hex_decode ph = Some payload ∧ hmac_sha256 secret = Some mac ∧
     hex_decode sh = Some (mac payload) ∧ claims_from_slice payload = Some claims ∧
     unix_at w < cl_exp claims ∧ parse_address (cl_addr claims) = Some a ∧
     admin_guard state authorization next w = next (ticked w)) ∨
  admin_guard state authorization next w = (Err Unauthorized, w) ∨
  admin_guard state authorization next w = (Err Unauthorized, ticked w).
Proof.
  rewrite admin_guard_run. destruct (st_admin_session_secret state) as [secret|]; [|by auto].
  destruct (bearer_token authorization) as [token|] eqn:Eb; [|by auto]. case_decide; [by auto|].
  destruct (verify_session_token secret token (unix_at w)) as [a|] eqn:Ev; [|by auto]. case_decide; [|by auto].
  apply token_sound in Ev as (ph & sh & payload & mac & claims & Hv).
  unfold bearer_token in Eb. destruct authorization as [header|]; [|done]. cbn [mbind option_bind] in Eb.
  destruct (header_to_str header) as [text|] eqn:Eh; [|done]. cbn [mbind option_bind] in Eb. apply strip_prefix_inv in Eb as ->.
  left. exists secret, header, token, ph, sh, payload, mac, claims, a. naive_solver.
Qed.

Lemma verify_siwe_time m s d n1 n2 v1 v2 :
  verify_siwe m s d n1 = Some v1 → verify_siwe m s d n2 = Some v2 → v1 = v2.
Proof.
  unfold verify_siwe. intros Hv1 Hv2.
  repeat match goal with
  | H : (?o ≫= _) = Some _ |- _ => destruct o eqn:?; cbn [mbind option_bind] in *; [|done]
  | H : (if ?c then _ else _) = Some _ |- _ => destruct c; try done
  | H : match ?o with _ => _ end = Some _ |- _ => destruct o; try done
  end; simplify_eq; done.
Qed.

(** [login] as one decision. *)
Lemma login_run state body w :
  login state body w =
  match st_admin_session_secret state with
  | None => (Err Unauthorized, w)
  | Some secret =>
      if decide (st_admin_wallets state = ∅) then (Err Unauthorized, w)
      else
        match verify_siwe (lr_message body) (lr_signature body) (st_admin_domain state) (unix_at w) with
        | None => (Err Unauthorized, ticked w)
        | Some v =>
            if decide (sv_address v ∈ st_admin_wallets state) then
              let '(live, nonces) := nonce_consume (sv_nonce v) (instant (app_net w)) (app_nonces w) in
              let w' := set_nonces nonces (ticked w) in
              if live then
                match issue_session_token secret (sv_address v) (st_admin_session_ttl state) (unix_at w) with
                | inl e => (Err e, w')
                | inr token => (Ok {| lg_token := token; lg_expires_in := st_admin_session_ttl state |}, w')
                end
              else (Err Unauthorized, w')
            else (Err Unauthorized, ticked w)
        end
  end.
Proof.
  unfold login. destruct (st_admin_session_secret state) as [secret|]; [|done]. unfold mbind at 1, M_bind at 1. cbn [ok_or mret M_ret].
  case_decide; [done|]. unfold mbind at 1, M_bind at 1. rewrite now_unix_run.
  destruct (verify_siwe _ _ _ _) as [v|]; [|done]. unfold mbind at 1, M_bind at 1. cbn [ok_or mret M_ret].
  case_decide; [|done]. unfold mbind at 1, M_bind at 1, consume.
  change (app_net (ticked w)) with (app_net w). change (app_nonces (ticked w)) with (app_nonces w).
  destruct (nonce_consume _ _ _) as [live nonces]. cbn [fst snd]. destruct live; [|done].
  by destruct (issue_session_token _ _ _ _).
Qed.

(** What a message that passes [verify_siwe] says, and who signed it. *)
Lemma verify_siwe_sound message signature_hex domain now v :
  verify_siwe message signature_hex domain now = Some v →
  ∃ sig_bytes signature header account,
    hex_decode (trim_start_matches "0x" (trim signature_hex)) = Some sig_bytes ∧
    signature_try_from sig_bytes = Some signature ∧
    recover_address_from_msg signature (string_as_bytes message) = Some (sv_address v) ∧
    lines message !! 0%nat = Some (header +:+ SIWE_HEADER_SUFFIX) ∧ trim header = domain ∧
    lines message !! 1%nat = Some account ∧ parse_address (trim account) = Some (sv_address v) ∧
    siwe_field message "Nonce:" = Some (sv_nonce v) ∧ sv_nonce v ≠ "" ∧
    (∀ text, siwe_field message "Expiration Time:" = Some text →
       ∃ exp, parse_from_rfc3339 text = Some exp ∧ as_i64 now < timestamp exp).
Proof.
  unfold verify_siwe. destruct (hex_decode _) as [sig_bytes|]; [|done]. cbn [mbind option_bind].
  destruct (signature_try_from sig_bytes) as [signature|] eqn:Hsg; [|done]. cbn [mbind option_bind].
  destruct (recover_address_from_msg _ _) as [recovered|] eqn:Hrec; [|done]. cbn [mbind option_bind].
  destruct (lines message !! 0%nat) as [line|]; [|done]. cbn [mbind option_bind].
  destruct (str_strip_suffix _ line) as [header|] eqn:Hh; [|done]. apply strip_suffix_inv in Hh as ->.
  cbn [mbind option_bind fmap option_fmap option_map]. destruct (String.eqb_spec (trim header) domain) as [Hd|]; [|done].
  cbn [negb]. destruct (lines message !! 1%nat) as [account|]; [|done]. cbn [mbind option_bind fmap option_fmap option_map].
  destruct (parse_address (trim account)) as [declared|] eqn:Hacc; [|done]. cbn [mbind option_bind].
  case_bool_decide as Hdec; [done|]. subst declared.
  destruct (siwe_field message "Nonce:") as [n|] eqn:Hn; [|done]. cbn [mbind option_bind].
  destruct (String.eqb_spec n "") as [|Hne]; [done|]. intros Hv. exists sig_bytes, signature, header, account.
  destruct (siwe_field message "Expiration Time:") as [text|].
  - destruct (parse_from_rfc3339 text) as [e|] eqn:He; [|done]. cbn in Hv. destruct (Z.leb_spec (timestamp e) (as_i64 now)); [done|].
    injection Hv as <-. split_and!; try done. intros text' [= <-]. by exists e.
  - injection Hv as <-. by split_and!.
Qed.

(** C19. Signing in to the admin console. Of a login that succeeds, the signature field is
    a signature, in hex, of exactly the message's bytes, by a wallet of the admin list;
    the message's first line asks for a sign-in to the console's domain, its second
    names that wallet, it carries a nonce issued less than 300 s ago, and it is not
    past its expiration time, if it gives one. The login uses the nonce up, so the same
    request cannot succeed while the nonce is not issued again, and changes nothing
    else; its token opens the guarded routes until the configured lifetime has passed,
    and not after. *)
Theorem login_correct `{!AdminLaws} state body w resp w' :
  (∀ a, a ∈ st_admin_wallets state → 0 ≤ a < 2 ^ 160) → 0 ≤ st_admin_session_ttl state →
  login state body w = (Ok resp, w') →
  let message := lr_message body in
  ∃ wallet nonce t sig_bytes signature header account,
    hex_decode (trim_start_matches "0x" (trim (lr_signature body))) = Some sig_bytes ∧
    signature_try_from sig_bytes = Some signature ∧
    recover_address_from_msg signature (string_as_bytes message) = Some wallet ∧
    wallet ∈ st_admin_wallets state ∧
    lines message !! 0%nat = Some (header +:+ SIWE_HEADER_SUFFIX) ∧ trim header = st_admin_domain state ∧
    lines message !! 1%nat = Some account ∧ parse_address (trim account) = Some wallet ∧
    (∀ text, siwe_field message "Expiration Time:" = Some text →
       ∃ exp, parse_from_rfc3339 text = Some exp ∧ as_i64 (unix_at w) < timestamp exp) ∧
    siwe_field message "Nonce:" = Some nonce ∧ nonce ≠ "" ∧
    app_nonces w !! nonce = Some t ∧ instant (app_net w) - t < NONCE_TTL ∧
    w' = set_nonces (delete nonce (app_nonces w)) (ticked w) ∧
    (∀ w2, app_nonces w2 !! nonce = None → (login state body w2).1 = Err Unauthorized) ∧
    (∀ w2 A (next : AM A) bearer, header_to_str bearer = Some ("Bearer " +:+ lg_token resp) →
       admin_guard state (Some bearer) next w2 =
         if unix_at w2 <? Z.min U64_MAX (unix_at w + st_admin_session_ttl state) then next (ticked w2)
         else (Err Unauthorized, ticked w2)).
Proof.
  intros Haddr Httl. rewrite login_run.
  destruct (st_admin_session_secret state) as [secret|] eqn:Esec; [|done]. case_decide as Hne; [done|].
  destruct (verify_siwe _ _ _ _) as [v|] eqn:Ev; [|done]. case_decide as Hin; [|done].
  destruct (nonce_consume _ _ _) as [live nonces] eqn:En. destruct live; [|done].
  assert (nonces = delete (sv_nonce v) (app_nonces w)) as -> by (by injection En).
  pose proof (nonce_consume_spec (sv_nonce v) (instant (app_net w)) (app_nonces w)) as Hn.
  rewrite En in Hn. destruct (proj1 Hn eq_refl) as (t & Ht & Hlt). pose proof (unix_at_nonneg w) as Hu.
  destruct (issue_session_token _ _ _ _) as [e|token] eqn:Et; [done|]. intros [= <- <-].
  destruct (verify_siwe_sound _ _ _ _ _ Ev) as (sb & sg & hd & acc & Hs1 & Hs2 & Hs3 & Hs4 & Hs5 & Hs6 & Hs7 & Hs8 & Hs9 & Hs10).
  exists (sv_address v), (sv_nonce v), t, sb, sg, hd, acc. split_and!; try done.
  - intros w2 Hw2. rewrite login_run, Esec, decide_False by done.
    destruct (verify_siwe _ _ _ (unix_at w2)) as [v2|] eqn:Ev2; [|done].
    assert (v2 = v) as -> by (by eapply verify_siwe_time). rewrite decide_True by done.
    unfold nonce_consume. by rewrite Hw2.
  - intros w2 A next header Hh. rewrite admin_guard_run, Esec. unfold bearer_token. cbn [mbind option_bind].
    rewrite Hh. cbn [mbind option_bind lg_token]. rewrite strip_prefix_app, decide_False by done.
    destruct (token_roundtrip secret (sv_address v) (st_admin_session_ttl state) (unix_at w) (unix_at w2))
      as (token' & Et' & Hv); [by apply Haddr|lia|]. rewrite Et in Et'. injection Et' as <-. rewrite Hv.
    replace (sat_u U64_MAX (unix_at w + st_admin_session_ttl state))
      with (Z.min U64_MAX (unix_at w + st_admin_session_ttl state)) by (unfold sat_u; lia).
    destruct (Z.leb_spec (Z.min U64_MAX (unix_at w + st_admin_session_ttl state)) (unix_at w2)) as [Hc|Hc].
    + by rewrite (proj2 (Z.ltb_ge _ _) Hc).
    + by rewrite (proj2 (Z.ltb_lt _ _) Hc), decide_True.
Qed.

(** The overview reads the Treasuries the way [GET /reserve] does. *)
Lemma overview_reserve readers : ∀ i chains reserve redeemed w,
  match reserve_loop i readers chains reserve redeemed w, overview_loop i readers reserve redeemed w with
  | (Ok r, w1), (Ok (reserve', redeemed'), w2) =>
      rr_total_reserve_usd r = show reserve' ∧ rr_total_redeemed_usd r = show redeemed' ∧ w1 = w2
  | (Panic, w1), (Panic, w2) => w1 = w2
  | _, _ => False
  end.
Proof.
  induction readers as [|[chain reader] readers IH]; intros i chains reserve redeemed w; [done|].
  cbn [reserve_loop overview_loop]. unfold mbind, M_bind, map_err.
  destruct (read_reserve i reader w) as [o w1] eqn:E. destruct o as [r|e|]; [| |done].
  - destruct r as [e|bal]; cbn; apply IH.
  - unfold read_reserve, attempt in E. destruct (zoom _ _ _ w) as [[?|?|] ?]; done.
Qed.
End admin.

(** ** A console and the witnesses

    Hexadecimal text, claims in the form [exp.addr], and a keyed checksum. *)
Definition hex_digit (n : Z) : ascii := ascii_of_nat (Z.to_nat (97 + n)).
Definition hex_value (c : ascii) : Z := Z.of_nat (nat_of_ascii c) - 97.
Fixpoint toy_hex_encode (l : bytes) : string :=
  match l with
  | [] => ""
  | x :: l => String (hex_digit (x / 16)) (String (hex_digit (x mod 16)) (toy_hex_encode l))
  end.
Fixpoint toy_hex_decode (s : string) : option bytes :=
  match s with
  | "" => Some []
  | String c (String d s) => l ← toy_hex_decode s; Some (hex_value c * 16 + hex_value d :: l)
  | String _ "" => None
  end.
Definition checksum (l : bytes) : Z := foldr Z.add 0 l mod 256.

#[local] Instance toy_console_codec : ServiceCodec := {|
  parse_address s := rest ← str_strip_prefix "0x" s; parse_u (2 ^ 160 - 1) rest;
  hex_decode := toy_hex_decode;
  string_debug s := s
|}.
#[local] Instance toy_wallet_crypto : AttestationCrypto := {|
  sha256_digest m := [checksum m];
  recover_address_from_msg s m := if decide (sig_s s = checksum m) then Some (sig_r s) else None
|}.
#[local] Instance toy_admin_crypto : AdminCrypto := {|
  uuid_simple n := "nonce" +:+ show (Z.of_nat n);
  hmac_sha256 secret := Some (λ m, [checksum (secret ++ m)]);
  hex_encode := toy_hex_encode;
  claims_to_vec c := Some (Service.string_bytes (show (cl_exp c) +:+ String "." (cl_addr c)));
  claims_from_slice l := '(e, a) ← split_once "." (bytes_string l); exp ← parse_u U64_MAX e; Some (mkSessionClaims a exp);
  parse_from_rfc3339 s := (λ t, t * NANOS_PER_SEC) <$> parse_u U64_MAX s;
  to_rfc3339 t := show (timestamp t);
  header_to_str s := Some s;
  string_as_bytes := Service.string_bytes
|}.

Lemma string_bytes_are_bytes s : are_bytes (Service.string_bytes s).
Proof.
  induction s as [|c s IH]; [constructor|]. cbn. constructor; [|done]. pose proof (nat_ascii_bounded c). lia.
Qed.
Lemma hex_value_digit n : 0 ≤ n < 16 → hex_value (hex_digit n) = n.
Proof. intros Hn. unfold hex_value, hex_digit. rewrite nat_ascii_embedding by lia. lia. Qed.
Lemma hex_digit_dot n : 0 ≤ n < 16 → (hex_digit n =? ".")%char = false.
Proof.
  intros Hn. apply Ascii.eqb_neq. intros He. apply (f_equal hex_value) in He.
  rewrite hex_value_digit in He by done. change (hex_value ".") with (-51) in He. lia.
Qed.
Lemma parse_digits_lacks s : ∀ acc z, parse_digits acc s = Some z → lacks "." s = true.
Proof.
  induction s as [|c s IH]; intros acc z; [done|]. cbn -[Ascii.eqb]. destruct (digit_value c) eqn:Ed; [|done].
  intros H%IH. rewrite H, andb_true_r. destruct (Ascii.eqb_spec c ".") as [->|]; [by vm_compute in Ed|done].
Qed.
Lemma show_lacks z : 0 ≤ z → lacks "." (show z) = true.
Proof. intros Hz. rewrite show_nonneg by done. eapply parse_digits_lacks, parse_digits_pretty_N. Qed.

#[local] Program Instance toy_admin_laws : AdminLaws.
Next Obligation. by eexists. Qed.
Next Obligation.
  intros secret mac m [= <-]. constructor; [|constructor]. apply Z.mod_pos_bound. lia.
Qed.
Next Obligation.
  intros l Hl. cbn. induction Hl as [|x l Hx Hl IH]; [done|]. cbn -[Ascii.eqb Z.div Z.modulo].
  rewrite !hex_digit_dot; [done| |]; [by apply Z.mod_pos_bound|]. split; [apply Z.div_pos; lia|].
  apply Z.div_lt_upper_bound; lia.
Qed.
Next Obligation.
  intros l Hl. cbn. induction Hl as [|x l Hx Hl IH]; [done|]. cbn -[Z.div Z.modulo]. rewrite IH. cbn -[Z.div Z.modulo].
  rewrite !hex_value_digit; [|by apply Z.mod_pos_bound|].
  - by rewrite Z.mul_comm, <-Z.div_mod.
  - split; [apply Z.div_pos; lia|]. apply Z.div_lt_upper_bound; lia.
Qed.
Next Obligation.
  intros [a e] He. cbn [cl_exp] in He. eexists. split; [done|]. split; [apply string_bytes_are_bytes|]. cbn -[parse_u show].
  rewrite bytes_string_bytes, split_once_app by (apply show_lacks; lia). cbn -[parse_u show]. by rewrite parse_u_show.
Qed.
Next Obligation.
  intros a Ha. cbn -[parse_u show str_strip_prefix]. rewrite (strip_prefix_app "0x" (show a)). cbn -[parse_u show].
  apply parse_u_show. lia.
Qed.

(** A sign-in: a nonce is issued, the admin's wallet signs, the token opens a guarded
    route, and the same request is refused. *)
Definition console_message (nonce : string) : string :=
  "admin.primora.io" +:+ SIWE_HEADER_SUFFIX +:+ String LF ("0x42" +:+ String LF (String LF ("Sign in." +:+
  String LF (String LF ("URI: https://admin.primora.io" +:+ String LF ("Version: 1" +:+ String LF ("Nonce: " +:+ nonce +:+
  String LF "Expiration Time: 99999999999"))))))).
Definition console_login : LoginRequest :=
  let message := console_message "nonce0" in
  mkLoginRequest message ("0x" +:+ toy_hex_encode [42; checksum (Service.string_bytes message); 0]).
#[local] Existing Instances toy_timer toy_message_signer toy_grpc toy_proposal_signer toy_chain.
Definition console_app : App MemRedis nat := (nonce run_clk toy_state toy_app).2.
Definition AM_run (A : Type) : Type := AM (R:=MemRedis) (X:=nat) A.

Definition console_token : string := "dddgdgdacodahidedc.bb".
Definition console_after : App MemRedis nat := (login run_clk toy_state console_login console_app).2.
Definition console_header : option string := Some ("Bearer " +:+ console_token).

Lemma login_correct_witness :
  (login run_clk toy_state console_login console_app).1 = Ok (mkLoginResponse console_token 3600) ∧
  (login run_clk toy_state console_login console_after).1 = Err Unauthorized ∧
  (admin_guard run_clk toy_state console_header (logout : AM_run Z) console_after).1 = Ok 204.
Proof.
  assert ((login run_clk toy_state console_login console_app).1 = Ok (mkLoginResponse console_token 3600)) as Hok
    by (vm_compute; reflexivity).
  split; [exact Hok|]. unfold console_after.
  destruct (login run_clk toy_state console_login console_app) as [o w'] eqn:E. cbn [fst snd] in Hok |- *. subst o.
  destruct (login_correct run_clk toy_state console_login console_app (mkLoginResponse console_token 3600) w') 
    as (wallet & nc & t & sb & sg & hd & acc & _ & _ & _ & _ & _ & _ & _ & _ & _ & _ & _ & _ & _ & Hw & Hr & Hg);
    [|done|exact E|].
  - intros a Ha. change (a ∈ ({[42]} : gset Address)) in Ha. apply elem_of_singleton in Ha. subst a. lia.
  - split.
    + apply Hr. rewrite Hw. apply lookup_delete_eq.
    + etransitivity; [exact (f_equal fst (Hg w' Z logout _ eq_refl))|]. rewrite Hw. vm_compute. reflexivity.
Defined.

Lemma nonce_single_use_witness :
  (nonce_consume "n" (100 * NANOS_PER_SEC) (nonce_run [Issue "n" 0; Issue "m" 5])).1 = true ∧
  (nonce_consume "n" (101 * NANOS_PER_SEC) (nonce_run [Issue "n" 0; Issue "m" 5; Consume "n" (100 * NANOS_PER_SEC)])).1 = false.
Proof.
  assert (Forall (λ o, op_at o ≤ 100 * NANOS_PER_SEC) [Issue "n" 0; Issue "m" 5]) as Hle.
  { repeat constructor; vm_compute; discriminate. }
  destruct (nonce_single_use [Issue "n" 0; Issue "m" 5] "n" (100 * NANOS_PER_SEC) Hle) as [H1 H2]. split.
  - apply H1. exists [], 0, [Issue "m" 5]. split; [reflexivity|]. split; [|vm_compute; reflexivity].
    repeat constructor. discriminate.
  - apply (H2 [] (101 * NANOS_PER_SEC)). constructor.
Defined.
