(* ===== verification/SignIn.v ===== *)
(** * Signing in to the admin console, end to end

    What a wallet signs is the EIP-4361 text of the answer to [GET /admin/nonce]:
    the message, that [verify_siwe] of crates/verification-service/src/admin.rs reads
    it back, and that a login with it succeeds. *)
From S2P Require Import Prelude Text Common Redis SessionStore.
From S2P Require Import NodeCoordinator Oracle Postgres Onchain Service Admin.

(** A field of the message: one line, without white space around it. *)
Definition field_text (s : string) : Prop := one_line s = true ∧ trim s = s.

(** What [chrono] and [uuid] document of the texts the service issues: an RFC 3339
    time of the years 1970 to 9999 reads back to the second, and a [simple] UUID is 32
    hexadecimal digits. *)
Definition MAX_TIME : Z := 253402300799 * NANOS_PER_SEC.
Class SignInLaws `{!AdminCrypto} := {
  rfc3339_field t : 0 ≤ t ≤ MAX_TIME → field_text (to_rfc3339 t);
  rfc3339_roundtrip t : 0 ≤ t ≤ MAX_TIME → timestamp <$> parse_from_rfc3339 (to_rfc3339 t) = Some (timestamp t);
  uuid_field n : field_text (uuid_simple n) ∧ uuid_simple n ≠ ""
}.

(** The text of EIP-4361 for the parameters of [nr]. *)
Definition siwe_lines (nr : NonceResponse) (address chain_id : string) : list string :=
  [ nr_domain nr +:+ SIWE_HEADER_SUFFIX; address; ""; nr_statement nr; "";
    "URI: " +:+ nr_uri nr; "Version: " +:+ nr_version nr; "Chain ID: " +:+ chain_id;
    "Nonce: " +:+ nr_nonce nr; "Issued At: " +:+ nr_issued_at nr;
    "Expiration Time: " +:+ nr_expiration_time nr ].
Definition siwe_message (nr : NonceResponse) (address chain_id : string) : string :=
  join LF (siwe_lines nr address chain_id).

(** The fields the message is made of. *)
Definition siwe_fields (nr : NonceResponse) (address chain_id : string) : Prop :=
  Forall field_text [nr_domain nr; address; nr_statement nr; nr_uri nr; nr_version nr; chain_id;
                     nr_nonce nr; nr_issued_at nr; nr_expiration_time nr].
(** A line that the search for the nonce or the expiry passes over. *)
Definition not_a_field (line : string) : Prop :=
  str_strip_prefix "Nonce:" line = None ∧ str_strip_prefix "Expiration Time:" line = None.
Definition siwe_readable (nr : NonceResponse) (address chain_id : string) : Prop :=
  siwe_fields nr address chain_id ∧ nr_nonce nr ≠ "" ∧
  Forall not_a_field [nr_domain nr +:+ SIWE_HEADER_SUFFIX; address; nr_statement nr].

(** ** Lemmas *)
Lemma siwe_message_lines nr address chain_id :
  siwe_fields nr address chain_id → lines (siwe_message nr address chain_id) = siwe_lines nr address chain_id.
Proof.
  unfold siwe_fields. rewrite !Forall_cons. intros ((Hd & _) & (Ha & _) & (Hs & _) & (Hu & _) & (Hv & _) & (Hc & _) & (Hn & _) & (Hi & _) & (He & _) & _).
  unfold siwe_message, siwe_lines. rewrite lines_join; [done| |discriminate].
  repeat apply Forall_cons_2; try apply Forall_nil_2; rewrite ?one_line_app, ?Hd, ?Ha, ?Hs, ?Hu, ?Hv, ?Hc, ?Hn, ?Hi, ?He; reflexivity.
Qed.

Lemma siwe_field_lines nr address chain_id :
  siwe_readable nr address chain_id →
  siwe_field (siwe_message nr address chain_id) "Nonce:" = Some (nr_nonce nr) ∧
  siwe_field (siwe_message nr address chain_id) "Expiration Time:" = Some (nr_expiration_time nr).
Proof.
  intros (Hf & _ & Hp). unfold siwe_field. rewrite siwe_message_lines by done.
  unfold siwe_fields in Hf. rewrite !Forall_cons in Hf. destruct Hf as (_ & _ & _ & _ & _ & _ & (_ & Hn) & _ & (_ & He) & _).
  rewrite !Forall_cons in Hp. destruct Hp as ([Hd Hd'] & [Ha Ha'] & [Hs Hs'] & _).
  unfold siwe_lines. generalize dependent (nr_domain nr +:+ SIWE_HEADER_SUFFIX). intros header Hd Hd'.
  split; cbn [omap list_omap]; [rewrite Hd, Ha, Hs|rewrite Hd', Ha', Hs'].
  - change (Some (trim (String " " (nr_nonce nr))) = Some (nr_nonce nr)). by rewrite trim_space, Hn.
  - change (Some (trim (String " " (nr_expiration_time nr))) = Some (nr_expiration_time nr)). by rewrite trim_space, He.
Qed.

(** ** Properties *)
Section signin.
Context {R X P C Key : Type} `{!RedisServer R, Codec : !SessionCodec, !PgServer, !OracleNet X, !Rpc X P,
  !NodeClient X C, !Timer X, !AttestationCrypto, !ProposalSigner Key, !ServiceCodec, !AdminCrypto}.
Context (clk : nat → DateTime).
Abbreviation App := (App R X).
Abbreviation State := (AppState (P:=P) (C:=C) (Key:=Key)).

(** [signature_hex] is the text of a signature of [message] by the wallet [a]. *)
Definition signed_by (signature_hex message : string) (a : Address) : Prop :=
  ∃ sig_bytes signature, hex_decode (trim_start_matches "0x" (trim signature_hex)) = Some sig_bytes ∧
    signature_try_from sig_bytes = Some signature ∧
    recover_address_from_msg signature (string_as_bytes message) = Some a.

Lemma verify_siwe_text nr address chain_id signature_hex a domain exp now :
  siwe_readable nr address chain_id → parse_address address = Some a →
  signed_by signature_hex (siwe_message nr address chain_id) a →
  timestamp <$> parse_from_rfc3339 (nr_expiration_time nr) = Some exp → 0 ≤ now ≤ I64_MAX →
  verify_siwe (siwe_message nr address chain_id) signature_hex domain now =
    if bool_decide (domain = nr_domain nr) && (now <? exp) then Some (mkSiweVerified a (nr_nonce nr)) else None.
Proof.
  intros Hr Ha (sig_bytes & signature & Hb & Hs & Hrec) Hexp Hnow. unfold verify_siwe.
  rewrite Hb. cbn [mbind option_bind]. rewrite Hs. cbn [mbind option_bind]. rewrite Hrec. cbn [mbind option_bind].
  destruct (siwe_field_lines _ _ _ Hr) as [Hn He]. destruct Hr as (Hf & Hne & _).
  rewrite siwe_message_lines by done. unfold siwe_fields in Hf. rewrite !Forall_cons in Hf.
  destruct Hf as ((_ & Hd) & (_ & Hat) & _). cbn [lookup list_lookup siwe_lines mbind option_bind].
  rewrite strip_suffix_app. cbn [fmap option_fmap option_map mbind option_bind]. rewrite Hd, Hat, Ha. cbn [mbind option_bind].
  rewrite Hn, He. cbn [mbind option_bind]. rewrite Hexp. cbn [mbind option_bind].
  rewrite (bool_decide_eq_false_2 (a ≠ a)) by naive_solver. rewrite (proj2 (String.eqb_neq _ _) Hne).
  assert (as_i64 now = now) as -> by (unfold as_i64; case_match eqn:E; lia).
  destruct (String.eqb_spec (nr_domain nr) domain) as [<-|Hdom]; [rewrite bool_decide_eq_true_2 by done|rewrite bool_decide_eq_false_2 by congruence; done].
  cbn. destruct (Z.leb_spec exp now), (Z.ltb_spec now exp); (done || lia).
Qed.

(** C14. The sign-in message is read back: from the EIP-4361 text of a nonce response,
    signed by the wallet it declares, [verify_siwe] recovers that wallet and that nonce,
    as long as the expiry in the text is in the future, and refuses the text from the
    second of its expiry on; for any other domain than the console's it refuses it at
    any time. *)
Theorem siwe_roundtrip nr address chain_id signature_hex a domain exp now :
  siwe_readable nr address chain_id → parse_address address = Some a →
  signed_by signature_hex (siwe_message nr address chain_id) a →
  timestamp <$> parse_from_rfc3339 (nr_expiration_time nr) = Some exp → 0 ≤ now ≤ I64_MAX →
  verify_siwe (siwe_message nr address chain_id) signature_hex domain now =
    if bool_decide (domain = nr_domain nr) && (now <? exp) then Some (mkSiweVerified a (nr_nonce nr)) else None.
Proof. apply verify_siwe_text. Qed.

(** The answer of [GET /admin/nonce] on a configured console. *)
Definition nonce_answer (state : State) (w : App) : NonceResponse :=
  let now := now_of clk (app_redis w) in
  {| nr_nonce := uuid_simple (re_tick (app_redis w)); nr_domain := st_admin_domain state;
     nr_uri := "https://" +:+ st_admin_domain state; nr_version := "1";
     nr_statement := "Sign in to the Primora admin console.";
     nr_issued_at := to_rfc3339 now; nr_expiration_time := to_rfc3339 (now + NONCE_TTL) |}.
Lemma nonce_run_answer (state : State) (w w1 : App) nr :
  nonce clk state w = (Ok nr, w1) →
  st_admin_wallets state ≠ ∅ ∧ is_Some (st_admin_session_secret state) ∧ nr = nonce_answer state w ∧
  app_nonces w1 !! nr_nonce nr = Some (instant (app_net w)).
Proof.
  unfold nonce. destruct (bool_decide_reflect (st_admin_wallets state = ∅)) as [|Hne]; [done|].
  destruct (bool_decide_reflect (st_admin_session_secret state = None)) as [|Hs]; [done|]. cbn [orb].
  intros [= <- <-]. split_and!; [done|by apply not_eq_None_Some|done|]. cbn. apply lookup_insert_eq.
Qed.

(** C13. An administrator can sign in: the answer to [GET /admin/nonce], put into the
    text of EIP-4361 and signed with a wallet of the admin list, opens a session when
    it is sent back before the nonce has expired and been used up; the session's token
    names that wallet, lives the configured time, and the nonce is gone. *)
Theorem sign_in_completes `{!SignInLaws, !AdminLaws} (state : State) (w w1 w2 : App) nr address chain_id signature_hex a :
  nonce clk state w = (Ok nr, w1) →
  0 ≤ now_of clk (app_redis w) ≤ MAX_TIME - NONCE_TTL →
  field_text (st_admin_domain state) → not_a_field (st_admin_domain state +:+ SIWE_HEADER_SUFFIX) →
  field_text ("https://" +:+ st_admin_domain state) →
  field_text address → not_a_field address → field_text chain_id →
  parse_address address = Some a → 0 ≤ a < 2 ^ 160 → a ∈ st_admin_wallets state → 0 ≤ st_admin_session_ttl state →
  signed_by signature_hex (siwe_message nr address chain_id) a →
  app_nonces w2 !! nr_nonce nr = app_nonces w1 !! nr_nonce nr →
  instant (app_net w2) - instant (app_net w) < NONCE_TTL →
  unix_at clk w2 < timestamp (now_of clk (app_redis w)) + 300 →
  ∃ token w3, login clk state (mkLoginRequest (siwe_message nr address chain_id) signature_hex) w2 =
      (Ok (mkLoginResponse token (st_admin_session_ttl state)), w3) ∧
    app_nonces w3 = delete (nr_nonce nr) (app_nonces w2) ∧
    ∀ secret now, st_admin_session_secret state = Some secret → 
      verify_session_token secret token now =
        if now <? Z.min U64_MAX (unix_at clk w2 + st_admin_session_ttl state) then Some a else None.
Proof.
  intros Hnonce Hnow Hdom Hdom' Huri Haddr Haddr' Hchain Ha Hrange Hadmin Httl Hsig Hkept Hlive Hunix.
  destruct (nonce_run_answer _ _ _ _ Hnonce) as (Hne & [secret Hsec] & -> & Hstored).
  set (nr := nonce_answer state w) in *.
  assert (timestamp <$> parse_from_rfc3339 (nr_expiration_time nr) = Some (timestamp (now_of clk (app_redis w)) + 300)) as Hexp.
  { cbn. rewrite rfc3339_roundtrip by (unfold NONCE_TTL, NANOS_PER_SEC in *; lia). f_equal. unfold timestamp, NONCE_TTL. by rewrite Z.div_add. }
  assert (siwe_readable nr address chain_id) as Hread.
  { split_and!.
    - unfold siwe_fields. repeat apply Forall_cons_2; try apply Forall_nil_2; try done; cbn;
        first [by apply uuid_field | apply rfc3339_field; unfold NONCE_TTL, NANOS_PER_SEC in *; lia | by split].
    - apply uuid_field.
    - repeat apply Forall_cons_2; try apply Forall_nil_2; try done. }
  pose proof (unix_at_nonneg clk w2) as Hu.
  assert (verify_siwe (siwe_message nr address chain_id) signature_hex (st_admin_domain state) (unix_at clk w2) =
    Some (mkSiweVerified a (nr_nonce nr))) as Hv.
  { rewrite (verify_siwe_text _ _ _ _ a _ _ _ Hread Ha Hsig Hexp).
    - rewrite bool_decide_eq_true_2 by done. by rewrite (proj2 (Z.ltb_lt _ _) Hunix).
    - split; [done|]. assert (timestamp (now_of clk (app_redis w)) ≤ 253402300799); [|lia].
      unfold timestamp, MAX_TIME, NONCE_TTL, NANOS_PER_SEC in *. apply Z.div_le_upper_bound; lia. }
  destruct (token_roundtrip secret a (st_admin_session_ttl state) (unix_at clk w2) 0 Hrange ltac:(lia)) as (token & Htoken & _).
  pose proof (login_run clk state (mkLoginRequest (siwe_message nr address chain_id) signature_hex) w2) as Hlogin.
  rewrite Hsec, decide_False in Hlogin by done. cbn [lr_message lr_signature] in Hlogin. rewrite Hv in Hlogin.
  cbn [sv_address sv_nonce] in Hlogin. rewrite decide_True in Hlogin by done.
  destruct (nonce_consume (nr_nonce nr) (instant (app_net w2)) (app_nonces w2)) as [live nonces] eqn:En.
  assert (live = true) as ->.
  { pose proof (proj2 (nonce_consume_spec (nr_nonce nr) (instant (app_net w2)) (app_nonces w2))) as Hc. rewrite En in Hc.
    apply Hc. exists (instant (app_net w)). split; [by rewrite Hkept|done]. }
  assert (nonces = delete (nr_nonce nr) (app_nonces w2)) as -> by (by injection En).
  rewrite Htoken in Hlogin. exists token. eexists. split; [exact Hlogin|]. split; [done|].
  intros secret' now Hsec'. assert (secret' = secret) as -> by congruence.
  destruct (token_roundtrip secret a (st_admin_session_ttl state) (unix_at clk w2) now Hrange ltac:(lia)) as (token' & Htoken' & Hvt).
  assert (token' = token) as -> by congruence. rewrite Hvt.
  unfold sat_u. rewrite Z.max_r by lia. destruct (Z.leb_spec (Z.min U64_MAX (unix_at clk w2 + st_admin_session_ttl state)) now),
    (Z.ltb_spec now (Z.min U64_MAX (unix_at clk w2 + st_admin_session_ttl state))); (done || lia).
Qed.
End signin.

(** ** A sign-in from the first request to the last *)
#[local] Existing Instances toy_console_codec toy_wallet_crypto toy_admin_crypto toy_admin_laws.
#[local] Existing Instances toy_timer toy_message_signer toy_grpc toy_proposal_signer toy_chain.

Lemma field_inked s : inked s = true → field_text s.
Proof. intros Hs. split; [by apply inked_one_line|by apply trim_inked]. Qed.

#[local] Program Instance toy_sign_in_laws : SignInLaws.
Next Obligation.
  intros t [Ht _]. apply field_inked, show_inked. apply Z.div_pos; [done|]. reflexivity.
Qed.
Next Obligation.
  intros t [Ht Ht']. cbn -[parse_u show timestamp]. rewrite parse_u_show.
  - cbn -[timestamp]. f_equal. unfold timestamp. by rewrite Z.div_mul.
  - unfold timestamp, MAX_TIME, NANOS_PER_SEC in *. split; [by apply Z.div_pos|]. apply Z.div_le_upper_bound; lia.
Qed.
Next Obligation.
  intros n. split; [|discriminate]. apply field_inked. change (inked (show (Z.of_nat n)) = true). apply show_inked. lia.
Qed.

Definition sign_in_app : App MemRedis nat := (nonce run_clk toy_state toy_app).2.
Definition sign_in_text : string := siwe_message (nonce_answer run_clk toy_state toy_app) "0x42" "137".
Definition sign_in_signature : string := "0x" +:+ toy_hex_encode [42; checksum (Service.string_bytes sign_in_text); 0].

Lemma sign_in_signed : signed_by sign_in_signature sign_in_text 42.
Proof. do 2 eexists. split_and!; vm_compute; reflexivity. Qed.

Lemma siwe_roundtrip_witness :
  verify_siwe sign_in_text sign_in_signature "admin.primora.io" 5 = Some (mkSiweVerified 42 "nonce0") ∧
  verify_siwe sign_in_text sign_in_signature "elsewhere.io" 5 = None.
Proof.
  assert (siwe_readable (nonce_answer run_clk toy_state toy_app) "0x42" "137") as Hread.
  { split_and!; [|discriminate|repeat constructor]. repeat constructor. }
  pose proof (λ domain Ha Hexp Hnow, siwe_roundtrip (nonce_answer run_clk toy_state toy_app) "0x42" "137" sign_in_signature 42
    domain 300 5 Hread Ha sign_in_signed Hexp Hnow) as Hv.
  unfold sign_in_text. split; [rewrite (Hv "admin.primora.io")|rewrite (Hv "elsewhere.io")]; vm_compute; first [reflexivity | split; discriminate].
Defined.

Lemma sign_in_completes_witness :
  ∃ token w3, login run_clk toy_state (mkLoginRequest sign_in_text sign_in_signature) sign_in_app =
    (Ok (mkLoginResponse token 3600), w3) ∧
  verify_session_token [1; 2; 3] token 3599 = Some 42.
Proof.
  destruct (sign_in_completes run_clk toy_state toy_app sign_in_app sign_in_app (nonce_answer run_clk toy_state toy_app) "0x42" "137"
    sign_in_signature 42) as (token & w3 & Hlogin & _ & Hv).
  - vm_compute. reflexivity.
  - split; vm_compute; discriminate.
  - split; vm_compute; reflexivity.
  - split; reflexivity.
  - split; vm_compute; reflexivity.
  - split; vm_compute; reflexivity.
  - split; reflexivity.
  - split; vm_compute; reflexivity.
  - vm_compute. reflexivity.
  - split; vm_compute; [discriminate|reflexivity].
  - apply elem_of_singleton. reflexivity.
  - vm_compute. discriminate.
  - exact sign_in_signed.
  - reflexivity.
  - vm_compute. reflexivity.
  - vm_compute. reflexivity.
  - exists token, w3. split; [exact Hlogin|]. rewrite (Hv [1; 2; 3] 3599 eq_refl). vm_compute. reflexivity.
Defined.
