(* ===== verification/AdminCli.v ===== *)
(** * crates/admin-cli: the operator's command line

    The commands that take a mint proposal from the Postgres queue through the
    MiningContract of its chain: list, propose, approve, status, execute, cancel. *)
From stdpp Require Import sorting.
From S2P Require Import Prelude Text Common Postgres Onchain.

(** [TIMELOCK_SECS]. *)
Definition TIMELOCK_SECS : Z := 48 * 60 * 60.

(** The options of the command line or the environment. *)
Inductive Command :=
  | List_
  | Propose (session_id : string)
  | Approve (proposal_id chain : string)
  | Status_ (proposal_id chain : string)
  | Execute (proposal_id chain : string) (session_id : option string)
  | Cancel (proposal_id chain : string) (session_id : option string).
Record Cli := mkCli {
  database_url : option string;
  ethereum_rpc_url : option string; ethereum_mining_address : option string; ethereum_admin_key : option string;
  polygon_rpc_url : option string; polygon_mining_address : option string; polygon_admin_key : option string;
  command : Command
}.

(** The messages [run] fails with; the text of a parse error is its crate's. *)
Inductive CliError :=
  | Missing (flag env : string)
  | Store (e : PostgresStoreError)
  | OnChain (e : OnchainClientError)
  | InvalidProposalIdHex (e : string)
  | ProposalIdLength
  | InvalidChain (raw : string)
  | NotConfigured (chain : Chain)
  | InvalidMiningAddress (e : string)
  | InvalidAdminKey (e : string)
  | NoPendingProposal (session_id : string)
  | BadWallet (e : string)
  | BadGrossPrm (raw : string).
Definition chain_prefix (chain : Chain) : string := match chain with Ethereum => "ETHEREUM" | Polygon => "POLYGON" end.
(** The text [run] returns. *)
#[export] Instance CliError_display : Display CliError := λ e,
  match e with
  | Missing flag env => "missing " +:+ flag +:+ " (or env " +:+ env +:+ ")"
  | Store e => display e
  | OnChain e => display e
  | InvalidProposalIdHex e => "invalid proposal-id hex: " +:+ e
  | ProposalIdLength => "proposal-id must be exactly 32 bytes"
  | InvalidChain raw => "invalid chain '" +:+ raw +:+ "' (expected ethereum or polygon)"
  | NotConfigured chain =>
      "chain " +:+ chain_as_str chain +:+ " not configured (set " +:+ chain_prefix chain +:+ "_RPC_URL, " +:+
      chain_prefix chain +:+ "_MINING_CONTRACT_ADDRESS, " +:+ chain_prefix chain +:+ "_ADMIN_KEY_HEX)"
  | InvalidMiningAddress e => "invalid mining address: " +:+ e
  | InvalidAdminKey e => "invalid admin key: " +:+ e
  | NoPendingProposal session_id => "no pending proposal for session " +:+ session_id
  | BadWallet e => "bad wallet in db: " +:+ e
  | BadGrossPrm raw => "bad gross_prm in db: " +:+ raw
  end.

(** The crates the program calls: address, key and hexadecimal text with the texts of
    their errors, Keccak-256, and the system clock. *)
Class CliEnv (W Key : Type) := {
  address_from_str : string → option Address;
  signer_from_str : string → option Key;
  hex_to_bytes : string → option bytes;
  bytes_to_hex : bytes → string;
  address_to_string : Address → string;
  keccak256 : string → bytes;
  address_error : string → string;
  signer_error : string → string;
  hex_error : string → string;
  system_secs : W → option Z
}.

(** The database, the network, and the lines printed. *)
Record CliWorld (W : Type) := mkCliWorld { cw_db : Db; cw_net : W; cw_out : list string }.
Arguments mkCliWorld {W} _ _ _.
Arguments cw_db {W} _.
Arguments cw_net {W} _.
Arguments cw_out {W} _.

(** [{:<n}]: padded on the right with spaces. *)
Definition pad (n : nat) (s : string) : string :=
  s +:+ foldr (λ c s, String c s) "" (replicate (n - String.length s) " "%char).

Definition require (value : option string) (flag env : string) : CliError + string :=
  match value with Some v => inr v | None => inl (Missing flag env) end.
Definition parse_chain (raw : string) : CliError + Chain :=
  match from_str_id raw with Some c => inr c | None => inl (InvalidChain raw) end.

Section cli.
Context {W Url P Key : Type} `{!PgServer, !PgConnect W, !Rpc W P, !Providers Url P Key, !CliEnv W Key}.
Context (b : build).
Definition CM (A : Type) : Type := M (CliWorld W) CliError A.

Definition set_cw_db (d : Db) (w : CliWorld W) : CliWorld W := mkCliWorld d (cw_net w) (cw_out w).
Definition set_cw_net (x : W) (w : CliWorld W) : CliWorld W := mkCliWorld (cw_db w) x (cw_out w).
Definition store {A} (m : M Db PostgresStoreError A) : CM A := map_err Store (zoom cw_db set_cw_db m).
Definition chain_call {A} (m : M W OnchainClientError A) : CM A := map_err OnChain (zoom cw_net set_cw_net m).
Definition println (line : string) : CM unit := modify (λ w, mkCliWorld (cw_db w) (cw_net w) (cw_out w ++ [line])).

(** [strip_prefix("0x").unwrap_or(raw)], 32 bytes. *)
Definition parse_proposal_id (raw : string) : CliError + bytes :=
  match hex_to_bytes (default raw (str_strip_prefix "0x" raw)) with
  | Some l => if decide (length l = 32%nat) then inr l else inl ProposalIdLength
  | None => inl (InvalidProposalIdHex (hex_error (default raw (str_strip_prefix "0x" raw))))
  end.
Definition derive_proposal_id (session_id : string) : bytes := keccak256 session_id.

Definition build_writer_for_chain (cli : Cli) (chain : Chain) : CM (MiningWriter (P:=P)) :=
  let '(rpc, mining, key) :=
    match chain with
    | Ethereum => (ethereum_rpc_url cli, ethereum_mining_address cli, ethereum_admin_key cli)
    | Polygon => (polygon_rpc_url cli, polygon_mining_address cli, polygon_admin_key cli)
    end in
  match rpc, mining, key with
  | Some rpc, Some mining, Some key =>
      address ← of_sum (match address_from_str mining with Some a => inr a | None => inl (InvalidMiningAddress (address_error mining)) end);
      signer ← of_sum (match signer_from_str key with Some s => inr s | None => inl (InvalidAdminKey (signer_error key)) end);
      map_err OnChain (of_sum (mining_writer_new rpc signer address))
  | _, _, _ => fail (NotConfigured chain)
  end.

(** [build_store]: the connection; the store is the database of the world. *)
Definition build_store (cli : Cli) : CM unit :=
  db ← of_sum (require (database_url cli) "--database-url" "DATABASE_URL");
  map_err Store (zoom cw_net set_cw_net (postgres_new db)).

Definition now_secs : CM Z := gets (λ w, default 0 (system_secs (cw_net w))).

Definition update_db_status (cli : Cli) (session_id : option string) (status : ProposalStatus) : CM unit :=
  match session_id with
  | Some sid =>
      build_store cli ;;
      store (update_proposal_status sid status) ;;
      println ("postgres: session " +:+ sid +:+ " marked " +:+ status_debug status)
  | None => println ("postgres: not updated (pass --session-id to mark the row " +:+ status_debug status +:+ ")")
  end.

Definition tx_line (label : string) (tx : bytes) : string := label +:+ "0x" +:+ bytes_to_hex tx.

Definition list_row (row : PendingProposalRow) : string :=
  pad 38 (pe_session_id row) +:+ " " +:+ pad 44 (pe_wallet row) +:+ " " +:+ pad 26 (pe_gross_prm row) +:+ " " +:+
  pad 10 (pe_commodity row) +:+ " " +:+ pad 9 (pe_chain row) +:+ " " +:+ pad 10 (pe_status row) +:+ " 0x" +:+
  bytes_to_hex (derive_proposal_id (pe_session_id row)).
Definition list_header : string :=
  pad 38 "session_id" +:+ " " +:+ pad 44 "wallet" +:+ " " +:+ pad 26 "gross_prm" +:+ " " +:+
  pad 10 "commodity" +:+ " " +:+ pad 9 "chain" +:+ " " +:+ pad 10 "status" +:+ " proposal_id".

Fixpoint println_all (lines : list string) : CM unit :=
  match lines with [] => mret tt | l :: ls => println l ;; println_all ls end.

Definition run_list (cli : Cli) : CM unit :=
  build_store cli ;;
  rows ← store get_pending_proposals;
  println list_header ;;
  println_all (list_row <$> rows) ;;
  println ("(" +:+ show (Z.of_nat (length rows)) +:+ " pending)").

Definition run_propose (cli : Cli) (session_id : string) : CM unit :=
  build_store cli ;;
  rows ← store get_pending_proposals;
  row ← ok_or (List.find (λ r, String.eqb (pe_session_id r) session_id) rows) (NoPendingProposal session_id);
  chain ← of_sum (parse_chain (pe_chain row));
  recipient ← ok_or (address_from_str (pe_wallet row)) (BadWallet (address_error (pe_wallet row)));
  amount ← ok_or (parse_u U128_MAX (pe_gross_prm row)) (BadGrossPrm (pe_gross_prm row));
  let proposal_id := derive_proposal_id session_id in
  writer ← build_writer_for_chain cli chain;
  tx ← chain_call (propose_mint writer proposal_id proposal_id recipient amount);
  store (update_proposal_status session_id Submitted) ;;
  println_all [ tx_line "proposalId: " proposal_id;
    "chain:      " +:+ chain_as_str chain; "recipient:  " +:+ address_to_string recipient;
    "amount:     " +:+ show amount; tx_line "tx:         " tx ].

Definition run_approve (cli : Cli) (proposal_id chain : string) : CM unit :=
  id ← of_sum (parse_proposal_id proposal_id);
  chain ← of_sum (parse_chain chain);
  writer ← build_writer_for_chain cli chain;
  tx ← chain_call (approve_mint writer id);
  proposal ← chain_call (get_proposal writer id);
  println_all [ "chain:     " +:+ chain_as_str chain; tx_line "tx:        " tx;
    "approvals: " +:+ show (op_approvals proposal) ].

Definition bool_text (x : bool) : string := if x then "true" else "false".

Definition run_status (cli : Cli) (proposal_id chain : string) : CM unit :=
  id ← of_sum (parse_proposal_id proposal_id);
  chain ← of_sum (parse_chain chain);
  writer ← build_writer_for_chain cli chain;
  proposal ← chain_call (get_proposal writer id);
  if op_proposed_at proposal =? 0 then
    println ("proposal 0x" +:+ bytes_to_hex id +:+ " not found on-chain (" +:+ chain_as_str chain +:+ ")")
  else
    unlock_at ← lift_arith (arith_u b U64_MAX (op_proposed_at proposal + TIMELOCK_SECS));
    now ← now_secs;
    println_all [ "chain:       " +:+ chain_as_str chain;
      "session_id:  0x" +:+ bytes_to_hex (op_session_id proposal);
      "recipient:   " +:+ address_to_string (op_recipient proposal);
      "amount:      " +:+ show (op_amount proposal); "proposed_at: " +:+ show (op_proposed_at proposal);
      "approvals:   " +:+ show (op_approvals proposal); "executed:    " +:+ bool_text (op_executed proposal);
      "cancelled:   " +:+ bool_text (op_cancelled proposal) ] ;;
    if unlock_at <=? now then println "timelock:    ELAPSED (executable)"
    else
      left ← lift_arith (arith_u b U64_MAX (unlock_at - now));
      println ("timelock:    " +:+ show left +:+ " seconds remaining").

Definition run_execute (cli : Cli) (proposal_id chain : string) (session_id : option string) : CM unit :=
  id ← of_sum (parse_proposal_id proposal_id);
  chain ← of_sum (parse_chain chain);
  writer ← build_writer_for_chain cli chain;
  tx ← chain_call (execute_mint writer id);
  println_all [ "chain: " +:+ chain_as_str chain; tx_line "tx: " tx ] ;;
  update_db_status cli session_id Confirmed.

Definition run_cancel (cli : Cli) (proposal_id chain : string) (session_id : option string) : CM unit :=
  id ← of_sum (parse_proposal_id proposal_id);
  chain ← of_sum (parse_chain chain);
  writer ← build_writer_for_chain cli chain;
  tx ← chain_call (cancel_mint writer id);
  println_all [ "chain: " +:+ chain_as_str chain; tx_line "tx: " tx ] ;;
  update_db_status cli session_id Rejected.

Definition run (cli : Cli) : CM unit :=
  match command cli with
  | List_ => run_list cli
  | Propose session_id => run_propose cli session_id
  | Approve proposal_id chain => run_approve cli proposal_id chain
  | Status_ proposal_id chain => run_status cli proposal_id chain
  | Execute proposal_id chain session_id => run_execute cli proposal_id chain session_id
  | Cancel proposal_id chain session_id => run_cancel cli proposal_id chain session_id
  end.

(** [main] after the options are parsed: the exit code, and what standard error shows
    (101, and a message that is not ours, for a panic). *)
Definition main (cli : Cli) (w : CliWorld W) : (Z * option string) * CliWorld W :=
  match run cli w with
  | (Ok _, w') => (0, None, w')
  | (Err e, w') => (1, Some ("error: " +:+ display e), w')
  | (Panic, w') => (101, None, w')
  end.

(** ** Lemmas *)
Lemma store_ok {A} (m : M Db PostgresStoreError A) a w w' :
  store m w = (Ok a, w') → ∃ d, m (cw_db w) = (Ok a, d) ∧ w' = set_cw_db d w.
Proof.
  unfold store. rewrite map_err_ok, zoom_ok. done.
Qed.
Lemma chain_call_ok {A} (m : M W OnchainClientError A) a w w' :
  chain_call m w = (Ok a, w') → ∃ x, m (cw_net w) = (Ok a, x) ∧ w' = set_cw_net x w.
Proof. unfold chain_call. by rewrite map_err_ok, zoom_ok. Qed.

Lemma build_store_db cli : leaves cw_db (build_store cli).
Proof.
  unfold build_store. apply leaves_bind; [by destruct (require _ _ _)|]. intros db.
  by apply leaves_map_err, leaves_zoom.
Qed.
Lemma println_all_frame lines : ∀ w,
  ∃ out, println_all lines w = (Ok tt, mkCliWorld (cw_db w) (cw_net w) out).
Proof.
  induction lines as [|l ls IH]; intros [d x o]; [by eexists|]. cbn [println_all].
  apply (IH (mkCliWorld d x (o ++ [l]))).
Qed.

(** The options of a chain. *)
Definition mining_option (cli : Cli) (chain : Chain) : option string :=
  match chain with Ethereum => ethereum_mining_address cli | Polygon => polygon_mining_address cli end.
Lemma build_writer_ok cli chain w writer w' :
  build_writer_for_chain cli chain w = (Ok writer, w') →
  cw_db w' = cw_db w ∧ mining_option cli chain ≫= address_from_str = Some (mw_mining_address writer).
Proof.
  unfold build_writer_for_chain, mining_option.
  destruct chain; [destruct (ethereum_rpc_url cli), (ethereum_mining_address cli) as [m|], (ethereum_admin_key cli)
                  |destruct (polygon_rpc_url cli), (polygon_mining_address cli) as [m|], (polygon_admin_key cli)];
    try done; intros H'; minv H'; apply of_sum_ok in Hm as [Ha ->], Hm0 as [_ ->];
    apply of_sum_ok in H' as [H' ->]; (apply with_url_inv in H' as [(url & _ & [= ->])|[_ ?]]; [|done]);
    (split; [done|]); cbn; by destruct (address_from_str m); simplify_eq.
Qed.

(** A transaction that was sent to the contract at [address] and mined. *)
Definition mined (address : Address) (c : ContractCall) (x x' : W) : Prop :=
  ∃ provider h, transact provider address c None x = (inr (mkReceipt true h), x').
Lemma transaction_mined (writer : MiningWriter (P:=P)) c w tx w' :
  chain_call (transaction writer c) w = (Ok tx, w') →
  mined (mw_mining_address writer) c (cw_net w) (cw_net w') ∧ cw_db w' = cw_db w.
Proof.
  intros (x & Hx & ->)%chain_call_ok. split; [|done]. unfold mined, transaction in *. minv Hx.
  unfold rpc in Hm. destruct (transact (mw_provider writer) (mw_mining_address writer) c None (cw_net w)) as [[e|rc] x1] eqn:Et;
    [done|]. injection Hm as <- <-. destruct rc as [[] h]; cbn in Hx; [|done]. injection Hx as <- <-.
  by exists (mw_provider writer), h.
Qed.

(** The rows after [UPDATE .. SET status] for a session. *)
Definition marked (sid : SessionId) (status : ProposalStatus) (db db' : Db) : Prop :=
  mint_proposals db' =
    ((λ r, if String.eqb (pr_session_id r) sid then set_status status (db_now (db_tick db)) r else r) <$> mint_proposals db) ∧
  anomaly_events db' = anomaly_events db.
Lemma update_marked sid status db u db' :
  update_proposal_status sid status db = (Ok u, db') → marked sid status db db'.
Proof.
  unfold update_proposal_status, sql. destruct (db_fault _) as [[[] e]|]; intros [= _ <-]; done.
Qed.

Lemma pending_listed db rows db' :
  get_pending_proposals db = (Ok rows, db') →
  mint_proposals db' = mint_proposals db ∧ anomaly_events db' = anomaly_events db ∧
  ∀ r, r ∈ rows → ∃ row, row ∈ mint_proposals db ∧ pr_status row = "Pending" ∧ r = pending_row row.
Proof.
  unfold get_pending_proposals. intros Hq. pose proof (select_state
    (λ _ db, inr (pending_row <$> merge_sort by_created_asc (filter (λ r, pr_status r = "Pending") (mint_proposals db)))) db) as Hs.
  rewrite Hq in Hs. cbn [snd] in Hs. subst db'. split; [done|]. split; [done|]. revert Hq. unfold select, sql.
  destruct (db_fault _) as [[[] e]|]; intros [= <-].
  intros r (row & -> & Hr)%list_elem_of_fmap. exists row. rewrite (merge_sort_Permutation by_created_asc) in Hr.
  apply list_elem_of_filter in Hr as [? ?]. done.
Qed.

(** *** The commands and the database

    Whatever a command does and wherever it fails, it changes the database only by
    reading it and by marking rows. *)
Section preserved.
Context (Q : Db → Prop).
Hypothesis Hnext : ∀ db, Q db → Q (next db).
Hypothesis Hmark : ∀ sid st db, Q db → Q (update_proposal_status sid st db).2.
Abbreviation PQ := (λ w : CliWorld W, Q (cw_db w)).

Lemma stable_frame {A} (m : CM A) : leaves cw_db m → stable PQ m.
Proof. intros Hm. by apply (stable_leaves _ cw_db Q). Qed.
Lemma stable_of_sum_cli {A} (r : CliError + A) : stable PQ (of_sum r : CM A).
Proof. by destruct r; intros w. Qed.
Lemma stable_chain_call {A} (m : M W OnchainClientError A) : stable PQ (chain_call m).
Proof. apply stable_frame. by apply leaves_map_err, leaves_zoom. Qed.
Lemma stable_store {A} (m : M Db PostgresStoreError A) : stable Q m → stable PQ (store m).
Proof. intros Hm. apply stable_map_err. by eapply stable_zoom. Qed.
Lemma stable_select {A} (q : DateTime → Db → string + A) : stable Q (select q).
Proof. intros db Hdb. rewrite select_state. by apply Hnext. Qed.
Lemma stable_println line : stable PQ (println line).
Proof. by apply stable_modify. Qed.
Lemma stable_println_all lines : stable PQ (println_all lines).
Proof. intros w. destruct (println_all_frame lines w) as [out ->]. done. Qed.
Lemma stable_build_store cli : stable PQ (build_store cli).
Proof. apply stable_frame, build_store_db. Qed.
Lemma stable_build_writer cli chain : stable PQ (build_writer_for_chain cli chain).
Proof.
  unfold build_writer_for_chain. destruct (match chain with Ethereum => _ | Polygon => _ end) as [[[r|] [m|]] [k|]];
    try apply stable_fail.
  apply stable_bind; [apply stable_of_sum_cli|intros address]. apply stable_bind; [apply stable_of_sum_cli|intros signer].
  apply stable_map_err. by destruct (mining_writer_new r signer address); intros w.
Qed.

Ltac stable_cli :=
  repeat match goal with
  | |- stable _ (mbind _ _) => apply stable_bind; [|intros ?]
  | |- stable _ (of_sum _) => apply stable_of_sum_cli
  | |- stable _ (ok_or _ _) => apply stable_ok_or
  | |- stable _ (lift_arith _) => apply stable_lift
  | |- stable _ (gets _) => apply stable_gets
  | |- stable _ (chain_call _) => apply stable_chain_call
  | |- stable _ (println _) => apply stable_println
  | |- stable _ (println_all _) => apply stable_println_all
  | |- stable _ (build_store _) => apply stable_build_store
  | |- stable _ (build_writer_for_chain _ _) => apply stable_build_writer
  | |- stable _ (store (update_proposal_status _ _)) => apply stable_store; by intros db; apply Hmark
  | |- stable _ (store get_pending_proposals) => apply stable_store, stable_select
  | |- stable _ (match ?x with _ => _ end) => destruct x
  end.

Lemma run_stable cli : stable PQ (run cli).
Proof.
  unfold run, run_list, run_propose, run_approve, run_status, run_execute, run_cancel, update_db_status, now_secs.
  stable_cli.
Qed.
End preserved.

(** C35. Proposing a mint is faithful to the queue: on success the session had a
    pending row, and the last thing the chain saw is one mined [proposeMint] to the
    contract configured for that row's chain, with the id derived from the session
    and the row's own wallet and amount; the session's row is then marked Submitted
    and no other row changes. *)
Theorem propose_faithful cli sid w u w' :
  run_propose cli sid w = (Ok u, w') →
  ∃ row chain recipient address x,
    row ∈ mint_proposals (cw_db w) ∧ pr_session_id row = sid ∧ pr_status row = "Pending" ∧
    from_str_id (pr_chain row) = Some chain ∧ address_from_str (pr_wallet row) = Some recipient ∧
    mining_option cli chain ≫= address_from_str = Some address ∧
    mined address (ProposeMint (derive_proposal_id sid) (derive_proposal_id sid) recipient (pr_gross_prm row))
      x (cw_net w') ∧
    ∃ now, mint_proposals (cw_db w') =
      (λ r, if String.eqb (pr_session_id r) sid then set_status Submitted now r else r) <$> mint_proposals (cw_db w) ∧
      anomaly_events (cw_db w') = anomaly_events (cw_db w).
Proof.
  unfold run_propose. intros Hrun. minv Hrun.
  pose proof (build_store_db cli w) as Hdb. rewrite Hm in Hdb. cbn [snd] in Hdb.
  apply store_ok in Hm0 as (d & Hq & ->). rewrite Hdb in Hq. apply pending_listed in Hq as (Hp & He & Hrows).
  apply find_some in Ho as [Hin%list_elem_of_In Hsid%String.eqb_eq].
  destruct (Hrows _ Hin) as (row & Hrow & Hst & ->). cbn in Hsid, Ho0, Ho1.
  apply of_sum_ok in Hm1 as [Hc <-]. unfold parse_chain in Hc. cbn in Hc.
  destruct (from_str_id (pr_chain row)) as [chain|] eqn:Ech; [|done]. injection Hc as <-.
  apply parse_u_show_inv in Ho1 as [-> _]. apply build_writer_ok in Hm2 as [Hdb3 Haddr]. cbn [cw_db set_cw_db] in Hdb3.
  apply transaction_mined in Hm3 as [Hmined Hdb4]. apply store_ok in Hm4 as (d' & [Hu He']%update_marked & ->).
  rewrite Hdb4, Hdb3 in Hu, He'. rewrite Hp in Hu. rewrite He in He'.
  match type of Hrun with println_all ?ls ?w0 = _ => destruct (println_all_frame ls w0) as [out Hout] end.
  rewrite Hout in Hrun. injection Hrun as _ <-.
  exists row, chain, a3, (mw_mining_address a5), (cw_net w3). split_and!; try done. by eexists.
Qed.

(** Executing (or cancelling) marks whatever session the operator names: nothing
    relates it to the proposal, its chain or the row's present status. *)
Theorem execute_marks cli id chain sid w u w' :
  run_execute cli id chain (Some sid) w = (Ok u, w') →
  ∃ pid c address x x',
    parse_proposal_id id = inr pid ∧ from_str_id chain = Some c ∧
    mining_option cli c ≫= address_from_str = Some address ∧ mined address (ExecuteMint pid) x x' ∧
    ∃ now, mint_proposals (cw_db w') =
      (λ r, if String.eqb (pr_session_id r) sid then set_status Confirmed now r else r) <$> mint_proposals (cw_db w).
Proof.
  unfold run_execute, update_db_status. intros Hrun. minv Hrun.
  apply of_sum_ok in Hm as [Hid <-], Hm0 as [Hc <-]. unfold parse_chain in Hc.
  destruct (from_str_id chain) as [c|] eqn:Ech; [|done]. injection Hc as <-.
  apply build_writer_ok in Hm1 as [Hdb Haddr]. apply transaction_mined in Hm2 as [Hmined Hdb2].
  destruct (println_all_frame ["chain: " +:+ chain_as_str c; tx_line "tx: " a2] w3) as [out Hout].
  rewrite Hout in Hm3. injection Hm3 as _ <-.
  pose proof (build_store_db cli (mkCliWorld (cw_db w3) (cw_net w3) out)) as Hs. rewrite Hm4 in Hs. cbn [snd cw_db] in Hs.
  apply store_ok in Hm5 as (d & [Hu _]%update_marked & ->). rewrite Hs, Hdb2, Hdb in Hu.
  unfold println in Hrun. injection Hrun as _ <-.
  exists a, c, (mw_mining_address a1), (cw_net w2), (cw_net w3). split_and!; try done. by eexists.
Qed.
End cli.

(** ** A terminal and the witness *)
#[local] Instance toy_mined : Rpc nat unit := {|
  block_number _ w := (inr 100, w);
  block_hash _ n w := (inr None, w);
  pending_nonce _ _ w := (inr 0, w);
  transact _ _ _ _ w := (inr (mkReceipt true [9]), S w);
  call_stakes _ _ _ w := (inl "none", w);
  call_edge _ _ w := (inl "none", w);
  call_token _ _ _ w := (inl "none", w);
  call_balance _ _ _ w := (inl "none", w);
  call_reserve _ _ _ w := (inl "none", w);
  call_proposal _ _ _ w := (inl "none", w);
  instant _ := 0
|}.
#[local] Instance toy_pool : PgConnect nat := {|
  pool_connect _ w := (inr tt, w);
  migrate w := (inr tt, w)
|}.
#[local] Instance toy_urls : Providers string unit Z := {|
  parse_url := Some;
  connect_http _ := tt;
  connect_wallet _ _ := tt;
  key_address k := k
|}.
#[local] Instance toy_env : CliEnv nat Z := {|
  address_from_str s := rest ← str_strip_prefix "0x" s; parse_u U64_MAX rest;
  signer_from_str := parse_u U64_MAX;
  hex_to_bytes _ := None;
  bytes_to_hex _ := "";
  address_to_string a := "0x" +:+ show a;
  keccak256 s := [Z.of_nat (String.length s)];
  address_error _ := "";
  signer_error _ := "";
  hex_error _ := "";
  system_secs _ := Some 0
|}.
Definition toy_cli : Cli :=
  mkCli (Some "postgres://") None None None (Some "http://") (Some "0x55") (Some "7") (Propose "s6").
Definition toy_pending : ProposalRow :=
  mkProposalRow "row-0" "s6" "0x7" 2040 (Some 173) "Gold" "polygon" "{}" "sig" "Pending" 5 5.
Definition toy_terminal : CliWorld nat := mkCliWorld (mkDb [] [toy_pending] 0) 0%nat [].

Lemma propose_faithful_witness :
  (run_propose toy_cli "s6" toy_terminal).1 = Ok tt ∧
  pr_status <$> mint_proposals (cw_db (run_propose toy_cli "s6" toy_terminal).2) = ["Submitted"].
Proof.
  assert ((run_propose toy_cli "s6" toy_terminal).1 = Ok tt) as H by (vm_compute; reflexivity). split; [exact H|].
  destruct (run_propose toy_cli "s6" toy_terminal) as [o w'] eqn:E. cbn [fst snd] in *. subst o.
  destruct (propose_faithful toy_cli "s6" toy_terminal tt w' E) as (? & ? & ? & ? & ? & _ & _ & _ & _ & _ & _ & _ & now & Hm & _).
  rewrite Hm. reflexivity.
Defined.
