(* ===== verification/Startup.v ===== *)
(** * crates/verification-service/src/main.rs: the service's configuration

    The environment read into the state of the handlers: the lists of nodes and
    signers, one reader or submitter per configured chain, the admin console. The
    rest of [main] is in Main. *)
From S2P Require Import Prelude Text Common MintCeiling NodeCoordinator Oracle Onchain Service Admin.

Definition DEFAULT_NODE_ENDPOINT : string := "http://localhost:50051".
Definition DEFAULT_NODE_API_KEY : string := "dev-api-key".
Definition DEFAULT_MINT_CEILING_ACTIVE_USERS : string := "1000".
Definition DEFAULT_MINT_CEILING_AVG_DAILY_PRM_PER_USER : string := "500".
(** The lifetimes of the caches, in seconds. *)
Definition HOUSE_EDGE_CACHE_TTL_SECS : Z := 60.
Definition RESERVE_CACHE_TTL_SECS : Z := 60.
Definition DEFAULT_ADMIN_DOMAIN : string := "localhost:3000".
Definition DEFAULT_ADMIN_SESSION_TTL_SECS : Z := 1800.

(** A step of the startup: a value, or the exit, with what its message reports. *)
Definition Exit (A : Type) : Type := string + A.
#[local] Instance exit_ret : MRet Exit := λ A a, inr a.
#[local] Instance exit_bind : MBind Exit := λ A B f r, match r with inl e => inl e | inr a => f a end.
Definition or_exit {A} (o : option A) (message : string) : Exit A :=
  match o with Some a => inr a | None => inl message end.

Record Config := mkConfig {
  cfg_database_url : string; cfg_redis_url : string; cfg_bind_addr : string; cfg_chain_id : Z; cfg_rpc_url : string;
  cfg_signing_key_hex : string; cfg_node_endpoints : list (string * string); cfg_node_api_key : string;
  cfg_mint_ceiling_active_users : Z; cfg_mint_ceiling_avg_daily_prm_per_user : Z
}.

(** The parsers of the crates: the endpoint of a channel, a key, and the JSON of the
    sites. *)
Class StartupEnv (Channel Key : Type) := {
  from_shared : string → string + Channel;
  private_key : string → option Key;
  sites_from_str : string → option (gmap string NodeSite)
}.
Definition or_exit_on {E A} (r : E + A) (message : string) : Exit A :=
  match r with inr a => inr a | inl _ => inl message end.

(** [split_once('=')] of an entry, both sides trimmed. *)
Definition pair_entry (entry : string) : option (string * string) :=
  (λ p, (trim p.1, trim p.2)) <$> split_once "=" entry.

Definition parse_node_endpoints (raw : string) : list (string * string) :=
  (λ entry, default (entry, entry) (pair_entry entry)) <$> entries "," raw.

Section startup.
Context {Url P Channel Key : Type} `{!Providers Url P Key, !StartupEnv Channel Key, !ServiceCodec}.
(** [std::env::var]. *)
Context (env : string → option string).
Abbreviation Submitter := (OracleSubmitter (P:=P)).
Abbreviation Staking := (StakingReader (P:=P)).
Abbreviation Treasury := (TreasuryReader (P:=P)).
Abbreviation HouseEdge := (HouseEdgeReader (P:=P)).
Abbreviation Client := (GrpcNodeClient (Channel:=Channel)).
Abbreviation State := (AppState (P:=P) (C:=Client) (Key:=Key)).

Definition require (name : string) : Exit string := or_exit (env name) ("missing required env var " +:+ name).
Definition optional (name default_value : string) : string := default default_value (env name).

(** A later entry of a node replaces an earlier one. *)
Definition parse_node_signers (raw : string) : gmap NodeId Address :=
  foldl (λ m p, <[p.1 := p.2]> m) ∅
    (omap (λ entry, p ← pair_entry entry; address ← parse_address p.2; Some (p.1, address)) (entries "," raw)).

Definition parse_node_sites (raw : string) : gmap string NodeSite :=
  if String.eqb (trim raw) "" then ∅ else default ∅ (sites_from_str raw).

Definition chain_prefix (c : Chain) : string := match c with Ethereum => "ETHEREUM" | Polygon => "POLYGON" end.
Definition chain_var (c : Chain) (suffix : string) : option string := env (chain_prefix c +:+ suffix).

(** The body of the loop of [build_oracle_submitters]. *)
Definition oracle_submitter (chain : Chain) : Exit (option Submitter) :=
  match chain_var chain "_ORACLE_SUBMITTER_KEY_HEX", chain_var chain "_ORACLE_AGGREGATOR_ADDRESS" with
  | Some key, Some addr =>
      rpc ← or_exit (chain_var chain "_RPC_URL") "startup failed: RPC_URL missing";
      address ← or_exit (parse_address addr) "startup failed: ORACLE_AGGREGATOR_ADDRESS parse";
      signer ← or_exit (private_key key) "startup failed: ORACLE_SUBMITTER_KEY_HEX parse";
      submitter ← or_exit_on (oracle_submitter_new rpc signer address) "startup failed: oracle submitter init";
      mret (Some submitter)
  | None, None => mret None
  | _, _ => inl "startup failed: partial oracle submitter config"
  end.
Fixpoint build_oracle_submitters (chains : list Chain) : Exit (list (Chain * Submitter)) :=
  match chains with
  | [] => mret []
  | chain :: chains =>
      submitter ← oracle_submitter chain;
      submitters ← build_oracle_submitters chains;
      mret (match submitter with Some s => (chain, s) :: submitters | None => submitters end)
  end.

(** The loops of [build_staking_readers] and [build_treasury_readers]. *)
Definition ok_of {E A} (r : E + A) : option A := match r with inr a => Some a | inl _ => None end.
Definition chain_reader {A} (suffix : string) (new : string → Address → OnchainClientError + A) (chain : Chain)
    : option (Chain * A) :=
  rpc ← chain_var chain "_RPC_URL";
  addr ← chain_var chain suffix;
  address ← parse_address addr;
  reader ← ok_of (new rpc address);
  Some (chain, reader).
Definition build_staking_readers : list (Chain * Staking) :=
  omap (chain_reader "_STAKING_ADDRESS" staking_reader_new) all_chains.
Definition build_treasury_readers : list (Chain * Treasury) :=
  omap (chain_reader "_TREASURY_ADDRESS"
          (λ rpc a, treasury_reader_new rpc a (RESERVE_CACHE_TTL_SECS * NANOS_PER_SEC))) all_chains.

Definition build_house_edge_reader (rpc_url : string) : option HouseEdge :=
  addr ← env "HOUSE_EDGE_ADDRESS";
  address ← parse_address addr;
  ok_of (house_edge_reader_new rpc_url address (HOUSE_EDGE_CACHE_TTL_SECS * NANOS_PER_SEC)).

Definition parse_company_wallet : option Address := raw ← env "COMPANY_WALLET"; parse_address raw.

Definition load_config : Exit Config :=
  database_url ← require "DATABASE_URL";
  redis_url ← require "REDIS_URL";
  bind_addr ← require "BIND_ADDR";
  chain_id_text ← require "CHAIN_ID";
  chain_id ← or_exit (parse_u U64_MAX chain_id_text) "CHAIN_ID must be a u64";
  rpc_url ← require "RPC_URL";
  signing_key_hex ← require "SIGNING_KEY_HEX";
  let node_endpoints := parse_node_endpoints (optional "NODE_ENDPOINTS" DEFAULT_NODE_ENDPOINT) in
  let node_api_key := optional "NODE_API_KEY" DEFAULT_NODE_API_KEY in
  active_users ← or_exit (parse_u U64_MAX (optional "MINT_CEILING_ACTIVE_USERS" DEFAULT_MINT_CEILING_ACTIVE_USERS))
                   "MINT_CEILING_ACTIVE_USERS must be a u64";
  avg_daily ← or_exit (parse_u U64_MAX (optional "MINT_CEILING_AVG_DAILY_PRM_PER_USER"
                                          DEFAULT_MINT_CEILING_AVG_DAILY_PRM_PER_USER))
                "MINT_CEILING_AVG_DAILY_PRM_PER_USER must be a u64";
  mret (mkConfig database_url redis_url bind_addr chain_id rpc_url signing_key_hex node_endpoints node_api_key
          active_users avg_daily).

(** The loop over the endpoints: the ids in order, and the client of each. *)
Definition node_client (endpoint api_key message : string) : Exit Client :=
  or_exit_on (grpc_client_new from_shared endpoint api_key) message.
Fixpoint node_clients (endpoints : list (string * string)) (api_key : string)
    (ids : list NodeId) (clients : gmap NodeId Client) : Exit (list NodeId * gmap NodeId Client) :=
  match endpoints with
  | [] => mret (ids, clients)
  | (id, endpoint) :: endpoints =>
      client ← node_client endpoint api_key "startup failed: node client";
      node_clients endpoints api_key (ids ++ [id]) (<[id := client]> clients)
  end.
Definition node_coordinator (config : Config) : Exit (NodeCoordinator (C:=Client)) :=
  '(ids, clients) ← node_clients (cfg_node_endpoints config) (cfg_node_api_key config) [] ∅;
  '(ids, clients) ←
    (if decide (clients = ∅) then
       client ← node_client DEFAULT_NODE_ENDPOINT (cfg_node_api_key config) "startup failed: fallback node client";
       mret (ids ++ [DEFAULT_NODE_ENDPOINT], <[DEFAULT_NODE_ENDPOINT := client]> clients)
     else mret (ids, clients) : Exit (list NodeId * gmap NodeId Client));
  mret (coordinator_new clients ids (parse_node_signers (optional "NODE_SIGNERS" ""))).

(** The part of [main] that builds the state of the handlers from the configuration,
    and with it the configuration. *)
Definition state_of_config `{!AdminCrypto} (config : Config) : Exit State :=
  client ← or_exit_on (onchain_client_new (cfg_rpc_url config) (cfg_chain_id config)) "startup failed: onchain client";
  reader ← or_exit_on (oracle_reader_new (cfg_rpc_url config) (feeds_from_env_or_default env parse_address) default_pyth_feeds)
             "startup failed: oracle reader init";
  signer ← or_exit (private_key (cfg_signing_key_hex config)) "startup failed: signing key";
  submitters ← build_oracle_submitters all_chains;
  let staking := build_staking_readers in
  let treasury := build_treasury_readers in
  let house_edge := build_house_edge_reader (cfg_rpc_url config) in
  coordinator ← node_coordinator config;
  let secret := match env "ADMIN_SESSION_SECRET" with
                | Some secret => if String.eqb secret "" then None else Some (string_as_bytes secret)
                | None => None
                end in
  let ttl := default DEFAULT_ADMIN_SESSION_TTL_SECS
    (parse_u U64_MAX (optional "ADMIN_SESSION_TTL_SECS" (show DEFAULT_ADMIN_SESSION_TTL_SECS))) in
  mret {|
    st_mint_ceiling := mint_ceiling_new;
    st_onchain_client := client;
    st_node_coordinator := coordinator;
    st_signing_key := signer;
    st_oracle_reader := reader;
    st_oracle_submitters := submitters;
    st_staking_readers := staking;
    st_treasury_readers := treasury;
    st_house_edge_reader := house_edge;
    st_node_sites := parse_node_sites (optional "NODE_SITES" "");
    st_admin_wallets := parse_admin_wallets (optional "ADMIN_WALLET" "");
    st_admin_session_secret := secret;
    st_admin_domain := optional "ADMIN_DOMAIN" DEFAULT_ADMIN_DOMAIN;
    st_admin_session_ttl := ttl;
    st_company_wallet := parse_company_wallet;
    st_mint_ceiling_active_users := cfg_mint_ceiling_active_users config;
    st_mint_ceiling_avg_daily_prm_per_user := cfg_mint_ceiling_avg_daily_prm_per_user config
  |}.
Definition build_state `{!AdminCrypto} : Exit (Config * State) :=
  config ← load_config;
  state ← state_of_config config;
  mret (config, state).

(** ** Lemmas *)
Lemma exit_bind_ok {A B} (r : Exit A) (f : A → Exit B) y : r ≫= f = inr y ↔ ∃ x, r = inr x ∧ f x = inr y.
Proof. destruct r as [e|x]; cbn; split; [done|by intros (? & ? & _)|by exists x|by intros (? & [= <-] & ?)]. Qed.
Lemma or_exit_on_ok {E A} (r : E + A) message x : or_exit_on r message = inr x ↔ r = inr x.
Proof. destruct r; cbn; split; congruence. Qed.
Lemma or_exit_ok {A} (o : option A) message x : or_exit o message = inr x ↔ o = Some x.
Proof. destruct o; cbn; split; congruence. Qed.

(** Inverts a run of [Exit] that ended well. *)
#[local] Ltac exit_inv H :=
  repeat match type of H with
  | (_ ≫= _) = inr _ => rewrite exit_bind_ok in H; let x := fresh "x" in let Hx := fresh "Hx" in
      destruct H as (x & Hx & H); try rewrite or_exit_ok in Hx; try rewrite or_exit_on_ok in Hx
  end.

(** *** Lists of [name=value] entries, printed and parsed *)

(** A name or a value that is written as it is: visible ASCII without a comma. *)
Definition plain_text (s : string) : Prop := inked s = true ∧ lacks "," s = true.
Definition entry_text (p : string * string) : string := p.1 +:+ String "=" p.2.
Definition entries_text (l : list (string * string)) : string := join "," (entry_text <$> l).
Definition plain_entry (p : string * string) : Prop := plain_text p.1 ∧ lacks "=" p.1 = true ∧ plain_text p.2.

Lemma entry_plain p : plain_entry p → lacks "," (entry_text p) = true ∧ trim (entry_text p) = entry_text p ∧ entry_text p ≠ "".
Proof.
  destruct p as [a v]. intros ((Ha & Ha') & _ & Hv & Hv'). cbn [fst snd] in *. unfold entry_text. cbn [fst snd]. split_and!.
  - rewrite lacks_app, Ha'. cbn. by rewrite Hv'.
  - apply trim_inked. rewrite inked_app, Ha. cbn. by rewrite Hv.
  - by destruct a.
Qed.
Lemma entry_read p : plain_entry p → pair_entry (entry_text p) = Some p.
Proof.
  destruct p as [a v]. intros ((Ha & _) & Ha' & Hv & _). cbn [fst snd] in *. unfold pair_entry, entry_text. cbn [fst snd].
  rewrite split_once_app by done. cbn [fmap option_fmap option_map fst snd]. by rewrite !trim_inked.
Qed.
Lemma entries_read l : Forall plain_entry l → entries "," (entries_text l) = entry_text <$> l.
Proof.
  intros Hl. apply entries_join. apply Forall_fmap. eapply Forall_impl; [exact Hl|]. intros p. apply entry_plain.
Qed.

(** What the variables of a chain say about its submitter. *)
Definition submitter_vars (chain : Chain) (s : Submitter) : Prop :=
  ∃ rpc key addr signer url address, chain_var chain "_RPC_URL" = Some rpc ∧
    chain_var chain "_ORACLE_SUBMITTER_KEY_HEX" = Some key ∧ chain_var chain "_ORACLE_AGGREGATOR_ADDRESS" = Some addr ∧
    parse_url rpc = Some url ∧ private_key key = Some signer ∧ parse_address addr = Some address ∧
    s = mkOracleSubmitter (connect_wallet url signer) address (key_address signer).
Lemma oracle_submitter_ok chain o :
  oracle_submitter chain = inr o →
  match o with
  | Some s => submitter_vars chain s
  | None => chain_var chain "_ORACLE_SUBMITTER_KEY_HEX" = None ∧ chain_var chain "_ORACLE_AGGREGATOR_ADDRESS" = None
  end.
Proof.
  unfold oracle_submitter. destruct (chain_var chain "_ORACLE_SUBMITTER_KEY_HEX") as [key|] eqn:Ek,
    (chain_var chain "_ORACLE_AGGREGATOR_ADDRESS") as [addr|] eqn:Ea; [|done|done|by intros [= <-]].
  intros H'. exit_inv H'. injection H' as <-.
  destruct (with_url_inv _ _ _ Hx2) as [(url & Hurl & [= ->])|[_ ?]]; [|done]. by eexists _, key, addr, _, url, _.
Qed.

Lemma build_oracle_submitters_ok chains l :
  build_oracle_submitters chains = inr l →
  l.*1 `sublist_of` chains ∧ (∀ c s, (c, s) ∈ l → submitter_vars c s) ∧
  (∀ c, c ∈ chains → c ∉ l.*1 →
     chain_var c "_ORACLE_SUBMITTER_KEY_HEX" = None ∧ chain_var c "_ORACLE_AGGREGATOR_ADDRESS" = None).
Proof.
  revert l. induction chains as [|c chains IH]; intros l; cbn [build_oracle_submitters].
  { intros [= <-]. split; [done|]. split; set_solver. }
  rewrite exit_bind_ok. intros (o & Ho%oracle_submitter_ok & H'). rewrite exit_bind_ok in H'.
  destruct H' as (l' & (Hsub & Hin & Hout)%IH & [= <-]). destruct o as [s|].
  - split; [by apply sublist_skip|]. split; [|set_solver].
    intros c' s' [[= -> ->]|Hl]%elem_of_cons; [done|by apply Hin].
  - split; [by apply sublist_cons|]. split; [done|]. intros c' [->|Hc]%elem_of_cons Hn; [done|by apply Hout].
Qed.

Lemma node_client_ok e key message c : node_client e key message = inr c → gc_api_key c = key ∧ endpoint c = e.
Proof.
  unfold node_client, grpc_client_new. rewrite or_exit_on_ok. destruct (from_shared e) as [|ch]; [done|]. by intros [= <-].
Qed.
Lemma node_clients_ok endpoints key : ∀ ids clients ids' clients',
  node_clients endpoints key ids clients = inr (ids', clients') →
  (∀ id, id ∈ ids ↔ is_Some (clients !! id)) → (∀ id c, clients !! id = Some c → gc_api_key c = key) →
  (∀ id, id ∈ ids' ↔ is_Some (clients' !! id)) ∧ (∀ id c, clients' !! id = Some c → gc_api_key c = key).
Proof.
  induction endpoints as [|[id endpoint] endpoints IH]; intros ids clients ids' clients'; cbn [node_clients].
  { by intros [= <- <-]. }
  rewrite exit_bind_ok. intros (client & Hc & H') Hids Hkey. apply node_client_ok in Hc as [Hc _].
  apply IH in H'; [done| |].
  - intros i. rewrite elem_of_app, list_elem_of_singleton, lookup_insert_is_Some'. rewrite Hids. naive_solver.
  - intros i c. rewrite lookup_insert_Some. intros [[<- <-]|[_ Hi]]; [done|by eapply Hkey].
Qed.

Lemma node_coordinator_ok config nc :
  node_coordinator config = inr nc →
  nc_eligible_nodes nc ≠ [] ∧ nc_required_signatures nc = REQUIRED_SIGNATURES ∧
  (∀ id, id ∈ nc_eligible_nodes nc ↔ is_Some (nc_clients nc !! id)) ∧
  (∀ id c, nc_clients nc !! id = Some c → gc_api_key c = cfg_node_api_key config).
Proof.
  unfold node_coordinator. rewrite exit_bind_ok. intros ([ids clients] & Hc & H').
  apply node_clients_ok in Hc as [Hids Hkey]; last first.
  { intros i c. by rewrite lookup_empty. }
  { intros i. rewrite lookup_empty. split; [by intros ?%elem_of_nil|by intros [? ?]]. }
  rewrite exit_bind_ok in H'. destruct H' as ([ids' clients'] & H' & [= <-]). cbn.
  case_decide as Hne.
  - rewrite exit_bind_ok in H'. destruct H' as (client & Hcl & [= <- <-]). subst clients.
    apply node_client_ok in Hcl as [Hcl _].
    split; [by destruct ids|]. split; [done|]. split.
    + intros i. rewrite elem_of_app, list_elem_of_singleton, lookup_insert_is_Some', Hids. naive_solver.
    + intros i c. rewrite lookup_insert_Some. naive_solver.
  - injection H' as <- <-. split; [|done]. intros ->. apply Hne. apply map_eq. intros i.
    rewrite lookup_empty. apply eq_None_not_Some. rewrite <-Hids. set_solver.
Qed.

(** Later entries win, so without repetition the order does not matter. *)
Lemma foldl_insert (l : list (NodeId * Address)) : ∀ (m : gmap NodeId Address) k,
  NoDup l.*1 →
  foldl (λ m p, <[p.1 := p.2]> m) m l !! k = (list_to_map l : gmap NodeId Address) !! k ∪ m !! k.
Proof.
  induction l as [|[i a] l IH]; intros m k; cbn [foldl fmap list_fmap list_to_map foldr fst snd curry uncurry].
  { intros _. by rewrite lookup_empty, (left_id_L None _). }
  intros [Hi Hl]%NoDup_cons. rewrite IH by done. destruct (decide (i = k)) as [->|Hne].
  - rewrite !lookup_insert_eq. rewrite (not_elem_of_list_to_map_1 l k) by done. by destruct (m !! k).
  - by rewrite !lookup_insert_ne.
Qed.

(** The lists of nodes are read back: whatever node ids, endpoints and addresses an
    operator writes as [id=value] entries separated by commas (visible characters, no
    comma, and no [=] in an id), [NODE_ENDPOINTS] parses to exactly those endpoints in
    their order and [NODE_SIGNERS] to the map of exactly those signers. *)
Theorem node_lists_roundtrip (address_text : Address → string) endpoints signers :
  Forall plain_entry endpoints →
  Forall (λ p, plain_entry (p.1, address_text p.2) ∧ parse_address (address_text p.2) = Some p.2) signers →
  NoDup signers.*1 →
  parse_node_endpoints (entries_text endpoints) = endpoints ∧
  parse_node_signers (entries_text ((λ p, (p.1, address_text p.2)) <$> signers)) = list_to_map signers.
Proof.
  intros He Hs Hnd. split.
  - unfold parse_node_endpoints. rewrite entries_read by done. induction He as [|p l Hp Hl IH]; [done|].
    cbn [fmap list_fmap]. rewrite entry_read by done. cbn. f_equal. exact IH.
  - unfold parse_node_signers. rewrite entries_read.
    2:{ apply Forall_fmap. eapply Forall_impl; [exact Hs|]. by intros p [Hp _]. }
    assert (omap (λ entry, p ← pair_entry entry; address ← parse_address p.2; Some (p.1, address))
      (entry_text <$> ((λ p : NodeId * Address, (p.1, address_text p.2)) <$> signers)) = signers) as ->.
    { clear Hnd. induction Hs as [|[i a] l [Hi Ha] Hl IH]; [done|]. cbn [fmap list_fmap omap list_omap].
      rewrite entry_read by done. cbn [mbind option_bind fst snd].
      cbn [snd] in Ha. rewrite Ha. cbn [mbind option_bind]. by rewrite IH. }
    apply map_eq. intros k. rewrite foldl_insert by done. by rewrite lookup_empty, (right_id_L None _).
Qed.

(** C37. A service that starts has a well-formed state: at least one attestation node
    and a client, with the configured API key, for each; a price submitter on exactly
    the chains whose key and aggregator are both set, over that chain's RPC (a chain
    with only one of the two stops the start); an admin console that is off when its
    secret is missing or empty; and figures within the range of their types. *)
Theorem startup_sound `{!AdminCrypto} config state :
  build_state = inr (config, state) →
  let nc := st_node_coordinator state in
  nc_eligible_nodes nc ≠ [] ∧ nc_required_signatures nc = REQUIRED_SIGNATURES ∧
  (∀ id, id ∈ nc_eligible_nodes nc ↔ is_Some (nc_clients nc !! id)) ∧
  (∀ id c, nc_clients nc !! id = Some c → gc_api_key c = cfg_node_api_key config) ∧
  (∀ chain, (∃ s, (chain, s) ∈ st_oracle_submitters state ∧ submitter_vars chain s) ∨
     (chain_var chain "_ORACLE_SUBMITTER_KEY_HEX" = None ∧ chain_var chain "_ORACLE_AGGREGATOR_ADDRESS" = None ∧
      chain ∉ (st_oracle_submitters state).*1)) ∧
  NoDup (st_oracle_submitters state).*1 ∧
  ((env "ADMIN_SESSION_SECRET" = None ∨ env "ADMIN_SESSION_SECRET" = Some "") ↔ st_admin_session_secret state = None) ∧
  0 ≤ st_admin_session_ttl state ≤ U64_MAX ∧
  0 ≤ st_mint_ceiling_active_users state ≤ U64_MAX ∧
  0 ≤ st_mint_ceiling_avg_daily_prm_per_user state ≤ U64_MAX.
Proof.
  unfold build_state. intros H'. exit_inv H'. injection H' as -> ->.
  unfold state_of_config in Hx0. exit_inv Hx0. injection Hx0 as <-. cbn -[all_chains].
  apply node_coordinator_ok in Hx5 as (Hne & Hreq & Hids & Hkey).
  apply build_oracle_submitters_ok in Hx4 as (Hsub & Hin & Hout).
  unfold load_config in Hx. exit_inv Hx. injection Hx as <-. cbn [cfg_mint_ceiling_active_users cfg_mint_ceiling_avg_daily_prm_per_user].
  apply parse_u_range in Hx10, Hx11. split; [done|]. split; [done|]. split; [done|]. split; [done|].
  split; [|split; [|split; [|split]]].
  - intros chain. destruct (decide (chain ∈ x2.*1)) as [Hc|Hn].
    + apply list_elem_of_fmap in Hc as ([c s] & -> & Hs). left. exists s. cbn. split; [done|]. by apply Hin.
    + right. destruct (Hout chain (all_chains_complete chain) Hn). done.
  - apply (sublist_NoDup _ all_chains); [|exact Hsub]. apply NoDup_cons. split; [set_solver|apply NoDup_singleton].
  - destruct (env "ADMIN_SESSION_SECRET") as [secret|]; [|naive_solver].
    destruct (String.eqb_spec secret "") as [->|Hs]; naive_solver.
  - destruct (parse_u U64_MAX (optional "ADMIN_SESSION_TTL_SECS" _)) as [t|] eqn:E; [apply parse_u_range in E|]; unfold DEFAULT_ADMIN_SESSION_TTL_SECS; cbn; lia.
  - done.
Qed.
End startup.

(** ** A configuration and the witness *)
#[local] Existing Instances toy_console_codec toy_admin_crypto.
#[local] Instance toy_providers : Providers string unit Z := {|
  parse_url s := if String.prefix "http://" s then Some s else None;
  connect_http _ := tt;
  connect_wallet _ _ := tt;
  key_address k := k
|}.
#[local] Instance toy_startup : StartupEnv Z Z := {|
  from_shared s := inr (Z.of_nat (String.length s));
  private_key := parse_u U64_MAX;
  sites_from_str _ := None
|}.
Definition toy_env (name : string) : option string :=
  snd <$> List.find (λ p, String.eqb p.1 name)
    [ ("DATABASE_URL", "postgres://"); ("REDIS_URL", "redis://"); ("BIND_ADDR", "0.0.0.0:80"); ("CHAIN_ID", "137");
      ("RPC_URL", "http://rpc"); ("SIGNING_KEY_HEX", "99"); ("NODE_ENDPOINTS", " n1 = http://a , http://b,");
      ("NODE_SIGNERS", "n1=0x1, bad, n2=0xzz"); ("POLYGON_RPC_URL", "http://p");
      ("POLYGON_ORACLE_SUBMITTER_KEY_HEX", "7"); ("POLYGON_ORACLE_AGGREGATOR_ADDRESS", "0x5");
      ("ADMIN_WALLET", "0x42, nobody"); ("ADMIN_SESSION_SECRET", "") ].
Definition toy_started : Exit (Config * AppState (P:=unit) (C:=GrpcNodeClient (Channel:=Z)) (Key:=Z)) := build_state toy_env.

Lemma node_lists_roundtrip_witness :
  parse_node_endpoints "n1=http://a,n2=http://b?x=1" = [("n1", "http://a"); ("n2", "http://b?x=1")] ∧
  parse_node_signers "n2=0x5,n1=0x7" = (list_to_map [("n2", 5); ("n1", 7)] : gmap NodeId Address).
Proof.
  apply (node_lists_roundtrip (λ a, "0x" +:+ show a) [("n1", "http://a"); ("n2", "http://b?x=1")] [("n2", 5); ("n1", 7)]).
  - repeat constructor.
  - repeat constructor.
  - apply (bool_decide_unpack _). vm_compute. exact I.
Defined.

Lemma startup_sound_witness :
  match toy_started with
  | inr (config, state) =>
      nc_eligible_nodes (st_node_coordinator state) = ["n1"; "http://b"] ∧
      map_to_list (nc_signers (st_node_coordinator state)) = [("n1", 1)] ∧
      (st_oracle_submitters state).*1 = [Polygon] ∧ st_admin_wallets state = {[42]} ∧
      st_admin_session_secret state = None
  | inl _ => False
  end.
Proof.
  destruct toy_started as [e|[config state]] eqn:E; [by vm_compute in E|].
  destruct (startup_sound toy_env config state E) as (_ & _ & _ & _ & _ & _ & Hs & _).
  assert (st_admin_session_secret state = None) as Hsec by (apply Hs; right; reflexivity).
  vm_compute in E. injection E as _ <-. do 4 (split; [reflexivity|]). exact Hsec.
Defined.

(** One of the two submitter variables without the other stops the start. *)
Example partial_submitter_stops :
  build_oracle_submitters (P:=unit) (Key:=Z) (λ name, if String.eqb name "POLYGON_ORACLE_SUBMITTER_KEY_HEX" then Some "7" else None)
    all_chains = inl "startup failed: partial oracle submitter config".
Proof. reflexivity. Qed.
