(* ===== verification/Router.v ===== *)
(** * crates/verification-service/src/lib.rs: the router and the system

    [router]: every route with its handler, the guard around the admin routes, and
    the answers. A system step is one request, one run of the operator's command
    line, or a change outside the program; the properties are of every state and
    every run that such steps reach. *)
From S2P Require Import Prelude Text Common Metrics Payout MintCeiling Twap Anomaly Validator Redis RateLimiter.
From S2P Require Import SessionStore RandomX NodeCoordinator Oracle Postgres Onchain Service Wallet Admin AdminCli.

(** ** Requests that reach a handler

    One constructor per route, with what axum's extractors hand to the handler: the
    peer's address, the parts of the path, the query, the body, and the
    [Authorization] header of the guarded routes. *)
Inductive Request :=
  | GET_admin_overview (authorization : option string)
  | POST_admin_logout (authorization : option string)
  | GET_admin_nonce
  | POST_admin_login (body : LoginRequest)
  | POST_sessions (peer_ip : string) (body : CreateSessionRequest)
  | POST_proofs (session_id : SessionId) (body : SubmitProofRequest)
  | POST_end (session_id : SessionId) (nonce : string)
  | POST_pause (session_id : SessionId) (wallet : string)
  | POST_resume (session_id : SessionId) (wallet : string)
  | GET_payouts (wallet : string) (limit : option Z)
  | GET_earnings (wallet : string)
  | GET_earnings_24h (wallet : string)
  | GET_sessions (wallet : string)
  | GET_staking (wallet : string)
  | GET_alerts (wallet : string)
  | GET_entity_share
  | GET_reserve
  | GET_sites
  | GET_commodities
  | GET_estimate (params : EstimateQuery)
  | GET_health
  | GET_metrics.

(** The body of an answer, by the type that is serialized. *)
Inductive Body :=
  | ErrorBody (message : string)
  | OverviewBody (r : AdminOverview)
  | NoContent
  | NonceBody (r : NonceResponse)
  | LoginBody (r : LoginResponse)
  | CreatedBody (r : CreateSessionResponse)
  | ProofBody (r : SubmitProofResponse)
  | EndBody (status : string)
  | ControlBody (paused : bool)
  | PayoutsBody (l : list PayoutRow)
  | EarningsBody (l : list EarningsRow)
  | Earnings24hBody (r : Earnings24h)
  | SessionsBody (l : list SessionSummary)
  | StakingBody (r : StakingSummary)
  | AlertsBody (l : list WalletAlert)
  | ShareBody (r : CompanyMiningShareResponse)
  | ReserveBody (r : ReserveResponse)
  | SitesBody (l : list NodeSite)
  | CommoditiesBody (l : list CommodityParams)
  | EstimateBody (r : EstimateResponse)
  | HealthBody (status service : string)
  | TextBody (text : string).
(** A status and a body; none when the handler's task panicked and the connection
    is dropped. *)
Definition Response : Type := option (Z * Body).

Definition health_check : Z * Body := (200, HealthBody "ok" "primora-verification").

Section router.
Context {R X P C Key Reg Family : Type} `{!RedisServer R, Codec : !SessionCodec, !PgServer, !OracleNet X, !Rpc X P,
  !NodeClient X C, !Timer X, !AttestationCrypto, !ProposalSigner Key, !ServiceCodec, !AdminCrypto, !Prometheus Reg Family}.
Context (b : build) (clk : nat → DateTime) (fuel : nat).
Context (try_send : AnomalyEvent → list AnomalyEvent → bool * list AnomalyEvent).
(** The default registry after startup. *)
Context (registry : Reg).
Abbreviation App := (App R X).
Abbreviation State := (AppState (P:=P) (C:=C) (Key:=Key)).

(** [IntoResponse] of a handler's result. *)
Definition respond {E A} (error : E → Z * string) (ok : A → Z * Body) (m : M App E A) : App → Response * App := λ w,
  match m w with
  | (Ok a, w') => (Some (ok a), w')
  | (Err e, w') => (Some ((error e).1, ErrorBody (error e).2), w')
  | (Panic, w') => (None, w')
  end.
Definition api {A} (ok : A → Z * Body) : HM A → App → Response * App := respond into_response ok.
Definition auth {A} (ok : A → Z * Body) : AM A → App → Response * App := respond auth_into_response ok.
(** [Json(value)]: 200 and the value. *)
Definition json_of {A} (body : A → Body) (a : A) : Z * Body := (200, body a).

Definition router (state : State) (req : Request) : App → Response * App :=
  match req with
  | GET_admin_overview authorization =>
      auth (json_of OverviewBody) (admin_guard clk state authorization (overview state))
  | POST_admin_logout authorization =>
      auth (λ status, (status, NoContent)) (admin_guard clk state authorization logout)
  | GET_admin_nonce => auth (json_of NonceBody) (nonce clk state)
  | POST_admin_login body => auth (json_of LoginBody) (login clk state body)
  | POST_sessions peer_ip body =>
      api (λ r, (r.1, CreatedBody r.2)) (Service.create_session b clk fuel state peer_ip body)
  | POST_proofs session_id body => api (json_of ProofBody) (submit_proof b clk try_send state session_id body)
  | POST_end session_id nonce => api (λ r, (r.1, EndBody r.2)) (end_session b clk state session_id nonce)
  | POST_pause session_id wallet => api (json_of ControlBody) (pause_session clk session_id wallet)
  | POST_resume session_id wallet => api (json_of ControlBody) (resume_session clk session_id wallet)
  | GET_payouts wallet limit => api (json_of PayoutsBody) (wallet_payouts wallet limit)
  | GET_earnings wallet => api (json_of EarningsBody) (wallet_earnings wallet)
  | GET_earnings_24h wallet => api (json_of Earnings24hBody) (wallet_earnings_24h wallet)
  | GET_sessions wallet => api (json_of SessionsBody) (wallet_sessions b clk fuel state wallet)
  | GET_staking wallet => api (json_of StakingBody) (wallet_staking b state wallet)
  | GET_alerts wallet => api (json_of AlertsBody) (wallet_alerts wallet)
  | GET_entity_share => api (json_of ShareBody) (entity_share state)
  | GET_reserve => api (json_of ReserveBody) (reserve state)
  | GET_sites => λ w, (Some (200, SitesBody (sites state)), w)
  | GET_commodities => λ w, (Some (200, CommoditiesBody commodities), w)
  | GET_estimate params => api (json_of EstimateBody) (estimate b clk fuel state params)
  | GET_health => λ w, (Some health_check, w)
  | GET_metrics => λ w, (Some (200, TextBody (metrics_handler registry (app_metrics w))), w)
  end.

(** ** The system *)
Context {Url AdminKey : Type} `{!Providers Url P AdminKey, !PgConnect X, !CliEnv X AdminKey}.

(** What an observer sees of a step: a request and its answer, a command of the
    operator and its outcome, or nothing. *)
Inductive event :=
  | Handled (req : Request) (response : Response)
  | Operated (cli : Cli) (result : outcome CliError unit)
  | Outside.

(** One step of the system: the service handles a request; the operator runs a
    command on the same database and network; the anomaly receiver takes events off
    the queue; or Redis, its clock and the network change by themselves. *)
Inductive step (state : State) : App → event → App → Prop :=
  | Step_request req w :
      step state w (Handled req (router state req w).1) (router state req w).2
  | Step_operator cli out w :
      let r := AdminCli.run b cli (mkCliWorld (app_db w) (app_net w) out) in
      step state w (Operated cli r.1) (set_net (cw_net r.2) (set_db (cw_db r.2) w))
  | Step_received q w : q `suffix_of` app_events w → step state w Outside (set_events q w)
  | Step_outside v x w : step state w Outside (set_net x (set_redis v w)).

Inductive steps (state : State) (w : App) : list event → App → Prop :=
  | Steps_none : steps state w [] w
  | Steps_snoc es w1 e w2 : steps state w es w1 → step state w1 e w2 → steps state w (es ++ [e]) w2.

(** An invariant of the steps holds of every state reached. *)
Lemma steps_invariant state (I : App → Prop) w es w' :
  (∀ w1 e w2, I w1 → step state w1 e w2 → I w2) → steps state w es w' → I w → I w'.
Proof. intros Hstep Hs Hw. induction Hs; eauto. Qed.

(** Requests handled one after another. *)
Fixpoint serve_all (state : State) (reqs : list Request) (w : App) : list event * App :=
  match reqs with
  | [] => ([], w)
  | req :: reqs =>
      let r := router state req w in let rest := serve_all state reqs r.2 in (Handled req r.1 :: rest.1, rest.2)
  end.
Lemma serve_all_steps state reqs : ∀ w0 es w,
  steps state w0 es w → steps state w0 (es ++ (serve_all state reqs w).1) (serve_all state reqs w).2.
Proof.
  induction reqs as [|req reqs IH]; intros w0 es w Hs; cbn; [by rewrite app_nil_r|].
  rewrite cons_middle, app_assoc. apply IH. eapply Steps_snoc; [done|constructor].
Qed.

(** *** What the handlers do to the parts of the world *)
Lemma respond_world {E A} error ok (m : M App E A) w : (respond error ok m w).2 = (m w).2.
Proof. unfold respond. by destruct (m w) as [[a|e|] w']. Qed.

(** A request other than those that keep the sessions: it leaves alone whatever the
    stores, the network, the caches and the admin nonces do not show. *)
Definition keeps_sessions (req : Request) : bool :=
  match req with POST_sessions _ _ | POST_proofs _ _ | POST_end _ _ => true | _ => false end.

Section quiet.
Context {V : Type} (get : App → V).
Hypothesis Hredis : ∀ v w, get (set_redis v w) = get w.
Hypothesis Hnet : ∀ v w, get (set_net v w) = get w.
Hypothesis Hedge : ∀ v w, get (set_edge v w) = get w.
Hypothesis Hreserves : ∀ v w, get (set_reserves v w) = get w.
Hypothesis Hnonces : ∀ v w, get (set_nonces v w) = get w.
Hypothesis Hselect : ∀ B (q : DateTime → Db → string + B), leaves get (on_db (select q) : M App PostgresStoreError B).

Lemma overview_loop_leaves readers : ∀ i t r, leaves get (overview_loop i readers t r).
Proof.
  induction readers as [|[c rd] l IH]; intros i t r; cbn [overview_loop]; [leaves_tac|].
  apply leaves_bind; [|intros [e|bal]; apply IH].
  apply leaves_map_err, leaves_attempt, leaves_zoom. naive_solver.
Qed.
Lemma overview_leaves (state : State) : leaves get (overview state).
Proof.
  unfold overview. leaves_tac; try apply Hselect. apply overview_loop_leaves.
Qed.
Lemma admin_guard_leaves (state : State) authorization {A} (next : AM A) :
  leaves get next → leaves get (admin_guard clk state authorization next).
Proof. intros Hn. unfold admin_guard, now_unix, utc, unauthorized. leaves_tac. Qed.
Lemma consume_leaves n : leaves get (consume n : AM bool).
Proof. intros w. apply Hnonces. Qed.
Lemma login_leaves (state : State) body : leaves get (login clk state body).
Proof.
  unfold login, now_unix, utc, unauthorized. leaves_tac; try apply consume_leaves.
Qed.
Lemma nonce_leaves (state : State) : leaves get (nonce clk state).
Proof. unfold nonce, issue, utc, unauthorized. leaves_tac. Qed.

Lemma pause_leaves sid wallet : leaves get (pause_session clk sid wallet).
Proof. unfold pause_session, authorize_session_owner. leaves_tac. Qed.
Lemma resume_leaves sid wallet : leaves get (resume_session clk sid wallet).
Proof. unfold resume_session, authorize_session_owner. leaves_tac. Qed.

Lemma router_leaves (state : State) req w : keeps_sessions req = false → get (router state req w).2 = get w.
Proof.
  assert (∀ A (m : HM A), read_endpoint b clk fuel state m → leaves get m) as Hread.
  { intros A m Hm. by apply (reads_leave b clk fuel get state m). }
  destruct req; intros Hk; try discriminate Hk; cbn [router]; unfold api, auth; rewrite ?respond_world; try done.
  - by apply admin_guard_leaves, overview_leaves.
  - by apply admin_guard_leaves.
  - apply nonce_leaves.
  - apply login_leaves.
  - apply pause_leaves.
  - apply resume_leaves.
  - by apply Hread; constructor.
  - by apply Hread; constructor.
  - by apply Hread; constructor.
  - by apply Hread; constructor.
  - by apply Hread; constructor.
  - by apply Hread; constructor.
  - by apply Hread; constructor.
  - by apply Hread; constructor.
  - by apply Hread; constructor.
Qed.
End quiet.

Lemma rows_select_only B (q : DateTime → Db → string + B) : leaves rows (on_db (select q) : M App PostgresStoreError B).
Proof. intros w. unfold rows, on_db, zoom. cbn [fst snd]. by rewrite select_state. Qed.

(** A request adds at most one row, and only the end of a session does. *)
Lemma router_rows (state : State) req w :
  rows (router state req w).2 = rows w ∨
  ∃ sid nonce row, req = POST_end sid nonce ∧ rows (router state req w).2 = rows w ++ [row] ∧
    mintable b clk state sid nonce w row.
Proof.
  destruct (keeps_sessions req) eqn:Ek.
  2:{ left. by apply router_leaves; try apply rows_select_only. }
  destruct req as [| | | |ip body|sid body|sid nonce| | | | | | | | | | | | | | |]; try discriminate Ek; cbn [router];
    unfold api; rewrite respond_world.
  - left. destruct (Service.create_session b clk fuel state ip body w) as [[[code resp]|e|] w'] eqn:E.
    1: by apply create_session_ok in E as (? & ? & ? & ? & ? & ? & ? & ? & ? & ? & ? & ? & ? & ? & _ & _ & _ & _ & _ & _ & _ & _ & _ & _ & _ & _ & _ & _ & ->).
    all: pose proof (create_session_fails b clk fuel state ip body w) as Hf; rewrite E in Hf; cbn [fst snd] in *;
      specialize (Hf ltac:(done)); injection Hf as Hdb _ _ _ _ _ _ _; unfold rows; by rewrite Hdb.
  - left. apply submit_proof_rows.
  - destruct (end_session_rows b clk state sid nonce w) as [Hs|(row & Hs & Hm)]; [by left|right]. by exists sid, nonce, row.
Qed.

(** A property of the proposals that marking and minting preserve is preserved by
    every step. *)
Lemma step_proposals state (Q : list ProposalRow → Prop) w e w' :
  (∀ sid st now l, Q l → Q ((λ r, if String.eqb (pr_session_id r) sid then set_status st now r else r) <$> l)) →
  (∀ sid nonce w row, mintable b clk state sid nonce w row → Q (rows w) → Q (rows w ++ [row])) →
  step state w e w' → Q (rows w) → Q (rows w').
Proof.
  intros Hmark Hmint [req w1|cli out w1 r|q w1|v x w1] Hq; [|subst r|exact Hq|exact Hq].
  - destruct (router_rows state req w1) as [Hs|(sid & nonce & row & _ & Hs & Hm)]; rewrite Hs; [done|by eapply Hmint].
  - apply (run_stable b (λ db, Q (mint_proposals db))); [done| |exact Hq].
    intros sid st db Hdb. unfold update_proposal_status, sql. destruct (db_fault _) as [[[] ?]|]; cbn; auto.
Qed.

(** *** The calculators and the gauge *)
Definition calculator_ok (c : TwapCalculator) : Prop :=
  Forall (λ s, tc_session_start c ≤ ps_sampled_at s ∧ 0 ≤ ps_price s ≤ U128_MAX) (tc_samples c).
Definition calculators_ok (m : gmap string TwapCalculator) : Prop := map_Forall (λ _, calculator_ok) m.

Lemma sample_calculator_ok reader c calc x calc' x' :
  sample_into_twap b reader c calc x = (Ok calc', x') → calculator_ok calc → calculator_ok calc'.
Proof.
  unfold sample_into_twap. intros Hs Hc. minv Hs. apply read_price_fits in Hm. subst calc'.
  unfold add_sample. cbn [ps_sampled_at]. destruct (Z.ltb_spec a0 (tc_session_start calc)) as [?|Hle]; [done|].
  apply Forall_app; split; [done|]. repeat constructor; cbn; lia.
Qed.

(** A property of the map that a sample preserves is preserved by [submit_proof]. *)
Section sampled.
Context (state : State) (sid : SessionId) (Q : gmap string TwapCalculator → Prop).
Hypothesis Hsample : ∀ m c calc x calc' x',
  m !! sid = Some calc → sample_into_twap b (st_oracle_reader state) c calc x = (Ok calc', x') →
  Q m → Q (<[sid := calc']> m).
Abbreviation PQ := (λ w : App, Q (app_twap w)).

Lemma stable_twap {A} (m : HM A) : leaves app_twap m → stable PQ m.
Proof. by apply (stable_leaves _ app_twap Q). Qed.

Lemma sample_session_stable c : stable PQ (sample_session b state sid c : HM unit).
Proof.
  unfold sample_session. intros w Hw. unfold mbind at 1, M_bind at 1, gets.
  destruct (app_twap w !! sid) as [calc|] eqn:E; [|done].
  leaves_step (app_twap : App → _) r Hs Hno Hr Hw1; [by rewrite Hs|]. destruct r as [e|calc2]; [cbn; by rewrite Hw1|].
  apply attempt_ok in Hr as [(calc' & [= ->] & Hr)|(? & ? & ?)]; [|done]. apply zoom_ok in Hr as (x' & Hr & ->).
  cbn. by eapply Hsample.
Qed.

Lemma submit_proof_stable body : stable PQ (submit_proof b clk try_send state sid body).
Proof.
  unfold submit_proof, parse_hash.
  repeat (apply stable_bind;
    [first [apply sample_session_stable | apply stable_twap; unfold count_proof, assess; solve [leaves_tac]]|intros ?]).
  apply stable_ret.
Qed.
End sampled.

(** Each request, by what it does to the calculators and the gauge: none of the two,
    a new session, a sample, or the end of a session. *)
Inductive sessions_step (sampled_by : SessionId → gmap string TwapCalculator → gmap string TwapCalculator → Prop)
    (w w' : App) : Request → Response → Prop :=
  | Quiet req resp : app_twap w' = app_twap w → active w' = active w →
      (∀ status sid site, resp ≠ Some (status, CreatedBody (mkCreateSessionResponse sid site))) →
      (∀ sid nonce status, req = POST_end sid nonce → resp ≠ Some (200, EndBody status)) →
      sessions_step sampled_by w w' req resp
  | Opened ip body sid site now :
      app_twap w' = <[sid := twap_new now]> (app_twap w) → active w' = active w + 1 →
      sessions_step sampled_by w w' (POST_sessions ip body) (Some (201, CreatedBody (mkCreateSessionResponse sid site)))
  | Sampled sid body resp :
      sampled_by sid (app_twap w) (app_twap w') → active w' = active w →
      (∀ status sid site, resp ≠ Some (status, CreatedBody (mkCreateSessionResponse sid site))) →
      sessions_step sampled_by w w' (POST_proofs sid body) resp
  | Ended sid nonce resp :
      app_twap w' = delete sid (app_twap w) →
      (active w' = active w ∨ (sampled sid w = true ∧ active w' = active w - 1)) →
      (∀ status, resp = Some (200, EndBody status) → sampled sid w = true) →
      (∀ status sid site, resp ≠ Some (status, CreatedBody (mkCreateSessionResponse sid site))) →
      sessions_step sampled_by w w' (POST_end sid nonce) resp.

(** The map after any number of samples of one session. *)
Definition resampled (state : State) (sid : SessionId) (m m' : gmap string TwapCalculator) : Prop :=
  ∀ Q : gmap string TwapCalculator → Prop,
    (∀ m c calc x calc' x', m !! sid = Some calc →
       sample_into_twap b (st_oracle_reader state) c calc x = (Ok calc', x') → Q m → Q (<[sid := calc']> m)) →
    Q m → Q m'.

Lemma respond_created {E A} error (ok : A → Z * Body) (m : M App E A) w status sid site :
  (∀ a, ok a ≠ (status, CreatedBody (mkCreateSessionResponse sid site))) →
  (respond error ok m w).1 ≠ Some (status, CreatedBody (mkCreateSessionResponse sid site)).
Proof. intros Hok. unfold respond. destruct (m w) as [[a|e|] w']; cbn; [intros [= Ha]; by apply (Hok a)|done..]. Qed.

Lemma submit_proof_active (state : State) sid body : leaves active (submit_proof b clk try_send state sid body).
Proof.
  unfold submit_proof, count_proof, assess, parse_hash, sample_session. leaves_tac.
Qed.

Lemma end_session_step (state : State) sid nonce w :
  sessions_step (resampled state) w (router state (POST_end sid nonce) w).2 (POST_end sid nonce)
    (router state (POST_end sid nonce) w).1.
Proof.
  cbn [router]. unfold api. rewrite respond_world.
  assert (∀ status sid' site, (respond into_response (λ r, (r.1, EndBody r.2)) (end_session b clk state sid nonce) w).1 ≠
    Some (status, CreatedBody (mkCreateSessionResponse sid' site))) as Hnc by (intros; by apply respond_created).
  destruct (end_session_finishes b clk state sid nonce w) as [[Hk He]|(ctx & node & v & _ & _ & Hf)].
  - injection Hk as _ Ht Hm. apply Quiet; [done|unfold active; by rewrite Hm|done|].
    intros sid' nonce' status [= -> ->] Hr. revert Hr. unfold respond.
    destruct (end_session b clk state sid' nonce' w) as [[[code s]|e|] w'] eqn:E; cbn; [|by intros [=]|done].
    intros [= -> ->]. by destruct (He _ _ eq_refl).
  - assert (app_twap (end_session b clk state sid nonce w).2 = delete sid (app_twap w)) as Ht.
    { by rewrite Hf, finish_twap. }
    apply Ended; [done| | |done].
    + destruct (end_session_active b clk state sid nonce w) as [[? _]|(? & _ & ?)]; auto.
    + intros status. unfold respond. rewrite Hf.
      destruct (finish b clk state sid ctx node (set_redis v w)) as [[[code s]|e|] w'] eqn:E; cbn; [|done..].
      intros [= -> ->]. destruct (sampled sid w) eqn:Es; [done|exfalso].
      by apply (finish_unsampled b clk state sid ctx node (set_redis v w) status); [|rewrite E].
Qed.

Lemma router_sessions (state : State) req w :
  sessions_step (resampled state) w (router state req w).2 req (router state req w).1.
Proof.
  destruct (keeps_sessions req) eqn:Ek.
  2:{ apply Quiet.
      - by apply router_leaves; try (intros; apply leaves_zoom).
      - by apply router_leaves; try (intros; apply leaves_zoom).
      - intros status sid site. destruct req; try discriminate Ek; cbn [router]; try discriminate; by apply respond_created.
      - intros sid nonce status ->. discriminate Ek. }
  destruct req as [| | | |ip body|sid body|sid nonce| | | | | | | | | | | | | | |]; try discriminate Ek.
  - cbn [router]. unfold api. rewrite respond_world. unfold respond.
    destruct (Service.create_session b clk fuel state ip body w) as [[[code resp]|e|] w'] eqn:E; cbn [fst snd].
    1: { apply create_session_ok in E as (? & ? & ? & ? & ? & ? & now & ? & ? & ? & ? & ? & ? & ? & _ & _ & _ & _ & _ & _ & _ & _ & _ & _ & _ & _ & -> & _ & ->).
         destruct resp as [sid site]. by eapply Opened. }
    all: pose proof (create_session_fails b clk fuel state ip body w) as Hf; rewrite E in Hf; cbn [fst snd] in *;
      specialize (Hf ltac:(done)); injection Hf as _ _ Ht _ _ Hm _ _; apply Quiet; [done|unfold active; by rewrite Hm|done|done].
  - apply Sampled.
    + cbn [router]. unfold api. rewrite respond_world. intros Q HQ. by apply submit_proof_stable.
    + cbn [router]. unfold api. rewrite respond_world. apply submit_proof_active.
    + intros. by apply respond_created.
  - apply end_session_step.
Qed.

(** *** Sampling *)
Lemma resampled_ok state sid m m' : resampled state sid m m' → calculators_ok m → calculators_ok m'.
Proof.
  intros Hr Hm. apply Hr; [|done]. intros m1 c calc x calc' x' Hl Hs Hm1. apply map_Forall_insert_2; [|done].
  eapply sample_calculator_ok; [exact Hs|]. by apply (Hm1 sid).
Qed.
Lemma resampled_dom state sid m m' : resampled state sid m m' → dom m' = dom m.
Proof.
  intros Hr. apply (Hr (λ m', dom m' = dom m)); [|done]. intros m1 c calc x calc' x' Hl _ <-.
  rewrite dom_insert_L. apply elem_of_dom_2 in Hl. set_solver.
Qed.
Lemma sampled_dom sid (w : App) : sampled sid w = bool_decide (sid ∈ dom (app_twap w)).
Proof.
  unfold sampled. destruct (app_twap w !! sid) eqn:E.
  - symmetry. apply bool_decide_eq_true, elem_of_dom. by eexists.
  - symmetry. apply bool_decide_eq_false, not_elem_of_dom_2, E.
Qed.

(** ** The invariant of the system *)

(** One proposal per session with an amount of 128 bits and a known status; prices of
    128 bits taken during their session; and a gauge that counts at least the sessions
    that have a calculator. *)
Record system_ok (w : App) : Prop := {
  so_proposals : NoDup (pr_session_id <$> rows w) ∧ Forall (λ r, 0 ≤ pr_gross_prm r ≤ U128_MAX) (rows w);
  so_statuses : Forall (λ r, ∃ s, pr_status r = status_debug s) (rows w);
  so_calculators : calculators_ok (app_twap w);
  so_gauge : Z.of_nat (size (app_twap w)) ≤ active w
}.

Lemma mark_forall (Q : ProposalRow → Prop) sid st now l :
  (∀ r, Q r → Q (set_status st now r)) → Forall Q l →
  Forall Q ((λ r, if String.eqb (pr_session_id r) sid then set_status st now r else r) <$> l).
Proof. intros HQ Hl. apply Forall_fmap. eapply Forall_impl; [exact Hl|]. intros r Hr. cbn. destruct (String.eqb _ _); auto. Qed.

Lemma step_proposals_ok state w e w' :
  step state w e w' →
  (NoDup (pr_session_id <$> rows w) ∧ Forall (λ r, 0 ≤ pr_gross_prm r ≤ U128_MAX) (rows w)) ∧
    Forall (λ r, ∃ s, pr_status r = status_debug s) (rows w) →
  (NoDup (pr_session_id <$> rows w') ∧ Forall (λ r, 0 ≤ pr_gross_prm r ≤ U128_MAX) (rows w')) ∧
    Forall (λ r, ∃ s, pr_status r = status_debug s) (rows w').
Proof.
  intros Hs. apply (step_proposals state (λ l, (NoDup (pr_session_id <$> l) ∧ Forall (λ r, 0 ≤ pr_gross_prm r ≤ U128_MAX) l) ∧
    Forall (λ r, ∃ s, pr_status r = status_debug s) l) w e w'); [| |done]; clear.
  - intros sid st now l [[Hnd Hg] Hst]. rewrite set_status_ids. split_and!; [done|by apply mark_forall|].
    apply mark_forall; [|done]. intros r _. by exists st.
  - intros sid nonce w row (ctx & node & v & twap & proofs & seed & att & u & amount & cents & z & _ & _ & _ & _ & Hni & (Hid & _ & _ & _ & Hg & _ & Hp & _) & _ & _ & _ & _ & Ha)
      [[Hnd Hgs] Hst]. rewrite fmap_app, NoDup_app, !Forall_app. cbn. rewrite Hid. split_and!; try done.
    + intros y Hy. rewrite list_elem_of_singleton. by intros ->.
    + apply NoDup_singleton.
    + constructor; [by rewrite Hg|constructor].
    + constructor; [|constructor]. exists Pending. by rewrite Hp.
Qed.

Lemma sessions_step_ok state w w' req resp :
  sessions_step (resampled state) w w' req resp →
  calculators_ok (app_twap w) ∧ Z.of_nat (size (app_twap w)) ≤ active w →
  calculators_ok (app_twap w') ∧ Z.of_nat (size (app_twap w')) ≤ active w'.
Proof.
  intros Hs [Hc Hg]. destruct Hs as [req resp Ht Ha _ _|ip body sid site now Ht Ha|sid body resp Hr Ha _|sid nonce resp Ht Ha _ _].
  - by rewrite Ht, Ha.
  - rewrite Ht, Ha. split; [apply map_Forall_insert_2; [constructor|done]|].
    rewrite map_size_insert. destruct (app_twap w !! sid); cbn; lia.
  - split; [by eapply resampled_ok|]. rewrite Ha, <-size_dom, (resampled_dom _ _ _ _ Hr), size_dom. done.
  - rewrite Ht. split; [by apply map_Forall_delete|]. rewrite map_size_delete. unfold sampled in Ha.
    destruct (app_twap w !! sid) eqn:E; cbn in *.
    + pose proof (map_size_ne_0_lookup_2 (app_twap w) sid ltac:(by eexists)). lia.
    + lia.
Qed.

(** A row that some session's quorum attested, its status and last update apart. *)
Definition backed (state : State) (row : ProposalRow) : Prop :=
  ∃ v ctx node proofs seed x att,
    (get_session clk (pr_session_id row) v).1 = Ok (Some ctx) ∧ ctx_assigned_node_id ctx = Some node ∧
    is_row_of (set_status Pending 0 row) (pr_session_id row) ctx (pr_gross_prm row) (pr_net_usd_cents row) att ∧
    (coordinate_attestation (st_node_coordinator state) net_now (pr_session_id row) proofs seed node x).1 = inr att ∧
    (3 ≤ length (ar_signatures att))%nat ∧ NoDup (ar_signers att) ∧
    Forall3 (genuine (st_node_coordinator state) node proofs) (ar_signatures att) (ar_node_ids att) (ar_signers att) ∧
    pr_gross_prm row ≤ daily_ceiling (st_mint_ceiling state) (st_mint_ceiling_active_users state)
                         (st_mint_ceiling_avg_daily_prm_per_user state) * PRM_WEI.

Lemma minted_24h_nonneg (w : App) : Forall (λ r, 0 ≤ pr_gross_prm r ≤ U128_MAX) (rows w) → 0 ≤ minted_24h_of w.
Proof.
  intros Hr. unfold minted_24h_of. by apply (sum_gross_filter
    (λ r, pr_status r = "Confirmed" ∧ db_now (db_tick (app_db w)) - interval_24h < pr_created_at r)).
Qed.

Lemma mintable_backed state sid nonce w row :
  0 ≤ minted_24h_of w → mintable b clk state sid nonce w row → backed state row.
Proof.
  intros Hm (ctx & node & v & twap & proofs & seed & att & u & amount & cents & z & (bs & v1 & Hg & _) & Hnode & Hatt & _ &
    _ & Hrow & H3 & Hnd & Hall & Hle & _).
  destruct Hrow as (Hid & Hw & Hc & Hch & Ha & Hce & _ & Hj). destruct Hatt as [? ? ? ? ? w2 x _ _ _ _ _ _ Hatt].
  exists (app_redis w), ctx, node, proofs, seed, (app_net w2), att. rewrite Hid, Ha, Hce, Hg, Hatt.
  split_and!; try done. lia.
Qed.

(** *** Where the rows come from *)

(** The row of a proposal when it was minted, its status and last update apart. *)
Definition as_minted (row : ProposalRow) : ProposalRow := set_status Pending 0 row.

Lemma mark_minted sid st now (l : list ProposalRow) row :
  row ∈ (λ r, if String.eqb (pr_session_id r) sid then set_status st now r else r) <$> l →
  ∃ row0, row0 ∈ l ∧ as_minted row = as_minted row0.
Proof.
  intros (row0 & -> & Hin)%list_elem_of_fmap. exists row0. split; [done|]. by destruct (String.eqb _ _).
Qed.

(** A row after a step was there before, or the step is the end of its session. *)
Lemma step_row state w e w' row :
  step state w e w' → row ∈ rows w' →
  (∃ row0, row0 ∈ rows w ∧ as_minted row = as_minted row0) ∨
  ∃ nonce, e = Handled (POST_end (pr_session_id row) nonce) (router state (POST_end (pr_session_id row) nonce) w).1 ∧
    w' = (router state (POST_end (pr_session_id row) nonce) w).2 ∧
    mintable b clk state (pr_session_id row) nonce w row.
Proof.
  intros [req w1|cli out w1 r|q w1|v x w1] Hin; [|subst r; left|left; by exists row|left; by exists row].
  - destruct (router_rows state req w1) as [Hs|(sid & nonce & row1 & -> & Hs & Hm)]; rewrite Hs in Hin; [left; by exists row|].
    apply elem_of_app in Hin as [Hin|Hin]; [left; by exists row|right]. apply list_elem_of_singleton in Hin as ->.
    pose proof Hm as (? & ? & ? & ? & ? & ? & ? & ? & ? & ? & ? & _ & _ & _ & _ & _ & (-> & _) & _). by exists nonce.
  - revert row Hin. apply (run_stable b (λ db, ∀ row, row ∈ mint_proposals db → ∃ row0, row0 ∈ rows w1 ∧ as_minted row = as_minted row0)).
    + done.
    + intros sid st db Hdb row. unfold update_proposal_status, sql. destruct (db_fault _) as [[[] ?]|]; cbn; try apply Hdb.
      all: intros (row1 & (row0 & Hin & Hr)%Hdb & Hm)%mark_minted; exists row0; split; congruence.
    + intros row Hin. by exists row.
Qed.

(** *** One end per session *)
Definition opened (sid : SessionId) (e : event) : bool :=
  match e with
  | Handled (POST_sessions _ _) (Some (_, CreatedBody r)) => String.eqb (csr_session_id r) sid
  | _ => false
  end.
Definition ended_ok (sid : SessionId) (e : event) : bool :=
  match e with Handled (POST_end sid' _) (Some (200, EndBody _)) => String.eqb sid' sid | _ => false end.
Definition count (p : event → bool) (es : list event) : nat := length (filter (λ e, p e = true) es).
Definition live (sid : SessionId) (w : App) : nat := if sampled sid w then 1 else 0.

Lemma count_snoc p es e : count p (es ++ [e]) = (count p es + if p e then 1 else 0)%nat.
Proof.
  unfold count. rewrite filter_app, length_app, filter_cons, filter_nil. f_equal.
  destruct (p e) eqn:E; [by rewrite decide_True|by rewrite decide_False].
Qed.

Lemma ended_ok_inv sid e :
  ended_ok sid e = true → ∃ nonce status, e = Handled (POST_end sid nonce) (Some (200, EndBody status)).
Proof.
  destruct e as [req resp| |]; [|done..]. destruct req; try done. destruct resp as [[code body]|]; [|done].
  cbn. intros He. repeat (case_match; try done). apply String.eqb_eq in He as ->. by do 2 eexists.
Qed.

Lemma step_live state sid w e w' :
  step state w e w' →
  ((if ended_ok sid e then 1 else 0) + live sid w' ≤ (if opened sid e then 1 else 0) + live sid w)%nat.
Proof.
  intros Hs. unfold live. destruct Hs as [req w|cli out w r|q w|v x w]; [|try subst r; unfold sampled; cbn; destruct (app_twap w !! sid); lia..].
  pose proof (router_sessions state req w) as Hr. destruct (router state req w) as [resp w']. cbn [fst snd] in *.
  destruct (ended_ok sid _) eqn:Ee.
  - apply ended_ok_inv in Ee as (nonce & status & [= -> ->]). cbn [opened].
    inversion Hr as [? ? _ _ _ Hne| | |? ? ? Ht _ Hok _]; subst; [by destruct (Hne _ _ status eq_refl)|].
    rewrite (Hok status eq_refl). unfold sampled. rewrite Ht, lookup_delete_eq. lia.
  - destruct Hr as [req resp Ht _ _ _|ip body sid' site now Ht _|sid' body resp Hrs _ _|sid' nonce resp Ht _ _ _].
    + unfold sampled. rewrite Ht. lia.
    + cbn [opened csr_session_id]. unfold sampled. rewrite Ht.
      destruct (String.eqb_spec sid' sid) as [->|Hn]; [rewrite lookup_insert_eq|rewrite lookup_insert_ne by done]; lia.
    + cbn [opened]. rewrite !sampled_dom, (resampled_dom _ _ _ _ Hrs). lia.
    + unfold sampled. rewrite Ht. destruct (decide (sid' = sid)) as [->|Hn]; [rewrite lookup_delete_eq; cbn; lia|].
      rewrite lookup_delete_ne by done. cbn. lia.
Qed.

(** ** Properties *)

(** C9. The invariant of the running system. Whatever requests come in, in whatever
    order, whatever the operator runs, and however Redis, the network and the clocks
    behave in between, at every moment there is at most one proposal per session,
    its amount fits 128 bits and its status is a known one, every price sampled fits
    128 bits and was taken during its session, and the gauge of active sessions
    counts at least the sessions that can still be ended. *)
Theorem system_invariant state w es w' : steps state w es w' → system_ok w → system_ok w'.
Proof.
  apply steps_invariant. clear. intros w e w' [Hp Hst Hc Hg] Hs.
  destruct (step_proposals_ok state w e w' Hs (conj Hp Hst)) as [Hp' Hst'].
  assert (calculators_ok (app_twap w') ∧ Z.of_nat (size (app_twap w')) ≤ active w') as [Hc' Hg']; [|by split].
  destruct Hs as [req w|cli out w r|q w|v x w]; [|by split..].
  by apply (sessions_step_ok state w _ req (router state req w).1); [apply router_sessions|split].
Qed.

(** C10. Every row is minted by the program. After any sequence of requests, operator
    commands and outside changes, each row of the proposals is, its status and last
    update apart, a row that was there at the start, or one that an end of that very
    session added in the run: at that request the session that Redis returned matched
    the nonce, named a node, and at least three distinct registered signers attested
    exactly the proofs that Redis returned for it; the row pays its wallet on its
    chain the payout computed from its calculator, within the daily ceiling, and was
    the first of its session. The operator changes statuses only, and no other
    request adds a row. *)
Theorem rows_backed state w es w' row :
  steps state w es w' → row ∈ rows w' →
  (∃ row0, row0 ∈ rows w ∧ as_minted row = as_minted row0) ∨
  ∃ es1 w1 nonce es2 row0,
    let sid := pr_session_id row in
    let r := router state (POST_end sid nonce) w1 in
    es = es1 ++ Handled (POST_end sid nonce) r.1 :: es2 ∧ steps state w es1 w1 ∧ steps state r.2 es2 w' ∧
    mintable b clk state sid nonce w1 row0 ∧ as_minted row = as_minted row0.
Proof.
  intros Hs. revert row. induction Hs as [|es w1 e w2 Hs IH Hstep]; intros row Hin; [left; by exists row|].
  destruct (step_row state w1 e w2 row Hstep Hin) as [(row1 & Hin1 & Heq)|(nonce & -> & -> & Hm)].
  2:{ right. exists es, w1, nonce, [], row. cbv zeta. split_and!; [done|done|constructor|done|done]. }
  assert (pr_session_id row1 = pr_session_id row) as Hid by by injection Heq.
  destruct (IH row1 Hin1) as [(row0 & Hin0 & Heq0)|(es1 & w0 & nonce & es2 & row0 & Hx)]; [left; exists row0; split; congruence|right].
  cbv zeta in Hx. rewrite Hid in Hx. destruct Hx as (-> & Hx1 & Hx2 & Hm & Heq0).
  exists es1, w0, nonce, (es2 ++ [e]), row0. cbv zeta. split_and!; [by rewrite <-app_assoc|done|by eapply Steps_snoc|done|congruence].
Qed.

(** A session is settled at most once. Over any run, the ends of a session that
    are answered 200 are at most as many as its openings, counting one if it was
    open at the start; and a run in which nobody asks for its end leaves it open,
    for ever: nothing but an end (not its expiry in Redis) removes its calculator. *)
Theorem one_settlement_per_session state sid w es w' :
  steps state w es w' →
  (count (ended_ok sid) es + live sid w' ≤ count (opened sid) es + live sid w)%nat ∧
  ((∀ e, e ∈ es → ∀ nonce resp, e ≠ Handled (POST_end sid nonce) resp) → sampled sid w = true → sampled sid w' = true).
Proof.
  intros Hs. split.
  - induction Hs as [|es w1 e w2 Hs IH Hstep]; [unfold count; cbn; lia|].
    rewrite !count_snoc. pose proof (step_live state sid w1 e w2 Hstep). lia.
  - intros He Hw. induction Hs as [|es w1 e w2 Hs IH Hstep]; [done|].
    assert (sampled sid w1 = true) as Hw1 by (apply IH; intros e' Hin; apply He, elem_of_app; by left).
    assert (∀ nonce resp, e ≠ Handled (POST_end sid nonce) resp) as Hne
      by (apply He, elem_of_app; right; apply list_elem_of_here).
    destruct Hstep as [req w1|cli out w1 r|q w1|v x w1]; try done.
    pose proof (router_sessions state req w1) as Hr. destruct (router state req w1) as [resp w2]. cbn [fst snd] in *.
    destruct Hr as [req resp Ht _ _ _|ip body sid' site now Ht _|sid' body resp Hr _ _|sid' nonce resp Ht _ _ _].
    + unfold sampled. by rewrite Ht.
    + unfold sampled in *. rewrite Ht. destruct (decide (sid' = sid)) as [->|?]; [by rewrite lookup_insert_eq|by rewrite lookup_insert_ne].
    + by rewrite sampled_dom, (resampled_dom _ _ _ _ Hr), <-sampled_dom.
    + unfold sampled in *. rewrite Ht. rewrite lookup_delete_ne; [done|]. intros ->. by eapply Hne.
Qed.

(** The statuses of a route's answers. *)
Definition statuses (req : Request) : list Z :=
  match req with
  | GET_admin_overview _ => [200; 401; 500]
  | POST_admin_logout _ => [204; 401]
  | GET_admin_nonce => [200; 401]
  | POST_admin_login _ => [200; 401; 500]
  | POST_sessions _ _ => [201; 400; 429; 500]
  | POST_proofs _ _ => [200; 400; 404; 409; 500]
  | POST_end _ _ => [200; 400; 404; 500]
  | POST_pause _ _ | POST_resume _ _ => [200; 400; 403; 404; 500]
  | GET_payouts _ _ | GET_earnings _ | GET_earnings_24h _ | GET_sessions _ | GET_alerts _ => [200; 400; 500]
  | GET_staking _ | GET_estimate _ => [200; 400]
  | GET_entity_share => [200; 500]
  | GET_reserve | GET_sites | GET_commodities | GET_health | GET_metrics => [200]
  end.

(** The requests whose own text is refused before anything is read: a wallet, client
    type, commit hash or chain that does not parse. *)
Definition none {A} (o : option A) : bool := match o with None => true | Some _ => false end.
Definition malformed (req : Request) : bool :=
  match req with
  | POST_sessions _ body =>
      none (parse_address (cr_wallet body)) || none (parse_client_type (cr_client_type body)) ||
      match hex_decode (cr_commit_hash body) with Some h => negb (Nat.eqb (length h) 32) | None => true end ||
      none (from_str_id (cr_chain body))
  | GET_payouts wallet _ | GET_earnings wallet | GET_earnings_24h wallet | GET_sessions wallet | GET_staking wallet
  | GET_alerts wallet => none (parse_address wallet)
  | GET_estimate params => match eq_wallet params with Some raw => none (parse_address raw) | None => false end
  | _ => false
  end.

(** The calls to a store that a route cannot do without, in the world [w]: the limit of
    the wallet for a new session, the session for what is done to one, the statements
    of the reports, the listing. *)
Definition errs {E A W} (r : outcome E A * W) : bool := match r.1 with Err _ => true | _ => false end.
Definition with_wallet (raw : string) (f : Address → bool) : bool := from_option f false (parse_address raw).
Definition failing (state : State) (req : Request) (w : App) : bool :=
  match req with
  | POST_sessions _ body => with_wallet (cr_wallet body) (λ a, errs (check_wallet clk address_display a (app_redis w)))
  | POST_proofs sid _ | POST_end sid _ | POST_pause sid _ | POST_resume sid _ => errs (get_session clk sid (app_redis w))
  | GET_payouts wallet limit => with_wallet wallet (λ a, errs (get_payouts_for_wallet (wallet_db_key a)
      (clamp 1 MAX_PAYOUT_LIMIT (default DEFAULT_PAYOUT_LIMIT limit)) (app_db w)))
  | GET_earnings wallet => with_wallet wallet (λ a, errs (get_earnings_by_commodity (wallet_db_key a) (app_db w)))
  | GET_earnings_24h wallet => with_wallet wallet (λ a, errs (get_earnings_24h (wallet_db_key a) (app_db w)))
  | GET_sessions wallet => with_wallet wallet (λ a, errs (list_sessions_for_wallet b clk fuel (address_display a) (app_redis w)))
  | GET_alerts wallet => with_wallet wallet (λ a,
      match get_review_flags_for_wallet (wallet_db_key a) ALERTS_LIMIT (app_db w) with
      | (Ok _, db) => errs (get_payouts_for_wallet (wallet_db_key a) ALERTS_LIMIT db)
      | r => errs r
      end)
  | GET_entity_share => errs (company_mining_share (default "" (wallet_db_key <$> st_company_wallet state)) (app_db w))
  | _ => false
  end.
(** The reads that need no sign-in. *)
Definition public_read (req : Request) : bool :=
  match req with
  | GET_payouts _ _ | GET_earnings _ | GET_earnings_24h _ | GET_sessions _ | GET_staking _ | GET_alerts _
  | GET_entity_share | GET_reserve | GET_sites | GET_commodities | GET_estimate _ | GET_health | GET_metrics => true
  | _ => false
  end.
(** The session a request is about, and whether its other texts are refused. *)
Definition session_of (req : Request) : option SessionId :=
  match req with POST_proofs sid _ | POST_end sid _ | POST_pause sid _ | POST_resume sid _ => Some sid | _ => None end.
Definition bad_texts (req : Request) : bool :=
  match req with
  | POST_proofs _ body =>
      match hex_decode (sp_proof_hash body) with Some h => negb (Nat.eqb (length h) 32) | None => true end ||
      (negb (String.eqb (sp_proof_input body) "") && none (hex_decode (sp_proof_input body)))
  | POST_end _ nonce => none (hex_decode nonce)
  | POST_pause _ wallet | POST_resume _ wallet => none (parse_address wallet)
  | _ => false
  end.

Lemma respond_status {E A} error ok (m : M App E A) (l : list Z) :
  raises (λ e, (error e).1 ∈ l) m → yields (λ a, (ok a).1 ∈ l) m →
  ∀ w code body, (respond error ok m w).1 = Some (code, body) → code ∈ l.
Proof.
  intros Hr Hy w code body. specialize (Hr w). specialize (Hy w). unfold respond.
  destruct (m w) as [[a|e|] w']; cbn in *; [|intros [= <- <-]; by apply Hr|done].
  intros [= Ha]. specialize (Hy a eq_refl). by rewrite Ha in Hy.
Qed.
Lemma yields_any {E A} (Q : A → Prop) (m : M App E A) : (∀ a, Q a) → yields Q m.
Proof. by intros HQ w a _. Qed.

(** The calls that never err. *)
Abbreviation HMX := (HM (R:=R) (X:=X)).
Abbreviation AMX := (AM (R:=R) (X:=X)).
Lemma raises_zoom {V E A} (Q : E → Prop) (g : App → V) set (m : M V E A) :
  (∀ v e, (m v).1 ≠ Err e) → raises Q (zoom g set m).
Proof. intros Hm. apply raises_none. intros w. apply Hm. Qed.
Lemma raises_now (Q : ApiError → Prop) : raises Q (now_utc clk : HMX _).
Proof. by apply raises_zoom. Qed.
Lemma raises_utc (Q : AuthError → Prop) : raises Q (utc clk : AMX _).
Proof. by apply raises_zoom. Qed.
Lemma raises_events {A} (Q : ApiError → Prop) (f : list AnomalyEvent → A * list AnomalyEvent) :
  raises Q (on_events f : HMX A).
Proof. by apply raises_none. Qed.
Lemma raises_consume (Q : AuthError → Prop) n : raises Q (consume n : AMX bool).
Proof. by apply raises_none. Qed.
Lemma raises_submit_all (Q : ApiError → Prop) (l : list (Chain * OracleSubmitter (P:=P))) c p :
  raises Q (submit_all l c p : HMX unit).
Proof. induction l as [|[ch s] l IH]; cbn; [apply raises_ret|]. by apply raises_bind; [apply raises_attempt|]. Qed.
Lemma raises_reserve_loop (Q : ApiError → Prop) (l : list (Chain * TreasuryReader (P:=P))) : ∀ i cs t r,
  raises Q (reserve_loop i l cs t r : HMX _).
Proof.
  induction l as [|[ch s] l IH]; intros i cs t r; cbn [reserve_loop]; [apply raises_ret|].
  by apply raises_bind; [apply raises_attempt|intros []].
Qed.
Lemma raises_overview_loop (Q : AuthError → Prop) (l : list (Chain * TreasuryReader (P:=P))) : Q AuthInternal → ∀ i t r,
  raises Q (overview_loop i l t r : AMX _).
Proof.
  intros HQ. induction l as [|[ch s] l IH]; intros i t r; cbn [overview_loop]; [apply raises_ret|].
  by apply raises_bind; [apply raises_map_err|intros []].
Qed.
#[local] Hint Resolve raises_now raises_utc raises_events raises_consume raises_submit_all raises_reserve_loop
  raises_overview_loop raises_attempt raises_modify : core.
#[local] Hint Extern 1 (_ ∈ _) => cbn; repeat first [apply list_elem_of_here|apply list_elem_of_further] : core.

Ltac yields_tac :=
  repeat first [apply yields_bind; intros ?|apply yields_fail|apply yields_ret; cbn; solve [auto]|case_match].
Lemma end_session_yields (state : State) sid nonce :
  yields (λ r : Z * string, r.1 ∈ [200; 400; 404; 500]) (end_session b clk state sid nonce).
Proof. unfold end_session, finish, mint, settle, with_status. yields_tac. Qed.
Lemma create_session_yields (state : State) ip body :
  yields (λ r : Z * CreateSessionResponse, r.1 ∈ [201; 400; 429; 500]) (Service.create_session b clk fuel state ip body : HMX _).
Proof. unfold Service.create_session. yields_tac. Qed.
Lemma logout_yields (state : State) authorization :
  yields (λ r : Z, r ∈ [204; 401]) (admin_guard clk state authorization (logout : AMX Z)).
Proof. unfold admin_guard, logout, unauthorized. yields_tac. Qed.

Ltac status_tac :=
  unfold Service.create_session, submit_proof, end_session, finish, mint, settle, compute_payout, session_seed, take_twap,
    pause_session, resume_session, authorize_session_owner, count_proof, assess, sample_session, wallet_payouts,
    wallet_earnings, wallet_earnings_24h, wallet_sessions, wallet_staking, wallet_alerts, entity_share, reserve, estimate,
    estimate_hashrate, nonce, login, admin_guard, issue, now_unix, unauthorized, logout, overview,
    payout_config_with_live_edge, staking_summary, read_chain, ignore, gauge, metric, with_status, parse_hash,
    parse_wallet, enforce, ended, internal;
  raises_tac.

Lemma router_status state req w code body :
  (router state req w).1 = Some (code, body) → code ∈ statuses req.
Proof.
  destruct req; cbn [router statuses]; unfold api, auth;
    lazymatch goal with
    | |- (respond _ _ _ _).1 = _ → _ =>
        apply respond_status; [status_tac|first [apply end_session_yields|apply create_session_yields
          |apply logout_yields|apply yields_any; intros ?; cbn; auto]]
    | _ => intros [= <- <-]; cbn; auto
    end.
  all: by apply raises_fail; destruct a2; cbn; auto.
Qed.

(** *** The answers of the reads, and of what is done to a session *)
Definition read_outcome (bad fail : bool) (w : App) (r : Response * App) : Prop :=
  (bad = true → ∃ msg, r = (Some (400, ErrorBody msg), w)) ∧
  (bad = false → fail = true → ∃ w', r = (Some (500, ErrorBody "internal error"), w')) ∧
  ∀ code body, r.1 = Some (code, body) → code = if bad then 400 else if fail then 500 else 200.

(** A call to a store, and calls that do not fail after it. *)
Lemma read_store {V E A B} (body : B → Body) (g : App → V) set (m : M V E A) (k : A → HMX B) w :
  (∀ a, raises (λ _, False) (k a)) →
  read_outcome false (errs (m (g w))) w (api (json_of body) (internal (zoom g set m) ≫= k) w).
Proof.
  intros Hk. unfold read_outcome, api, respond, internal, map_err, zoom, errs, mbind, M_bind.
  destruct (m (g w)) as [[a|e|] v]; cbn; [|split_and!; [done|by eexists|by intros ? ? [= <- _]]|done].
  split_and!; [done..|]. intros code bd. specialize (Hk a (set v w)).
  destruct (k a (set v w)) as [[a'|e|] w']; cbn in *; [by intros [= <- _]|by destruct (Hk e)|done].
Qed.
Lemma read_only_store {V E A} (body : A → Body) (g : App → V) set (m : M V E A) w :
  read_outcome false (errs (m (g w))) w (api (json_of body) (internal (zoom g set m)) w).
Proof.
  unfold read_outcome, api, respond, internal, map_err, zoom, errs.
  destruct (m (g w)) as [[a|e|] v]; cbn; split_and!; try done; try (by eexists); by intros ? ? [= <- _].
Qed.
(** Calls that do not fail. *)
Lemma read_total {A} (body : A → Body) (m : HMX A) w :
  raises (λ _, False) m → read_outcome false false w (api (json_of body) m w).
Proof.
  intros Hm. unfold read_outcome, api, respond. specialize (Hm w).
  destruct (m w) as [[a|e|] w']; cbn in *; [|by destruct (Hm e)|done]. split_and!; [done..|by intros ? ? [= <- _]].
Qed.
(** The wallet is parsed first. *)
Lemma read_wallet {A} (body : A → Body) raw (f : Address → HMX A) fail w :
  (∀ a, parse_address raw = Some a → read_outcome false fail w (api (json_of body) (f a) w)) →
  read_outcome (none (parse_address raw)) fail w (api (json_of body) (parse_wallet raw ≫= f) w).
Proof.
  intros Hf. unfold parse_wallet. destruct (parse_address raw) as [a|] eqn:E; [by apply Hf|].
  split_and!; [by eexists|done|by intros ? ? [= <- _]].
Qed.

Lemma read_alerts key (w : App) :
  read_outcome false
    (match get_review_flags_for_wallet key ALERTS_LIMIT (app_db w) with
     | (Ok _, db) => errs (get_payouts_for_wallet key ALERTS_LIMIT db)
     | r => errs r
     end) w
    (api (json_of AlertsBody)
       (flags ← internal (on_db (get_review_flags_for_wallet key ALERTS_LIMIT));
        payouts ← internal (on_db (get_payouts_for_wallet key ALERTS_LIMIT));
        mret (sort_by alert_newer ((flag_alert <$> flags) ++ (payout_row_alert <$> payouts)))) w).
Proof.
  unfold read_outcome, api, respond, internal, map_err, on_db, zoom, mbind, M_bind, errs. cbn.
  destruct (get_review_flags_for_wallet _ _ (app_db w)) as [[flags|e|] d]; cbn;
    [|split_and!; [done|by eexists|by intros ? ? [= <- _]]|done].
  destruct (get_payouts_for_wallet _ _ d) as [[ps|e|] d']; cbn;
    split_and!; try done; try (by eexists); by intros ? ? [= <- _].
Qed.

Lemma reads_outcome state req w :
  public_read req = true → read_outcome (malformed req) (failing state req w) w (router state req w).
Proof.
  assert (∀ body, read_outcome false false w (Some (200, body), w)) as Hconst.
  { intros body. split_and!; [done..|by intros ? ? [= <- _]]. }
  destruct req; try discriminate; intros _; cbn [router malformed failing]; try apply Hconst;
    try (apply read_wallet; intros a Ha; unfold with_wallet; rewrite ?Ha; cbn [from_option]).
  - apply read_only_store.
  - apply read_only_store.
  - apply read_only_store.
  - apply (read_store SessionsBody app_redis set_redis). intros listed. status_tac.
  - apply read_total. status_tac.
  - apply read_alerts.
  - apply (read_store ShareBody app_db set_db). intros share. status_tac.
  - apply read_total. status_tac.
  - unfold estimate, parse_wallet. destruct (eq_wallet params) as [raw|]; [destruct (parse_address raw) as [a|]|].
    + apply read_total. apply raises_bind; [by intros w0 e|intros wl]. status_tac.
    + split_and!; [by eexists|done|by intros ? ? [= <- _]].
    + apply read_total. status_tac.
Qed.

(** The session of a request is read first. *)
Lemma session_answers state req w sid :
  session_of req = Some sid →
  (∀ e v, get_session clk sid (app_redis w) = (Err e, v) →
     router state req w = (Some (500, ErrorBody "internal error"), set_redis v w)) ∧
  (∀ v, get_session clk sid (app_redis w) = (Ok None, v) →
     router state req w = (Some (404, ErrorBody "session not found"), set_redis v w)) ∧
  (∀ ctx v v', get_session clk sid (app_redis w) = (Ok (Some ctx), v) → is_paused clk sid v = (Ok false, v') →
     bad_texts req = true → ∃ msg w', router state req w = (Some (400, ErrorBody msg), w')).
Proof.
  destruct req; intros [= ->]; cbn [router]; unfold api, respond, submit_proof, end_session, pause_session, resume_session,
    authorize_session_owner, parse_wallet, internal, on_redis, mbind, M_bind, map_err, zoom.
  all: split_and!; [by intros e v ->|by intros v ->|intros ctx v v' -> Hp Hbad; cbn [bad_texts] in Hbad; cbn].
  - rewrite Hp. cbn. rewrite parse_hash_run. destruct (hex_decode (sp_proof_hash body)) as [h|]; [|by do 2 eexists].
    destruct (Nat.eqb_spec (length h) 32) as [Hl|Hl]; [rewrite decide_True by done|rewrite decide_False by done; by do 2 eexists].
    cbn in Hbad. destruct (String.eqb _ _); [done|]. cbn in Hbad. destruct (hex_decode _); [done|]. by do 2 eexists.
  - destruct (hex_decode nonce); [done|]. by do 2 eexists.
  - destruct (parse_address wallet); [done|]. by do 2 eexists.
  - destruct (parse_address wallet); [done|]. by do 2 eexists.
Qed.

Lemma created_answers state ip body w :
  (malformed (POST_sessions ip body) = true →
   ∃ msg, router state (POST_sessions ip body) w = (Some (400, ErrorBody msg), w)) ∧
  (malformed (POST_sessions ip body) = false → failing state (POST_sessions ip body) w = true →
   ∃ w', router state (POST_sessions ip body) w = (Some (500, ErrorBody "internal error"), w')).
Proof.
  cbn [router malformed failing]. split.
  - intros Hbad. destruct (create_session_malformed b clk fuel state ip body w) as (msg & E); [|exists msg; unfold api, respond; by rewrite E].
    destruct (parse_address (cr_wallet body)) as [a|]; [right|by left].
    destruct (parse_client_type (cr_client_type body)) as [ct|]; [right|by left]. cbn in Hbad.
    destruct (from_str_id (cr_chain body)); [left|by right].
    destruct (hex_decode (cr_commit_hash body)) as [h|]; [|done]. intros h' [= <-].
    cbn in Hbad. by destruct (Nat.eqb_spec (length h) 32).
  - unfold with_wallet, api, respond, Service.create_session, parse_wallet, mbind, M_bind, internal, on_redis, map_err, zoom.
    rewrite ok_or_run. destruct (parse_address (cr_wallet body)) as [a|]; [|done]. cbv beta iota.
    rewrite ok_or_run. destruct (parse_client_type (cr_client_type body)) as [ct|]; [|done]. cbv beta iota.
    rewrite parse_hash_run. destruct (hex_decode (cr_commit_hash body)) as [h|]; [|done]. cbn [none orb].
    destruct (Nat.eqb_spec (length h) 32) as [Hl|]; [rewrite decide_True by done|done]. cbv beta iota.
    rewrite ok_or_run. destruct (from_str_id (cr_chain body)); [|done].
    intros _. cbn. unfold errs.
    destruct (check_wallet _ _ _ (app_redis w)) as [[r|e|] v]; [done| |done]. by eexists.
Qed.

End router.

(** ** A run of the system

    The session of [Service.toy_run] as requests, then a second end, the operator's
    list, and a reading of the metrics. *)
#[local] Existing Instances toy_timer toy_crypto toy_message_signer toy_grpc toy_service_codec
  toy_proposal_signer toy_chain run_codec toy_admin_crypto toy_env toy_urls toy_pool.
Definition toy_requests : list Request :=
  [POST_sessions "10.0.0.1" toy_create; POST_proofs "s6" toy_submit; POST_proofs "s6" toy_submit; POST_end "s6" "!";
   POST_end "s6" "!"; GET_metrics].
Definition toy_events : list event * Service.App MemRedis nat :=
  serve_all Debug run_clk 10 send_all ["session_active_count"] toy_state toy_requests toy_app.
Definition toy_list : Cli := mkCli (Some "postgres://") None None None None None None List_.
Definition toy_operated : outcome CliError unit * CliWorld nat :=
  AdminCli.run Debug toy_list (mkCliWorld (app_db toy_events.2) (app_net toy_events.2) []).
Definition toy_trace : list event := toy_events.1 ++ [Operated toy_list toy_operated.1].
Definition toy_end : Service.App MemRedis nat := set_net (cw_net toy_operated.2) (set_db (cw_db toy_operated.2) toy_events.2).

Lemma toy_steps : steps Debug run_clk 10 send_all ["session_active_count"] toy_state toy_app toy_trace toy_end.
Proof.
  unfold toy_trace. eapply Steps_snoc.
  - exact (serve_all_steps Debug run_clk 10 send_all ["session_active_count"] toy_state toy_requests toy_app [] toy_app
      (Steps_none _ _ _ _ _ _ _)).
  - exact (Step_operator Debug run_clk 10 send_all ["session_active_count"] toy_state toy_list [] toy_events.2).
Qed.
Example toy_answers : (λ e, match e with Handled _ (Some r) => r | _ => (0, NoContent) end) <$> toy_trace =
  [(201, CreatedBody (mkCreateSessionResponse "s6" None)); (200, ProofBody (mkSubmitProofResponse true "Low"));
   (200, ProofBody (mkSubmitProofResponse true "Low")); (200, EndBody "completed");
   (404, ErrorBody "session not found"); (200, TextBody "session_active_count 0"); (0, NoContent)].
Proof. vm_compute. reflexivity. Qed.

Lemma toy_app_ok : system_ok toy_app.
Proof. split; [split; constructor|constructor|by apply map_Forall_empty|done]. Qed.

Lemma system_invariant_witness :
  NoDup (pr_session_id <$> rows toy_end) ∧ pr_session_id <$> rows toy_end = ["s6"].
Proof.
  split; [|vm_compute; reflexivity].
  destruct (system_invariant Debug run_clk 10 send_all ["session_active_count"] toy_state toy_app _ _ toy_steps toy_app_ok)
    as [[H _] _ _ _]. exact H.
Defined.

Lemma rows_backed_witness :
  Forall (λ row, ∃ w1 nonce row0, mintable Debug run_clk toy_state (pr_session_id row) nonce w1 row0 ∧
                   as_minted row = as_minted row0) (rows toy_end) ∧
  pr_session_id <$> rows toy_end = ["s6"].
Proof.
  split; [|vm_compute; reflexivity]. apply Forall_forall. intros row Hin.
  destruct (rows_backed Debug run_clk 10 send_all ["session_active_count"] toy_state toy_app _ _ row toy_steps Hin)
    as [(row0 & Hin0 & _)|(es1 & w1 & nonce & es2 & row0 & _ & _ & _ & Hm & Heq)]; [by apply not_elem_of_nil in Hin0|].
  by exists w1, nonce, row0.
Defined.

Lemma one_settlement_per_session_witness :
  (count (ended_ok "s6") toy_trace + live "s6" toy_end ≤ count (opened "s6") toy_trace)%nat ∧
  count (ended_ok "s6") toy_trace = 1%nat.
Proof.
  split; [|vm_compute; reflexivity].
  destruct (one_settlement_per_session Debug run_clk 10 send_all ["session_active_count"] toy_state "s6" toy_app _ _ toy_steps)
    as [H _]. unfold live in H at 2. cbn [sampled app_twap toy_app] in H. rewrite Nat.add_0_r in H. exact H.
Defined.
