(* ===== verification/Interleave.v ===== *)
(** * Concurrent requests

    The service runs one task per request on a multi-threaded runtime. A [thread] is
    a task as its accesses to the shared state, each atomic: one call of a store, one
    section under a lock, one update of a metric. A schedule is the order in which
    the accesses of the tasks happen. The handlers that share state across an access
    are given as threads here; run alone a thread is the sequential definition. *)
From S2P Require Import Prelude Text Common Twap Validator Redis SessionStore RandomX NodeCoordinator Oracle.
From S2P Require Import Postgres Onchain Service Admin.

(** ** Threads and schedules *)
Inductive thread (W A : Type) : Type :=
  | Done (a : A)
  | Await {B : Type} (act : W → B * W) (k : B → thread W A).
Arguments Done {W A} _.
Arguments Await {W A B} _ _.

(** A thread alone, to its end. *)
Fixpoint run {W A} (t : thread W A) (w : W) : A * W :=
  match t with
  | Done a => (a, w)
  | Await act k => run (k (act w).1) (act w).2
  end.

(** One step, and the rest in case of success: [?] after an await. *)
Definition await {W E A B} (m : M W E A) (k : A → thread W (outcome E B)) : thread W (outcome E B) :=
  Await m (λ o, match o with Ok a => k a | Err e => Done (Err e) | Panic => Done Panic end).

Lemma run_await {W E A B} (m : M W E A) (k : A → thread W (outcome E B)) (f : A → M W E B) w :
  (∀ a w', run (k a) w' = f a w') → run (await m k) w = (a ← m; f a) w.
Proof. intros Hk. unfold await, mbind, M_bind. cbn. destruct (m w) as [[a|e|] w']; cbn; [apply Hk|done..]. Qed.

(** The next access is the [i]-th thread's. *)
Definition resume {W A} (i : nat) (s : list (thread W A) * W) : list (thread W A) * W :=
  match s.1 !! i with
  | Some (Await act k) => (<[i := k (act s.2).1]> s.1, (act s.2).2)
  | _ => s
  end.
Definition interleave {W A} (schedule : list nat) (s : list (thread W A) * W) : list (thread W A) * W :=
  foldl (λ s i, resume i s) s schedule.

Lemma interleave_invariant {W A} (I : list (thread W A) * W → Prop) schedule s :
  (∀ i s, I s → I (resume i s)) → I s → I (interleave schedule s).
Proof. intros Hstep. revert s. induction schedule as [|i l IH]; intros s Hs; [done|]. apply IH. by apply Hstep. Qed.

Lemma interleave_length {W A} schedule (s : list (thread W A) * W) : length (interleave schedule s).1 = length s.1.
Proof.
  apply (interleave_invariant (λ s', length s'.1 = length s.1)); [|done]. intros i [ts w]. unfold resume. cbn [fst snd].
  destruct (ts !! i) as [[a|B act k]|]; [done| |done]. cbn [fst]. by rewrite length_insert.
Qed.

(** The threads that have ended well. *)
Definition succeeded {W E A} (t : thread W (outcome E A)) : bool :=
  match t with Done (Ok _) => true | _ => false end.
Definition successes {W E A} (ts : list (thread W (outcome E A))) : nat :=
  length (filter (λ t, succeeded t = true) ts).

Lemma successes_insert {W E A} (ts : list (thread W (outcome E A))) i t t' :
  ts !! i = Some t → succeeded t = false →
  successes (<[i := t']> ts) = (successes ts + if succeeded t' then 1 else 0)%nat.
Proof.
  intros Hi Ht. unfold successes. rewrite insert_take_drop by by eapply lookup_lt_Some.
  rewrite <-(take_drop_middle ts i t Hi) at 3. rewrite !filter_app, !filter_cons, !length_app.
  rewrite (decide_False (P := succeeded t = true)) by by rewrite Ht.
  destruct (succeeded t') eqn:Es; [rewrite decide_True by done|rewrite decide_False by done]; cbn; lia.
Qed.

(** ** Proofs of one session submitted at the same time *)
Section proofs.
Context {R : Type} `{!RedisServer R, Codec : !SessionCodec} (clk : nat → DateTime).

(** [store_proof]: it waits for the [GET], then for the [SET]. *)
Definition store_proof_thread (session_id : SessionId) (proof : PartialProof)
    : thread (renv R) (outcome SessionManagerError unit) :=
  let key := proofs_key session_id in
  await (query clk as_opt_string (GET key)) (λ existing,
  await (proofs ← match existing with
                  | Some payload => json (proofs_from_json payload)
                  | None => mret []
                  end;
         payload ← json (proofs_to_json (proofs ++ [proof]));
         exec_unit clk (SET key payload TTL_SECS)) (λ u, Done (Ok u))).

Lemma store_proof_thread_run session_id proof w :
  run (store_proof_thread session_id proof) w = store_proof clk session_id proof w.
Proof.
  unfold store_proof_thread, store_proof. apply run_await. intros existing w'.
  set (m := mbind _ _). transitivity ((u ← m; mret u) w'); [by apply run_await|].
  unfold mbind at 1, M_bind at 1. by destruct (m w') as [[u|e|] w''].
Qed.
End proofs.

(** ** Sign-ins with one nonce at the same time *)
Section logins.
Context {R X P C Key : Type} `{!RedisServer R, Codec : !SessionCodec, !PgServer, !OracleNet X, !Rpc X P,
  !NodeClient X C, !Timer X, !AttestationCrypto, !ProposalSigner Key, !ServiceCodec, !AdminCrypto}.
Context (clk : nat → DateTime).
Abbreviation App := (App R X).
Abbreviation State := (AppState (P:=P) (C:=C) (Key:=Key)).

(** [login]: it reads the clock, then waits for the lock of the nonce store. *)
Definition login_thread (state : State) (body : LoginRequest) : thread App (outcome AuthError LoginResponse) :=
  match st_admin_session_secret state with
  | None => Done (Err Unauthorized)
  | Some secret =>
      if decide (st_admin_wallets state = ∅) then Done (Err Unauthorized)
      else
        await (now_unix clk) (λ now,
        match verify_siwe (lr_message body) (lr_signature body) (st_admin_domain state) now with
        | None => Done (Err Unauthorized)
        | Some verified =>
            if decide (sv_address verified ∈ st_admin_wallets state) then
              await (consume (sv_nonce verified)) (λ live,
              if (live : bool) then
                match issue_session_token secret (sv_address verified) (st_admin_session_ttl state) now with
                | inl e => Done (Err e)
                | inr token => Done (Ok {| lg_token := token; lg_expires_in := st_admin_session_ttl state |})
                end
              else Done (Err Unauthorized))
            else Done (Err Unauthorized)
        end)
  end.

Lemma login_thread_run state body w : run (login_thread state body) w = login clk state body w.
Proof.
  rewrite login_run. unfold login_thread. destruct (st_admin_session_secret state) as [secret|]; [|done].
  case_decide; [done|]. cbn [run await]. rewrite now_unix_run. cbn [fst snd].
  destruct (verify_siwe _ _ _ _) as [v|]; [|done]. case_decide; [|done]. cbn [run await consume fst snd].
  change (app_net (ticked clk w)) with (app_net w). change (app_nonces (ticked clk w)) with (app_nonces w).
  destruct (nonce_consume _ _ _) as [live nonces]. cbn [fst snd]. destruct live; [|done].
  by destruct (issue_session_token _ _ _ _).
Qed.

(** A thread that succeeds only by taking the nonce [n] out of the store, and never
    puts it there. *)
Fixpoint takes (n : string) (t : thread App (outcome AuthError LoginResponse)) : Prop :=
  match t with
  | Done r => ∀ a, r ≠ Ok a
  | Await act k => ∀ w, let r := act w in
      (takes n (k r.1) ∧ (app_nonces w !! n = None → app_nonces r.2 !! n = None)) ∨
      (is_Some (app_nonces w !! n) ∧ app_nonces r.2 !! n = None ∧ ∃ a, k r.1 = Done a)
  end.

Definition present (n : string) (w : App) : nat := if decide (is_Some (app_nonces w !! n)) then 1 else 0.
Definition one_taker (n : string) (s : list (thread App (outcome AuthError LoginResponse)) * App) : Prop :=
  (successes s.1 + present n s.2 ≤ 1)%nat ∧ Forall (λ t, (∃ a, t = Done a) ∨ takes n t) s.1.

Lemma one_taker_resume n i s : one_taker n s → one_taker n (resume i s).
Proof.
  destruct s as [ts w]. intros [Hc Hf]. unfold resume. cbn [fst snd] in *.
  destruct (ts !! i) as [[a|B act k]|] eqn:Hi; [done| |done].
  destruct (Forall_lookup_1 _ _ _ _ Hf Hi) as [[a Ha]|Ht]; [done|]. cbn in Ht.
  split; cbn [fst snd].
  - rewrite (successes_insert _ _ _ _ Hi) by done. unfold present in *.
    destruct (Ht w) as [[Hk Hn]|(Hs & Hn & a & Ha)].
    + destruct (k (act w).1) as [[a|e|]|] eqn:Ek; cbn [takes succeeded] in *; [by destruct (Hk a)|..];
        (destruct (decide (is_Some (app_nonces w !! n))) as [|Hno]; repeat case_decide; try lia;
         exfalso; apply eq_None_not_Some in Hno; rewrite Hn in *; by destruct_and?; eauto using is_Some_None).
    + rewrite (decide_True (P := is_Some (app_nonces w !! n))) in Hc by done. rewrite Hn, decide_False by apply is_Some_None.
      destruct (succeeded _); lia.
  - apply Forall_insert; [done|]. destruct (Ht w) as [[Hk _]|(_ & _ & a & Ha)]; [by right|left; by exists a].
Qed.

Lemma verify_siwe_nonce m sig d now v : verify_siwe m sig d now = Some v → siwe_field m "Nonce:" = Some (sv_nonce v).
Proof.
  unfold verify_siwe. intros Hv.
  repeat match goal with
  | H : (?o ≫= _) = Some _ |- _ => destruct o eqn:?; cbn [mbind option_bind] in *; [|done]
  | H : (if ?c then _ else _) = Some _ |- _ => destruct c; try done
  | H : match ?o with _ => _ end = Some _ |- _ => destruct o; try done
  end; simplify_eq; done.
Qed.

(** The nonce a request carries. *)
Definition request_nonce (body : LoginRequest) : string := default "" (siwe_field (lr_message body) "Nonce:").

Lemma login_thread_takes state body : takes (request_nonce body) (login_thread state body).
Proof.
  unfold login_thread. destruct (st_admin_session_secret state) as [secret|]; [|done].
  case_decide; [done|]. cbn [takes await]. intros w. rewrite now_unix_run. cbn [fst snd]. left. split; [|done].
  destruct (verify_siwe _ _ _ _) as [v|] eqn:Ev; [|done]. case_decide; [|done]. cbn [takes await consume].
  assert (request_nonce body = sv_nonce v) as -> by (unfold request_nonce; by rewrite (verify_siwe_nonce _ _ _ _ _ Ev)).
  intros w'. unfold consume, nonce_consume. cbn [fst snd set_nonces app_nonces]. rewrite lookup_delete_eq.
  destruct (app_nonces w' !! sv_nonce v) as [issued|]; [|by left].
  right. split; [done|]. split; [done|]. destruct (nonce_fresh _ _); [|by eexists].
  destruct (issue_session_token _ _ _ _); by eexists.
Qed.

Lemma login_thread_unfinished state body : succeeded (login_thread state body) = false.
Proof. unfold login_thread. destruct (st_admin_session_secret state); [|done]. by case_decide. Qed.

(** C20. However the executor interleaves them, of any number of sign-ins that carry
    the same nonce (a request sent many times at once, say) at most one succeeds. *)
Theorem one_login_per_nonce state bodies n schedule (w : App) :
  Forall (λ body, request_nonce body = n) bodies →
  (successes (interleave schedule (login_thread state <$> bodies, w)).1 ≤ 1)%nat.
Proof.
  intros Hb. assert (one_taker n (interleave schedule (login_thread state <$> bodies, w))) as [Hc _]; [|lia].
  apply interleave_invariant; [intros; by apply one_taker_resume|]. split; cbn [fst snd].
  - assert (successes (login_thread state <$> bodies) = 0%nat) as ->; [|unfold present; case_decide; lia].
    clear. unfold successes. induction bodies as [|body bodies IH]; [done|].
    rewrite fmap_cons, filter_cons, login_thread_unfinished. exact IH.
  - apply Forall_fmap. eapply Forall_impl; [exact Hb|]. intros body <-. right. apply login_thread_takes.
Qed.
End logins.

(** ** Schedules that run *)
#[local] Existing Instances toy_console_codec toy_wallet_crypto toy_admin_crypto toy_timer toy_message_signer toy_grpc
  toy_proposal_signer toy_chain.
Definition race_codec : SessionCodec :=
  table_codec [sample_ctx] [[sample_proof 0]; [sample_proof 1]; [sample_proof 0; sample_proof 1]]
    ltac:(apply Nat.leb_le; reflexivity) ltac:(apply Nat.leb_le; reflexivity).
#[local] Existing Instance race_codec.

Lemma one_login_per_nonce_witness :
  let s := interleave [0; 1; 2; 1; 0; 2]%nat (login_thread run_clk toy_state <$> replicate 3 console_login, console_app) in
  (successes s.1 ≤ 1)%nat ∧ succeeded <$> s.1 = [false; true; false].
Proof.
  split; [|vm_compute; reflexivity]. apply (one_login_per_nonce run_clk toy_state _ (request_nonce console_login)).
  repeat constructor.
Defined.

(** Two proofs of one session at once: both are answered, one is lost. *)
Theorem concurrent_proofs_lost :
  let submit p := store_proof_thread sclk "s0" (sample_proof p) in
  let both := interleave [0; 1; 0; 1]%nat ([submit 0; submit 1], s_empty) in
  let one_by_one := interleave [0; 0; 1; 1]%nat ([submit 0; submit 1], s_empty) in
  both.1 = [Done (Ok tt); Done (Ok tt)] ∧ (get_proofs sclk "s0" both.2).1 = Ok [sample_proof 1] ∧
  one_by_one.1 = [Done (Ok tt); Done (Ok tt)] ∧
  (get_proofs sclk "s0" one_by_one.2).1 = Ok [sample_proof 0; sample_proof 1].
Proof. cbv zeta. split; [vm_compute; reflexivity|]. split; [vm_compute; reflexivity|]. split; vm_compute; reflexivity. Qed.
