(* ===== verification/Concurrent.v ===== *)
(** * Requests served at the same time

    The handlers that share a session's state as threads (Interleave), a step for
    each call of a store, of the network, of the clock, of a metric, and for each
    section under the lock of the TWAP map. Alone, a request's thread is its
    sequential handler; together, under any schedule, the ends of a session still
    settle it once. *)
From S2P Require Import Prelude Text Common Metrics Payout MintCeiling Twap Anomaly Validator Redis RateLimiter.
From S2P Require Import SessionStore RandomX NodeCoordinator Oracle Postgres Onchain Service Wallet Admin AdminCli.
From S2P Require Import Router Interleave.

(** ** Threads as a monad *)
Definition T (W E A : Type) : Type := thread W (outcome E A).

#[export] Instance T_ret W E : MRet (T W E) := λ A a, Done (Ok a).
Fixpoint thread_bind {W E A B} (f : A → thread W (outcome E B)) (t : thread W (outcome E A)) : thread W (outcome E B) :=
  match t with
  | Done (Ok a) => f a
  | Done (Err e) => Done (Err e)
  | Done Panic => Done Panic
  | Await act k => Await act (λ x, thread_bind f (k x))
  end.
#[export] Instance T_bind W E : MBind (T W E) := λ A B f t, thread_bind f t.

(** One atomic step, and a computation that touches no shared state. *)
Definition call {W E A} (m : M W E A) : T W E A := Await m Done.
Definition raise {W E A} (e : E) : T W E A := Done (Err e).
Definition require_some {W E A} (o : option A) (e : E) : T W E A :=
  match o with Some a => mret a | None => raise e end.
Definition computed {W E A} (o : option A) : T W E A := match o with Some a => mret a | None => Done Panic end.
(** The result mapped. *)
Fixpoint thread_map {W A B} (f : A → B) (t : thread W A) : thread W B :=
  match t with Done a => Done (f a) | Await act k => Await act (λ x, thread_map f (k x)) end.

(** ** A thread alone *)
Definition alone {W E A} (t : T W E A) (m : M W E A) : Prop := ∀ w, run t w = m w.

Lemma run_bind {W E A B} (t : T W E A) (f : A → T W E B) : ∀ w,
  run (t ≫= f) w = match run t w with
                   | (Ok a, w') => run (f a) w' | (Err e, w') => (Err e, w') | (Panic, w') => (Panic, w') end.
Proof. induction t as [[a|e|]|B' act k IH]; intros w; [done..|]. cbn. apply IH. Qed.
Lemma run_map {W A B} (f : A → B) (t : thread W A) : ∀ w, run (thread_map f t) w = (f (run t w).1, (run t w).2).
Proof. induction t as [a|B' act k IH]; intros w; [done|]. cbn. apply IH. Qed.

Lemma alone_call {W E A} (m : M W E A) : alone (call m) m.
Proof. intros w. unfold call. cbn. by destruct (m w). Qed.
Lemma alone_ret {W E A} (a : A) : alone (mret a : T W E A) (mret a).
Proof. done. Qed.
Lemma alone_raise {W E A} (e : E) : alone (raise e : T W E A) (fail e).
Proof. done. Qed.
Lemma alone_require {W E A} (o : option A) (e : E) : alone (require_some o e : T W E A) (ok_or o e).
Proof. by destruct o. Qed.
Lemma alone_computed {W E A} (o : option A) : alone (computed o : T W E A) (lift_arith o).
Proof. by destruct o. Qed.
Lemma alone_bind {W E A B} (t : T W E A) (m : M W E A) (f : A → T W E B) (g : A → M W E B) :
  alone t m → (∀ a, alone (f a) (g a)) → alone (t ≫= f) (m ≫= g).
Proof. intros Ht Hf w. rewrite run_bind, Ht. unfold mbind, M_bind. destruct (m w) as [[a|e|] w']; [apply Hf|done..]. Qed.
(** A sequence under one call in the handler. *)
Lemma alone_assoc {W E A B D} (t : T W E D) (m : M W E A) (f : A → M W E B) (g : B → M W E D) :
  alone t (a ← m; b ← f a; g b) → alone t (b ← (a ← m; f a); g b).
Proof. intros Ht w. rewrite Ht. unfold mbind, M_bind. by destruct (m w) as [[a|e|] w']. Qed.

Lemma bind_ext_l {W E A B} (m m' : M W E A) (f : A → M W E B) w : m w = m' w → (m ≫= f) w = (m' ≫= f) w.
Proof. unfold mbind, M_bind. by intros ->. Qed.

Ltac alone_tac :=
  repeat match goal with
  | |- alone (mret _) _ => apply alone_ret
  | |- alone (raise _) _ => apply alone_raise
  | |- alone (call _) _ => apply alone_call
  | |- alone (require_some _ _) _ => apply alone_require
  | |- alone (computed _) _ => apply alone_computed
  | |- alone _ _ => solve [auto with alone]
  | |- alone (mbind _ _) (mbind _ _) => apply alone_bind; [|intros ?]
  | |- alone (match ?x with _ => _ end) _ => destruct x
  end.
Create HintDb alone discriminated.

Section threads.
Context {R X P C Key Reg Family : Type} `{!RedisServer R, Codec : !SessionCodec, !PgServer, !OracleNet X, !Rpc X P,
  !NodeClient X C, !Timer X, !AttestationCrypto, !ProposalSigner Key, !ServiceCodec, !AdminCrypto, !Prometheus Reg Family}.
Context (b : build) (clk : nat → DateTime) (fuel : nat).
Context (try_send : AnomalyEvent → list AnomalyEvent → bool * list AnomalyEvent).
Context (registry : Reg).
Abbreviation App := (App R X).
Abbreviation State := (AppState (P:=P) (C:=C) (Key:=Key)).
Abbreviation HT := (T App ApiError).
Abbreviation HMX := (HM (R:=R) (X:=X)).

(** A call of a store whose error is the handler's. *)
Definition redis_call {E A} (m : M (renv R) E A) : HT A := call (internal (on_redis m)).

(** *** [POST /sessions] *)
Definition parse_hash_pure (raw field : string) : HT bytes :=
  bytes ← require_some (hex_decode raw) (BadRequest field);
  if decide (length bytes = 32%nat) then mret bytes else raise (BadRequest field).
Definition enforce_pure (r : RateLimitResult) : HT unit :=
  match r with Allowed => mret tt | Denied _ _ => raise RateLimited end.

Definition create_session_thread (state : State) (peer_ip : string) (body : CreateSessionRequest)
    : HT (Z * CreateSessionResponse) :=
  wallet ← require_some (parse_address (cr_wallet body)) (BadRequest "invalid wallet address");
  client_type ← require_some (parse_client_type (cr_client_type body)) (BadRequest "unknown client_type");
  commit_hash ← parse_hash_pure (cr_commit_hash body) "invalid commit_hash";
  let commodity := parse_commodity (cr_commodity body) in
  target_chain ← require_some (from_str_id (cr_chain body))
    (BadRequest "invalid or missing chain (expected ethereum or polygon)");
  let assigned_site := id ← cr_assigned_node_id body; st_node_sites state !! id in
  r ← redis_call (check_wallet clk address_display wallet);
  enforce_pure r ;;
  r ← redis_call (check_ip clk peer_ip);
  enforce_pure r ;;
  count ← redis_call (get_active_session_count b clk fuel wallet);
  active_sessions_count ← computed count;
  started_at ← call (now_utc clk);
  let ctx := {| ctx_wallet := wallet; ctx_ip := Some peer_ip; ctx_client_type := client_type;
                ctx_active_sessions_count := active_sessions_count; ctx_started_at := started_at;
                ctx_last_submission_at := None; ctx_assigned_node_id := cr_assigned_node_id body;
                ctx_commodity := commodity; ctx_target_chain := target_chain;
                ctx_cpu_threads := cr_cpu_threads body; ctx_assigned_site := assigned_site |} in
  session_id ← redis_call (SessionStore.create_session clk ctx);
  redis_call (set_commit clk session_id commit_hash) ;;
  now ← call (now_utc clk);
  call (modify (λ w, set_twap (<[session_id := twap_new now]> (app_twap w)) w)) ;;
  call (gauge 1) ;;
  mret (201, {| csr_session_id := session_id; csr_assigned_site := assigned_site |}).

(** *** [POST /sessions/{id}/proofs] *)
Definition count_proof_thread (session_id : SessionId) (difficulty : Z) (result : ValidationResult) : HT unit :=
  call (ignore (increment_proof_count clk session_id)) ;;
  if is_invalid result then call (ignore (increment_rejected_proof_count clk session_id))
  else
    now ← call (now_utc clk);
    call (ignore (record_accepted_proof clk session_id difficulty (timestamp now))) ;;
    call (ignore (touch_last_activity clk session_id)) ;;
    call (ignore (increment_verified_proof_count clk session_id)).

Definition assess_thread (session_id : SessionId) (wallet : Address) (result : ValidationResult) : HT SuspicionLevel :=
  let triggers := match result with Invalid reason => [reason] | _ => [] end in
  now ← call (now_utc clk);
  assessment ← call (on_events (process try_send now session_id wallet [result]));
  let level := as_level assessment in
  (if decide (level ≠ Low) then
     now ← call (now_utc clk);
     let event := {| ae_session_id := session_id; ae_wallet := wallet; ae_score := as_score_bps assessment;
                     ae_triggers := triggers; ae_level := level; ae_timestamp := now |} in
     _ ← call (attempt (on_db (insert_anomaly_event event)) : HMX (PostgresStoreError + unit));
     let trigger_label := from_option reason_debug "none" (head triggers) in
     call (metric (λ m, mkMetrics (m_session_active m) (m_proofs m)
               (m_anomalies m ++ [(level_debug level, trigger_label)]) (m_proposals m)))
   else mret tt) ;;
  mret level.

(** The list of proofs is read and written in two steps; the sample is taken under
    the map's write lock, in one. *)
Definition submit_proof_thread (state : State) (session_id : SessionId) (body : SubmitProofRequest)
    : HT SubmitProofResponse :=
  session ← redis_call (get_session clk session_id);
  ctx ← require_some session NotFound;
  paused ← redis_call (is_paused clk session_id);
  (if (paused : bool) then raise (Conflict "session paused") else mret tt : HT unit) ;;
  proof_hash ← parse_hash_pure (sp_proof_hash body) "invalid proof_hash";
  proof_input ← (if String.eqb (sp_proof_input body) "" then mret []
                 else require_some (hex_decode (sp_proof_input body)) (BadRequest "invalid proof_input"));
  submitted_at ← call (now_utc clk);
  let proof := {| pp_session_id := session_id; pp_wallet := ctx_wallet ctx; pp_sequence := sp_sequence body;
                  pp_hashrate := sp_hashrate body; pp_proof_hash := proof_hash;
                  pp_proof_input := proof_input; pp_difficulty := sp_difficulty body;
                  pp_submitted_at := submitted_at; pp_signature := None |} in
  let result := validate mkPreFilterValidator proof PreFilter ctx in
  count_proof_thread session_id (sp_difficulty body) result ;;
  let key := proofs_key session_id in
  existing ← redis_call (query clk as_opt_string (GET key));
  redis_call (proofs ← match existing with Some payload => json (proofs_from_json payload) | None => mret [] end;
              payload ← json (proofs_to_json (proofs ++ [proof]));
              exec_unit clk (SET key payload TTL_SECS)) ;;
  call (metric (λ m, mkMetrics (m_session_active m)
            (m_proofs m ++ [(client_type_debug (ctx_client_type ctx), result_label result)])
            (m_anomalies m) (m_proposals m))) ;;
  level ← assess_thread session_id (ctx_wallet ctx) result;
  call (sample_session b state session_id (ctx_commodity ctx)) ;;
  mret {| spr_accepted := negb (is_invalid result); spr_suspicion_level := level_debug level |}.

(** *** [POST /sessions/{id}/end] *)
Fixpoint submit_all_thread (l : list (Chain * OracleSubmitter (P:=P))) (commodity price : Z) : HT unit :=
  match l with
  | [] => mret tt
  | (_, submitter) :: l =>
      _ ← call (attempt (on_net (submit_price submitter commodity price)) : HMX (OnchainClientError + bytes));
      submit_all_thread l commodity price
  end.

Definition session_seed_thread (state : State) : HT bytes :=
  n ← call (internal (on_net (get_block_number (st_onchain_client state))));
  hash ← call (internal (on_net (get_block_hash (st_onchain_client state) (sat_u U64_MAX (n - SEED_BLOCK_OFFSET)))));
  mret (default (replicate 32 0) hash).

Definition staking_summary_thread (state : State) (wallet : Address) : HT StakingSummary :=
  ethereum_result ← call (read_chain state Ethereum wallet);
  polygon_result ← call (read_chain state Polygon wallet);
  computed (build_summary b ethereum_result polygon_result).

Definition compute_payout_thread (state : State) (session_id : SessionId) (ctx : SessionContext)
    (twap : TwapResult) : HT (Z * option Z) :=
  let duration_secs := Z.max (num_seconds (tr_session_end twap - tr_session_start twap)) 0 in
  payout_config ← call (payout_config_with_live_edge state);
  rate ← call (attempt (on_redis (get_session_hashrate b clk session_id (ctx_client_type ctx)))
                 : HMX (SessionManagerError + Z));
  let avg_hashrate := match rate with inr r => r | inl _ => 0 end in
  base_gross ← computed (calculate_gross_prm b avg_hashrate duration_secs payout_config (ctx_commodity ctx));
  summary ← staking_summary_thread state (ctx_wallet ctx);
  boosted_gross ← computed (apply_staking_boost b base_gross (su_effective_boost_bps summary));
  payout_result ← computed (calculate_payout_from_gross b boosted_gross (tr_twap twap) (ctx_commodity ctx)
                              payout_config);
  mret (gross_calib_to_wei boosted_gross,
        try_from I64_MIN I64_MAX (pr_net_usdc_scaled payout_result / NET_USDC_SCALE_TO_CENTS)).

Definition settle_thread (state : State) (session_id : SessionId) (ctx : SessionContext) (mint_amount_wei : Z)
    (net_usd_cents : option Z) (attestation : AttestationResult) : HT (Z * string) :=
  created_at ← call (now_utc clk);
  let unsigned := {| mp_session_id := session_id; mp_wallet := ctx_wallet ctx; mp_gross_prm := mint_amount_wei;
                     mp_net_usd_cents := net_usd_cents; mp_commodity := ctx_commodity ctx;
                     mp_chain := ctx_target_chain ctx; mp_attestation := attestation;
                     mp_backend_sig := mkSignature 0 0 false; mp_created_at := created_at;
                     mp_status := Pending |} in
  bytes ← (match sign_proposal unsigned (st_signing_key state) with
           | inl _ => raise ApiInternal
           | inr bytes => mret bytes
           end : HT bytes);
  sig ← require_some (signature_try_from bytes) ApiInternal;
  let proposal := {| mp_session_id := mp_session_id unsigned; mp_wallet := mp_wallet unsigned;
                     mp_gross_prm := mp_gross_prm unsigned; mp_net_usd_cents := mp_net_usd_cents unsigned;
                     mp_commodity := mp_commodity unsigned; mp_chain := mp_chain unsigned;
                     mp_attestation := mp_attestation unsigned; mp_backend_sig := sig;
                     mp_created_at := mp_created_at unsigned; mp_status := mp_status unsigned |} in
  _ ← call (attempt (on_db (insert_mint_proposal proposal)) : HMX (PostgresStoreError + unit));
  call (metric (λ m, mkMetrics (m_session_active m) (m_proofs m) (m_anomalies m) (m_proposals m ++ ["Pending"]))) ;;
  call (gauge (-1)) ;;
  redis_call (delete_session clk (ctx_wallet ctx) session_id) ;;
  mret (200, "completed").

Definition mint_thread (state : State) (session_id : SessionId) (ctx : SessionContext) (twap : TwapResult)
    (attestation : AttestationResult) : HT (Z * string) :=
  '(mint_amount_wei, net_usd_cents) ← compute_payout_thread state session_id ctx twap;
  total ← call (attempt (on_db total_minted_wei_24h) : HMX (PostgresStoreError + string));
  match total with
  | inl _ => mret (200, "mint_ceiling_unverified")
  | inr total =>
      let minted_24h_wei := default U128_MAX (parse_u U128_MAX total) in
      if daily_ceiling_wei state <? sat_u U128_MAX (minted_24h_wei + mint_amount_wei) then
        mret (200, "mint_ceiling_exceeded")
      else settle_thread state session_id ctx mint_amount_wei net_usd_cents attestation
  end.

(** The calculator leaves the map under the write lock. *)
Definition remove_calculator (session_id : SessionId) : HMX (option TwapCalculator) :=
  map ← gets app_twap;
  modify (λ w, set_twap (delete session_id (app_twap w)) w) ;;
  mret (map !! session_id).
Definition take_twap_thread (session_id : SessionId) : HT (option TwapResult) :=
  calculator ← call (remove_calculator session_id);
  match calculator with
  | None => mret None
  | Some calc => now ← call (now_utc clk); computed (finalize b calc now)
  end.

Definition finish_thread (state : State) (session_id : SessionId) (ctx : SessionContext) (assigned : NodeId)
    : HT (Z * string) :=
  result ← take_twap_thread session_id;
  match result with
  | None => mret (400, "no_samples")
  | Some twap =>
      submit_all_thread (st_oracle_submitters state) (commodity_to_u8 (ctx_commodity ctx)) (tr_twap twap) ;;
      proof_set ← redis_call (get_proofs clk session_id);
      seed ← session_seed_thread state;
      attestation ← call (attempt (on_net (attest state session_id proof_set seed assigned))
                            : HMX (NodeCoordinatorError + AttestationResult));
      match attestation with
      | inr attestation_result => mint_thread state session_id ctx twap attestation_result
      | inl _ => mret (500, "attestation_failed")
      end
  end.

Definition end_session_thread (state : State) (session_id : SessionId) (nonce_hex : string) : HT (Z * string) :=
  session ← redis_call (get_session clk session_id);
  ctx ← require_some session NotFound;
  nonce ← require_some (hex_decode nonce_hex) (BadRequest "invalid nonce");
  verified ← redis_call (verify_reveal clk session_id nonce);
  if negb verified then mret (400, "rejected")
  else
    match ctx_assigned_node_id ctx with
    | None => mret (400, "no_assigned_node")
    | Some assigned_node_id => finish_thread state session_id ctx assigned_node_id
    end.

(** *** The answer of a request served as a thread

    The handlers above and the sign-in (Interleave) step by step; every other one as
    a single step, since none of them changes a session, a proposal or a nonce
    twice. *)
Definition respond_thread {E A} (error : E → Z * string) (ok : A → Z * Body) (t : T App E A) : thread App Response :=
  thread_map (λ o, match o with
                   | Ok a => Some (ok a)
                   | Err e => Some ((error e).1, ErrorBody (error e).2)
                   | Panic => None
                   end) t.
Definition serve_thread (state : State) (req : Request) : thread App Response :=
  match req with
  | POST_admin_login body => respond_thread auth_into_response (json_of LoginBody) (login_thread clk state body)
  | POST_sessions peer_ip body =>
      respond_thread into_response (λ r, (r.1, CreatedBody r.2)) (create_session_thread state peer_ip body)
  | POST_proofs session_id body =>
      respond_thread into_response (json_of ProofBody) (submit_proof_thread state session_id body)
  | POST_end session_id nonce =>
      respond_thread into_response (λ r, (r.1, EndBody r.2)) (end_session_thread state session_id nonce)
  | _ => Await (router b clk fuel try_send registry state req) Done
  end.

(** ** Each thread alone is its handler *)
Lemma alone_parse_hash raw field : alone (parse_hash_pure raw field) (parse_hash raw field : HMX bytes).
Proof. unfold parse_hash_pure, parse_hash. alone_tac. Qed.
Lemma alone_enforce r : alone (enforce_pure r) (enforce r : HMX unit).
Proof. by destruct r. Qed.
#[local] Hint Resolve alone_parse_hash alone_enforce : alone.
#[local] Hint Extern 1 (alone (redis_call _) _) => apply alone_call : alone.

Lemma create_session_alone state ip body :
  alone (create_session_thread state ip body) (Service.create_session b clk fuel state ip body).
Proof. unfold create_session_thread, Service.create_session, parse_wallet, ended. alone_tac. Qed.

Lemma alone_count_proof sid d r : alone (count_proof_thread sid d r) (count_proof clk sid d r).
Proof. unfold count_proof_thread, count_proof. alone_tac. Qed.
Lemma alone_assess sid wallet r : alone (assess_thread sid wallet r) (assess clk try_send sid wallet r).
Proof. unfold assess_thread, assess. alone_tac. Qed.
#[local] Hint Resolve alone_count_proof alone_assess : alone.

(** Two calls of a store, one after the other. *)
Lemma redis_bind {E A B} (m : M (renv R) E A) (f : A → M (renv R) E B) (w : App) :
  (internal (on_redis (m ≫= f)) : HMX B) w = (internal (on_redis m) ≫= λ a, (internal (on_redis (f a)) : HMX B)) w.
Proof.
  unfold internal, map_err, on_redis, zoom, mbind, M_bind. destruct (m (app_redis w)) as [[a|e|] v]; [|done..].
  cbn [fst snd app_redis set_redis]. by destruct (f a v) as [[u|e|] v'].
Qed.

Lemma submit_proof_alone state sid body :
  alone (submit_proof_thread state sid body) (submit_proof b clk try_send state sid body).
Proof.
  unfold submit_proof_thread, submit_proof. do 7 (apply alone_bind; [alone_tac|intros ?]). cbv zeta.
  apply alone_bind; [alone_tac|intros _].
  intros w. etransitivity; [|symmetry; apply bind_ext_l; unfold store_proof; apply redis_bind]. revert w.
  match goal with |- ∀ w, run ?t w = ?m w => change (alone t m) end.
  apply alone_assoc. alone_tac.
Qed.

Lemma alone_submit_all l c p : alone (submit_all_thread l c p) (submit_all l c p : HMX unit).
Proof.
  induction l as [|[ch s] l IH]; [apply alone_ret|]. cbn [submit_all_thread submit_all].
  apply alone_bind; [apply alone_call|done].
Qed.
Lemma alone_session_seed state : alone (session_seed_thread state) (session_seed state).
Proof. unfold session_seed_thread, session_seed. alone_tac. Qed.
Lemma alone_staking_summary state wallet : alone (staking_summary_thread state wallet) (staking_summary b state wallet).
Proof. unfold staking_summary_thread, staking_summary. alone_tac. Qed.
#[local] Hint Resolve alone_submit_all alone_session_seed alone_staking_summary : alone.
Lemma alone_compute_payout state sid ctx t :
  alone (compute_payout_thread state sid ctx t) (compute_payout b clk state sid ctx t).
Proof. unfold compute_payout_thread, compute_payout. alone_tac. Qed.
Lemma alone_settle state sid ctx amount cents att :
  alone (settle_thread state sid ctx amount cents att) (settle clk state sid ctx amount cents att).
Proof. unfold settle_thread, settle, with_status. alone_tac. Qed.
#[local] Hint Resolve alone_compute_payout alone_settle : alone.
Lemma alone_mint state sid ctx t att : alone (mint_thread state sid ctx t att) (mint b clk state sid ctx t att).
Proof. unfold mint_thread, mint, with_status. alone_tac. Qed.
Lemma alone_take_twap sid : alone (take_twap_thread sid) (take_twap b clk sid).
Proof.
  intros w. transitivity ((remove_calculator sid ≫= λ calculator : option TwapCalculator, match calculator with
    | None => mret None | Some calc => now ← now_utc clk; lift_arith (finalize b calc now) end) w).
  - revert w. apply alone_bind; [apply alone_call|intros [calc|]]; alone_tac.
  - done.
Qed.
#[local] Hint Resolve alone_mint alone_take_twap : alone.
Lemma end_session_alone state sid nonce :
  alone (end_session_thread state sid nonce) (end_session b clk state sid nonce).
Proof. unfold end_session_thread, end_session, finish_thread, finish, with_status. alone_tac. Qed.

Lemma respond_alone {E A} error (ok : A → Z * Body) (t : T App E A) (m : M App E A) w :
  alone t m → run (respond_thread error ok t) w = respond error ok m w.
Proof. intros Ht. unfold respond_thread, respond. rewrite run_map, Ht. by destruct (m w) as [[a|e|] w']. Qed.

(** Serving a request step by step is serving it. Each handler that shares a
    session, split at its calls of the stores, the network, the clocks and the
    metrics, gives the same answer and the same final state as the sequential
    handler when nothing else runs in between. *)
Theorem served_alone state req w : run (serve_thread state req) w = router b clk fuel try_send registry state req w.
Proof.
  destruct req; cbn [serve_thread];
    try (cbn [run]; by destruct (router b clk fuel try_send registry state _ w)).
  - apply respond_alone. intros w'. apply login_thread_run.
  - apply respond_alone, create_session_alone.
  - apply respond_alone, submit_proof_alone.
  - apply respond_alone, end_session_alone.
Qed.

(** ** One settlement per session, under any schedule *)
Section settle_once.
Context (sid : SessionId).

(** A thread that holds [n] tickets of the session: a step may take the session's
    calculator for a ticket, and return a ticket to open the session; [Q] holds of
    the tickets at the end and the result. *)
Fixpoint tickets {A} (n : nat) (t : thread App A) (Q : nat → A → Prop) : Prop :=
  match t with
  | Done a => Q n a
  | Await act k => ∀ w, ∃ n', (n' + live sid (act w).2 ≤ n + live sid w)%nat ∧ tickets n' (k (act w).1) Q
  end.

Lemma tickets_mono {A} (t : thread App A) : ∀ n (Q Q' : nat → A → Prop),
  (∀ n a, Q n a → Q' n a) → tickets n t Q → tickets n t Q'.
Proof.
  induction t as [a|B act k IH]; intros n Q Q' HQ Ht; [by apply HQ|]. intros w. destruct (Ht w) as (n' & Hn & Hk).
  exists n'. split; [done|]. by eapply IH.
Qed.
Lemma tickets_bind {E A B} (t : T App E A) (f : A → T App E B) : ∀ n (Q : nat → outcome E B → Prop),
  tickets n t (λ n o, match o with Ok a => tickets n (f a) Q | Err e => Q n (Err e) | Panic => Q n Panic end) →
  tickets n (t ≫= f) Q.
Proof.
  induction t as [[a|e|]|B' act k IH]; intros n Q Ht; [done..|]. intros w. destruct (Ht w) as (n' & Hn & Hk).
  exists n'. split; [done|]. by apply IH.
Qed.
Lemma tickets_map {A B} (f : A → B) (t : thread App A) : ∀ n (Q : nat → B → Prop),
  tickets n t (λ n a, Q n (f a)) → tickets n (thread_map f t) Q.
Proof.
  induction t as [a|B' act k IH]; intros n Q Ht; [done|]. intros w. destruct (Ht w) as (n' & Hn & Hk).
  exists n'. split; [done|]. by apply IH.
Qed.

(** A computation that neither opens nor takes the session keeps its tickets. *)
Definition idle {A} (t : thread App A) : Prop := ∀ n, tickets n t (λ n' _, n' = n).

Lemma idle_call {E A} (m : M App E A) : leaves (sampled sid) m → idle (call m).
Proof. intros Hm n w. exists n. unfold live. rewrite (Hm w). done. Qed.
Lemma idle_done {A} (a : A) : idle (Done a).
Proof. done. Qed.
Lemma idle_require {E A} (o : option A) (e : E) : idle (require_some o e : T App E A).
Proof. by destruct o. Qed.
Lemma idle_computed {E A} (o : option A) : idle (computed o : T App E A).
Proof. by destruct o. Qed.
Lemma idle_bind {E A B} (t : T App E A) (f : A → T App E B) : idle t → (∀ a, idle (f a)) → idle (t ≫= f).
Proof.
  intros Ht Hf n. apply tickets_bind. eapply tickets_mono; [|apply Ht]. intros n' [a|e|] ->; [apply Hf|done..].
Qed.
Lemma idle_tickets {E A B} (t : T App E A) (f : A → T App E B) n (Q : nat → outcome E B → Prop) :
  idle t → (∀ e, Q n (Err e)) → Q n Panic → (∀ a, tickets n (f a) Q) → tickets n (t ≫= f) Q.
Proof.
  intros Ht He Hp Hf. apply tickets_bind. eapply tickets_mono; [|apply Ht]. intros n' [a|e|] ->; [apply Hf|apply He|done].
Qed.
Lemma idle_mono {A} (t : thread App A) n (Q : nat → A → Prop) : idle t → (∀ a, Q n a) → tickets n t Q.
Proof. intros Ht HQ. eapply tickets_mono; [|apply Ht]. by intros n' a ->. Qed.

Ltac idle_tac :=
  repeat match goal with
  | |- idle (mbind _ _) => apply idle_bind; [|intros ?]
  | |- idle (mret _) => apply idle_done
  | |- idle (raise _) => apply idle_done
  | |- idle (Done _) => apply idle_done
  | |- idle (require_some _ _) => apply idle_require
  | |- idle (computed _) => apply idle_computed
  | |- idle (redis_call _) => apply idle_call; solve [leaves_tac]
  | |- idle (call _) => apply idle_call; solve [leaves_tac]
  | |- idle (match ?x with _ => _ end) => destruct x
  | |- idle _ => solve [auto]
  end.

Lemma idle_submit_all l c p : idle (submit_all_thread l c p).
Proof. induction l as [|[ch s] l IH]; [done|]. cbn [submit_all_thread]. idle_tac. Qed.

(** What follows the taking of the calculator. *)
Lemma idle_mint state sid' ctx t att : idle (mint_thread state sid' ctx t att).
Proof.
  unfold mint_thread, compute_payout_thread, staking_summary_thread, settle_thread, payout_config_with_live_edge, read_chain.
  idle_tac.
Qed.

Lemma idle_sample (state : State) sid' c : leaves (sampled sid) (sample_session b state sid' c : HMX unit).
Proof.
  destruct (decide (sid' = sid)) as [->|Hn]; [apply sample_session_sampled|].
  intros w. unfold sampled. pose proof (sample_session_others b state sid' c sid (not_eq_sym Hn) w) as Hs. cbn in Hs. by rewrite Hs.
Qed.
Lemma idle_submit_proof state sid' body : idle (submit_proof_thread state sid' body).
Proof.
  unfold submit_proof_thread, parse_hash_pure, count_proof_thread, assess_thread. idle_tac.
  apply idle_call, idle_sample.
Qed.

(** Taking the session's calculator gives a ticket, or nothing. *)
Lemma tickets_take sid' :
  tickets 0 (call (remove_calculator sid')) (λ n o, ∃ calc, o = Ok calc ∧ (sid' = sid → is_Some calc → n = 1%nat)).
Proof.
  intros w. change (remove_calculator sid' w) with (Ok (E:=ApiError) (app_twap w !! sid'), set_twap (delete sid' (app_twap w)) w).
  cbn [fst snd]. unfold live, sampled. cbn [app_twap set_twap]. destruct (decide (sid' = sid)) as [->|Hn].
  - exists (if app_twap w !! sid is Some _ then 1 else 0)%nat. rewrite lookup_delete_eq. split; [by destruct (app_twap w !! sid)|].
    exists (app_twap w !! sid). split; [done|]. by intros _ [c ->].
  - exists 0%nat. rewrite lookup_delete_ne by done. split; [done|]. by eexists.
Qed.

(** The end of a session answers 200 only with a ticket. *)
Definition paid (sid' : SessionId) (n : nat) (o : outcome ApiError (Z * string)) : Prop :=
  sid' = sid → match o with Ok (code, _) => code = 200 → n = 1%nat | _ => True end.
Lemma tickets_finish state sid' ctx node : tickets 0 (finish_thread state sid' ctx node) (paid sid').
Proof.
  unfold finish_thread, take_twap_thread.
  assert (∀ n, (sid' = sid → n = 1%nat) → ∀ A (t : T App ApiError A) (f : A → HT (Z * string)),
    idle t → (∀ a, idle (f a)) → tickets n (t ≫= f) (paid sid')) as Hrest.
  { intros n Hn A t f Ht Hf. apply (idle_mono (t ≫= f)); [by apply idle_bind|]. intros [[code s]|e|] Hs; [by intros _; apply Hn|done..]. }
  apply tickets_bind, tickets_bind. eapply tickets_mono; [|apply tickets_take].
  intros n o (calc & -> & Hcalc). destruct calc as [calc|]; [|by intros _].
  apply tickets_bind. apply idle_mono; [idle_tac|]. intros [now|e|]; [|done..].
  apply idle_mono; [apply idle_computed|]. intros [[twap|]|e|]; [|by intros _|done..].
  apply Hrest; [by intros; eapply Hcalc| |intros _].
  - apply idle_submit_all.
  - unfold session_seed_thread. idle_tac. apply idle_mint.
Qed.

Lemma tickets_end_session state sid' nonce : tickets 0 (end_session_thread state sid' nonce) (paid sid').
Proof.
  unfold end_session_thread.
  apply idle_tickets; [idle_tac|done..|intros session]. apply idle_tickets; [idle_tac|done..|intros ctx].
  apply idle_tickets; [idle_tac|done..|intros bytes]. apply idle_tickets; [idle_tac|done..|intros verified].
  destruct verified; [|by intros _]. cbn [negb]. destruct (ctx_assigned_node_id ctx) as [node|]; [|by intros _].
  apply tickets_finish.
Qed.

(** Opening a session uses at most one ticket. *)
Lemma tickets_create_session state ip body : tickets 1 (create_session_thread state ip body) (λ _ _, True).
Proof.
  unfold create_session_thread, parse_hash_pure, enforce_pure.
  do 14 (apply idle_tickets; [idle_tac|done..|intros ?]).
  apply tickets_bind. intros w. exists (if decide (a10 = sid) then 0 else 1)%nat. split.
  - unfold live, sampled. cbn. case_decide as Hs.
    + subst a10. rewrite lookup_insert_eq. lia.
    + by rewrite lookup_insert_ne.
  - apply idle_mono; [apply idle_done|]. intros [u|e|]; [|done..]. apply idle_mono; [idle_tac|done].
Qed.

Lemma idle_await {E A B} (m : M App E A) (k : A → thread App (outcome E B)) :
  leaves (sampled sid) m → (∀ a, idle (k a)) → idle (await m k).
Proof.
  intros Hm Hk n w. exists n. unfold live. rewrite (Hm w). split; [done|]. destruct (m w).1; [apply Hk|done..].
Qed.
Lemma idle_login (state : State) body : idle (login_thread clk state body).
Proof.
  unfold login_thread. destruct (st_admin_session_secret state) as [secret|]; [|done]. case_decide; [done|].
  apply idle_await; [done|intros now]. destruct (verify_siwe _ _ _ _) as [v|]; [|done]. case_decide; [|done].
  apply idle_await; [done|intros [|]]; [|done]. by destruct (issue_session_token _ _ _ _).
Qed.

(** The thread of a request, with what an observer sees at its end. *)
Definition serve_event (state : State) (req : Request) : thread App event :=
  thread_map (Handled req) (serve_thread state req).
Definition opens (req : Request) : nat := match req with POST_sessions _ _ => 1 | _ => 0 end.

Lemma router_live state req w :
  keeps_sessions req = false → live sid (router b clk fuel try_send registry state req w).2 = live sid w.
Proof. intros Hk. by apply router_leaves; try (intros; apply leaves_zoom). Qed.
Lemma tickets_serve state req :
  tickets (opens req) (serve_event state req) (λ n e, ((if ended_ok sid e then 1 else 0) ≤ n)%nat).
Proof.
  apply tickets_map. destruct req; cbn [serve_thread opens];
    try (intros w; exists 0%nat; rewrite router_live by done; split; [done|cbn; lia]).
  - apply tickets_map, idle_mono; [apply idle_login|intros a; cbn; lia].
  - apply tickets_map. eapply tickets_mono; [|apply tickets_create_session]. intros n a _. cbn. lia.
  - apply tickets_map, idle_mono; [apply idle_submit_proof|intros a; cbn; lia].
  - apply tickets_map. eapply tickets_mono; [|apply tickets_end_session]. intros n o Hp.
    destruct o as [[code s]|[]|]; cbn; try lia. destruct (String.eqb_spec session_id sid) as [->|]; [|repeat case_match; lia].
    specialize (Hp eq_refl). cbn in Hp. destruct (decide (code = 200)) as [->|Hc]; [rewrite Hp by done; lia|].
    by repeat (case_match; try lia).
Qed.

(** The threads that have ended with an answer of 200 to the end of the session. *)
Definition settled (ts : list (thread App event)) : nat :=
  length (filter (λ t, match t with Done e => ended_ok sid e | _ => false end = true) ts).

Lemma sum_list_insert ns i n n' : ns !! i = Some n → (sum_list (<[i := n']> ns) + n = sum_list ns + n')%nat.
Proof.
  assert (∀ m l, sum_list (m :: l) = (m + sum_list l)%nat) as Hc by done.
  revert i. induction ns as [|m ns IH]; intros i; [done|]. destruct i as [|i]; cbn [lookup list_lookup insert list_insert]; rewrite !Hc.
  - intros [= ->]. lia.
  - intros Hi%IH. change (m + sum_list (<[i := n']> ns) + n = m + sum_list ns + n')%nat. lia.
Qed.

(** The tickets of the threads and the session itself are never more than at the start. *)
Definition in_budget (budget : nat) (s : list (thread App event) * App) : Prop :=
  ∃ ns, Forall2 (λ n t, tickets n t (λ n e, ((if ended_ok sid e then 1 else 0) ≤ n)%nat)) ns s.1 ∧
    (sum_list ns + live sid s.2 ≤ budget)%nat.

Lemma in_budget_resume budget i s : in_budget budget s → in_budget budget (resume i s).
Proof.
  destruct s as [ts w]. intros (ns & Hf & Hle). unfold resume. cbn [fst snd] in *.
  destruct (ts !! i) as [[e|B act k]|] eqn:Hi; [by exists ns| |by exists ns].
  destruct (Forall2_lookup_r _ _ _ _ _ Hf Hi) as (n & Hn & Ht). destruct (Ht w) as (n' & Hlive & Ht').
  exists (<[i := n']> ns). split; cbn [fst snd]; [by apply Forall2_insert|].
  pose proof (sum_list_insert ns i n n' Hn). lia.
Qed.

Lemma settled_budget budget s : in_budget budget s → (settled s.1 + live sid s.2 ≤ budget)%nat.
Proof.
  intros (ns & Hf & Hle). assert (settled s.1 ≤ sum_list ns)%nat; [|lia]. clear Hle. unfold settled.
  induction Hf as [|n t ns ts Ht Hf IH]; [done|]. rewrite filter_cons. cbn [sum_list].
  destruct t as [e|B act k]; [|rewrite decide_False by done; lia]. cbn in Ht.
  destruct (ended_ok sid e); [rewrite decide_True by done|rewrite decide_False by done]; cbn; lia.
Qed.

Lemma settled_interleave state reqs schedule w :
  let s := interleave schedule (serve_event state <$> reqs, w) in
  (settled s.1 + live sid s.2 ≤ sum_list (opens <$> reqs) + live sid w)%nat.
Proof.
  apply settled_budget. apply interleave_invariant; [intros; by apply in_budget_resume|].
  exists (opens <$> reqs). split; [|done]. cbn [fst]. induction reqs as [|req reqs IH]; constructor; [apply tickets_serve|done].
Qed.
(** C8. One settlement per session under any schedule. However the steps of any number
    of requests are interleaved (ends of one session sent many times at once, mixed
    with proofs and anything else), the ends of a session that are answered 200 are
    at most one if it was open, and one more for each request that opens a session
    meanwhile. *)
Theorem one_settlement_concurrently state reqs schedule w :
  let s := interleave schedule (serve_event state <$> reqs, w) in
  (settled s.1 + live sid s.2 ≤ sum_list (opens <$> reqs) + live sid w)%nat.
Proof. apply settled_interleave. Qed.
End settle_once.

(** ** Every mint is backed, under any schedule *)
Section money.
Context (state : State).

(** The proposals are well formed, and each is the row of an attested session. *)
Definition books (w : App) : Prop := db_ok (app_db w) ∧ Forall (backed clk state) (rows w).

(** A thread whose steps keep the books, and whose result satisfies [Q]. *)
Fixpoint honest {A} (t : thread App A) (Q : A → Prop) : Prop :=
  match t with
  | Done a => Q a
  | Await act k => ∀ w, books w → books (act w).2 ∧ honest (k (act w).1) Q
  end.

Lemma honest_mono {A} (t : thread App A) (Q Q' : A → Prop) : (∀ a, Q a → Q' a) → honest t Q → honest t Q'.
Proof. intros HQ. induction t as [a|B act k IH]; [apply HQ|]. intros Ht w Hw. destruct (Ht w Hw). auto. Qed.
Lemma honest_bind {E A B} (t : T App E A) (f : A → T App E B) (Q : outcome E B → Prop) :
  honest t (λ o, match o with Ok a => honest (f a) Q | Err e => Q (Err e) | Panic => Q Panic end) → honest (t ≫= f) Q.
Proof. induction t as [[a|e|]|B' act k IH]; intros Ht; [done..|]. intros w Hw. destruct (Ht w Hw). split; [done|by apply IH]. Qed.
Lemma honest_map {A B} (f : A → B) (t : thread App A) (Q : B → Prop) :
  honest t (λ a, Q (f a)) → honest (thread_map f t) Q.
Proof. induction t as [a|B' act k IH]; intros Ht; [done|]. intros w Hw. destruct (Ht w Hw). split; [done|by apply IH]. Qed.

(** A call that leaves the proposals alone, with what it says of its result. *)
Lemma books_rows (w w' : App) : rows w' = rows w → books w → books w'.
Proof. unfold books, db_ok, rows. by intros ->. Qed.
Lemma honest_call {E A} (m : M App E A) (Q : outcome E A → Prop) :
  leaves rows m → (∀ w, books w → Q (m w).1) → honest (call m) Q.
Proof. intros Hm HQ w Hw. split; [by apply (books_rows w)|by apply HQ]. Qed.
(** A computation that leaves the proposals alone, whatever its result. *)
Abbreviation plain t := (honest t (λ _, True)).
Lemma plain_call {E A} (m : M App E A) : leaves rows m → plain (call m).
Proof. intros Hm. by apply honest_call. Qed.
Lemma plain_require {E A} (o : option A) (e : E) : plain (require_some o e : T App E A).
Proof. by destruct o. Qed.
Lemma plain_computed {E A} (o : option A) : plain (computed o : T App E A).
Proof. by destruct o. Qed.
Lemma plain_bind {E A B} (t : T App E A) (f : A → T App E B) : plain t → (∀ a, plain (f a)) → plain (t ≫= f).
Proof. intros Ht Hf. apply honest_bind. eapply honest_mono; [|exact Ht]. intros [a|e|] _; [apply Hf|done..]. Qed.
Lemma plain_select {A} (q : DateTime → Db → string + A) : plain (call (attempt (on_db (select q)) : HMX (PostgresStoreError + A))).
Proof. apply plain_call, rows_select. Qed.

Ltac plain_tac :=
  repeat match goal with
  | |- honest (mbind _ _) (λ _, True) => apply plain_bind; [|intros ?]
  | |- honest (mret _) _ => exact I
  | |- honest (raise _) _ => exact I
  | |- honest (Done _) _ => exact I
  | |- honest (require_some _ _) _ => apply plain_require
  | |- honest (computed _) _ => apply plain_computed
  | |- honest (call (attempt (on_db (insert_anomaly_event _)))) _ => apply plain_call, insert_anomaly_rows
  | |- honest (redis_call _) _ => apply plain_call; solve [leaves_tac]
  | |- honest (call _) _ => apply plain_call; solve [leaves_tac]
  | |- honest (match ?x with _ => _ end) _ => destruct x
  | |- honest _ _ => solve [auto]
  end.

Lemma plain_create_session ip body : plain (create_session_thread state ip body).
Proof. unfold create_session_thread, parse_hash_pure, enforce_pure. plain_tac. Qed.
Lemma plain_submit_proof sid body : plain (submit_proof_thread state sid body).
Proof.
  unfold submit_proof_thread, parse_hash_pure, count_proof_thread, assess_thread. plain_tac. apply plain_call, sample_session_rows.
Qed.
Lemma plain_submit_all l c p : plain (submit_all_thread l c p).
Proof. induction l as [|[ch s] l IH]; [exact I|]. cbn [submit_all_thread]. plain_tac. Qed.
Lemma plain_take_twap sid : plain (take_twap_thread sid).
Proof. unfold take_twap_thread. apply plain_bind; [by apply plain_call|]. intros [calc|]; plain_tac. Qed.
Lemma plain_login body : plain (login_thread clk state body).
Proof.
  unfold login_thread. destruct (st_admin_session_secret state) as [secret|]; [|done]. case_decide; [done|].
  intros w Hw. split; [by apply (books_rows w)|]. rewrite now_unix_run. cbn [fst].
  destruct (verify_siwe _ _ _ _) as [v|]; [|done]. case_decide; [|done]. intros w' Hw'. split; [by apply (books_rows w')|].
  destruct (consume (sv_nonce v) w').1 as [[|]|e|]; try done. by destruct (issue_session_token _ _ _ _).
Qed.

(** *** The end of a session *)
Lemma honest_plain {E A B} (t : T App E A) (f : A → T App E B) :
  plain t → (∀ a, plain (f a)) → plain (t ≫= f).
Proof. apply plain_bind. Qed.
Lemma honest_step {E A B} (m : M App E A) (f : A → T App E B) (Q : A → Prop) :
  leaves rows m → (∀ w a, books w → (m w).1 = Ok a → Q a) → (∀ a, Q a → plain (f a)) → plain (call m ≫= f).
Proof.
  intros Hm HQ Hf. apply honest_bind, honest_call; [done|]. intros w Hw. specialize (HQ w).
  destruct (m w).1 as [a|e|]; [by apply Hf, HQ|done..].
Qed.

Lemma compute_payout_range sid ctx t :
  honest (compute_payout_thread state sid ctx t) (λ o, ∀ amount cents, o = Ok (amount, cents) → 0 ≤ amount ≤ U128_MAX).
Proof.
  unfold compute_payout_thread, staking_summary_thread.
  assert (∀ E A B (t : T App E A) (f : A → T App E B) (Q : outcome E B → Prop),
    plain t → (∀ e, Q (Err e)) → Q Panic → (∀ a, honest (f a) Q) → honest (t ≫= f) Q) as Hskip.
  { intros E A B t' f Q Ht He Hp Hf. apply honest_bind. eapply honest_mono; [|exact Ht]. intros [a|e|] _; auto. }
  do 6 (apply Hskip; [unfold payout_config_with_live_edge, read_chain; plain_tac|done..|intros ?]).
  cbn. intros amount cents [= <- _]. by apply sat_u_range.
Qed.

(** The row that a proposal of an attested session becomes is backed. *)
Definition settling (sid : SessionId) (ctx : SessionContext) (amount : Z) (att : AttestationResult) : Prop :=
  ∃ v node proofs seed x,
    (get_session clk sid v).1 = Ok (Some ctx) ∧ ctx_assigned_node_id ctx = Some node ∧
    (coordinate_attestation (st_node_coordinator state) net_now sid proofs seed node x).1 = inr att ∧
    0 ≤ amount ≤ U128_MAX ∧
    amount ≤ daily_ceiling (st_mint_ceiling state) (st_mint_ceiling_active_users state)
               (st_mint_ceiling_avg_daily_prm_per_user state) * PRM_WEI.

Lemma insert_books p sid ctx amount cents att (w : App) :
  settling sid ctx amount att → mp_session_id p = sid → mp_wallet p = ctx_wallet ctx → mp_gross_prm p = amount →
  mp_net_usd_cents p = cents → mp_commodity p = ctx_commodity ctx → mp_chain p = ctx_target_chain ctx →
  mp_attestation p = att → books w → books (on_db (insert_mint_proposal p) w : outcome PostgresStoreError unit * App).2.
Proof.
  intros (v & node & proofs & seed & x & Hg & Hn & Hatt & Ha & Hle) Hid Hw Hamount Hc Hcom Hch Hat [Hdb Hb]. subst.
  split; [by apply insert_ok|]. unfold rows, on_db, zoom. cbn [fst snd app_db set_db].
  destruct (insert_mint_proposal_rows p (app_db w)) as [->|(json & Hj & _ & ->)]; [done|].
  apply Forall_app. split; [done|]. apply Forall_singleton. destruct (attested_quorum _ _ _ _ _ _ _ Hatt) as (H3 & Hnd & Hall).
  exists v, ctx, node, proofs, seed, x, (mp_attestation p). cbn [proposal_row pr_session_id pr_gross_prm].
  split_and!; try done. unfold is_row_of. cbn. by rewrite Hw, Hcom, Hch.
Qed.

Lemma plain_settle sid ctx amount cents att : settling sid ctx amount att → plain (settle_thread state sid ctx amount cents att).
Proof.
  intros Hs. unfold settle_thread. apply plain_bind; [plain_tac|intros created]. cbv zeta.
  apply plain_bind; [plain_tac|intros bytes]. apply plain_bind; [plain_tac|intros sig].
  apply plain_bind; [|intros _; plain_tac].
  intros w Hw. split; [|done]. unfold attempt.
  match goal with |- books (match on_db (insert_mint_proposal ?p) w with _ => _ end).2 =>
    pose proof (insert_books p sid ctx amount cents att w Hs eq_refl eq_refl eq_refl eq_refl eq_refl eq_refl eq_refl Hw) as Hb;
    destruct (on_db (insert_mint_proposal p) w) as [[u|e|] w'] end; exact Hb.
Qed.

Lemma plain_mint sid ctx t att :
  (∀ amount, 0 ≤ amount ≤ U128_MAX → amount ≤ daily_ceiling (st_mint_ceiling state) (st_mint_ceiling_active_users state)
               (st_mint_ceiling_avg_daily_prm_per_user state) * PRM_WEI → settling sid ctx amount att) →
  plain (mint_thread state sid ctx t att).
Proof.
  intros Hs. unfold mint_thread. apply honest_bind. eapply honest_mono; [|apply compute_payout_range].
  intros [[amount cents]|e|] Hr; [|done..]. specialize (Hr _ _ eq_refl).
  apply (honest_step _ _ (λ r, ∀ text, r = inr text → ∃ total, 0 ≤ total ∧ text = show total)); [apply rows_select| |].
  - intros w a Hw Ha text ->. unfold attempt, on_db, zoom in Ha. cbn [fst snd] in Ha.
    destruct (total_minted_wei_24h (app_db w)) as [[s|e|] db] eqn:E; cbn in Ha; [|done..]. injection Ha as <-.
    apply total_minted_ok in E as ->. eexists. split; [|done].
    change (0 ≤ minted_24h_of w). apply minted_24h_nonneg, Hw.
  - intros [e|text] Ht; [done|]. destruct (Ht text eq_refl) as (total & Htotal & ->).
    destruct (_ <? _) eqn:Hc; [done|]. apply ceiling_check in Hc; [|lia]. apply plain_settle, Hs; lia.
Qed.

Lemma plain_end_session sid nonce : plain (end_session_thread state sid nonce).
Proof.
  unfold end_session_thread.
  apply (honest_step _ _ (λ session, ∀ ctx, session = Some ctx → ∃ v, (get_session clk sid v).1 = Ok (Some ctx))); [leaves_tac| |].
  { intros w a _ Ha ctx ->. exists (app_redis w). unfold internal, map_err, on_redis, zoom in Ha. cbn [fst snd] in Ha.
    destruct (get_session clk sid (app_redis w)) as [[o|e|] v]; cbn in *; by simplify_eq. }
  intros [ctx|] Hctx; [|done]. destruct (Hctx ctx eq_refl) as [v Hv]. clear Hctx.
  apply honest_bind. change (plain (nonce_bytes ← require_some (hex_decode nonce) (BadRequest "invalid nonce");
    verified ← redis_call (verify_reveal clk sid nonce_bytes);
    if negb verified then mret (400, "rejected")
    else match ctx_assigned_node_id ctx with
         | None => mret (400, "no_assigned_node")
         | Some assigned_node_id => finish_thread state sid ctx assigned_node_id
         end : T App ApiError (Z * string))).
  apply plain_bind; [plain_tac|intros bytes]. apply plain_bind; [plain_tac|intros [|]]; [|done].
  cbn [negb]. destruct (ctx_assigned_node_id ctx) as [node|] eqn:Hnode; [|done]. unfold finish_thread.
  apply plain_bind; [apply plain_take_twap|intros [twap|]]; [|done].
  apply plain_bind; [apply plain_submit_all|intros _]. apply plain_bind; [plain_tac|intros proofs].
  apply plain_bind; [unfold session_seed_thread; plain_tac|intros seed].
  apply (honest_step _ _ (λ r, ∀ att, r = inr att →
    ∃ x, (coordinate_attestation (st_node_coordinator state) net_now sid proofs seed node x).1 = inr att)); [leaves_tac| |].
  - intros w a _ Ha att ->. exists (app_net w). unfold attempt, on_net, zoom, attest in Ha. cbn [fst snd] in Ha.
    destruct (coordinate_attestation _ _ _ _ _ _ (app_net w)) as [[e|r] x]; cbn in Ha; by simplify_eq.
  - intros [e|att] Hatt; [done|]. destruct (Hatt att eq_refl) as [x Hx]. apply plain_mint.
    intros amount Ha Hle. exists v, node, proofs, seed, x. split_and!; (done || lia).
Qed.

Lemma honest_serve req : plain (serve_event state req).
Proof.
  apply honest_map. destruct req; cbn [serve_thread];
    try (intros w Hw; split; [|done]; eapply books_rows; [|exact Hw];
         by apply router_leaves; try apply rows_select_only).
  - apply honest_map, plain_login.
  - apply honest_map, plain_create_session.
  - apply honest_map, plain_submit_proof.
  - apply honest_map, plain_end_session.
Qed.

Lemma books_interleave reqs schedule w :
  books w → books (interleave schedule (serve_event state <$> reqs, w)).2.
Proof.
  intros Hw. set (s := (_, w)).
  assert (Forall (λ t, plain t) (interleave schedule s).1 ∧ books (interleave schedule s).2) as [_ Hb]; [|done].
  apply interleave_invariant.
  - intros i [ts w1] [Hts Hw1]. unfold resume. cbn [fst snd] in *.
    destruct (ts !! i) as [[e|B act k]|] eqn:Hi; [done| |done]. cbn [fst snd].
    destruct (Forall_lookup_1 _ _ _ _ Hts Hi w1 Hw1) as [Hw2 Hk]. split; [by apply Forall_insert|done].
  - split; [|done]. cbn [fst s]. apply Forall_fmap, Forall_true. intros req. apply honest_serve.
Qed.
(** C7. Every mint is backed under any schedule. If the proposals are one per session
    with amounts of 128 bits, and each is the row of an attested session, then they
    stay so after any interleaving of the steps of any requests: checking a session's
    state and writing its proposal are far apart, and still no order of other
    requests' steps in between adds a row that its own quorum did not attest, that
    pays another wallet than its session's, or that is above the daily ceiling. *)
Theorem backed_concurrently reqs schedule w :
  books w → books (interleave schedule (serve_event state <$> reqs, w)).2.
Proof. apply books_interleave. Qed.
End money.
End threads.

(** ** Two ends of one session at the same time *)
#[local] Existing Instances toy_timer toy_crypto toy_message_signer toy_grpc toy_service_codec
  toy_proposal_signer toy_chain run_codec toy_admin_crypto.
(** The session of [Service.toy_run] before its end. *)
Definition toy_worked : Service.App MemRedis nat :=
  (serve_all Debug run_clk 10 send_all ["session_active_count"] toy_state (take 3%nat toy_requests) toy_app).2.
Definition toy_race (schedule : list nat) : list (thread (Service.App MemRedis nat) event) * Service.App MemRedis nat :=
  interleave schedule (serve_event Debug run_clk 10 send_all ["session_active_count"] toy_state <$>
    [POST_end "s6" "!"; POST_end "s6" "!"], toy_worked).
Definition answer (t : thread (Service.App MemRedis nat) event) : Response :=
  match t with Done (Handled _ r) => r | _ => None end.
Definition round_robin : list nat := concat (replicate 30 [0; 1]%nat).

Example toy_race_once :
  answer <$> (toy_race round_robin).1 = [Some (200, EndBody "completed"); Some (400, EndBody "no_samples")] ∧
  answer <$> (toy_race ([1; 1; 1] ++ replicate 40 0 ++ replicate 40 1)%nat).1 =
    [Some (400, EndBody "no_samples"); Some (200, EndBody "completed")].
Proof. split; vm_compute; reflexivity. Qed.

Lemma toy_worked_books : books run_clk toy_state toy_worked.
Proof.
  assert (mint_proposals (app_db toy_worked) = []) as Hm by (vm_compute; reflexivity).
  unfold books, db_ok, rows. rewrite Hm. repeat constructor.
Qed.

Lemma backed_concurrently_witness :
  books run_clk toy_state (toy_race round_robin).2 ∧ pr_session_id <$> rows (toy_race round_robin).2 = ["s6"].
Proof.
  split; [|vm_compute; reflexivity].
  exact (backed_concurrently Debug run_clk 10 send_all ["session_active_count"] toy_state
    [POST_end "s6" "!"; POST_end "s6" "!"] round_robin toy_worked toy_worked_books).
Defined.
