(* ===== verification/Main.v ===== *)
(** * crates/verification-service/src/main.rs: the service's process

    [main] from the first line to the exit: the configuration, the metrics, the
    connections and migrations, the state of the handlers, and the requests served;
    with [ServiceError] and [serve] of lib.rs. *)
From S2P Require Import Prelude Text Common Metrics MintCeiling Twap Anomaly Redis RateLimiter SessionStore RandomX.
From S2P Require Import NodeServer NodeCoordinator Oracle Postgres Onchain Service Wallet Admin AdminCli Startup Router.
From S2P Require Import Interleave Concurrent.

(** [std::io::Error], by its text. *)
Inductive IoError := mkIoError (detail : string).
Inductive ServiceError := Io (e : IoError).
#[export] Instance IoError_display : Display IoError := λ '(mkIoError detail), detail.
#[export] Instance ServiceError_display : Display ServiceError := λ '(Io e), "io error: " +:+ display e.
#[export] Instance ServiceError_error : StdError ServiceError := λ '(Io e), Some (display e).
#[export] Instance ServiceError_from_io : From IoError ServiceError := Io.
#[export] Instance ServiceError_telling : Telling ServiceError.
Proof. telling_tac. Qed.

(** [TcpListener::bind] and [axum::serve] on the network: the requests that arrive
    until the end, the order in which the runtime resumes their tasks, and how the
    serving ends. *)
Class Listener (X : Type) := {
  bind_tcp : string → X → (IoError + unit) * X;
  arrivals : X → list Request * list nat;
  serving_ends : X → (IoError + unit) * X
}.

Section main.
Context {R X Url P Channel Key Reg Family Client : Type}.
Context `{!RedisServer R, Codec : !SessionCodec, !PgServer, !OracleNet X, !Rpc X P}.
Context `{!NodeClient X (GrpcNodeClient (Channel:=Channel)), !Timer X, !AttestationCrypto, !ProposalSigner Key}.
Context `{!ServiceCodec, !AdminCrypto, !Prometheus Reg Family, !Providers Url P Key, !StartupEnv Channel Key}.
Context `{!RedisConnect X Client, !PgConnect X, !Listener X}.
Context (b : build) (clk : nat → DateTime) (fuel : nat).
Context (try_send : AnomalyEvent → list AnomalyEvent → bool * list AnomalyEvent).
Context (env : string → option string).
Abbreviation App := (App R X).
Abbreviation State := (AppState (P:=P) (C:=GrpcNodeClient (Channel:=Channel)) (Key:=Key)).

(** The process: the default registry, the stores and the network with the memory of
    the handlers, and the tasks of the requests. *)
Record Process := mkProcess { pr_registry : Reg; pr_app : App; pr_tasks : list (thread App event) }.
Definition set_registry (r : Reg) (p : Process) : Process := mkProcess r (pr_app p) (pr_tasks p).
Definition set_app (w : App) (p : Process) : Process := mkProcess (pr_registry p) w (pr_tasks p).
(** A step of [main]; an error is the exit with the message that is logged. *)
Definition PM (A : Type) : Type := M Process string A.
Definition on_network {E A} (m : M X E A) : M Process E A :=
  zoom (app_net ∘ pr_app) (λ x p, set_app (set_net x (pr_app p)) p) m.
Definition or_else {E A} (m : M Process E A) (message : string) : PM A := map_err (λ _, message) m.

(** [serve]: each request is a task. *)
Definition serve (state : State) (addr : string) : M Process ServiceError unit :=
  map_err from (on_network (of_call (bind_tcp addr))) ;;
  modify (λ p,
    let '(reqs, schedule) := arrivals (app_net (pr_app p)) in
    let tasks := serve_event b clk fuel try_send (pr_registry p) state <$> reqs in
    let '(tasks, w) := interleave schedule (tasks, pr_app p) in mkProcess (pr_registry p) w tasks) ;;
  map_err from (on_network (of_call serving_ends)).

(** The memory of the handlers as [AppState] is built: no session is sampled, no nonce
    is outstanding, the caches and the queue are empty and the metrics at zero. *)
Definition fresh_memory (w : App) : App :=
  mkApp (app_redis w) (app_db w) (app_net w) ∅ None [] (mkMetrics 0 [] [] []) ∅ ∅.

(** [main] up to the state of the handlers. *)
Definition prepare : PM (Config * State) :=
  config ← of_sum (load_config env);
  or_else (zoom pr_registry set_registry register_all) "startup failed: metrics registration" ;;
  or_else (on_network (postgres_new (cfg_database_url config))) "startup failed: postgres connect" ;;
  or_else (on_network run_migrations) "startup failed: postgres migrations" ;;
  or_else (on_network (session_store_new (cfg_redis_url config))) "startup failed: redis session store connect" ;;
  or_else (on_network (rate_limiter_new (cfg_redis_url config))) "startup failed: redis rate limiter connect" ;;
  state ← of_sum (state_of_config env config);
  mret (config, state).

Definition main : PM unit :=
  '(config, state) ← prepare;
  modify (λ p, set_app (fresh_memory (pr_app p)) p) ;;
  or_else (serve state (cfg_bind_addr config)) "startup failed: server".

(** ** Lemmas *)

(** What a step before the requests leaves alone. *)
Definition stores (p : Process) : renv R * Db * list (thread App event) :=
  (app_redis (pr_app p), app_db (pr_app p), pr_tasks p).

Lemma leaves_of_sum {E A} (r : E + A) : leaves stores (of_sum r : M Process E A).
Proof. by destruct r. Qed.
Lemma network_stores {E A} (m : M X E A) : leaves stores (on_network m).
Proof. by apply leaves_zoom. Qed.
Lemma prepare_stores : leaves stores prepare.
Proof.
  unfold prepare, or_else. apply leaves_bind; [apply leaves_of_sum|intros config].
  apply leaves_bind; [by apply leaves_map_err, leaves_zoom|intros _].
  do 4 (apply leaves_bind; [apply leaves_map_err, network_stores|intros _]).
  apply leaves_bind; [apply leaves_of_sum|intros state]. apply leaves_ret.
Qed.

Lemma network_registry {E A} (m : M X E A) : leaves pr_registry (on_network m).
Proof. by apply leaves_zoom. Qed.

Lemma prepare_ok p config state p1 :
  prepare p = (Ok (config, state), p1) →
  build_state env = inr (config, state) ∧ ∀ c, c ∈ statics → co_name c ∈ registered (pr_registry p1).
Proof.
  unfold prepare, or_else. intros Hp. minv Hp. injection Hr as -> ->.
  apply of_sum_ok in Hm as [Hc _], Hm5 as [Hs <-]. split.
  { unfold build_state. rewrite Hc. cbn [mbind exit_bind]. by rewrite Hs. }
  pose proof (network_registry (postgres_new (cfg_database_url config)) w0) as R1.
  pose proof (network_registry run_migrations w1) as R2.
  pose proof (network_registry (session_store_new (cfg_redis_url config)) w2) as R3.
  pose proof (network_registry (rate_limiter_new (cfg_redis_url config)) w3) as R4.
  rewrite Hm1 in R1. rewrite Hm2 in R2. rewrite Hm3 in R3. rewrite Hm4 in R4. cbn [snd] in *. rewrite R4, R3, R2, R1.
  apply zoom_ok in Hm0 as (r & Hreg & ->). rewrite register_all_list in Hreg. by apply register_list_ok in Hreg as [_ ?].
Qed.

(** The requests served: the ones that arrived on the bound listener, their tasks resumed
    in the order of the runtime; the end of the serving moves the network only. *)
Definition served (state : State) (addr : string) (reqs : list Request) (p p' : Process) : Prop :=
  ∃ x y schedule, bind_tcp addr (app_net (pr_app p)) = (inr tt, x) ∧ arrivals x = (reqs, schedule) ∧
    let s := interleave schedule (serve_event b clk fuel try_send (pr_registry p) state <$> reqs, set_net x (pr_app p)) in
    pr_tasks p' = s.1 ∧ pr_app p' = set_net y s.2.

Lemma serve_run state addr p o p' :
  serve state addr p = (o, p') →
  (o ≠ Ok tt ∧ stores p' = stores p) ∨ ∃ reqs, served state addr reqs p p' ∧ pr_registry p' = pr_registry p.
Proof.
  unfold serve, mbind, M_bind, map_err, on_network, zoom, of_call. cbn [fst snd].
  destruct (bind_tcp addr _) as [[e|[]] x] eqn:Eb; cbn; [intros [= <- <-]; by left|].
  destruct (arrivals x) as [reqs schedule] eqn:Ea.
  destruct (interleave schedule _) as [tasks w] eqn:Es. cbn.
  destruct (serving_ends (app_net w)) as [r y] eqn:Ee. intros Hrun. right. exists reqs.
  assert (p' = mkProcess (pr_registry p) (set_net y w) tasks) as -> by by destruct r as [e|[]]; injection Hrun.
  split; [|done]. exists x, y, schedule. cbv zeta. by rewrite Es.
Qed.

Lemma books_db (state : State) (w w' : App) : app_db w' = app_db w → books clk state w → books clk state w'.
Proof. unfold books, rows. by intros ->. Qed.

(** C2. Nothing is served unprepared, and what is served is safe. The service's
    process exits with an error before the first request, with the stores as they
    were, or it serves: then the whole configuration was good, all nine collectors are
    registered, the configured address was bound, and its tasks are exactly those of
    the requests that arrived there, run on the handlers' fresh memory. However these
    tasks are interleaved, the proposals stay one per session, each attested by its
    session's quorum under this configuration and within the daily ceiling, and no
    session is settled more often than requests to open a session arrived: none if none
    did, whatever the stores held at the start. *)
Theorem main_safe p o p' :
  pr_tasks p = [] →
  (∀ config state, build_state env = inr (config, state) → books clk state (pr_app p)) →
  main p = (o, p') →
  (o ≠ Ok tt ∧ stores p' = stores p) ∨
  ∃ config state p1 x y reqs schedule,
    prepare p = (Ok (config, state), p1) ∧ build_state env = inr (config, state) ∧
    (∀ c, c ∈ statics → co_name c ∈ registered (pr_registry p')) ∧
    bind_tcp (cfg_bind_addr config) (app_net (pr_app p1)) = (inr tt, x) ∧ arrivals x = (reqs, schedule) ∧
    let s := interleave schedule (serve_event b clk fuel try_send (pr_registry p1) state <$> reqs,
                                  set_net x (fresh_memory (pr_app p1))) in
    pr_tasks p' = s.1 ∧ pr_app p' = set_net y s.2 ∧
    books clk state (pr_app p') ∧
    ∀ sid, (settled sid (pr_tasks p') ≤ sum_list (opens <$> reqs))%nat.
Proof.
  intros Htasks Hbooks Hrun. unfold main in Hrun. match type of Hrun with (_ ≫= ?g) _ = _ => set (f := g) in Hrun end.
  change (mbind (M:=M Process string) f prepare p = (o, p')) in Hrun.
  destruct (leaves_prefix stores prepare f p prepare_stores) as [[Hst Hno]|([config state] & p1 & Hp & Hst & Hf)].
  { left. rewrite Hrun in Hst, Hno. split; [apply Hno|done]. }
  rewrite Hrun in Hf. unfold f in Hf. clear f Hrun. apply prepare_ok in Hp as Hready. destruct Hready as [Hbuild Hnames].
  unfold modify, or_else, map_err in Hf. unfold mbind, M_bind in Hf.
  set (p2 := set_app (fresh_memory (pr_app p1)) p1) in *.
  destruct (serve state (cfg_bind_addr config) p2) as [o2 p3] eqn:Es.
  assert (p3 = p' ∧ (o2 ≠ Ok tt → o ≠ Ok tt)) as [-> Ho].
  { destruct o2 as [[]|e|]; injection Hf as -> ->; (split; [done|]); (by intros _) || done. }
  apply serve_run in Es as [[Hno Hst2]|(reqs & (x & y & schedule & Hbind & Harr & Ht & Hw) & Hreg)].
  { left. split; [by apply Ho|]. rewrite Hst2. exact Hst. }
  right. exists config, state, p1, x, y, reqs, schedule. cbv zeta. split_and!; try done; [by rewrite Hreg|..].
  - rewrite Hw. eapply books_db; [done|]. apply books_interleave. eapply books_db; [done|].
    eapply books_db; [|by eapply Hbooks]. exact (f_equal (snd ∘ fst) Hst).
  - intros sid. rewrite Ht.
    pose proof (settled_interleave b clk fuel try_send (pr_registry p1) sid state reqs schedule
      (set_net x (fresh_memory (pr_app p1)))) as Hle. cbv zeta in Hle.
    assert (live sid (set_net x (fresh_memory (pr_app p1))) = 0%nat) as Hlive by done. cbn [pr_registry pr_app p2 set_app]. lia.
Qed.
End main.

(** ** A process and the witness *)
#[local] Existing Instances toy_timer toy_crypto toy_message_signer toy_grpc toy_service_codec
  toy_proposal_signer toy_chain run_codec toy_admin_crypto toy_providers toy_startup toy_pool.
#[local] Instance toy_connect : RedisConnect nat unit := {|
  client_open url := if String.prefix "redis://" url then inr tt else inl (mkRedisError "not a redis url");
  get_multiplexed_async_connection _ x := (inr tt, x)
|}.
#[local] Instance toy_listener : Listener nat := {|
  bind_tcp _ x := (inr tt, x);
  arrivals _ := ([POST_sessions "10.0.0.1" toy_create; GET_health; POST_end "s6" "?"], round_robin ++ replicate 9 2%nat);
  serving_ends x := (inr tt, x)
|}.
Definition process_env (name : string) : option string :=
  snd <$> List.find (λ p, String.eqb p.1 name)
    [ ("DATABASE_URL", "postgres://"); ("REDIS_URL", "redis://"); ("BIND_ADDR", "0.0.0.0:80"); ("CHAIN_ID", "137");
      ("RPC_URL", "http://rpc"); ("SIGNING_KEY_HEX", "99"); ("NODE_ENDPOINTS", "n1=http://a") ].
Definition toy_process : Process (R:=MemRedis) (X:=nat) (Reg:=list string) := mkProcess [] toy_app [].
Definition run_main (env : string → option string) := main Debug run_clk 10 send_all env toy_process.

Example process_answers : answer <$> pr_tasks (run_main process_env).2 =
  [Some (201, CreatedBody (mkCreateSessionResponse "s6" None)); Some health_check; Some (400, EndBody "rejected")].
Proof. vm_compute. reflexivity. Qed.
(** A variable is missing. *)
Example missing_variable :
  (run_main (λ name, if String.eqb name "REDIS_URL" then None else process_env name)).1 =
    Err "missing required env var REDIS_URL".
Proof. vm_compute. reflexivity. Qed.

Lemma main_safe_witness :
  (run_main process_env).1 = Ok tt ∧ length (pr_tasks (run_main process_env).2) = 3%nat ∧
  (∃ config state, build_state process_env = inr (config, state) ∧ books run_clk state (pr_app (run_main process_env).2)) ∧
  ∀ sid, (settled sid (pr_tasks (run_main process_env).2) ≤ 1)%nat.
Proof.
  assert ((run_main process_env).1 = Ok tt) as Hok by (vm_compute; reflexivity). split; [exact Hok|].
  split; [vm_compute; reflexivity|].
  destruct (run_main process_env) as [o p'] eqn:E. cbn [fst snd] in *. subst o.
  destruct (main_safe Debug run_clk 10 send_all process_env toy_process (Ok tt) p') as
    [[Hno _]|(config & state & p1 & x & y & reqs & schedule & _ & Hb & _ & _ & Harr & _ & _ & Hbooks & Hsettled)].
  - reflexivity.
  - intros config state _. repeat constructor.
  - exact E.
  - by contradict Hno.
  - split; [exists config, state; split; [exact Hb|exact Hbooks]|]. cbn in Harr. injection Harr as <- <-. exact Hsettled.
Defined.
