(* ===== verification/Testing.v ===== *)
(** * Tests

    The harness of Rust's test modules. A test is a program that asserts: it passes when
    it returns, and fails when an assertion or an [unwrap] panics or it returns an
    error. The files UnitTests, ServiceTests, StoreTests, PostgresTests, NodeTests and
    IntegrationTests translate the tests of the crates, over the interfaces of whatever
    they talk to, and prove that they pass: in both builds, from the documented
    behaviour of the libraries where the theorem says so, and otherwise on an instance
    of the interface (an in-memory server, an empty database, one chain). *)
From S2P Require Import Prelude Total.

Section harness.
Context {W E : Type}.

(** [assert!], with [!] as [¬] and [matches!] as a decidable property. *)
Definition assert (P : Prop) `{!Decision P} : M W E unit := if decide P then mret tt else panic.
Definition assert_true (x : bool) : M W E unit := assert (x = true).
(** [assert_eq!], [assert_ne!]. *)
Definition assert_eq {A} `{!EqDecision A} (a b : A) : M W E unit := assert (a = b).
Definition assert_ne {A} `{!EqDecision A} (a b : A) : M W E unit := assert (a ≠ b).
(** [unwrap()], [expect()] of an [Option]; [unwrap()] and [unwrap_err()] of a [Result]. *)
Definition unwrap {A} (o : option A) : M W E A := match o with Some a => mret a | None => panic end.
Definition unwrap_ok {E' A} (r : E' + A) : M W E A := match r with inr a => mret a | inl _ => panic end.
Definition unwrap_err {E' A} (r : E' + A) : M W E E' := match r with inl e => mret e | inr _ => panic end.
(** [call().await.unwrap()]. *)
Definition awaited {E' A} (m : M W E' A) : M W E A := r ← attempt m; unwrap_ok r.
(** [for x in l]. *)
Fixpoint for_each {A} (l : list A) (body : A → M W E unit) : M W E unit :=
  match l with [] => mret tt | x :: l => body x ;; for_each l body end.
End harness.

(** [is_ok()], [is_err()] *)
Definition is_ok {E A} (r : E + A) : bool := match r with inr _ => true | inl _ => false end.
Definition is_err {E A} (r : E + A) : bool := negb (is_ok r).

(** A test returns, from the state [w] on. *)
Definition passes {W E} (test : M W E unit) (w : W) : Prop := ends test w (λ _ _, True).

(** A test of pure code. *)
Abbreviation Test := (M unit string unit).

Section rules.
Context {W E : Type}.
Implicit Types w : W.

Lemma passes_bind {A} (m : M W E A) f w : ends m w (λ a w', passes (f a) w') → passes (m ≫= f) w.
Proof. apply ends_bind. Qed.
Lemma ends_assert (P : Prop) `{!Decision P} w Q : P → Q tt w → ends (assert P : M W E unit) w Q.
Proof. intros HP HQ. unfold assert. by rewrite decide_True. Qed.
Lemma ends_assert_eq {A} `{!EqDecision A} (a b : A) w Q : a = b → Q tt w → ends (assert_eq a b : M W E unit) w Q.
Proof. apply ends_assert. Qed.
Lemma ends_assert_ne {A} `{!EqDecision A} (a b : A) w Q : a ≠ b → Q tt w → ends (assert_ne a b : M W E unit) w Q.
Proof. apply ends_assert. Qed.
Lemma ends_unwrap {A} (o : option A) a w (Q : A → W → Prop) : o = Some a → Q a w → ends (unwrap o : M W E A) w Q.
Proof. by intros ->. Qed.
Lemma ends_unwrap_ok {E' A} (r : E' + A) a w (Q : A → W → Prop) : r = inr a → Q a w → ends (unwrap_ok r : M W E A) w Q.
Proof. by intros ->. Qed.
Lemma ends_unwrap_err {E' A} (r : E' + A) e w (Q : E' → W → Prop) : r = inl e → Q e w → ends (unwrap_err r : M W E E') w Q.
Proof. by intros ->. Qed.
Lemma ends_awaited {E' A} (m : M W E' A) w (Q : A → W → Prop) : ends m w Q → ends (awaited m : M W E A) w Q.
Proof. unfold ends, awaited, attempt, mbind, M_bind. by destruct (m w) as [[a|e|] w']. Qed.
Lemma passes_tt w : passes (mret tt : M W E unit) w.
Proof. exact I. Qed.
End rules.

(** A test that computes: in both builds. *)
Ltac run := intros; try match goal with b : build |- _ => destruct b end; vm_compute; exact I.

(** A list of tests, one by one. *)
Ltac each_test :=
  repeat lazymatch goal with
    | |- Forall _ (_ ++ _) => apply Forall_app; split
    | |- Forall _ (_ :: _) => apply Forall_cons; split; cbv beta
    | |- Forall _ [] => exact (Forall_nil_2 _)
    | |- Forall _ ?l => let l' := eval hnf in l in change l with l'
    end.
