(* ===== verification/UnitTests.v ===== *)
(** * The test modules of the pure crates

    payout-calculator, mint-ceiling, twap-calculator, anomaly-engine, proof-validator,
    common, randomx-verifier, oracle-reader and metrics, in that order. The tests keep
    their names. *)
From S2P Require Import Prelude Common Payout MintCeiling Twap Anomaly Validator RandomX Oracle Metrics.
From S2P Require Import Total Testing.

Section pure.
Context (b : build).

(** ** payout-calculator *)
Definition test_prm_to_usd_cents : Test :=
  cents ← lift_arith (prm_to_usd_cents b 1000); assert_eq cents 10000 ;;
  cents ← lift_arith (prm_to_usd_cents b 148); assert_eq cents 1480 ;;
  cents ← lift_arith (prm_to_usd_cents b 0); assert_eq cents 0.

Definition test_gross_calib_to_wei : Test :=
  assert_eq (gross_calib_to_wei 1800000000) (18000 * 10 ^ 18) ;;
  assert_eq (gross_calib_to_wei 187500) (1875 * 10 ^ 15) ;;
  assert_eq (gross_calib_to_wei 0) 0.

Definition test_gross_prm_gold_8h : Test :=
  gross ← lift_arith (calculate_gross_prm b 2500 28800 default_config Gold);
  assert_eq gross 1800000000.

Definition test_redemption_gold : Test :=
  redemption ← lift_arith (calculate_redemption_usd b 1800000000 320400000000 Gold default_config);
  assert_eq redemption 18455040.

Definition test_house_edge_17pct : Test :=
  net ← lift_arith (apply_house_edge b 1000000 1700); assert_eq net 830000.
Definition test_house_edge_dynamic_22pct : Test :=
  net ← lift_arith (apply_house_edge b 1000000 2200); assert_eq net 780000.
Definition test_house_edge_dynamic_24pct : Test :=
  net ← lift_arith (apply_house_edge b 1000000 2400); assert_eq net 760000.
Definition test_house_edge_saturates_out_of_range : Test :=
  net ← lift_arith (apply_house_edge b 1000000 10000); assert_eq net 0 ;;
  net ← lift_arith (apply_house_edge b 1000000 12000); assert_eq net 0.

Definition test_staking_boost_25pct : Test :=
  boosted ← lift_arith (apply_staking_boost b 1000000 2500); assert_eq boosted 1250000.
Definition test_staking_boost_max_40pct : Test :=
  boosted ← lift_arith (apply_staking_boost b 1000000 4000); assert_eq boosted 1400000.

Definition test_calculate_payout_returns_struct : Test :=
  result ← lift_arith (calculate_payout b 2500 28800 320400000000 Gold default_config);
  assert_eq (pr_gross_prm result) 1800000000 ;;
  assert_eq (pr_redemption_usd_scaled result) 18455040 ;;
  assert_eq (pr_net_usdc_scaled result) 15317683 ;;
  assert_eq (pr_house_edge_bps result) 1700 ;;
  assert (pr_net_usdc_scaled result < pr_redemption_usd_scaled result).

Definition test_gold_8h_in_target_range : Test :=
  result ← lift_arith (calculate_payout b 2500 28800 320400000000 Gold default_config);
  assert (15000000 ≤ pr_net_usdc_scaled result ≤ 22000000).

Definition test_net_so_far_composition_matches_calculate_payout : Test :=
  let config := default_config in
  base_gross ← lift_arith (calculate_gross_prm b 2500 28800 config Gold);
  unboosted ← lift_arith (apply_staking_boost b base_gross 0);
  result ← lift_arith (calculate_payout_from_gross b unboosted 320400000000 Gold config);
  assert_eq (pr_net_usdc_scaled result) 15317683 ;;
  boosted ← lift_arith (apply_staking_boost b base_gross 4000);
  result_boosted ← lift_arith (calculate_payout_from_gross b boosted 320400000000 Gold config);
  assert (pr_net_usdc_scaled result < pr_net_usdc_scaled result_boosted).

Definition E18 : Z := 1000000000000000000.

Definition test_base_boost_tiers : Test :=
  assert_eq (base_boost_bps (9999 * E18)) 0 ;;
  assert_eq (base_boost_bps (10000 * E18)) 500 ;;
  assert_eq (base_boost_bps (50000 * E18)) 1000 ;;
  assert_eq (base_boost_bps (100000 * E18)) 1800 ;;
  assert_eq (base_boost_bps (500000 * E18)) 2500.

Definition test_lock_multiplier : Test :=
  assert_eq (lock_multiplier_scaled 0) 100 ;;
  assert_eq (lock_multiplier_scaled 1) 130 ;;
  assert_eq (lock_multiplier_scaled 2) 160 ;;
  assert_eq (lock_multiplier_scaled 7) 100.

Definition test_boost_polygon_only_10k : Test :=
  boost ← lift_arith (combined_boost_bps b None (Some (10000 * E18))); assert_eq boost 500.
Definition test_boost_combined_60k_eth90d : Test :=
  boost ← lift_arith (combined_boost_bps b (Some (30000 * E18, 1)) (Some (30000 * E18)));
  assert_eq boost 1300.
Definition test_boost_eth_100k_180d : Test :=
  boost ← lift_arith (combined_boost_bps b (Some (100000 * E18, 2)) None); assert_eq boost 2880.
Definition test_boost_eth_500k_180d_caps : Test :=
  boost ← lift_arith (combined_boost_bps b (Some (500000 * E18, 2)) None); assert_eq boost 4000.
Definition test_boost_below_min : Test :=
  boost ← lift_arith (combined_boost_bps b None (Some (5000 * E18))); assert_eq boost 0.

Definition test_apply_staking_boost_integration : Test :=
  boost ← lift_arith (combined_boost_bps b (Some (30000 * E18, 1)) (Some (30000 * E18)));
  assert_eq boost 1300 ;;
  boosted ← lift_arith (apply_staking_boost b 18000 boost);
  assert_eq boosted 20340.

Definition payout_tests : list Test :=
  [ test_prm_to_usd_cents; test_gross_calib_to_wei; test_gross_prm_gold_8h; test_redemption_gold;
    test_house_edge_17pct; test_house_edge_dynamic_22pct; test_house_edge_dynamic_24pct;
    test_house_edge_saturates_out_of_range; test_staking_boost_25pct; test_staking_boost_max_40pct;
    test_calculate_payout_returns_struct; test_gold_8h_in_target_range;
    test_net_so_far_composition_matches_calculate_payout; test_base_boost_tiers; test_lock_multiplier;
    test_boost_polygon_only_10k; test_boost_combined_60k_eth90d; test_boost_eth_100k_180d;
    test_boost_eth_500k_180d_caps; test_boost_below_min; test_apply_staking_boost_integration ].

(** ** mint-ceiling *)
Definition test_calculate_basic : Test :=
  let calc := mint_ceiling_new in
  ceiling ← lift_arith (ceiling_calculate b calc 1000 500); assert_eq ceiling 207.
Definition test_calculate_zero_users : Test :=
  let calc := mint_ceiling_new in
  ceiling ← lift_arith (ceiling_calculate b calc 0 500); assert_eq ceiling 0.
Definition test_calculate_large : Test :=
  let calc := mint_ceiling_new in
  ceiling ← lift_arith (ceiling_calculate b calc 10000 1000); assert_eq ceiling 4164.
Definition test_daily_ceiling : Test :=
  let calc := mint_ceiling_new in
  assert_eq (daily_ceiling calc 1000 500) 1500000 ;;
  assert_eq (daily_ceiling calc 0 500) 0.
Definition test_daily_ceiling_saturates : Test :=
  let calc := mint_ceiling_new in
  assert_eq (daily_ceiling calc U64_MAX U64_MAX) U64_MAX.
Definition test_propose_returns_correct_fields (now : DateTime) : Test :=
  let calc := mint_ceiling_new in
  proposal ← lift_arith (propose b now calc 500 300);
  assert_eq (cp_active_users proposal) 500 ;;
  assert_eq (cp_avg_daily_prm_per_user proposal) 300 ;;
  assert_eq (cp_blocks_per_day proposal) 7200 ;;
  assert_eq (cp_safety_multiplier proposal) 3 ;;
  ceiling ← lift_arith (ceiling_calculate b calc 500 300);
  assert_eq (cp_block_ceiling proposal) ceiling.

Definition mint_ceiling_tests (now : DateTime) : list Test :=
  [ test_calculate_basic; test_calculate_zero_users; test_calculate_large; test_daily_ceiling;
    test_daily_ceiling_saturates; test_propose_returns_correct_fields now ].

(** ** twap-calculator *)
Definition start : DateTime := 1700000000 * NANOS_PER_SEC.
(** [Duration::seconds] *)
Definition seconds (n : Z) : Z := n * NANOS_PER_SEC.
Definition sample (price : Z) (at_time : DateTime) : PriceSample :=
  {| ps_price := price; ps_sampled_at := at_time; ps_oracle := Chainlink |}.

Definition test_empty_returns_none : Test :=
  let calc := twap_new start in
  twap ← lift_arith (twap_calculate b calc); assert_eq twap None.
Definition test_single_sample : Test :=
  let calc := twap_new start in
  let calc := add_sample calc (sample 320400000000 start) in
  twap ← lift_arith (twap_calculate b calc); assert_eq twap (Some 320400000000).
Definition test_average_two_samples : Test :=
  let calc := twap_new start in
  let calc := add_sample calc (sample 320400000000 start) in
  let calc := add_sample calc (sample 320600000000 (start + seconds 1)) in
  twap ← lift_arith (twap_calculate b calc); assert_eq twap (Some 320500000000).
Definition test_is_valid_true : Test :=
  let calc := twap_new start in
  let calc := add_sample calc (sample 320400000000 (start + seconds 601)) in
  assert (twap_is_valid calc).
Definition test_is_valid_false_short_session : Test :=
  let calc := twap_new start in
  let calc := add_sample calc (sample 320400000000 (start + seconds 300)) in
  assert (¬ twap_is_valid calc).
Definition test_is_valid_false_no_samples : Test :=
  let calc := twap_new start in
  assert (¬ twap_is_valid calc).
Definition test_ignore_sample_before_start : Test :=
  let calc := twap_new start in
  let calc := add_sample calc (sample 320400000000 (start - seconds 1)) in
  assert_eq (sample_count calc) 0%nat.
Definition test_finalize_valid : Test :=
  let calc := twap_new start in
  let calc := add_sample calc (sample 320400000000 start) in
  let calc := add_sample calc (sample 320600000000 (start + seconds 700)) in
  result ← lift_arith (finalize b calc (start + seconds 700));
  assert (is_Some result) ;;
  result ← unwrap result;
  assert (tr_is_valid result) ;;
  assert_eq (tr_twap result) 320500000000 ;;
  assert_eq (tr_sample_count result) 2%nat.
Definition test_finalize_empty : Test :=
  let calc := twap_new start in
  result ← lift_arith (finalize b calc (start + seconds 700));
  assert (¬ is_Some result).

Definition twap_tests : list Test :=
  [ test_empty_returns_none; test_single_sample; test_average_two_samples; test_is_valid_true;
    test_is_valid_false_short_session; test_is_valid_false_no_samples; test_ignore_sample_before_start;
    test_finalize_valid; test_finalize_empty ].
End pure.

(** ** anomaly-engine *)
Section anomaly.
Context (now : DateTime).

(** [channel(32)], its receiver held: an event is queued while there is room. *)
Definition channel (capacity : nat) (e : AnomalyEvent) (q : list AnomalyEvent) : bool * list AnomalyEvent :=
  if decide (length q < capacity)%nat then (true, q ++ [e]) else (false, q).
Definition run (results : list ValidationResult) : Assessment :=
  (process (channel 32) now "s" 0 results []).1.

Definition test_no_triggers : Test :=
  let a := run [] in
  assert_eq (as_level a) Low ;; assert_eq (as_score_bps a) 0 ;; assert (¬ should_slash_vote (as_level a)).
Definition test_one_invalid : Test :=
  let a := run [Invalid TimingAnomaly] in
  assert_eq (as_level a) Medium ;; assert_eq (as_score_bps a) 2500 ;; assert (¬ should_slash_vote (as_level a)).
Definition test_two_invalids : Test :=
  let a := run [Invalid TimingAnomaly; Invalid HashrateImpossible] in
  assert_eq (as_level a) High ;; assert_eq (as_score_bps a) 5000 ;; assert (should_slash_vote (as_level a)).
Definition test_deduplication : Test :=
  let a := run [Invalid TimingAnomaly; Invalid TimingAnomaly] in
  assert_eq (as_level a) Medium ;; assert_eq (as_score_bps a) 2500.
Definition test_suspicious_high_counts : Test :=
  let a := run [Suspicious High; Invalid TimingAnomaly] in
  assert_eq (as_level a) High ;; assert_eq (as_score_bps a) 5000.
Definition test_suspicious_low_ignored : Test :=
  let a := run [Suspicious Low] in
  assert_eq (as_level a) Low ;; assert_eq (as_score_bps a) 0.
Definition test_high_suspicion_alone : Test :=
  let a := run [Suspicious High] in
  assert_eq (as_level a) Medium ;; assert_eq (as_score_bps a) 2500.
(** [usize::MAX], on a machine of 64 bits *)
Definition USIZE_MAX : nat := Z.to_nat U64_MAX.
Definition test_score_saturates_at_max : Test :=
  assert_eq (anomaly_score_bps 0) 0 ;;
  assert_eq (anomaly_score_bps 4) MAX_ANOMALY_SCORE_BPS ;;
  assert_eq (anomaly_score_bps 100) MAX_ANOMALY_SCORE_BPS ;;
  assert_eq (anomaly_score_bps USIZE_MAX) MAX_ANOMALY_SCORE_BPS.

Definition anomaly_tests : list Test :=
  [ test_no_triggers; test_one_invalid; test_two_invalids; test_deduplication; test_suspicious_high_counts;
    test_suspicious_low_ignored; test_high_suspicion_alone; test_score_saturates_at_max ].
End anomaly.

(** ** proof-validator *)
Definition base : DateTime := 1700000000 * NANOS_PER_SEC.
Definition mk_ctx (client : ClientType) (active : Z) (last : option DateTime) : SessionContext :=
  {| ctx_wallet := 0; ctx_ip := None; ctx_client_type := client; ctx_active_sessions_count := active;
     ctx_started_at := 1700000000 * NANOS_PER_SEC; ctx_last_submission_at := last; ctx_assigned_node_id := None;
     ctx_commodity := Gold; ctx_target_chain := Ethereum; ctx_cpu_threads := 0; ctx_assigned_site := None |}.
Definition mk_proof (hashrate : Z) (at_time : DateTime) : PartialProof :=
  {| pp_session_id := "s"; pp_wallet := 0; pp_sequence := 1; pp_hashrate := hashrate;
     pp_proof_hash := replicate 32 0; pp_proof_input := []; pp_difficulty := 0; pp_submitted_at := at_time;
     pp_signature := None |}.

Definition test_timing_anomaly_too_fast : Test :=
  let ctx := mk_ctx Desktop 1 (Some base) in
  let p := mk_proof 100 (base + seconds 1) in
  assert_eq (validate mkPreFilterValidator p PreFilter ctx) (Invalid TimingAnomaly).
Definition test_timing_anomaly_too_slow : Test :=
  let ctx := mk_ctx Desktop 1 (Some base) in
  let p := mk_proof 100 (base + seconds 301) in
  assert_eq (validate mkPreFilterValidator p PreFilter ctx) (Invalid TimingAnomaly).
Definition test_timing_valid : Test :=
  let ctx := mk_ctx Desktop 1 (Some base) in
  let p := mk_proof 100 (base + seconds 30) in
  assert_eq (validate mkPreFilterValidator p PreFilter ctx) Valid.
Definition test_hashrate_impossible_browser : Test :=
  let ctx := mk_ctx Browser 1 None in
  let p := mk_proof 401 base in
  assert_eq (validate mkPreFilterValidator p PreFilter ctx) (Invalid HashrateImpossible).
Definition test_hashrate_valid_desktop : Test :=
  let ctx := mk_ctx Desktop 1 None in
  let p := mk_proof 3000 base in
  assert_eq (validate mkPreFilterValidator p PreFilter ctx) Valid.
Definition test_duplicate_session : Test :=
  let ctx := mk_ctx Cli 2 None in
  let p := mk_proof 100 base in
  assert_eq (validate mkPreFilterValidator p PreFilter ctx) (Suspicious High).
Definition test_full_missing_signature : Test :=
  let ctx := mk_ctx Cli 1 None in
  let p := mk_proof 100 base in
  assert_eq (validate mkFullValidator p Full ctx) (Invalid InvalidSignature).

Definition validator_tests : list Test :=
  [ test_timing_anomaly_too_fast; test_timing_anomaly_too_slow; test_timing_valid;
    test_hashrate_impossible_browser; test_hashrate_valid_desktop; test_duplicate_session;
    test_full_missing_signature ].

(** ** common *)
Definition test_chain_id_roundtrip : Test :=
  for_each all_chains (λ chain, assert_eq (from_chain_id (chain_id chain)) (Some chain)).
Definition test_chain_str_roundtrip : Test :=
  for_each all_chains (λ chain, assert_eq (from_str_id (chain_as_str chain)) (Some chain)).
Definition test_unknown_chain_id : Test := assert_eq (from_chain_id 999) None.
Definition test_canonical : Test :=
  assert (is_canonical Ethereum) ;; assert (¬ is_canonical Polygon).

Definition common_tests : list Test :=
  [ test_chain_id_roundtrip; test_chain_str_roundtrip; test_unknown_chain_id; test_canonical ].

(** [usize::MAX] signals are not counted one by one. *)
Lemma score_saturates : passes test_score_saturates_at_max tt.
Proof.
  assert (anomaly_score_bps USIZE_MAX = MAX_ANOMALY_SCORE_BPS) as Hmax.
  { unfold anomaly_score_bps, USIZE_MAX. rewrite Z2Nat.id by done. vm_compute. reflexivity. }
  unfold test_score_saturates_at_max. do 3 (apply passes_bind, ends_assert_eq; [vm_compute; reflexivity|]).
  by apply ends_assert_eq.
Qed.

(** ** The pure tests pass, in both builds and at any time. *)
Theorem pure_tests_pass (b : build) (now : DateTime) :
  Forall (λ test, passes test tt)
    (payout_tests b ++ mint_ceiling_tests b now ++ twap_tests b ++ anomaly_tests now ++ validator_tests ++ common_tests).
Proof.
  each_test.
  all: match goal with |- passes test_score_saturates_at_max _ => exact score_saturates | _ => run end.
Qed.

(** ** randomx-verifier

    With the RandomX library as its documentation has it: a cache and a machine can be
    made for any key, and a hash is 32 bytes, the same each time. *)
Section randomx.
Context {Cache Vm : Type} `{!RandomXLib Cache Vm}.

Definition test_phase2_seed_bytes_locked : Test :=
  assert_eq PHASE2_SEED (string_bytes "primora-phase2-randomx-seed").

Definition test_difficulty_target : Test :=
  let max_bytes := replicate 32 0xFF in
  let target_two := U256_MAX / 2 in
  assert (target_two < from_be_slice max_bytes) ;;
  let zero_bytes := replicate 32 0x00 in
  let target_hard := U256_MAX / 1000000 in
  assert (from_be_slice zero_bytes ≤ target_hard).

Definition test_verifier_creates : Test := assert (is_ok (verifier_new (string_bytes "test-key"))).

Definition test_known_hash : Test :=
  verifier ← unwrap_ok (verifier_new (string_bytes "test-key"));
  let input := string_bytes "primora-determinism-check" in
  first ← unwrap_ok (calculate_hash (rx_vm verifier) input);
  second ← unwrap_ok (calculate_hash (rx_vm verifier) input);
  assert_eq first second ;;
  (* [copy_from_slice] wants the lengths equal *)
  assert (length first = 32%nat) ;;
  let expected := first in
  verified ← unwrap_ok (verify verifier input expected 1);
  assert (Is_true verified) ;;
  let wrong := alter (Z.lxor 0xFF) 0%nat expected in
  verified ← unwrap_ok (verify verifier input wrong 1);
  assert (¬ Is_true verified).

Definition test_phase2_seed_deterministic_across_instances : Test :=
  let input := string_bytes "primora-proof-001" in
  a ← unwrap_ok (verifier_new PHASE2_SEED);
  b ← unwrap_ok (verifier_new PHASE2_SEED);
  ha ← unwrap_ok (hash a input);
  hb ← unwrap_ok (hash b input);
  assert_eq ha hb.

Hypothesis makes : ∀ key, ∃ cache vm, cache_new key = inr cache ∧ vm_new cache = inr vm.
Hypothesis hashes : ∀ vm input, ∃ h, calculate_hash vm input = inr h ∧ length h = 32%nat ∧ Forall (λ x, 0 ≤ x ≤ 255) h.

Lemma flipped_ne (h : bytes) : (0 < length h)%nat → alter (Z.lxor 0xFF) 0%nat h ≠ h.
Proof.
  destruct h as [|x h]; [cbn; lia|]. cbn. intros _ [= Hx]. apply (f_equal (Z.lxor x)) in Hx.
  rewrite (Z.lxor_comm 255), <-Z.lxor_assoc, Z.lxor_nilpotent in Hx. discriminate Hx.
Qed.

Lemma makes_verifier key : ∃ v, verifier_new key = inr v.
Proof. destruct (makes key) as (cache & vm & Ec & Ev). unfold verifier_new. rewrite Ec, Ev. by eexists. Qed.

Lemma hashes_known verifier input :
  ∃ h, calculate_hash (rx_vm verifier) input = inr h ∧ hash verifier input = inr h ∧ length h = 32%nat ∧
    verify verifier input h 1 = inr true ∧ ∀ wrong, wrong ≠ h → verify verifier input wrong 1 = inr false.
Proof.
  destruct (hashes (rx_vm verifier) input) as (h & E & Hl & Hr). exists h.
  assert (hash verifier input = inr h) as Eh by (unfold hash; rewrite E; by rewrite decide_False by tauto).
  split_and!; [done..| |].
  - apply verify_true. split; [done|]. change (U256_MAX / Z.max 1 1) with U256_MAX.
    pose proof (from_be_slice_range h Hr) as Hb. rewrite Hl in Hb. change (256 ^ Z.of_nat 32) with (U256_MAX + 1) in Hb. lia.
  - intros wrong Hne. unfold verify. rewrite Eh. by rewrite decide_True by congruence.
Qed.

(** The heavy tests too. *)
Theorem randomx_tests_pass :
  Forall (λ test, passes test tt)
    [ test_phase2_seed_bytes_locked; test_difficulty_target; test_verifier_creates; test_known_hash;
      test_phase2_seed_deterministic_across_instances ].
Proof.
  each_test; [run|run| | |].
  - destruct (makes_verifier (string_bytes "test-key")) as [v Ev]. apply ends_assert; [by rewrite Ev|done].
  - destruct (makes_verifier (string_bytes "test-key")) as [v Ev].
    destruct (hashes_known v (string_bytes "primora-determinism-check")) as (h & E & _ & Hl & Hok & Hbad).
    apply passes_bind. eapply ends_unwrap_ok; [exact Ev|]. cbv zeta.
    do 2 (apply passes_bind; eapply ends_unwrap_ok; [exact E|]).
    apply passes_bind, ends_assert_eq; [done|]. apply passes_bind, ends_assert; [done|].
    apply passes_bind. eapply ends_unwrap_ok; [exact Hok|]. apply passes_bind, ends_assert; [done|].
    apply passes_bind. eapply (ends_unwrap_ok _ false); [apply Hbad|apply ends_assert; [by intros []|done]].
    apply flipped_ne. lia.
  - destruct (makes_verifier PHASE2_SEED) as [v Ev].
    destruct (hashes_known v (string_bytes "primora-proof-001")) as (h & _ & Eh & _). cbv zeta.
    do 2 (apply passes_bind; eapply ends_unwrap_ok; [exact Ev|]).
    do 2 (apply passes_bind; eapply ends_unwrap_ok; [exact Eh|]). by apply ends_assert_eq.
Qed.
End randomx.

(** ** oracle-reader

    The two tests that read live prices pass when the feeds answer: the gold feed with
    more than 1000 dollars, the platinum feed with a price. *)
Section oracle.
Context {W : Type} `{!OracleNet W} {Url P Key : Type} `{!Providers Url P Key} (b : build).
Context (from_str : string → option Address) (RPC_URL : option string).

Definition CHAINLINK_XAU_USD : string := "0x214eD9Da11D2fbe465a6fc601a91E62EbEc1a0D6".
Definition CHAINLINK_XAG_USD : string := "0x379589227b15F1a12195D3f2d90bBc9F31f95235".

Definition test_default_chainlink_feeds : M W string unit :=
  let feeds := default_chainlink_feeds in
  assert_eq (length feeds) 2%nat ;;
  assert (is_Some (from_str CHAINLINK_XAU_USD)) ;;
  assert (is_Some (from_str CHAINLINK_XAG_USD)).
Definition test_default_pyth_feeds : M W string unit := assert_eq (length default_pyth_feeds) 2%nat.
Definition test_pyth_price_conversion : M W string unit :=
  price ← lift_arith (convert_pyth_price b 320400 (-2)); assert_eq price (Some 320400000000) ;;
  price ← lift_arith (convert_pyth_price b 0 (-2)); assert_eq price None ;;
  price ← lift_arith (convert_pyth_price b (-5) (-2)); assert_eq price None.

Definition test_read_xau_price_live : M W string unit :=
  rpc ← unwrap RPC_URL;
  reader ← unwrap_ok (oracle_reader_new rpc default_chainlink_feeds default_pyth_feeds);
  price ← awaited (read_price b reader Gold);
  assert (100000000000 < price).
Definition test_read_xpt_price_live : M W string unit :=
  rpc ← unwrap RPC_URL;
  reader ← unwrap_ok (oracle_reader_new rpc default_chainlink_feeds default_pyth_feeds);
  price ← awaited (read_price b reader Platinum);
  assert (0 < price).

(** An address in text is [0x] and 40 hexadecimal digits. *)
Definition hex_digit (c : ascii) : bool :=
  let n := Z.of_nat (nat_of_ascii c) in fits 48 57 n || fits 65 70 n || fits 97 102 n.
Definition address_text (s : string) : bool :=
  match s with
  | String "0" (String "x" s) => (String.length s =? 40)%nat && all_chars hex_digit s
  | _ => false
  end.
Hypothesis from_str_text : ∀ s, address_text s = true → is_Some (from_str s).

Theorem oracle_tests_pass w :
  Forall (λ test, passes test w) [ test_default_chainlink_feeds; test_default_pyth_feeds; test_pyth_price_conversion ].
Proof.
  each_test; [|run|run].
  apply passes_bind, ends_assert_eq; [done|]. apply passes_bind, ends_assert; [apply from_str_text; reflexivity|].
  apply ends_assert; [apply from_str_text; reflexivity|done].
Qed.

(** The live tests, with feeds that answer. *)
Theorem oracle_live_tests_pass rpc w :
  RPC_URL = Some rpc → is_Some (parse_url (Key:=Key) rpc) →
  (∃ answer w', latest_answer 0x214ed9da11d2fbe465a6fc601a91e62ebec1a0d6 w = (inr answer, w') ∧
     100000000000 < answer ≤ U128_MAX) →
  (∃ raw expo rest w', get_json (PYTH_HERMES_URL +:+ "/v2/updates/price/latest?ids[]=" +:+ PYTH_XPT_USD_FEED_ID) w =
      (inr {| parsed := {| hp_price := show raw; hp_expo := expo |} :: rest |}, w') ∧
     0 < raw ≤ I64_MAX ∧ -8 ≤ expo ≤ 0) →
  passes test_read_xau_price_live w ∧ passes test_read_xpt_price_live w.
Proof.
  intros Hrpc [url Hurl] (answer & w1 & Ha & Hlo & Hhi) (raw & expo & rest & w2 & Hj & Hraw & Hexpo).
  assert (oracle_reader_new rpc default_chainlink_feeds default_pyth_feeds =
    inr (oracle_new default_chainlink_feeds default_pyth_feeds)) as Enew by (unfold oracle_reader_new; by rewrite Hurl).
  split; (apply passes_bind; eapply ends_unwrap; [exact Hrpc|]; apply passes_bind; eapply ends_unwrap_ok; [exact Enew|]);
    apply passes_bind, ends_awaited, ends_iff.
  - exists answer, w1. split; [|by apply ends_assert].
    change (fetch_chainlink {| cf_commodity := Gold; cf_address := 0x214ed9da11d2fbe465a6fc601a91e62ebec1a0d6;
      cf_decimals := 8 |} w = (Ok answer, w1)).
    unfold fetch_chainlink, net, mbind, M_bind. cbn [cf_address]. rewrite Ha.
    rewrite (proj2 (Z.leb_gt _ _)) by lia. unfold try_from. by rewrite (proj2 (fits_spec _ _ _)) by lia.
  - pose proof (Z.pow_pos_nonneg 10 (8 + expo) ltac:(lia) ltac:(lia)).
    pose proof (Z.pow_le_mono_r 10 (8 + expo) 8 ltac:(lia) ltac:(lia)) as Hpow.
    exists (raw * 10 ^ (8 + expo)), w2. split; [|apply ends_assert; [lia|done]].
    change (fetch_pyth b PYTH_HERMES_URL {| pf_commodity := Platinum; pf_feed_id := PYTH_XPT_USD_FEED_ID |} w =
      (Ok (raw * 10 ^ (8 + expo)), w2)).
    unfold fetch_pyth, net, mbind, M_bind. cbn [pf_feed_id]. rewrite Hj. cbn [head parsed ok_or mret M_ret hp_price hp_expo].
    rewrite parse_i_show by lia. cbn [ok_or mret M_ret]. rewrite convert_up by lia. cbn [lift_arith mret M_ret].
    unfold checked_u. rewrite (proj2 (fits_spec _ _ _)); [done|]. change (10 ^ 8) with 100000000 in Hpow. nia.
Qed.
End oracle.

(** ** metrics

    The counters and the gauge are the process's ([Metrics]). *)
Section metrics.
Context {Reg Family : Type} `{!Prometheus Reg Family}.

Definition test_register_all_succeeds : M Reg string unit :=
  result ← attempt register_all;
  assert (is_ok result).

(** [X.with_label_values(labels).inc()], [.get()]; [X.inc()], [X.dec()], [X.get()] *)
Definition inc_proofs (labels : string * string) : M Metrics string unit :=
  modify (λ m, mkMetrics (m_session_active m) (m_proofs m ++ [labels]) (m_anomalies m) (m_proposals m)).
Definition counted_proofs (labels : string * string) : M Metrics string Z :=
  gets (λ m, Z.of_nat (length (filter (λ l, l = labels) (m_proofs m)))).
Definition add_active (n : Z) : M Metrics string unit :=
  modify (λ m, mkMetrics (m_session_active m + n) (m_proofs m) (m_anomalies m) (m_proposals m)).

Definition test_proof_submissions_counter : M Metrics string unit :=
  inc_proofs ("Desktop", "Valid") ;;
  count ← counted_proofs ("Desktop", "Valid");
  assert_eq count 1.

Definition test_metrics_handler_returns_string (r : Reg) : M Metrics string unit :=
  values ← gets id;
  assert (¬ metrics_handler r values = "").

Definition test_session_gauge : M Metrics string unit :=
  add_active 1 ;;
  active ← gets m_session_active; assert_eq active 1 ;;
  add_active (-1) ;;
  active ← gets m_session_active; assert_eq active 0.

(** In a process that has not registered its collectors and has not counted, with an
    encoder that writes something for a registry that is not empty. *)
Theorem metrics_tests_pass (r : Reg) (m : Metrics) :
  (∀ c, c ∈ statics → co_name c ∉ registered r) → ("Desktop", "Valid") ∉ m_proofs m → m_session_active m = 0 →
  registered r ≠ [] → (∀ r values, registered r ≠ [] → gather r values ≠ []) →
  (∀ l, l ≠ [] → ∃ s, encode_utf8 l = inr s ∧ s ≠ "") →
  passes test_register_all_succeeds r ∧ passes test_proof_submissions_counter m ∧ passes test_session_gauge m ∧
  passes (test_metrics_handler_returns_string r) m.
Proof.
  intros Hr Hm H0 Hreg Hgather Hencode. split_and!.
  - destruct (register_all_once r Hr) as (r' & E & _).
    apply passes_bind, ends_attempt, ends_iff. exists tt, r'. split; [done|].
    by apply ends_assert.
  - apply passes_bind, ends_modify, passes_bind, ends_gets, ends_assert_eq; [|done]. cbn [m_proofs].
    assert (filter (λ l, l = ("Desktop", "Valid")) (m_proofs m) = []) as Hnil.
    { destruct (filter _ _) as [|l ls] eqn:E; [done|].
      assert (l ∈ l :: ls) as Hl by apply list_elem_of_here. rewrite <-E, list_elem_of_filter in Hl. by destruct Hl as [-> ?]. }
    rewrite filter_app, Hnil. reflexivity.
  - do 2 (apply passes_bind, ends_modify, passes_bind, ends_gets; try (apply passes_bind); apply ends_assert_eq; [cbn; lia|]).
    done.
  - apply passes_bind, ends_gets, ends_assert; [|done]. unfold metrics_handler, gather_metrics.
    destruct (Hencode (gather r (id m)) (Hgather _ _ Hreg)) as (s & -> & Hs). exact Hs.
Qed.
End metrics.
