(* ===== verification/ServiceTests.v ===== *)
(** * The test modules of the service and its clients

    verification-service (lib.rs, admin.rs and main.rs), admin-cli and onchain-client.
    The tests are over the interfaces of the third-party crates; they are proved to pass
    with the concrete instances at the end of the file (hexadecimal text as it is, one
    chain, one signer). *)
From S2P Require Import Prelude Text Common Payout RateLimiter Redis SessionStore RandomX NodeServer NodeCoordinator Oracle.
From S2P Require Import Postgres Onchain Metrics Service Wallet Admin AdminCli Startup Router Total Testing UnitTests.

(** [matches!(r, Err(ApiError::BadRequest(_)))] *)
Definition is_bad_request {A} (r : ApiError + A) : bool := match r with inl (BadRequest _) => true | _ => false end.

(** ** verification-service/src/lib.rs *)
Section lib_tests.
Context {R X : Type} `{!ServiceCodec, !PgServer} (b : build).
Abbreviation LibTest := (M (App R X) string unit).

Definition test_health_check : LibTest :=
  let '(status, body) := health_check in
  assert_eq status 200 ;;
  assert_true (match body with HealthBody status _ => bool_decide (status = "ok") | _ => false end).
Definition test_router_has_health_route : LibTest :=
  let '(status, body) := health_check in
  assert_eq status 200 ;;
  assert_true (match body with HealthBody _ service => bool_decide (service = "primora-verification") | _ => false end).

Definition test_parse_client_type : LibTest :=
  t ← unwrap (parse_client_type "Browser"); assert_eq t Browser ;;
  t ← unwrap (parse_client_type "desktop"); assert_eq t Desktop ;;
  t ← unwrap (parse_client_type "CLI"); assert_eq t Common.Cli ;;
  r ← attempt (ok_or (parse_client_type "quantum") (BadRequest "unknown client_type"));
  assert (is_bad_request r).

Definition zeros (n : nat) : string := bytes_string (replicate n 48).
Definition test_parse_hash : LibTest :=
  let hex := zeros 64 in
  h ← awaited (parse_hash hex "h"); assert_eq h (replicate 32 0) ;;
  r ← attempt (parse_hash "zz" "h"); assert (is_bad_request r) ;;
  r ← attempt (parse_hash "00" "h"); assert (is_bad_request r).

Definition test_metrics_endpoint_returns_ok {Reg Family} `{!Prometheus Reg Family} (registry : Reg) : LibTest :=
  values ← gets app_metrics;
  let '(status, body) := (200, metrics_handler registry values) in
  assert_eq status 200 ;;
  assert (body ≠ "").

Definition test_invalid_wallet_returns_400 : LibTest :=
  r ← attempt (parse_wallet "not-an-address");
  err ← unwrap_err r;
  let response := into_response err in
  assert_eq response.1 400.
Definition test_valid_wallet_parses_and_db_key_is_debug_format : LibTest :=
  addr ← awaited (parse_wallet ("0x" +:+ zeros 40));
  assert_eq (wallet_db_key addr) (address_debug addr).
Definition test_invalid_chain_returns_400 : LibTest :=
  r ← attempt (ok_or (from_str_id "dogechain") (BadRequest "invalid or missing chain (expected ethereum or polygon)"));
  err ← unwrap_err r;
  assert_eq (into_response err).1 400.
Definition test_valid_chain_polygon_parses : LibTest :=
  assert_eq (from_str_id "polygon") (Some Polygon) ;;
  assert_eq (from_str_id "ethereum") (Some Ethereum).
Definition test_enforce : LibTest :=
  r ← attempt (enforce Allowed);
  assert (is_ok r) ;;
  r ← attempt (enforce (Denied 1 60));
  assert_true (match r with inl RateLimited => true | _ => false end).

Definition stake (amount lock_period : Z) (active : bool) : StakeInfo :=
  {| si_amount := amount; si_lock_period := lock_period; si_active := active |}.
(** [Some(Ok(..))] *)
Definition read_ok (s : StakeInfo) : StakeRead := Some (inr s).

Definition test_build_summary_no_readers : LibTest :=
  summary ← lift_arith (build_summary b None None);
  assert (su_chains summary = []) ;;
  assert_eq (su_total_staked summary) "0" ;;
  assert_eq (su_effective_boost_bps summary) 0.
Definition test_build_summary_combined_cross_chain : LibTest :=
  summary ← lift_arith (build_summary b (read_ok (stake (30000 * E18) 1 true)) (read_ok (stake (30000 * E18) 0 true)));
  assert_eq (length (su_chains summary)) 2%nat ;;
  first ← unwrap (su_chains summary !! 0%nat); assert_eq (cs_chain first) Ethereum ;;
  second ← unwrap (su_chains summary !! 1%nat); assert_eq (cs_chain second) Polygon ;;
  assert_eq (su_total_staked summary) (show (60000 * E18)) ;;
  assert_eq (su_effective_boost_bps summary) 1300.
Definition test_build_summary_inactive_excluded_from_boost : LibTest :=
  summary ← lift_arith (build_summary b (read_ok (stake (500000 * E18) 2 false)) None);
  assert_eq (length (su_chains summary)) 1%nat ;;
  first ← unwrap (su_chains summary !! 0%nat);
  assert (¬ cs_active first) ;;
  assert_eq (cs_amount first) (show (500000 * E18)) ;;
  assert_eq (su_total_staked summary) "0" ;;
  assert_eq (su_effective_boost_bps summary) 0.
Definition test_build_summary_max_boost_cap : LibTest :=
  summary ← lift_arith (build_summary b (read_ok (stake (500000 * E18) 2 true)) None);
  assert_eq (length (su_chains summary)) 1%nat ;;
  assert_eq (su_effective_boost_bps summary) 4000.

Definition lib_tests {Reg Family} `{!Prometheus Reg Family} (registry : Reg) : list LibTest :=
  [ test_health_check; test_router_has_health_route; test_parse_client_type; test_parse_hash;
    test_metrics_endpoint_returns_ok registry; test_invalid_wallet_returns_400;
    test_valid_wallet_parses_and_db_key_is_debug_format; test_invalid_chain_returns_400;
    test_valid_chain_polygon_parses; test_enforce; test_build_summary_no_readers;
    test_build_summary_combined_cross_chain; test_build_summary_inactive_excluded_from_boost;
    test_build_summary_max_boost_cap ].
End lib_tests.

(** ** verification-service/src/admin.rs

    [random_key] is the key a test draws. *)
Section admin_tests.
Context {R X P Key : Type} `{!PgServer, !Rpc X P, !AttestationCrypto, !ProposalSigner Key, !ServiceCodec, !AdminCrypto,
  !MessageSigner Key, !Providers string P Key}.
Context (random_key : Key).
Abbreviation AdminTest := (M (App R X) string unit).

Definition SECRET : bytes := string_as_bytes "test-admin-session-secret".
Definition DOMAIN : string := "admin.primora.rs".

Definition siwe_message (domain : string) (addr : Address) (nonce : string) (expiration : option string) : string :=
  let msg := join LF
    [ domain +:+ SIWE_HEADER_SUFFIX; address_debug addr; ""; "Sign in."; ""; "URI: https://" +:+ domain; "Version: 1";
      "Chain ID: 1"; "Nonce: " +:+ nonce; "Issued At: 2026-01-01T00:00:00Z" ] in
  match expiration with
  | Some exp => msg +:+ String LF ("Expiration Time: " +:+ exp)
  | None => msg
  end.

(** [str::replace] *)
Fixpoint replace_from (pattern to : string) (skip : nat) (s : string) : string :=
  match s with
  | EmptyString => ""
  | String c s' =>
      match skip with
      | S k => replace_from pattern to k s'
      | O =>
          if String.prefix pattern s then to +:+ replace_from pattern to (String.length pattern - 1) s'
          else String c (replace_from pattern to 0 s')
      end
  end.
Definition str_replace (pattern to s : string) : string := replace_from pattern to 0 s.

Definition test_parse_admin_wallets : AdminTest :=
  let set := parse_admin_wallets "0xf39Fd6e51aad88F6F4ce6aB8827279cffFb92266, not-an-addr" in
  assert_eq (size set) 1%nat ;;
  assert (from_be_slice [0xf3; 0x9f; 0xd6; 0xe5; 0x1a; 0xad; 0x88; 0xf6; 0xf4; 0xce; 0x6a; 0xb8; 0x82; 0x72; 0x79;
                         0xcf; 0xff; 0xb9; 0x22; 0x66] ∈ set).

Definition test_siwe_recovers_admin_and_nonce : AdminTest :=
  let signer := random_key in
  let addr := key_address signer in
  let msg := siwe_message DOMAIN addr "abc123" None in
  sig ← unwrap_ok (sign_message_sync signer (string_as_bytes msg));
  let sig_hex := Admin.hex_encode (as_bytes sig) in
  verified ← unwrap (verify_siwe msg sig_hex DOMAIN 1800000000);
  assert_eq (sv_address verified) addr ;;
  assert_eq (sv_nonce verified) "abc123".
Definition test_siwe_wrong_domain_rejected : AdminTest :=
  let signer := random_key in
  let msg := siwe_message "evil.example" (key_address signer) "n1" None in
  sig ← unwrap_ok (sign_message_sync signer (string_as_bytes msg));
  let sig_hex := Admin.hex_encode (as_bytes sig) in
  assert (verify_siwe msg sig_hex DOMAIN 1800000000 = None).
Definition test_siwe_expired_rejected : AdminTest :=
  let signer := random_key in
  let msg := siwe_message DOMAIN (key_address signer) "n1" (Some "2020-01-01T00:00:00Z") in
  sig ← unwrap_ok (sign_message_sync signer (string_as_bytes msg));
  let sig_hex := Admin.hex_encode (as_bytes sig) in
  assert (verify_siwe msg sig_hex DOMAIN 1800000000 = None).
Definition test_siwe_tampered_message_rejected : AdminTest :=
  let signer := random_key in
  let msg := siwe_message DOMAIN (key_address signer) "n1" None in
  sig ← unwrap_ok (sign_message_sync signer (string_as_bytes msg));
  let sig_hex := Admin.hex_encode (as_bytes sig) in
  let tampered := str_replace "Nonce: n1" "Nonce: n2" msg in
  assert (verify_siwe tampered sig_hex DOMAIN 1800000000 = None).

Definition test_session_token_roundtrip_and_expiry : AdminTest :=
  let addr := key_address random_key in
  token ← unwrap_ok (issue_session_token SECRET addr 1800 1000);
  assert_eq (verify_session_token SECRET token 1500) (Some addr) ;;
  assert_eq (verify_session_token SECRET token 5000) None ;;
  assert_eq (verify_session_token (string_as_bytes "wrong-secret") token 1500) None ;;
  assert_eq (verify_session_token SECRET "garbage.token" 1500) None.

Definition test_nonce_single_use_and_expiry : AdminTest :=
  modify (set_nonces ∅) ;;
  nonce ← awaited issue;
  live ← awaited (consume nonce); assert_true live ;;
  live ← awaited (consume nonce); assert_true (negb live) ;;
  live ← awaited (consume "never-issued"); assert_true (negb live).

Definition admin_tests : list AdminTest :=
  [ test_parse_admin_wallets; test_siwe_recovers_admin_and_nonce; test_siwe_wrong_domain_rejected;
    test_siwe_expired_rejected; test_siwe_tampered_message_rejected; test_session_token_roundtrip_and_expiry;
    test_nonce_single_use_and_expiry ].
End admin_tests.

(** ** verification-service/src/main.rs *)
Section main_tests.
Context {Channel Key : Type} `{!StartupEnv Channel Key}.

(** A text between quotation marks. *)
Definition quoted (s : string) : string := String (ascii_of_nat 34) (s +:+ String (ascii_of_nat 34) "").
Definition raw_sites : string :=
  "{" +:+ quoted "node-a" +:+ ":{" +:+ quoted "code" +:+ ":" +:+ quoted "JHB" +:+ "," +:+ quoted "city" +:+ ":"
    +:+ quoted "Johannesburg" +:+ "," +:+ quoted "country" +:+ ":" +:+ quoted "ZA" +:+ "}}".

Definition parse_node_sites_valid : Test :=
  let map := parse_node_sites raw_sites in
  site ← unwrap (map !! "node-a");
  assert_eq (site_code site) "JHB" ;;
  assert_eq (site_city site) "Johannesburg" ;;
  assert_eq (site_country site) "ZA".
Definition parse_node_sites_empty_or_malformed_is_empty : Test :=
  assert (parse_node_sites "" = ∅) ;;
  assert (parse_node_sites "   " = ∅) ;;
  assert (parse_node_sites "{not valid json" = ∅).
End main_tests.

(** ** admin-cli *)
Section cli_tests.
Context {W Key : Type} `{!CliEnv W Key}.

Definition bare_id : string := bytes_string (replicate 64 49).
Definition test_parse_proposal_id_hex : Test :=
  let bare := bare_id in
  let prefixed := "0x" +:+ bare in
  a ← unwrap_ok (parse_proposal_id bare);
  b ← unwrap_ok (parse_proposal_id prefixed);
  assert_eq a b.
Definition test_parse_proposal_id_rejects_short : Test := assert_true (is_err (parse_proposal_id "0x1234")).
Definition test_derive_proposal_id : Test :=
  let a := derive_proposal_id "session-xyz" in
  let b := derive_proposal_id "session-xyz" in
  assert_eq a b ;;
  assert_ne a (replicate 32 0) ;;
  assert_ne (derive_proposal_id "session-xyz") (derive_proposal_id "other").
Definition test_parse_chain : Test :=
  chain ← unwrap_ok (parse_chain "ethereum"); assert_eq chain Ethereum ;;
  chain ← unwrap_ok (parse_chain "polygon"); assert_eq chain Polygon ;;
  assert_true (is_err (parse_chain "solana")) ;;
  assert_true (is_err (parse_chain "Ethereum")).
End cli_tests.

(** ** onchain-client

    The tests marked [ignore] want a node at the URL. *)
Section onchain_tests.
Context {W P Key : Type} `{!Rpc W P, !Providers string P Key, !ProposalSigner Key}.
Context (b : build) (random_key : Key) (parse_key : string → option Key) (from_str : string → option Address).
Abbreviation OnchainTest := (M W string unit).
(** The cache of a reader, empty when it is made. *)
Definition cached_by {A B} (m : M (option (Cached A) * W) OnchainClientError B) : M (option (Cached A) * W) string B := awaited m.
Definition with_cache {A B} (m : M (option (Cached A) * W) string B) : M W string B := λ w,
  let '(r, (_, w')) := m (None, w) in (r, w').

Definition TEST_RPC : string := "https://ethereum-rpc.publicnode.com".
Definition epoch : DateTime := 0.
Definition dummy_proposal : MintProposal :=
  {| mp_session_id := "0"; mp_wallet := 0; mp_gross_prm := 0; mp_net_usd_cents := None; mp_commodity := Gold;
     mp_chain := Ethereum;
     mp_attestation := {| ar_session_id := "0"; ar_signatures := []; ar_node_ids := []; ar_signers := [];
                          ar_proof_hash := replicate 32 0; ar_timestamp := epoch |};
     mp_backend_sig := mkSignature 0 0 false; mp_created_at := epoch; mp_status := Pending |}.

Definition test_get_block_number : OnchainTest :=
  client ← unwrap_ok (onchain_client_new TEST_RPC 1);
  number ← awaited (get_block_number client);
  assert (0 < number).
Definition test_get_block_hash : OnchainTest :=
  client ← unwrap_ok (onchain_client_new TEST_RPC 1);
  number ← awaited (get_block_number client);
  before ← lift_arith (arith_u b U64_MAX (number - 3));
  hash ← awaited (get_block_hash client before);
  assert (is_Some hash).
Definition test_sign_proposal : OnchainTest :=
  let proposal := dummy_proposal in
  let signer := random_key in
  signature ← unwrap_ok (sign_proposal proposal signer);
  assert (signature ≠ []).
Definition test_commodity_to_u8 : OnchainTest :=
  assert_eq (commodity_to_u8 Gold) 0 ;;
  assert_eq (commodity_to_u8 Platinum) 1 ;;
  assert_eq (commodity_to_u8 Silver) 2 ;;
  assert_eq (commodity_to_u8 CrudeOil) 3.
Definition test_is_nonce_error : OnchainTest :=
  assert_true (is_nonce_error "server returned an error response: error code -32003: nonce too low") ;;
  assert_true (is_nonce_error "Nonce too high") ;;
  assert_true (is_nonce_error "already known") ;;
  assert_true (is_nonce_error "replacement transaction underpriced") ;;
  assert_true (negb (is_nonce_error "execution reverted: PriceDiverged")) ;;
  assert_true (negb (is_nonce_error "insufficient funds for gas")).

Definition test_house_edge_reader_live : OnchainTest :=
  house_edge ← unwrap (from_str "0x5FbDB2315678afecb367f032d93F642f64180aa3");
  reader ← unwrap_ok (house_edge_reader_new "http://localhost:8545" house_edge (seconds 60));
  with_cache (
    edge ← cached_by (current_edge_bps reader);
    assert (1000 ≤ edge ≤ 2500) ;;
    cached ← cached_by (current_edge_bps reader);
    assert_eq edge cached).
Definition test_treasury_reader_live : OnchainTest :=
  treasury ← unwrap (from_str "0x5FbDB2315678afecb367f032d93F642f64180aa3");
  reader ← unwrap_ok (treasury_reader_new "http://localhost:8545" treasury (seconds 60));
  with_cache (
    a ← cached_by (reserve_balances reader);
    total ← lift_arith (arith_u b U128_MAX (rb_usdc a + rb_usdt a));
    assert_eq total (rb_total_reserve_usd a) ;;
    cached ← cached_by (reserve_balances reader);
    assert_eq (rb_total_reserve_usd a) (rb_total_reserve_usd cached)).
Definition test_submit_price_live : OnchainTest :=
  signer ← unwrap (parse_key "0xac0974bec39a17e36ba4a6b4d238ff944bacb478cbed5efcae784d7bf4f2ff80");
  aggregator ← unwrap (from_str "0xa513E6E4b8f2a923D98304ec87F64353C4D5C853");
  submitter ← unwrap_ok (oracle_submitter_new "http://localhost:8545" signer aggregator);
  tx_hash ← awaited (submit_price submitter 0 320400000000);
  assert_ne tx_hash (replicate 32 0).

Definition onchain_tests : list OnchainTest :=
  [ test_get_block_number; test_get_block_hash; test_sign_proposal; test_commodity_to_u8; test_is_nonce_error;
    test_house_edge_reader_live; test_treasury_reader_live; test_submit_price_live ].
End onchain_tests.

(** ** The instances

    Hexadecimal as the crates read and write it; a checksum for a hash; a key that is
    its address, and signs by it. *)
Definition nibble (c : ascii) : option Z :=
  let n := Z.of_nat (nat_of_ascii c) in
  if fits 48 57 n then Some (n - 48)
  else if fits 65 70 n then Some (n - 55)
  else if fits 97 102 n then Some (n - 87) else None.
Fixpoint unhex (s : string) : option bytes :=
  match s with
  | "" => Some []
  | String c (String d s) => x ← nibble c; y ← nibble d; l ← unhex s; Some (16 * x + y :: l)
  | String _ "" => None
  end.
Definition read_address (s : string) : option Address :=
  rest ← str_strip_prefix "0x" s; l ← unhex rest; if decide (length l = 20%nat) then Some (from_be_slice l) else None.
Fixpoint be_bytes (n : nat) (z : Z) : bytes := match n with O => [] | S n => be_bytes n (z / 256) ++ [z mod 256] end.

Section instances.
#[local] Instance test_service_codec : ServiceCodec := {|
  parse_address := read_address;
  hex_decode := unhex;
  string_debug s := s
|}.
#[local] Obligation Tactic := idtac.
#[local] Program Instance test_pg : PgServer := {|
  db_now n := 0;
  db_fault _ := None;
  gen_random_uuid n := "row";
  numeric_div_bigint := numeric_div_bigint (PgServer := toy_pg);
  timestamptz t := t;
  address_debug a := "0x" +:+ hex (be_bytes 20 a);
  signature_display s := "";
  attestation_json a := inr "";
  triggers_json l := inr ""
|}.
Next Obligation. apply (numeric_div_near (PgServer := toy_pg)). Qed.
#[local] Instance test_crypto : AttestationCrypto := {|
  sha256_digest m := [checksum m];
  recover_address_from_msg s m := if decide (sig_s s = checksum m) then Some (sig_r s) else None
|}.
#[local] Instance test_message_signer : MessageSigner Z := {|
  sign_message_sync k m := inr (mkSignature k (checksum m) false);
  signature_bytes s := [sig_r s; sig_s s]
|}.
#[local] Program Instance test_proposal_signer : ProposalSigner Z := {|
  proposal_json p := inr [mp_gross_prm p];
  sign_bytes k m := inr (mkSignature k (checksum m) false);
  as_bytes := toy_as_bytes;
  signature_try_from := toy_try_from
|}.
Next Obligation. exact toy_signature_roundtrip. Qed.
#[local] Instance test_admin_crypto : AdminCrypto := {|
  uuid_simple n := "nonce" +:+ show (Z.of_nat n);
  hmac_sha256 secret := Some (λ m, [checksum (secret ++ m)]);
  hex_encode := hex;
  claims_to_vec c := Some (Service.string_bytes (show (cl_exp c) +:+ String "." (cl_addr c)));
  claims_from_slice l := '(e, a) ← split_once "." (bytes_string l); exp ← parse_u U64_MAX e; Some (mkSessionClaims a exp);
  parse_from_rfc3339 s := if String.eqb s "2020-01-01T00:00:00Z" then Some (1577836800 * NANOS_PER_SEC) else None;
  to_rfc3339 t := "";
  header_to_str s := Some s;
  string_as_bytes := Service.string_bytes
|}.
#[local] Instance test_providers : Providers string unit Z := {|
  parse_url := Some;
  connect_http _ := tt;
  connect_wallet _ _ := tt;
  key_address k := k
|}.
#[local] Instance test_startup : StartupEnv unit Z := {|
  from_shared s := inr tt;
  private_key s := None;
  sites_from_str s := if String.eqb s raw_sites then Some {["node-a" := mkNodeSite "JHB" "Johannesburg" "ZA"]} else None
|}.
#[local] Instance test_cli : CliEnv unit Z := {|
  address_from_str := read_address;
  signer_from_str s := None;
  hex_to_bytes := unhex;
  bytes_to_hex := hex;
  address_to_string a := "";
  keccak256 s := be_bytes 32 (from_be_slice (Service.string_bytes s));
  address_error _ := "";
  signer_error _ := "";
  hex_error _ := "";
  system_secs _ := Some 0
|}.
#[local] Instance test_chain : Rpc nat unit := {|
  block_number _ w := (inr 100, S w);
  block_hash _ n w := (inr (if n <=? 100 then Some (be_bytes 32 n) else None), S w);
  pending_nonce _ _ w := (inr 0, S w);
  transact _ _ _ _ w := (inr (mkReceipt true (be_bytes 32 (1 + Z.of_nat w))), S w);
  call_stakes _ _ _ w := (inr (mkRawStake 0 0 false), S w);
  call_edge _ _ w := (inr (1700 + Z.of_nat w), S w);
  call_token _ _ usdc w := (inr (if usdc : bool then 1 else 2), S w);
  call_balance _ token _ w := (inr (5 * token), S w);
  call_reserve _ _ reserve w := (inr (if reserve : bool then 15 else 0), S w);
  call_proposal _ _ _ w := (inl "none", S w);
  instant w := Z.of_nat w
|}.

(** The nonce is drawn in the test, and the instant is read twice. *)
Lemma nonce_test_passes (w : App MemRedis nat) : passes test_nonce_single_use_and_expiry w.
Proof.
  apply passes_bind, ends_modify. set (w0 := set_nonces ∅ w). set (n := uuid_simple (re_tick (app_redis w))).
  set (t := instant (app_net w)). set (w1 := set_nonces (<[n := t]> ∅) w). set (w2 := set_nonces ∅ w).
  assert (nonce_fresh t t = true) as Hfresh by (unfold nonce_fresh; by rewrite Z.sub_diag).
  assert (∀ x, nonce_consume x t ∅ = (false, ∅)) as Hnone.
  { intros x. unfold nonce_consume. by rewrite lookup_empty, delete_empty. }
  apply passes_bind, ends_awaited, ends_iff. exists n, w1. split.
  { assert (nonce_issue n t ∅ = <[n := t]> ∅) as Hi by (unfold nonce_issue; by rewrite map_filter_empty).
    unfold w1. by rewrite <-Hi. }
  assert (∀ x y (Q : bool → App MemRedis nat → Prop), app_net y = app_net w → app_nonces y = ∅ → Q false (set_nonces ∅ y) →
    ends (consume x) y Q) as Hdead.
  { intros x y Q Hy Hn HQ. apply ends_iff. exists false, (set_nonces ∅ y). split; [|done].
    unfold consume. rewrite Hn, Hy. fold t. by rewrite Hnone. }
  apply passes_bind, ends_awaited, ends_iff. exists true, w2. split.
  { unfold consume. cbn [app_nonces app_net w1 set_nonces]. fold t. unfold nonce_consume.
    rewrite lookup_insert_eq, Hfresh. cbn [fst snd]. by rewrite delete_insert_eq, delete_empty. }
  apply passes_bind, ends_assert; [done|].
  apply passes_bind, ends_awaited, Hdead; [done..|]. apply passes_bind, ends_assert; [done|].
  apply passes_bind, ends_awaited, Hdead; [done..|]. by apply ends_assert.
Qed.

(** In a process that has registered a collector, with whatever else in its state. *)
Theorem service_tests_pass (b : build) (w : App MemRedis nat) :
  Forall (λ test, passes test w) (lib_tests b ["process_cpu_seconds_total"]) ∧
  Forall (λ test, passes test w) (admin_tests 42) ∧
  Forall (λ test, passes test tt) [parse_node_sites_valid; parse_node_sites_empty_or_malformed_is_empty] ∧
  Forall (λ test, passes test tt)
    [test_parse_proposal_id_hex; test_parse_proposal_id_rejects_short; test_derive_proposal_id; test_parse_chain] ∧
  Forall (λ test, passes test 0%nat) (onchain_tests b 42 (λ _, Some 7) read_address).
Proof.
  split_and!; each_test;
    match goal with |- passes test_nonce_single_use_and_expiry _ => apply nonce_test_passes | _ => run end.
Qed.
End instances.
