(* ===== verification/StoreTests.v ===== *)
(** * The test modules of the Redis stores

    session-manager and rate-limiter. The tests are over any server and any codec; they
    are proved to pass on the in-memory server, started empty, in both builds, with a
    clock that moves on by a millisecond a reading. *)
From S2P Require Import Prelude Common Redis RateLimiter SessionStore NodeServer Oracle Postgres Onchain Service Total Journey Testing.

Section session_tests.
Context {R Client : Type} `{!RedisServer R, !SessionCodec, !RedisConnect (renv R) Client}.
Context (b : build) (clk : nat → DateTime) (fuel : nat).
Abbreviation StoreTest := (M (renv R) string unit).
Definition now : M (renv R) string DateTime := utc_now clk.

Definition TEST_URL : string := "redis://127.0.0.1/".
Definition sample_ctx : M (renv R) string SessionContext :=
  started_at ← now;
  mret {| ctx_wallet := 0; ctx_ip := None; ctx_client_type := Cli; ctx_active_sessions_count := 0;
          ctx_started_at := started_at; ctx_last_submission_at := None; ctx_assigned_node_id := None;
          ctx_commodity := Gold; ctx_target_chain := Polygon; ctx_cpu_threads := 8; ctx_assigned_site := None |}.
(** [SessionStore::new(TEST_URL)]; [create_session(&sample_ctx())] *)
Definition new_store : StoreTest := awaited (session_store_new TEST_URL).
Definition new_session : M (renv R) string SessionId :=
  ctx ← sample_ctx;
  awaited (SessionStore.create_session clk ctx).
Definition delete (id : SessionId) : StoreTest := awaited (delete_session clk 0 id).

Definition test_create_and_get_session : StoreTest :=
  new_store ;;
  ctx ← sample_ctx;
  id ← awaited (SessionStore.create_session clk ctx);
  got ← awaited (get_session clk id);
  assert_eq got (Some ctx) ;;
  delete id.

Definition test_commit_and_verify : StoreTest :=
  new_store ;;
  id ← new_session;
  let nonce := Service.string_bytes "primora-nonce" in
  let commit := sha256 nonce in
  awaited (set_commit clk id commit) ;;
  revealed ← awaited (verify_reveal clk id nonce); assert_true revealed ;;
  revealed ← awaited (verify_reveal clk id (Service.string_bytes "wrong")); assert_true (negb revealed) ;;
  delete id.

Definition test_increment_proof_count : StoreTest :=
  new_store ;;
  id ← new_session;
  count ← awaited (increment_proof_count clk id); assert_eq count 1 ;;
  count ← awaited (increment_proof_count clk id); assert_eq count 2 ;;
  delete id.

Definition test_get_proof_count_missing : StoreTest :=
  new_store ;;
  let id := "nonexistent-session-xyz" in
  count ← awaited (get_proof_count clk id); assert_eq count 0.

Definition test_pause_resume_flag : StoreTest :=
  new_store ;;
  id ← new_session;
  paused ← awaited (is_paused clk id); assert_true (negb paused) ;;
  awaited (set_paused clk id) ;;
  paused ← awaited (is_paused clk id); assert_true paused ;;
  awaited (set_paused clk id) ;;
  paused ← awaited (is_paused clk id); assert_true paused ;;
  awaited (clear_paused clk id) ;;
  paused ← awaited (is_paused clk id); assert_true (negb paused) ;;
  awaited (clear_paused clk id) ;;
  paused ← awaited (is_paused clk id); assert_true (negb paused) ;;
  delete id.

Definition test_verified_and_rejected_counters : StoreTest :=
  new_store ;;
  id ← new_session;
  count ← awaited (get_verified_proof_count clk id); assert_eq count 0 ;;
  count ← awaited (get_rejected_proof_count clk id); assert_eq count 0 ;;
  count ← awaited (increment_verified_proof_count clk id); assert_eq count 1 ;;
  count ← awaited (increment_verified_proof_count clk id); assert_eq count 2 ;;
  count ← awaited (increment_rejected_proof_count clk id); assert_eq count 1 ;;
  count ← awaited (get_verified_proof_count clk id); assert_eq count 2 ;;
  count ← awaited (get_rejected_proof_count clk id); assert_eq count 1 ;;
  delete id.

Definition test_session_hashrate_missing_is_zero : StoreTest :=
  new_store ;;
  let id := "nonexistent-hashrate-xyz" in
  rate ← awaited (get_session_hashrate b clk id Desktop); assert_eq rate 0.

Definition find_summary (id : SessionId) (sessions : list SessionSummary) : option SessionSummary :=
  List.find (λ s, String.eqb (ss_session_id s) id) sessions.
Definition test_list_sessions_for_wallet : StoreTest :=
  new_store ;;
  ctx ← sample_ctx;
  id ← awaited (SessionStore.create_session clk ctx);
  let wallet := address_display (ctx_wallet ctx) in
  sessions ← awaited (list_sessions_for_wallet b clk fuel wallet);
  sessions ← unwrap sessions;
  summary ← unwrap (find_summary id sessions);
  assert_eq (ss_status summary) "active" ;;
  assert_eq (ss_started_at summary) (ctx_started_at ctx) ;;
  assert_eq (ss_target_chain summary) Polygon ;;
  assert_eq (ss_last_submission_at summary) None ;;
  assert_eq (ss_avg_hashrate summary) 0 ;;
  assert_eq (ss_client_type summary) "cli" ;;
  at_time ← now;
  let before := timestamp at_time in
  awaited (touch_last_activity clk id) ;;
  sessions ← awaited (list_sessions_for_wallet b clk fuel wallet);
  sessions ← unwrap sessions;
  summary ← unwrap (find_summary id sessions);
  activity ← unwrap (ss_last_submission_at summary);
  assert (Z.abs (timestamp activity - before) ≤ 5) ;;
  delete id.

Definition test_session_hashrate_single_proof_is_zero : StoreTest :=
  new_store ;;
  id ← new_session;
  at_time ← now;
  let now := timestamp at_time in
  awaited (record_accepted_proof clk id 30000 now) ;;
  awaited (touch_last_activity clk id) ;;
  rate ← awaited (get_session_hashrate b clk id Desktop); assert_eq rate 0 ;;
  delete id.

Definition test_session_hashrate_derived : StoreTest :=
  new_store ;;
  id ← new_session;
  at_time ← now;
  let now := timestamp at_time in
  awaited (record_accepted_proof clk id 0 (now - 100)) ;;
  awaited (record_accepted_proof clk id 300000 now) ;;
  awaited (touch_last_activity clk id) ;;
  rate ← awaited (get_session_hashrate b clk id Desktop);
  assert (2900 ≤ rate ≤ 3050) ;;
  delete id.

Definition test_session_hashrate_clamped_to_max : StoreTest :=
  new_store ;;
  id ← new_session;
  at_time ← now;
  let now := timestamp at_time in
  awaited (record_accepted_proof clk id 0 (now - 1)) ;;
  awaited (record_accepted_proof clk id 10000000 now) ;;
  awaited (touch_last_activity clk id) ;;
  rate ← awaited (get_session_hashrate b clk id Desktop); assert_eq rate 4000 ;;
  delete id.

Definition session_tests : list StoreTest :=
  [ test_create_and_get_session; test_commit_and_verify; test_increment_proof_count; test_get_proof_count_missing;
    test_pause_resume_flag; test_verified_and_rejected_counters; test_session_hashrate_missing_is_zero;
    test_list_sessions_for_wallet; test_session_hashrate_single_proof_is_zero; test_session_hashrate_derived;
    test_session_hashrate_clamped_to_max ].

(** ** rate-limiter *)
Definition new_limiter : StoreTest := awaited (rate_limiter_new TEST_URL).
(** [for _ in 0..limit] *)
Definition allowed (limit : Z) (check : M (renv R) RateLimiterError RateLimitResult) : StoreTest :=
  for_each (replicate (Z.to_nat limit) tt) (λ _, r ← awaited check; assert_eq r Allowed).

Definition test_wallet_rate_limit : StoreTest :=
  new_limiter ;;
  let wallet := 0 in
  let key := "rate:wallet:" +:+ address_display wallet in
  awaited (reset clk key) ;;
  allowed WALLET_LIMIT (check_wallet clk address_display wallet) ;;
  r ← awaited (check_wallet clk address_display wallet);
  assert_eq r (Denied WALLET_LIMIT WALLET_WINDOW_SECS) ;;
  awaited (reset clk key).
Definition test_ip_rate_limit : StoreTest :=
  new_limiter ;;
  let ip := "203.0.113.7" in
  let key := "rate:ip:" +:+ ip in
  awaited (reset clk key) ;;
  allowed IP_LIMIT (check_ip clk ip) ;;
  r ← awaited (check_ip clk ip);
  assert_eq r (Denied IP_LIMIT IP_WINDOW_SECS) ;;
  awaited (reset clk key).
Definition test_node_rate_limit : StoreTest :=
  new_limiter ;;
  let node_id := "test-node" in
  let key := "rate:node:" +:+ node_id in
  awaited (reset clk key) ;;
  allowed NODE_LIMIT (check_node clk node_id) ;;
  r ← awaited (check_node clk node_id);
  assert_eq r (Denied NODE_LIMIT NODE_WINDOW_SECS) ;;
  awaited (reset clk key).

Definition limiter_tests : list StoreTest := [ test_wallet_rate_limit; test_ip_rate_limit; test_node_rate_limit ].
End session_tests.

(** ** On the in-memory server

    The clock starts in 2023 and moves on by a millisecond a reading. *)
Definition ms_clk (n : nat) : DateTime := secs 1700000000 + Z.of_nat n * 1000000.
#[local] Instance mem_connect : RedisConnect (renv MemRedis) unit := {|
  client_open url := if String.prefix "redis://" url then inr tt else inl (mkRedisError "not a redis url");
  get_multiplexed_async_connection _ w := (inr tt, w)
|}.
#[local] Existing Instance full_codec.

Theorem session_tests_pass (b : build) : Forall (λ test, passes test s_empty) (session_tests b ms_clk 10).
Proof. each_test; run. Qed.
Theorem limiter_tests_pass : Forall (λ test, passes test s_empty) (limiter_tests ms_clk).
Proof. each_test; run. Qed.
