(* ===== verification/NodeTests.v ===== *)
(** * The test modules of the nodes

    node-server and its integration test of a real proof, node-coordinator and its gRPC
    client. *)
From S2P Require Import Prelude Common RandomX NodeServer NodeCoordinator Total Testing UnitTests.

(** ** node-server *)
Section node_server_tests.
Context {Cache Vm Key : Type} `{!RandomXLib Cache Vm, !MessageSigner Key} (test_signer : Key).
Abbreviation Service := (NodeServiceImpl (Vm:=Vm) (Key:=Key)).

(** [Request::new(body)] with [value] under the key's header. *)
Definition keyed {T} (value : string) (body : T) : Request T :=
  mkRequest (λ header, if String.eqb header API_KEY_HEADER then Some value else None) body.
(** [PartialProofMetadata::default()] *)
Definition default_metadata : PartialProofMetadata := mkPartialProofMetadata "" 0 0.

Definition test_node_service_rejects_wrong_api_key : Test :=
  service ← unwrap_ok (node_service_new "correct-key" test_signer);
  let request := keyed "wrong-key" default_metadata in
  let result := submit_proof_metadata service request in
  assert_true (is_err result) ;;
  status ← unwrap_err result;
  assert_true (match code status with Unauthenticated => true | _ => false end).
Definition test_node_service_accepts_correct_api_key : Test :=
  service ← unwrap_ok (node_service_new "correct-key" test_signer);
  let request := keyed "correct-key" default_metadata in
  let response := submit_proof_metadata service request in
  assert_true (is_ok response) ;;
  response ← unwrap_ok response;
  assert_true (accepted response).

(** *** tests/randomx_attestation.rs

    [signature_try_from] is alloy's; the request is served by the thread of the service. *)
Context (env_node_id : option string) (now : DateTime) (signature_try_from : bytes → option Signature).
Definition API_KEY : string := "test-key".
Definition WALLET : string := "0x0000000000000000000000000000000000000000".
Definition test_service : M unit string Service := unwrap_ok (node_service_new API_KEY test_signer).
Definition authed (body : AttestationRequest) : Request AttestationRequest := keyed API_KEY body.
Definition attestation (proof_hash proof_input : bytes) (difficulty : Z) : AttestationRequest :=
  {| arq_session_id := "sess-e2e"; arq_wallet := WALLET; arq_commodity := "Gold";
     arq_proof_hash := Some {| value := proof_hash |}; arq_requesting_node_id := "node-a"; arq_requested_at := None;
     arq_proof_input := proof_input; arq_difficulty := difficulty |}.

Definition test_real_proof_verifies_valid : Test :=
  let input := string_bytes "primora-attestation-e2e-input" in
  verifier ← unwrap_ok (verifier_new RANDOMX_SEED);
  hash ← unwrap_ok (hash verifier input);
  service ← test_service;
  let request := authed (attestation hash input 1) in
  response ← unwrap_ok (request_attestation service (verify_tx service) env_node_id now request);
  assert_true (arp_valid response) ;;
  signature ← unwrap (arp_signature response);
  let len := length (pns_signature signature) in
  assert (len = 64%nat ∨ len = 65%nat) ;;
  assert (is_Some (signature_try_from (pns_signature signature))).

Definition test_tampered_hash_rejected : Test :=
  let input := string_bytes "primora-attestation-e2e-input" in
  verifier ← unwrap_ok (verifier_new RANDOMX_SEED);
  hash ← unwrap_ok (hash verifier input);
  let hash := alter (Z.lxor 0xFF) 0%nat hash in
  service ← test_service;
  let request := authed (attestation hash input 1) in
  response ← unwrap_ok (request_attestation service (verify_tx service) env_node_id now request);
  assert_true (negb (arp_valid response)) ;;
  assert_true (match arp_signature response with None => true | Some _ => false end).

(** The RandomX library as documented, and a signer that signs in 65 bytes that can be
    read back. *)
Hypothesis makes : ∀ key, ∃ cache vm, cache_new key = inr cache ∧ vm_new cache = inr vm.
Hypothesis hashes : ∀ vm input, ∃ h, calculate_hash vm input = inr h ∧ length h = 32%nat ∧ Forall (λ x, 0 ≤ x ≤ 255) h.
Hypothesis signs : ∀ m, ∃ s, sign_message_sync test_signer m = inr s ∧ length (signature_bytes s) = 65%nat ∧
  is_Some (signature_try_from (signature_bytes s)).

Lemma service_made v key : verifier_new RANDOMX_SEED = inr v →
  node_service_new key test_signer = inr {| api_key := key; signer := test_signer; verify_tx := Serving v |}.
Proof. intros E. unfold node_service_new, spawn_verifier. by rewrite E. Qed.

Lemma authed_ok v body :
  authenticate ({| api_key := API_KEY; signer := test_signer; verify_tx := Serving v |} : Service) (authed body) = None.
Proof. done. Qed.

(** What the service answers to a proof of 32 bytes at difficulty 1. *)
Lemma attested v hash input ok :
  length hash = 32%nat → verify v input hash 1 = inr ok →
  request_attestation ({| api_key := API_KEY; signer := test_signer; verify_tx := Serving v |} : Service) (Serving v) env_node_id now
    (authed (attestation hash input 1)) =
  if ok then
    match sign_message_sync test_signer hash with
    | inl _ => inl (mkStatus Internal "attestation signing failed")
    | inr signature =>
        inr {| arp_session_id := "sess-e2e"; arp_valid := true;
               arp_signature := Some {| pns_node_id := default DEFAULT_NODE_ID env_node_id;
                 pns_signature := signature_bytes signature;
                 pns_signed_at := Some {| NodeServer.seconds := timestamp now; nanos := now mod NANOS_PER_SEC |} |} |}
    end
  else invalid "sess-e2e".
Proof.
  intros Hl Hv. unfold request_attestation. rewrite authed_ok. cbn -[verify timestamp proof_hash_bytes].
  rewrite proof_hash_bytes_exact by done. cbn [value]. rewrite Hv. by destruct ok.
Qed.

Theorem node_server_tests_pass :
  Forall (λ test, passes test tt)
    [ test_node_service_rejects_wrong_api_key; test_node_service_accepts_correct_api_key;
      test_real_proof_verifies_valid; test_tampered_hash_rejected ].
Proof.
  destruct (makes_verifier makes RANDOMX_SEED) as [v Ev].
  destruct (hashes_known hashes v (string_bytes "primora-attestation-e2e-input")) as (h & _ & Eh & Hl & Hok & Hbad).
  each_test.
  - apply passes_bind. eapply ends_unwrap_ok; [by apply service_made|]. run.
  - apply passes_bind. eapply ends_unwrap_ok; [by apply service_made|]. run.
  - apply passes_bind. eapply ends_unwrap_ok; [exact Ev|]. apply passes_bind. eapply ends_unwrap_ok; [exact Eh|].
    apply passes_bind. eapply ends_unwrap_ok; [by apply service_made|].
    destruct (signs h) as (s & Es & Hs & Hread).
    apply passes_bind. eapply ends_unwrap_ok; [etrans; [exact (attested v h _ true Hl Hok)|by rewrite Es]|].
    apply passes_bind, ends_assert; [done|]. apply passes_bind. cbn.
    apply passes_bind, ends_assert; [by right|]. by apply ends_assert.
  - apply passes_bind. eapply ends_unwrap_ok; [exact Ev|]. apply passes_bind. eapply ends_unwrap_ok; [exact Eh|].
    apply passes_bind. eapply ends_unwrap_ok; [by apply service_made|].
    assert (alter (Z.lxor 0xFF) 0%nat h ≠ h) as Hne by (apply flipped_ne; lia).
    apply passes_bind. eapply ends_unwrap_ok.
    { apply (attested v _ _ false); [by rewrite length_alter|by apply Hbad]. }
    run.
Qed.
End node_server_tests.

(** ** node-coordinator/src/grpc.rs *)
Section grpc_tests.
Context {Channel : Type} (from_shared : string → string + Channel).

Definition test_grpc_client_new : Test :=
  let text := "http://node1.primora.internal:50051" in
  client ← unwrap_ok (grpc_client_new from_shared text "shared-secret");
  assert_eq (endpoint client) text.

(** A channel is made without connecting. *)
Lemma grpc_test_passes : (∀ s, ∃ c, from_shared s = inr c) → passes test_grpc_client_new tt.
Proof.
  intros Hf. destruct (Hf "http://node1.primora.internal:50051") as [c E].
  unfold test_grpc_client_new, grpc_client_new. rewrite E. by apply ends_assert_eq.
Qed.
End grpc_tests.

(** ** node-coordinator/src/lib.rs

    [PrivateKeySigner::random()] is the next of [keys]; [address] is a key's address. *)
Section coordinator_tests.
Context {W Key : Type} `{!Timer W, !AttestationCrypto, !MessageSigner Key}.
Context (address : Key → Address) (keys : nat → Key) (now : W → DateTime).
Abbreviation CoordTest := (M W string unit).

Definition PROOF_HASH : bytes := replicate 32 7.

Inductive MockNodeClient :=
  | MockFail
  | Sign (signer : Key)
  | SignMessage (signer : Key) (message : bytes).

(** The [expect] of a signer that fails would end the test; here it is an error. *)
Definition mock_signature (target_node_id : NodeId) (signer : Key) (message : bytes) (now : DateTime)
    : NodeCoordinatorError + NodeSignature :=
  match sign_message_sync signer message with
  | inr s => inr {| ns_node_id := target_node_id; ns_signature := s; ns_signed_at := now |}
  | inl e => inl (NodeError e)
  end.
#[local] Instance mock_client : NodeClient W MockNodeClient := λ self target_node_id _ proof_set w,
  let message := default (replicate 32 0) (pp_proof_hash <$> head proof_set) in
  (match self with
   | MockFail => inl (NodeError "mock failure")
   | Sign signer => mock_signature target_node_id signer message (now w)
   | SignMessage signer msg => mock_signature target_node_id signer msg (now w)
   end, w).
Abbreviation Coordinator := (NodeCoordinator (C:=MockNodeClient)).

Definition proofs (submitted_at : DateTime) : list PartialProof :=
  [ {| pp_session_id := "s"; pp_wallet := 0; pp_sequence := 0; pp_hashrate := 0; pp_proof_hash := PROOF_HASH;
       pp_proof_input := []; pp_difficulty := 1; pp_submitted_at := submitted_at; pp_signature := None |} ].

Definition coordinator (variant : MockNodeClient) (eligible : list NodeId) : Coordinator :=
  coordinator_new (list_to_map ((λ id, (id, variant)) <$> eligible)) eligible ∅.

Definition test_select_nodes_deterministic : CoordTest :=
  let coord := coordinator MockFail ["n0"; "n1"; "n2"; "n3"; "n4"] in
  let first := select_nodes coord (replicate 32 42) None in
  let second := select_nodes coord (replicate 32 42) None in
  assert_eq first second.
Definition test_select_nodes_excludes_assigned : CoordTest :=
  let coord := coordinator MockFail ["n0"; "n1"; "n2"; "n3"; "n4"] in
  let excluded := "n2" in
  let result := select_nodes coord (replicate 32 5) (Some excluded) in
  assert (excluded ∉ result).
Definition test_select_nodes_different_seeds : CoordTest :=
  let coord := coordinator MockFail ["n0"; "n1"; "n2"; "n3"; "n4"] in
  let first := select_nodes coord (replicate 32 0) None in
  let second := select_nodes coord (replicate 32 1) None in
  assert_ne first second.

(** The loop over the nodes and their registration, a key for each; [drawn] keys were
    drawn before. *)
Fixpoint signing_loop (assigned : NodeId) (i : nat) (ids : list (NodeId * bool))
    (clients : gmap NodeId MockNodeClient) (eligible : list NodeId) (signers : gmap NodeId Address) : Coordinator :=
  match ids with
  | [] => coordinator_new clients eligible signers
  | (id, registered) :: ids =>
      signing_loop assigned (S i) ids (<[id := Sign (keys i)]> clients)
        (if decide (id ≠ assigned) then eligible ++ [id] else eligible)
        (if (registered : bool) then <[id := address (keys i)]> signers else signers)
  end.
Definition signing_coordinator (drawn : nat) (ids : list (NodeId * bool)) (assigned : NodeId) : Coordinator :=
  signing_loop assigned drawn ids ∅ [] ∅.

(** [coord.coordinate_attestation(..).await] with the proofs made at this moment. *)
Definition coordinated (coord : Coordinator) (seed : bytes) : M W string (NodeCoordinatorError + AttestationResult) := λ w,
  let '(r, w') := coordinate_attestation coord now "s" (proofs (now w)) seed "n0" w in (Ok r, w').

Definition test_three_distinct_registered_signers_meet_quorum : CoordTest :=
  let coord := signing_coordinator 0 [("n0", true); ("n1", true); ("n2", true); ("n3", true)] "n0" in
  r ← coordinated coord (replicate 32 7);
  result ← unwrap_ok r;
  assert_true (is_sufficient result) ;;
  assert_eq (length (ar_signatures result)) 4%nat ;;
  let distinct : gset Address := list_to_set (ar_signers result) in
  assert_eq (size distinct) 4%nat.
Definition test_unregistered_signer_rejected_but_quorum_met_by_three : CoordTest :=
  let coord := signing_coordinator 0 [("n0", true); ("n1", true); ("n2", true); ("n3", false)] "n0" in
  r ← coordinated coord (replicate 32 7);
  result ← unwrap_ok r;
  assert_eq (length (ar_signers result)) 3%nat ;;
  assert ("n3" ∉ ar_node_ids result).
(** [matches!(result, Err(InsufficientAttestations { got, required: 3 }))] *)
Definition insufficient (n : nat) (r : NodeCoordinatorError + AttestationResult) : bool :=
  match r with inl (InsufficientAttestations got 3) => (got =? n)%nat | _ => false end.
Definition test_quorum_fails_with_too_few_registered : CoordTest :=
  let coord := signing_coordinator 0 [("n0", true); ("n1", true); ("n2", false); ("n3", false)] "n0" in
  result ← coordinated coord (replicate 32 7);
  assert_true (insufficient 2 result).
Definition test_duplicate_signer_counted_once : CoordTest :=
  let shared := keys 0 in
  let n1 := keys 1 in
  let clients := <["n2" := Sign shared]> (<["n1" := Sign n1]> {["n0" := Sign shared]}) in
  let signers := <["n2" := address shared]> (<["n1" := address n1]> {["n0" := address shared]}) in
  let coord := coordinator_new clients ["n1"; "n2"] signers in
  result ← coordinated coord (replicate 32 7);
  assert_true (insufficient 2 result).

Definition set_client (id : NodeId) (c : MockNodeClient) (coord : Coordinator) : Coordinator :=
  mkNodeCoordinator (<[id := c]> (nc_clients coord)) (nc_eligible_nodes coord) (nc_signers coord)
    (nc_required_signatures coord) (nc_attestation_timeout_secs coord).
Definition set_signer (id : NodeId) (a : Address) (coord : Coordinator) : Coordinator :=
  mkNodeCoordinator (nc_clients coord) (nc_eligible_nodes coord) (<[id := a]> (nc_signers coord))
    (nc_required_signatures coord) (nc_attestation_timeout_secs coord).

Definition test_key_mismatch_rejected : CoordTest :=
  let n0_key := keys 0 in
  let wrong_addr := address (keys 1) in
  let coord := signing_coordinator 2 [("n1", true); ("n2", true); ("n3", true)] "n0" in
  let coord := set_client "n0" (Sign n0_key) coord in
  let coord := set_signer "n0" wrong_addr coord in
  r ← coordinated coord (replicate 32 7);
  result ← unwrap_ok r;
  assert_eq (length (ar_signers result)) 3%nat ;;
  assert (wrong_addr ∉ ar_signers result) ;;
  assert ("n0" ∉ ar_node_ids result).
Definition test_recovery_is_over_proof_hash : CoordTest :=
  let n0_key := keys 0 in
  let coord := signing_coordinator 1 [("n1", true); ("n2", true); ("n3", true)] "n0" in
  let coord := set_signer "n0" (address n0_key) coord in
  let coord := set_client "n0" (SignMessage n0_key (replicate 32 0xFF)) coord in
  r ← coordinated coord (replicate 32 7);
  result ← unwrap_ok r;
  assert (address n0_key ∉ ar_signers result) ;;
  assert ("n0" ∉ ar_node_ids result).
Definition test_all_fail_insufficient : CoordTest :=
  let coord := coordinator MockFail ["n0"; "n1"; "n2"; "n3"] in
  result ← coordinated coord (replicate 32 3);
  assert_true (insufficient 0 result).

Definition coordinator_tests : list CoordTest :=
  [ test_select_nodes_deterministic; test_select_nodes_excludes_assigned; test_select_nodes_different_seeds;
    test_three_distinct_registered_signers_meet_quorum; test_unregistered_signer_rejected_but_quorum_met_by_three;
    test_quorum_fails_with_too_few_registered; test_duplicate_signer_counted_once; test_key_mismatch_rejected;
    test_recovery_is_over_proof_hash; test_all_fail_insufficient ].

(** *** They pass, whatever the keys

    A signature recovers its signer over the message signed; the one signature that the
    tests make over another message than the proof's hash does not recover its signer
    over that hash; the at most six keys that a test draws are of different addresses; no
    call times out. *)
Hypothesis signs_for : ∀ k m, ∃ s, sign_message_sync k m = inr s ∧ recover_address_from_msg s m = Some (address k).
Hypothesis other_message : ∀ s, sign_message_sync (keys 0) (replicate 32 0xFF) = inr s →
  recover_address_from_msg s PROOF_HASH ≠ Some (address (keys 0)).
Hypothesis keys_differ : ∀ i j, (i < 6)%nat → (j < 6)%nat → address (keys i) = address (keys j) → i = j.
Hypothesis in_time : ∀ A secs (c : Call W A) w, timeout secs c w = (Some (c w).1, (c w).2).

(** The nodes that are counted of [targets], and their addresses, after those of [seen]. *)
Inductive counts (self : Coordinator) : list Address → list NodeId → list NodeId → list Address → Prop :=
  | counts_none seen : counts self seen [] [] []
  | counts_signer seen t k targets ids addrs :
      nc_clients self !! t = Some (Sign k) → nc_signers self !! t = Some (address k) → address k ∉ seen →
      counts self (seen ++ [address k]) targets ids addrs →
      counts self seen (t :: targets) (t :: ids) (address k :: addrs)
  | counts_unregistered seen t targets ids addrs :
      nc_signers self !! t = None → counts self seen targets ids addrs → counts self seen (t :: targets) ids addrs
  | counts_failed seen t targets ids addrs :
      nc_clients self !! t = Some MockFail → counts self seen targets ids addrs → counts self seen (t :: targets) ids addrs
  | counts_absent seen t targets ids addrs :
      nc_clients self !! t = None → counts self seen targets ids addrs → counts self seen (t :: targets) ids addrs
  | counts_mismatch seen t k a targets ids addrs :
      nc_clients self !! t = Some (Sign k) → nc_signers self !! t = Some a → address k ≠ a →
      counts self seen targets ids addrs → counts self seen (t :: targets) ids addrs
  | counts_again seen t k targets ids addrs :
      nc_clients self !! t = Some (Sign k) → nc_signers self !! t = Some (address k) → address k ∈ seen →
      counts self seen targets ids addrs → counts self seen (t :: targets) ids addrs
  | counts_other_message seen t k m targets ids addrs :
      nc_clients self !! t = Some (SignMessage k m) → nc_signers self !! t = Some (address k) →
      (∀ s, sign_message_sync k m = inr s → recover_address_from_msg s PROOF_HASH ≠ Some (address k)) →
      counts self seen targets ids addrs → counts self seen (t :: targets) ids addrs.

Definition gathered (ids : list NodeId) (addrs : list Address) (c : Collected) : Prop :=
  co_node_ids c = ids ∧ co_signers c = addrs ∧ length (co_signatures c) = length ids ∧ co_seen c = list_to_set addrs.

(** The answer of a mock, and that the network stays as it is. *)
Lemma mock_answer (self : Coordinator) t c ps secs w : nc_clients self !! t = Some c →
  try_request self t "n0" ps secs w =
    (match (mock_client c t "n0" ps w).1 with inr s => Some s | inl _ => None end, w).
Proof. intros E. unfold try_request. by rewrite E, in_time. Qed.
Lemma mock_absent (self : Coordinator) t ps secs w : nc_clients self !! t = None → try_request self t "n0" ps secs w = (None, w).
Proof. intros E. unfold try_request. by rewrite E. Qed.
Lemma try_same (self : Coordinator) t ps secs w : ∃ o, try_request self t "n0" ps secs w = (o, w).
Proof.
  destruct (nc_clients self !! t) as [c|] eqn:E; [rewrite (mock_answer _ _ _ _ _ _ E)|rewrite mock_absent by done]; by eexists.
Qed.
Lemma mock_sign (self : Coordinator) t k at_time secs w : nc_clients self !! t = Some (Sign k) →
  ∃ s, try_request self t "n0" (proofs at_time) secs w = (Some s, w) ∧
    recover_address_from_msg (ns_signature s) PROOF_HASH = Some (address k).
Proof.
  intros E. rewrite (mock_answer _ _ _ _ _ _ E).
  change (mock_client (Sign k) t "n0" (proofs at_time) w) with (mock_signature t k PROOF_HASH (now w), w).
  cbn [fst]. unfold mock_signature. destruct (signs_for k PROOF_HASH) as (s & -> & Hr). by eexists.
Qed.
Lemma mock_other (self : Coordinator) t k m at_time secs w : nc_clients self !! t = Some (SignMessage k m) →
  (∀ s, sign_message_sync k m = inr s → recover_address_from_msg s PROOF_HASH ≠ Some (address k)) →
  ∃ s, try_request self t "n0" (proofs at_time) secs w = (Some s, w) ∧
    recover_address_from_msg (ns_signature s) PROOF_HASH ≠ Some (address k).
Proof.
  intros E Hm. rewrite (mock_answer _ _ _ _ _ _ E).
  change (mock_client (SignMessage k m) t "n0" (proofs at_time) w) with (mock_signature t k m (now w), w).
  cbn [fst]. unfold mock_signature. destruct (signs_for k m) as (s & Es & _). rewrite Es. eexists. split; [done|]. by apply Hm.
Qed.

(** A target that is not counted. *)
Lemma not_counted (self : Coordinator) t answer acc :
  nc_signers self !! t = None ∨ answer = None ∨
  (∃ s a, answer = Some s ∧ nc_signers self !! t = Some a ∧
     (recover_address_from_msg (ns_signature s) PROOF_HASH ≠ Some a ∨ a ∈ co_seen acc)) →
  count_signature self (Some PROOF_HASH) t answer acc = acc.
Proof.
  unfold count_signature. intros [Hn|[->|(s & a & -> & Ha & Hs)]].
  - destruct answer; [|done]. by rewrite Hn.
  - done.
  - rewrite Ha. destruct (recover_address_from_msg _ _) as [x|] eqn:E; [|done].
    case_decide as Hx; [done|]. subst x. case_decide; [done|]. by destruct Hs.
Qed.

Lemma collect_counts (self : Coordinator) at_time secs seen targets ids addrs w :
  counts self seen targets ids addrs → ∀ ids0 acc, gathered ids0 seen acc →
  ∃ c, collect_signatures self "n0" (proofs at_time) (Some PROOF_HASH) secs targets acc w = (c, w) ∧
    gathered (ids0 ++ ids) (seen ++ addrs) c.
Proof.
  assert (∀ t seen targets ids addrs, (∀ ids0 acc, gathered ids0 seen acc → ∃ c,
      collect_signatures self "n0" (proofs at_time) (Some PROOF_HASH) secs targets acc w = (c, w) ∧
      gathered (ids0 ++ ids) (seen ++ addrs) c) →
    (∀ acc ids0 answer, gathered ids0 seen acc → try_request self t "n0" (proofs at_time) secs w = (answer, w) →
       count_signature self (Some PROOF_HASH) t answer acc = acc) →
    ∀ ids0 acc, gathered ids0 seen acc → ∃ c,
      collect_signatures self "n0" (proofs at_time) (Some PROOF_HASH) secs (t :: targets) acc w = (c, w) ∧
      gathered (ids0 ++ ids) (seen ++ addrs) c) as Hskip.
  { intros t seen0 targets0 ids1 addrs0 IH Hsame ids0 acc Hg. destruct (try_same self t (proofs at_time) secs w) as [o E].
    cbn [collect_signatures]. rewrite E, (Hsame acc ids0 o Hg E). by apply IH. }
  induction 1 as [seen|seen t k targets ids addrs Hc Hs Hni _ IH|seen t targets ids addrs Hs _ IH|seen t targets ids addrs Hc _ IH
    |seen t targets ids addrs Hc _ IH|seen t k a targets ids addrs Hc Hs Hne _ IH|seen t k targets ids addrs Hc Hs Hin _ IH
    |seen t k m targets ids addrs Hc Hs Hne _ IH].
  - intros ids0 acc Hg. exists acc. split; [done|]. by rewrite !app_nil_r.
  - intros ids0 acc (Hids & Hsig & Hlen & Hseen). cbn [collect_signatures].
    destruct (mock_sign self t k at_time secs w Hc) as (s & -> & Hr). unfold count_signature.
    rewrite Hs, Hr, decide_False by tauto. rewrite decide_False by (rewrite Hseen; by rewrite elem_of_list_to_set).
    replace (ids0 ++ t :: ids) with ((ids0 ++ [t]) ++ ids) by (by rewrite <-app_assoc).
    replace (seen ++ address k :: addrs) with ((seen ++ [address k]) ++ addrs) by (by rewrite <-app_assoc).
    apply IH. split_and!; cbn; [by rewrite Hids|by rewrite Hsig|by rewrite !length_app, Hlen|].
    rewrite Hseen, list_to_set_app_L. cbn. set_solver.
  - apply Hskip; [done|]. intros acc ids0 o _ _. apply not_counted. by left.
  - apply Hskip; [done|]. intros acc ids0 o _ E. rewrite (mock_answer _ _ _ _ _ _ Hc) in E. cbn in E. injection E as <-.
    apply not_counted. by right; left.
  - apply Hskip; [done|]. intros acc ids0 o _ E. rewrite mock_absent in E by done. injection E as <-.
    apply not_counted. by right; left.
  - apply Hskip; [done|]. intros acc ids0 o _ E. destruct (mock_sign self t k at_time secs w Hc) as (s & Es & Hr).
    rewrite Es in E. injection E as <-.
    apply not_counted. right; right. exists s, a. split_and!; [done..|]. left. rewrite Hr. congruence.
  - apply Hskip; [done|]. intros acc ids0 o (_ & _ & _ & Hseen) E.
    destruct (mock_sign self t k at_time secs w Hc) as (s & Es & Hr). rewrite Es in E. injection E as <-.
    apply not_counted. right; right. exists s, (address k). split_and!; [done..|]. right. rewrite Hseen.
    by rewrite elem_of_list_to_set.
  - apply Hskip; [done|]. intros acc ids0 o _ E. destruct (mock_other self t k m at_time secs w Hc Hne) as (s & Es & Hno).
    rewrite Es in E. injection E as <-.
    apply not_counted. right; right. exists s, (address k). split_and!; [done..|]. by left.
Qed.

(** What a coordination ends in. *)
Lemma coordinated_ends (self : Coordinator) seed targets ids addrs w (Q : NodeCoordinatorError + AttestationResult → W → Prop) :
  "n0" :: select_nodes self seed (Some "n0") = targets → nc_required_signatures self = 3%nat →
  counts self [] targets ids addrs →
  (∀ r, (if (3 <=? length ids)%nat then
           ∃ result, r = inr result ∧ is_sufficient result = true ∧ ar_node_ids result = ids ∧ ar_signers result = addrs ∧
             length (ar_signatures result) = length ids
         else r = inl (InsufficientAttestations (length ids) 3)) → Q r w) →
  ends (coordinated self seed) w Q.
Proof.
  intros Ht Hreq Hc HQ. unfold ends, coordinated, coordinate_attestation. rewrite Ht.
  change (pp_proof_hash <$> head (proofs (now w))) with (Some PROOF_HASH).
  destruct (collect_counts self (now w) (nc_attestation_timeout_secs self) [] targets ids addrs w Hc [] collected_none)
    as (c & -> & Hids & Hsig & Hlen & _); [by split_and!|]. cbn [app] in Hids, Hsig, Hlen.
  unfold is_sufficient. cbn [ar_signatures]. rewrite Hlen. destruct (3 <=? length ids)%nat eqn:E; apply HQ.
  - eexists. split_and!; [done|unfold is_sufficient; cbn; by rewrite Hlen|done..].
  - by rewrite Hreq.
Qed.

Lemma address_eq i j : (i < 6)%nat → (j < 6)%nat → address (keys i) = address (keys j) ↔ i = j.
Proof. intros Hi Hj. split; [by apply keys_differ|by intros ->]. Qed.

(** The targets are computed, the rest follows the lists of keys. *)
Ltac counting :=
  repeat (first
    [ apply counts_none
    | eapply counts_signer; [reflexivity|reflexivity|cbn; rewrite ?elem_of_cons, ?address_eq, ?elem_of_nil by lia; lia|cbn [app]]
    | eapply counts_unregistered; [reflexivity|]
    | eapply counts_again; [reflexivity|reflexivity|cbn; rewrite ?elem_of_cons, ?address_eq by lia; lia|]
    | eapply counts_mismatch; [reflexivity|reflexivity|rewrite address_eq by lia; lia|]
    | eapply counts_other_message; [reflexivity|reflexivity|exact other_message|]
    | eapply counts_failed; [reflexivity|]
    | eapply counts_absent; [reflexivity|] ]).

Ltac distinct := rewrite ?NoDup_cons, ?elem_of_cons, ?address_eq, ?elem_of_nil by lia; split_and?; try apply NoDup_nil; try done; lia.
Ltac sufficient :=
  apply passes_bind; eapply coordinated_ends; [vm_compute; reflexivity|done|counting|];
  intros r (result & -> & Hsuf & Hids & Haddrs & Hlen); apply passes_bind; cbn [unwrap_ok];
  apply ends_ret; cbn [length] in Hlen.
Ltac insufficiency :=
  apply passes_bind; eapply coordinated_ends; [vm_compute; reflexivity|done|counting|]; intros r ->; by apply ends_assert.

(** The ten tests of the node-coordinator's test module pass, whatever keys the signers
    draw: the selection is deterministic, leaves the assigned node out and depends on the
    seed; four registered signers meet the quorum with four distinct addresses; three of
    four meet it when the fourth is not registered, when its address is not the one
    registered for it, and when it signs another message than the hash of the proof, and
    then neither its id nor its address is in the result; two registered signers, a signer
    that answers for two nodes, and four nodes that fail, end in the error with the number
    counted and the three required. *)
Theorem coordinator_tests_pass w : Forall (λ test, passes test w) coordinator_tests.
Proof.
  each_test.
  - by apply ends_assert_eq.
  - apply ends_assert; [|done]. by apply (bool_decide_unpack _).
  - apply ends_assert_ne; [|done]. by apply (bool_decide_unpack _).
  - sufficient. apply passes_bind, ends_assert; [done|]. apply passes_bind, ends_assert_eq; [done|].
    apply ends_assert_eq; [|done]. rewrite Haddrs, size_list_to_set by distinct. done.
  - sufficient. apply passes_bind, ends_assert_eq; [by rewrite Haddrs|]. apply ends_assert; [|done]. rewrite Hids.
    by apply (bool_decide_unpack _).
  - insufficiency.
  - insufficiency.
  - sufficient. apply passes_bind, ends_assert_eq; [by rewrite Haddrs|].
    apply passes_bind, ends_assert; [rewrite Haddrs; distinct|]. apply ends_assert; [|done]. rewrite Hids.
    by apply (bool_decide_unpack _).
  - sufficient. apply passes_bind, ends_assert; [rewrite Haddrs; distinct|]. apply ends_assert; [|done]. rewrite Hids.
    by apply (bool_decide_unpack _).
  - insufficiency.
Qed.
End coordinator_tests.

(** ** The coordinator's tests with concrete keys

    The key of the signer drawn at [i] is the number [i], its address the key; a signature
    carries its key and the message's code, which the recovery compares. *)
#[local] Program Instance test_timer : Timer nat := {|
  timeout A secs c w := let '(a, w') := c w in (Some a, w')
|}.
Next Obligation. intros A secs c w a w' H. cbn in H. destruct (c w). congruence. Qed.
Definition message_code (m : bytes) : Z := Zpos (encode m).
#[local] Instance test_crypto : AttestationCrypto := {|
  sha256_digest m := m;
  recover_address_from_msg s m := if decide (sig_s s = message_code m) then Some (sig_r s) else None
|}.
#[local] Instance test_message_signer : MessageSigner Z := {|
  sign_message_sync k m := inr (mkSignature k (message_code m) false);
  signature_bytes s := [sig_r s; sig_s s]
|}.

Lemma coordinator_tests_pass_witness : Forall (λ test, passes test 0%nat) (coordinator_tests id Z.of_nat (λ w, Z.of_nat w)).
Proof.
  apply (coordinator_tests_pass id Z.of_nat (λ w, Z.of_nat w)).
  - intros k m. exists (mkSignature k (message_code m) false). split; [reflexivity|]. cbn. by rewrite decide_True.
  - intros s [= <-]. cbn. rewrite decide_False; [done|]. vm_compute. discriminate.
  - intros i j _ _. apply Nat2Z.inj.
  - intros A secs c w. cbn. by destruct (c w).
Defined.
