(* ===== verification/IntegrationTests.v ===== *)
(** * crates/integration-tests: the crates used from outside

    The tests skip what they have no URL for. Those of the calculators hold at any time
    they run at; those of the stores are proved to pass on the in-memory Redis server and
    on a database without faults; those over HTTP against the router, whatever its state
    and whatever the network does to the request. *)
From S2P Require Import Prelude Common Twap Anomaly Validator Redis RateLimiter SessionStore RandomX NodeServer NodeCoordinator.
From S2P Require Import Oracle Postgres Onchain Metrics Service Wallet Admin AdminCli Startup Router.
From S2P Require Import Total Journey Testing UnitTests StoreTests PostgresTests.

(** [let Ok(x) = call().await else { panic!() }] is [awaited]; [let Some(store) =
    connect().await else { return }] skips the rest of a test. *)
Definition skipping {W E} (connected : M W E (option unit)) (rest : M W E unit) : M W E unit :=
  c ← connected; match c with None => mret tt | Some _ => rest end.
(** [assert!(call().await.is_ok())] *)
Definition assert_done {W E E' A} (m : M W E' A) : M W E unit := r ← attempt m; assert_true (is_ok r).

(** ** tests/twap_calculator.rs

    [now] and [later] are the two readings of the clock. *)
Section twap.
Context (b : build) (now later : DateTime).
Definition minutes (n : Z) : Z := seconds (60 * n).

Definition test_full_session_flow : Test :=
  let session_start := now - minutes 15 in
  let calc := twap_new session_start in
  let calc := add_sample calc (sample 320000000000 (session_start + minutes 5)) in
  let calc := add_sample calc (sample 320400000000 (session_start + minutes 10)) in
  let calc := add_sample calc (sample 320800000000 (session_start + minutes 15)) in
  mean ← lift_arith (twap_calculate b calc);
  assert_eq mean (Some 320400000000) ;;
  assert_true (twap_is_valid calc) ;;
  assert_eq (sample_count calc) 3%nat ;;
  result ← lift_arith (finalize b calc later);
  result ← unwrap result;
  assert_true (tr_is_valid result).
Definition test_short_session_invalid : Test :=
  let session_start := now - minutes 5 in
  let calc := twap_new session_start in
  let calc := add_sample calc (sample 320000000000 (session_start + minutes 4)) in
  assert_true (negb (twap_is_valid calc)) ;;
  result ← lift_arith (finalize b calc later);
  result ← unwrap result;
  assert_true (negb (tr_is_valid result)).

(** A sample of the session, by the time since its start. *)
Lemma add_sample_in c price d : 0 ≤ d →
  add_sample c (sample price (tc_session_start c + d)) =
  mkTwapCalculator (tc_samples c ++ [sample price (tc_session_start c + d)]) (tc_session_start c).
Proof. intros Hd. unfold add_sample. cbn [ps_sampled_at sample]. by rewrite (proj2 (Z.ltb_ge _ _)) by lia. Qed.
Lemma valid_by_last l price start d :
  twap_is_valid (mkTwapCalculator (l ++ [sample price (start + d)]) start) = (MIN_VALID_SESSION_SECS <=? num_seconds d).
Proof. unfold twap_is_valid. cbn [tc_samples tc_session_start]. rewrite last_snoc. cbn [ps_sampled_at sample]. do 2 f_equal. lia. Qed.

Lemma twap_flows_pass : Forall (λ test, passes test tt) [test_full_session_flow; test_short_session_invalid].
Proof.
  each_test.
  - unfold test_full_session_flow. set (start := now - minutes 15). cbv zeta.
    rewrite (add_sample_in (twap_new start) _ (minutes 5)) by done.
    rewrite (add_sample_in (mkTwapCalculator _ start) _ (minutes 10)) by done.
    rewrite (add_sample_in (mkTwapCalculator _ start) _ (minutes 15)) by done.
    unfold finalize. cbn [tc_session_start tc_samples twap_new]. rewrite !valid_by_last. run.
  - unfold test_short_session_invalid. set (start := now - minutes 5). cbv zeta.
    rewrite (add_sample_in (twap_new start) _ (minutes 4)) by done.
    unfold finalize. cbn [tc_session_start tc_samples twap_new]. rewrite !valid_by_last. run.
Qed.
End twap.

(** ** tests/anomaly_engine.rs

    An engine and its receiver; [recv] takes the event that is queued. *)
Section anomaly.
Context (now : DateTime).
Definition engine (session_id : SessionId) (results : list ValidationResult) : Assessment * list AnomalyEvent :=
  process (channel 16) now session_id 0 results [].

Definition test_no_triggers_low : Test :=
  let '(assessment, rx) := engine "sess-clean" [Valid] in
  assert_eq (as_level assessment) Low ;;
  assert_eq (as_score_bps assessment) 0 ;;
  event ← unwrap (head rx);
  assert_eq (ae_level event) Low ;;
  assert_eq (ae_score event) 0 ;;
  assert (ae_triggers event = []).
Definition test_single_trigger_medium : Test :=
  let '(assessment, rx) := engine "sess-single" [Invalid TimingAnomaly] in
  assert_eq (as_level assessment) Medium ;;
  assert_eq (as_score_bps assessment) 2500 ;;
  event ← unwrap (head rx);
  assert_eq (ae_level event) Medium ;;
  assert_eq (ae_score event) 2500 ;;
  assert_eq (ae_session_id event) "sess-single" ;;
  assert_eq (ae_triggers event) [TimingAnomaly].
Definition test_multiple_triggers_high : Test :=
  let '(assessment, rx) := engine "sess-multi" [Invalid TimingAnomaly; Invalid HashrateImpossible] in
  assert_eq (as_level assessment) High ;;
  assert_eq (as_score_bps assessment) 5000 ;;
  event ← unwrap (head rx);
  assert_eq (ae_level event) High ;;
  assert_eq (ae_score event) 5000 ;;
  assert_eq (length (ae_triggers event)) 2%nat.
Definition test_duplicate_triggers_deduplicated : Test :=
  let '(assessment, rx) := engine "sess-dup" [Invalid TimingAnomaly; Invalid TimingAnomaly] in
  assert_eq (as_level assessment) Medium ;;
  assert_eq (as_score_bps assessment) 2500 ;;
  event ← unwrap (head rx);
  assert_eq (ae_score event) 2500 ;;
  assert_eq (ae_triggers event) [TimingAnomaly].
End anomaly.

(** ** tests/proof_validator.rs

    The clock is read for the last submission, for the context and for the proof. *)
Section validator.
Context (last_read started submitted : DateTime).
Definition ctx (client_type : ClientType) (active_sessions_count : Z) (last : option DateTime) : SessionContext :=
  {| ctx_wallet := 0; ctx_ip := None; ctx_client_type := client_type;
     ctx_active_sessions_count := active_sessions_count; ctx_started_at := started; ctx_last_submission_at := last;
     ctx_assigned_node_id := None; ctx_commodity := Gold; ctx_target_chain := Ethereum; ctx_cpu_threads := 0;
     ctx_assigned_site := None |}.
Definition proof (hashrate : Z) (signature : option Signature) : PartialProof :=
  {| pp_session_id := "integration"; pp_wallet := 0; pp_sequence := 1; pp_hashrate := hashrate;
     pp_proof_hash := replicate 32 0; pp_proof_input := []; pp_difficulty := 0; pp_submitted_at := submitted;
     pp_signature := signature |}.

Definition test_prefilter_valid_proof : Test :=
  let context := ctx Desktop 1 (Some (last_read - seconds 30)) in
  let partial := proof 2000 (Some (mkSignature 0 0 false)) in
  assert_eq (validate mkPreFilterValidator partial PreFilter context) Valid.
Definition test_prefilter_rejects_hashrate : Test :=
  let context := ctx Browser 1 None in
  let partial := proof 500 None in
  assert_eq (validate mkPreFilterValidator partial PreFilter context) (Invalid HashrateImpossible).
Definition test_prefilter_duplicate_session : Test :=
  let context := ctx Desktop 2 None in
  let partial := proof 100 None in
  assert_eq (validate mkPreFilterValidator partial PreFilter context) (Suspicious High).

(** Four and a half minutes may pass between the readings. *)
Lemma prefilter_tests_pass : last_read ≤ submitted ≤ last_read + seconds 270 →
  Forall (λ test, passes test tt)
    [test_prefilter_valid_proof; test_prefilter_rejects_hashrate; test_prefilter_duplicate_session].
Proof.
  unfold seconds, NANOS_PER_SEC. intros Hs. each_test; [|run|run]. apply ends_assert_eq; [|done].
  apply prefilter_valid_iff. split_and!; [|done..]. apply timing_ok_spec. intros last [= <-]. cbn [pp_submitted_at proof].
  split; [apply num_seconds_le|]; unfold seconds, NANOS_PER_SEC; [done|lia|].
  rewrite num_seconds_nonneg by lia. unfold NANOS_PER_SEC. apply Z.lt_succ_r, Z.div_lt_upper_bound; lia.
Qed.
End validator.

(** ** tests/rate_limiter.rs, tests/session_manager.rs

    [REDIS_URL] is the variable; [uuid] the sixteen bytes of the identifier drawn. *)
Section redis_tests.
Context {R Client : Type} `{!RedisServer R, !SessionCodec, !RedisConnect (renv R) Client}.
Context (clk : nat → DateTime) (REDIS_URL : option string) (uuid : bytes).
Abbreviation StoreTest := (M (renv R) string unit).

Definition connect_limiter : M (renv R) string (option unit) :=
  match REDIS_URL with
  | None => mret None
  | Some url => limiter ← awaited (rate_limiter_new url); mret (Some limiter)
  end.
Definition unique_wallet : Address := from_be_slice (uuid ++ replicate 4 0).

Definition test_wallet_allow_then_deny : StoreTest :=
  skipping connect_limiter (
    let wallet := unique_wallet in
    for_each (replicate 5 tt) (λ _,
      result ← awaited (check_wallet clk address_display wallet);
      assert_eq result Allowed) ;;
    assert_done (reset clk ("rate:wallet:" +:+ address_display wallet))).

(** The loop, up to the iteration that is denied. *)
Fixpoint denied_at (ip : string) (iterations : nat) (iteration : Z) : M (renv R) string (option Z) :=
  match iterations with
  | O => mret None
  | S iterations =>
      result ← awaited (check_ip clk ip);
      match result with
      | Denied _ _ => mret (Some iteration)
      | Allowed => denied_at ip iterations (iteration + 1)
      end
  end.
Definition test_ip_rate_limit_deny : StoreTest :=
  skipping connect_limiter (
    let ip := "192.168." +:+ show (nth 0 uuid 0) +:+ "." +:+ show (nth 1 uuid 0) in
    denied ← denied_at ip 205 1;
    iteration ← unwrap denied;
    assert (iteration ≤ 201) ;;
    assert_done (reset clk ("rate:ip:" +:+ ip))).

Definition connect_sessions : M (renv R) string (option unit) :=
  match REDIS_URL with
  | None => mret None
  | Some url => store ← awaited (session_store_new url); mret (Some store)
  end.
Definition sample_browser : M (renv R) string SessionContext :=
  started_at ← now clk;
  mret {| ctx_wallet := 0; ctx_ip := None; ctx_client_type := Browser; ctx_active_sessions_count := 0;
          ctx_started_at := started_at; ctx_last_submission_at := None; ctx_assigned_node_id := None;
          ctx_commodity := Gold; ctx_target_chain := Ethereum; ctx_cpu_threads := 4; ctx_assigned_site := None |}.

Definition test_create_and_get_session : StoreTest :=
  skipping connect_sessions (
    ctx ← sample_browser;
    session_id ← awaited (SessionStore.create_session clk ctx);
    got ← awaited (get_session clk session_id);
    assert_eq got (Some ctx) ;;
    assert_done (delete_session clk 0 session_id)).
Definition test_commit_reveal_flow : StoreTest :=
  skipping connect_sessions (
    ctx ← sample_browser;
    session_id ← awaited (SessionStore.create_session clk ctx);
    let nonce := Service.string_bytes "test-nonce-12345" in
    let commit_hash := sha256 nonce in
    assert_done (set_commit clk session_id commit_hash) ;;
    matches ← awaited (verify_reveal clk session_id nonce);
    assert_true matches ;;
    rejects ← awaited (verify_reveal clk session_id (Service.string_bytes "wrong-nonce"));
    assert_true (negb rejects) ;;
    assert_done (delete_session clk 0 session_id)).
Definition test_proof_count_increment : StoreTest :=
  skipping connect_sessions (
    ctx ← sample_browser;
    session_id ← awaited (SessionStore.create_session clk ctx);
    for_each [1; 2; 3] (λ expected,
      count ← awaited (increment_proof_count clk session_id);
      assert_eq count expected) ;;
    assert_done (delete_session clk 0 session_id)).

Definition redis_tests : list StoreTest :=
  [ test_wallet_allow_then_deny; test_ip_rate_limit_deny; test_create_and_get_session; test_commit_reveal_flow;
    test_proof_count_increment ].

Lemma redis_tests_skip w : REDIS_URL = None → Forall (λ test, passes test w) redis_tests.
Proof.
  intros Hno. unfold redis_tests.
  each_test; (apply passes_bind; unfold connect_limiter, connect_sessions; rewrite Hno; exact I).
Qed.
End redis_tests.

(** ** tests/postgres_store.rs

    [unique_session_id] is the identifier drawn, [now] the clock's readings. *)
Section postgres.
Context `{!PgServer, !PgConnect Db} (DATABASE_URL : option string) (unique_session_id : SessionId) (now : DateTime).
Abbreviation PgTest := (M Db string unit).

Definition connect_postgres : M Db string (option unit) :=
  match DATABASE_URL with
  | None => mret None
  | Some url => store ← awaited (postgres_new url); awaited run_migrations ;; mret (Some store)
  end.
Definition test_insert_and_query_anomaly_event : PgTest :=
  skipping connect_postgres (
    let event := {| ae_session_id := unique_session_id; ae_wallet := 0; ae_score := 2500;
                    ae_triggers := [TimingAnomaly]; ae_level := Medium; ae_timestamp := now |} in
    assert_done (insert_anomaly_event event)).
Definition test_insert_and_update_mint_proposal : PgTest :=
  skipping connect_postgres (
    let session_id := unique_session_id in
    let proposal :=
      {| mp_session_id := session_id; mp_wallet := 0; mp_gross_prm := 1000000000000000000;
         mp_net_usd_cents := Some 1531; mp_commodity := Gold; mp_chain := Ethereum;
         mp_attestation := {| ar_session_id := session_id; ar_signatures := []; ar_node_ids := []; ar_signers := [];
                              ar_proof_hash := replicate 32 0; ar_timestamp := now |};
         mp_backend_sig := mkSignature 0 0 false; mp_created_at := now; mp_status := Pending |} in
    assert_done (insert_mint_proposal proposal) ;;
    assert_done (update_proposal_status session_id ApprovedByMultiSig) ;;
    pending ← awaited get_pending_proposals;
    assert_true (negb (existsb (λ row, String.eqb (pe_session_id row) session_id) pending))).

Lemma postgres_tests_skip db : DATABASE_URL = None →
  passes test_insert_and_query_anomaly_event db ∧ passes test_insert_and_update_mint_proposal db.
Proof. unfold test_insert_and_query_anomaly_event, test_insert_and_update_mint_proposal, connect_postgres. by intros ->. Qed.
End postgres.

#[local] Existing Instances mem_connect full_codec today_pg test_connect.
Theorem stores_tests_pass :
  Forall (λ test, passes test s_empty) (redis_tests ms_clk (Some "redis://localhost:6379") (seqZ 1 16)) ∧
  passes (test_insert_and_query_anomaly_event (Some "postgres://") "sess-1" today) (mkDb [] [] 0) ∧
  passes (test_insert_and_update_mint_proposal (Some "postgres://") "sess-1" today) (mkDb [] [] 0).
Proof. split_and!; each_test; run. Qed.

(** ** tests/http_endpoints.rs

    A request reaches the router of [serve] or not at all; [render] writes a body. *)
Section http.
Context {R X P C Key Reg Family : Type} `{!RedisServer R, Codec : !SessionCodec, !PgServer, !OracleNet X, !Rpc X P,
  !NodeClient X C, !Timer X, !AttestationCrypto, !ProposalSigner Key, !ServiceCodec, !AdminCrypto, !Prometheus Reg Family}.
Context (b : build) (clk : nat → DateTime) (fuel : nat) (try_send : AnomalyEvent → list AnomalyEvent → bool * list AnomalyEvent).
Context (registry : Reg) (state : AppState (P:=P) (C:=C) (Key:=Key)) (SERVICE_URL : option string) (render : Body → string).
(** [reqwest::get]: a status and what [text] answers. *)
Context (reqwest_get : string → App R X → (string + (Z * (string + string))) * App R X).
Abbreviation HttpTest := (M (App R X) string unit).

Definition service_url : string := default "http://localhost:3000" SERVICE_URL.
(** The body of both tests: a request, 200, and a text that holds [word]. *)
Definition endpoint_test (path word : string) : HttpTest :=
  let url := service_url +:+ path in
  response ← attempt (of_call (reqwest_get url));
  match response with
  | inl _ => mret tt
  | inr (status, text) =>
      assert_eq status 200 ;;
      body ← unwrap_ok text;
      assert_true (contains body word)
  end.
Definition test_health_endpoint : HttpTest := endpoint_test "/health" "ok".
Definition test_metrics_endpoint : HttpTest := endpoint_test "/metrics" "session_active_count".

(** JSON holds a text of letters as it is; text is written as it is. *)
Hypothesis render_health : ∀ status service, all_chars is_letter status = true →
  contains (render (HealthBody status service)) status = true.
Hypothesis render_text : ∀ text, render (TextBody text) = text.
(** The encoding of a registry names each of its gauges. *)
Hypothesis encode_gauge : ∀ c r values, co_kind c = IntGauge → co_name c ∈ registered r →
  ∃ text, encode_utf8 (gather r values) = inr text ∧ contains text (co_name c) = true.
(** A request is lost, or is answered by the router. *)
Hypothesis reached : ∀ path req w, (path, req) ∈ [("/health", GET_health); ("/metrics", GET_metrics)] →
  (∃ e w', reqwest_get (service_url +:+ path) w = (inl e, w')) ∨
  (∃ status body w', router b clk fuel try_send registry state req w = (Some (status, body), w') ∧
     reqwest_get (service_url +:+ path) w = (inr (status, inr (render body)), w')).

Lemma endpoint_passes path word req body w : (path, req) ∈ [("/health", GET_health); ("/metrics", GET_metrics)] →
  (router b clk fuel try_send registry state req w).1 = Some (200, body) → contains (render body) word = true →
  passes (endpoint_test path word) w.
Proof.
  intros Hin Hr Hc. unfold passes, ends, endpoint_test, attempt, of_call, mbind, M_bind.
  destruct (reached path req w Hin) as [(e & w' & ->)|(status & body' & w' & Hr' & ->)]; [done|].
  rewrite Hr' in Hr. injection Hr as -> ->. cbn. by rewrite Hc.
Qed.

(** In every state of a service that has registered its collectors. *)
Theorem http_tests_pass r0 w : register_all r0 = (Ok tt, registry) →
  passes test_health_endpoint w ∧ passes test_metrics_endpoint w.
Proof.
  intros Hreg. rewrite register_all_list in Hreg. apply register_list_ok in Hreg as [_ Hall].
  split; [eapply (endpoint_passes "/health" "ok" GET_health); [|reflexivity|]|
    eapply (endpoint_passes "/metrics" "session_active_count" GET_metrics); [|reflexivity|]].
  - apply list_elem_of_here.
  - by apply render_health.
  - apply list_elem_of_further, list_elem_of_here.
  - rewrite render_text. unfold metrics_handler, gather_metrics.
    destruct (encode_gauge SESSION_ACTIVE_COUNT registry (app_metrics w)) as (text & -> & Hc); [done| |exact Hc].
    apply Hall. by do 5 apply list_elem_of_further; apply list_elem_of_here.
Qed.
End http.
